(* ===== verification/_CoqProject ===== *)
-Q . S2P
Prelude.v
Text.v
IntCodec.v
Huffman.v
StringCodec.v
Swiss.v
HttpTypes.v
HeaderTable.v
Hpack.v
Buffering.v
Frame.v
Settings.v
StreamState.v
Message.v
Steps.v
Stream.v
Session.v
Delivery.v
Connections.v
SignalTree.v
Contracts.v
Executors.v
Model.v
Connector.v
Schema.v
Runtime.v
SystemTask.v
Orchestrator.v
DemoEnv.v
Scheduling.v
Progress.v
Calendar.v
Cron.v
Json.v
SqlPostgres.v
Search.v
Postgres.v
Elastic.v
Caches.v
EventSinks.v
Otel.v
WorkerManager.v
PluginAbi.v
Bridge.v
PythonBridge.v
Workers.v
Tools.v
Host.v
Router.v
RouterTable.v
RouterBuild.v
EngineRoutes.v
RouterExecutor.v
