(* ===== verification/Prelude.v ===== *)
(** * congelado: a workflow engine, its plugins and its HTTP/2 codecs

    congelado runs workflows.  An engine process keeps workflow and task definitions and the running
    executions, decides which task comes next, and serves them over HTTP/2; worker processes poll it
    for tasks, run them and post the results.  Storage, caches, search, cron, event sinks, scripting,
    the protocol and the workers are plugins behind a C interface.  This library models the parts
    that carry logic of their own and proves what makes them correct.  File names below are relative
    to src/.

    ** How the parts meet

    - The engine (Orchestrator.v) reads and writes its tables through the connector (Connector.v),
      which keeps a cache plugin (Caches.v) in step with its tables.  [Runtime.v] gives the engine
      the tables as finite maps, which is what [Connector.Local.connector_refines_tables] shows of
      the connector; the cache plugins discharge the interface [CacheLaws] that this theorem uses.
    - With a database configured, the connector serialises its requests in a queue
      ([Connector.Queue]), turns them into SQL with the generator (SqlPostgres.v) and sends them with
      the database plugin (Postgres.v).
    - The engine reports to event sinks (EventSinks.v) and to a search provider, whose interface is
      Search.v and whose instances are Postgres.v and Elastic.v.
    - A cron backend (Cron.v, on the calendar of Calendar.v) starts workflows at their times.
    - The worker host (Host.v) starts a worker manager (WorkerManager.v), which polls the engine and
      runs workers (Workers.v).
    - All plugins are driven through the C interface (PluginAbi.v); the values that cross it are
      Bridge.v, and the scripts that see them Bridge.v (Lua) and PythonBridge.v.
    - Spans, metrics and log records leave through the telemetry plugin (Otel.v).
    - All of these processes talk HTTP/2: a flow (Session.v) feeds the octets of each read
      (Buffering.v) to its session, which routes frames (Frame.v) to the connection or to a stream
      (Stream.v, StreamState.v, Settings.v) and dispatches a request (Message.v) to a handler when
      the peer has finished it.
    - A dispatched request is queued (RouterExecutor.v) and answered from the table of routes (Router.v)
      that the engine's registration (EngineRoutes.v) was compiled to.
    - The read and write ends of these connections, the executor of requests, the pollers and the sweeps are contracts: a
      thread pool finds the ones that are scheduled in a tree of counters and bits (SignalTree.v),
      claims one and runs it (Contracts.v, Executors.v).
    - The headers of the messages are coded by HPACK (Hpack.v), over the indexed tables
      (HeaderTable.v, on the hash map of Swiss.v), string literals (StringCodec.v, Huffman.v) and
      prefix integers (IntCodec.v).

    ** Files

    Shared:
    - Prelude.v: the error type [result] and its bind, bytes, machine words, list and option lemmas,
      the hint database [congelado]; Text.v: the [std::string_view] operations, number formatting
      and parsing; Json.v: the JSON that hand-written producers are compared with.

    The engine (plugins/orchestrator/workflow_local/src, plugins/shared/model):
    - Model.v: definitions, executions, policies: the classes and their [validate].
    - Schema.v (schema_validator.cppm), SystemTask.v (system_task.cppm), Runtime.v (lua_eval.cppm,
      projector.cppm, the connector's tables), Orchestrator.v (orchestrator.cppm).
    - DemoEnv.v: a concrete environment, used by the witnesses only.
    - Scheduling.v and Progress.v: the theorems on the engine.

    Storage and search:
    - Connector.v (include/connector/connector.cppm, include/serde/cache.cppm), Caches.v
      (plugins/cache), SqlPostgres.v (plugins/serde/sql_postgres), Postgres.v
      (plugins/database/postgres), Search.v, Elastic.v (plugins/search/elasticsearch).

    Processes and plugins:
    - Calendar.v and Cron.v (plugins/cron/local), EventSinks.v (plugins/events), WorkerManager.v
      (plugins/manager/worker_external), Workers.v (plugins/worker, plugins/apps/auth, plugins/serde),
      PluginAbi.v (include/core/manager/abi.h, sdk/plugin), Bridge.v (include/core/manager/value.cppm,
      plugins/bridge/lua_bridge), PythonBridge.v (plugins/bridge/python_bridge), Otel.v
      (plugins/extensions/otel_otlp), Tools.v (plugins/logger/file_logger, cli_main.cc), Host.v
      (sdk/worker/worker_main.cc, plugins/protocol/http2).

    HTTP/2 header compression (include/io/codec, include/utils/hashmap):
    - IntCodec.v, Huffman.v, StringCodec.v, Swiss.v, HttpTypes.v, HeaderTable.v, Hpack.v.

    The HTTP/2 layer (include/io/layer/http2, include/io/layer/shared, include/utils/buffering):
    - Buffering.v (the node chains, views and writer, with the read of io/flow/receiver/sync.cppm),
      Frame.v (frame.cppm, the exceptions of io/error/http.cppm), Settings.v (settings.cppm and
      ping.cppm), StreamState.v (helper.cppm), Message.v (req.cppm, res.cppm).
    - Steps.v: the monad of member functions that store and throw, with its preservation logic.
    - Stream.v (stream.cppm), Session.v (session.cppm, handshake.cppm, flow.cppm): each function of
      the class is a step on [Shared], [Stream], [Session] or [Flow], which hold the members.
    - Delivery.v and Connections.v: the theorems on what two ends do together.

    The contract scheduler (include/core/contracts):
    - SignalTree.v (signal_tree.cppm), Contracts.v (contract.cppm, types.cppm), and Executors.v, the
      same operations as interleaved atomic instructions.

    The router (include/core/router):
    - Router.v (types.cppm, handler.cppm, middleware.cppm, router.cppm, builder.cppm), RouterTable.v
      (the layout of the table and the lookup in it), RouterBuild.v (registered trees and what they
      compile to), EngineRoutes.v (plugins/manager/engine/src/routes.cppm), RouterExecutor.v
      (executor.cppm).

    Each file's own comment says which functions it translates and how state is represented.

    ** What the theorems show

    - Scheduling: every run of the engine is a sequence of steps of an abstract scheduler that gives
      each node at most one instance, when its join or an edge allows it ([advance_refines_scheduler]);
      completion means that every node is done, after any history of updates, retries, reruns and
      restarts ([completion_covers_nodes]); concurrency limits hold ([rate_limit_respected]).  These are partial: they speak of runs that return.  Termination is
      [Progress.start_answers].
    - Input checking: what [Schema.extract_required] reads, what [Schema.validate] decides.
    - Storage: the connector refines finite maps, also when a cached value does not decode; its queue runs every operation exactly once, in
      order, and never has two requests for its handler outstanding; caches behave as maps.
    - Text sent to servers: lists of keys and search values reach SQL as exactly their literals;
      result sets and search responses are read back; single-row statements do not escape, which
      [SqlPostgres.single_values_unescaped] states.
    - Cron: an accepted expression denotes what its text says; the next time is the least one and is
      found; no job fires twice in a minute.
    - Contracts: the tree refines a set of ids; in every interleaving of atomic instructions one executor
      loses no wake-up, and runs a contract that waits among at most 64 before its 65th search
      ([Executors.waiting_contract_runs]); two executors can lose one ([Executors.lost_contract]).  With
      one executor, [Contracts.scheduled_contract_runs] says the same of whole cycles, in which the code
      of the contracts may call the group.
    - The router: routes that are registered by nested calls answer as the tree of the calls says, when
      no two siblings compete for a segment ([RouterBuild.build_answers], composed from the layout of
      the table, the probe, the insertion by rows and the sort, whatever the sort does with equal keys);
      when they do, the hash of the segment decides ([RouterTable.find_child_rotated]), and
      [EngineRoutes.engine_misroutes] lists operations of the engine that are lost; a queued request is always going to be taken up, unless a handler throws
      what the executor does not catch.
    - Worker slots: in every interleaving of the poller and a completing task, a result is posted at
      most once, and no wake-up is lost.
    - Plugin layer: one live instance per plugin, when its symbols are called one after the other; Lua tables
      and Python dictionaries survive the round trip up to the changes the theorems name (strings end at
      a NUL, nested tables become pointers), and the two bridges agree.
    - Telemetry: the probe of an endpoint is bounded, leaks nothing and decides what it should; the
      plugin loads all pipelines or none, and unloading flushes and releases what loading made.
    - Header compression: each codec layer round-trips; decoders accept what RFC 7541 defines, up to
      the named exceptions; the dynamic table's accounting and eviction; the hash map refines a finite
      map; sensitive headers are not indexed.
    - HTTP/2 data: cutting a payload into frames, a SETTINGS payload and a whole message round-trip;
      the chain of buffer nodes refines a queue of octets, and [Buffering.split_read_undefined] names
      the reads for which the writer breaks that; a decoded SETTINGS payload gives the settings it says, in
      their ranges, or the error of its first offending entry.
    - HTTP/2 behaviour: the stream states follow the diagram of RFC 9113 and a message ends once; a
      session keeps its invariant under whatever the peer, the handler and the program do, and never
      reopens a stream it closed, reads that overwrite an unread part included; the handshake is decided
      by a first read of 24 octets or more ([Connections.handshake_outcome]); a request that comes in
      whole frames, its header block in one, is dispatched exactly with its last frame, once, and [Delivery.request_end_to_end] follows it from
      the client's [send] to the server's handler.  What ends a connection before its time is stated
      too: in Connections.v, [goaway_locks_out]; [Session.receive_window_never_grows],
      [Connections.window_exhausted].

    Where the code departs from its comments or tests, a theorem states what it does instead.

    ** Conventions

    - A C++ exception, an error code or a rejected input is a value of [result] or [option]; undefined
      behaviour is the outcome [UndefinedBehaviour], never a made-up value.
    - Integers are [Z]; where the width matters the reduction is written out ([u8], [u32], [u64]) or the
      overflow is an outcome.
    - Continuations that the code calls in tail position are returned values; threads that matter
      (worker slots, the connector's queue, the plugin accessor, the executors of contracts and of
      requests) are step relations or sequences of atomic calls.
    - A member function that may throw after it stored is a [Steps.step]: it returns its state on every
      path.  The handler of a session is a parameter that may answer, keep the callback or throw;
      what the session hands to the outside is a log of events.
    - A read that meets an unread part of an earlier one overwrites it, as the writer and the receiver
      do it ([Session.Read]); what the reader then holds is arbitrary.
    - Contracts.v takes a call from outside and a cycle as steps that do not interleave; Executors.v
      takes schedule, search, claim and completion apart into atomic instructions, without deschedule and
      release.
    - Time points are unbounded: a candidate of [Cron.expr_next_after] within four years of the end of
      the clock's range overflows in the code.
    - Logging is left out.  Published events are part of the state where a component has any.

    ** Fuel

    - [Orchestrator.engine fuel]: the methods of the engine call each other without bound, since a
      workflow can start itself; [None] is a run that was cut off.  [n * (n + 1)] suffices to start a
      workflow of [n] nodes that starts no others ([Progress.start_answers]).
    - [Cron.scan]: one step per minute of the code's four-year horizon, so it is the whole loop.
    - [Cron.push_steps], [Cron.words], [Elastic.sources]: the length of the range or text, which each
      round shortens; the scanners of Schema.v recurse on the text itself.
    - [Bridge.LuaBridge.to_lua], [PythonBridge.to_py]: one unit per level of nesting; two suffice for
      what the other direction makes, because nested tables come back as pointers.
    - [Host.WorkerHost.wait_connected]: [wait_connected_ends] gives the amount that is enough.
    - The router needs no fuel: the walk recurses on the segments, the probe on the positions.
    - The codecs recurse on their input, or with the number of octets as fuel; [Stream.decode_run] and
      [Frame.parse_frames] too, as every turn that matters consumes an octet.

    ** What is outside, and why

    - Parameters, with their documented behaviour as named hypotheses: the Lua interpreter, libpq,
      the CPython text codec, the sockets and the telemetry SDK, libcurl, hiredis, librdkafka, librabbitmq, the reflection, JSON and TOML libraries, the clock,
      uuids, [std::hash], the iteration order of unordered maps.
    - Not modelled yet: QPACK, the connector's typed operations in database mode and its
      migrations, the engine's HTTP handlers, the dispatch of the worker context.
    - Of the HTTP/2 layer: the extension hooks (extension.cppm), which observe or change messages by
      virtual calls, the coroutine executor (executor.cppm), the transport under the receivers, the
      reference counts of buffer nodes, the floating-point round-trip statistics of the ping tracker.
    - Not modelled: declarations without behaviour (include/c, include/cc, the status codes), calls
      of third-party compilers (include/yoshi, openxla.cc), code generators, tests, documentation.

    ** Plan

    In this order: the connector's database mode, composed with Queue, SqlPostgres and Postgres; the
    handlers behind EngineRoutes, composed with Session and Orchestrator; QPACK; the worker context.

    ** This file

    What every component shares: notations, automation, and generic lemmas. *)

From stdpp Require Import base gmap strings list fin_maps.
From Stdlib Require Import ZArith Lia Ascii.

Open Scope Z_scope.

#[global] Arguments Z.mul : simpl never.
#[global] Arguments Z.add : simpl never.
#[global] Arguments Z.sub : simpl never.
#[global] Arguments Z.pow : simpl never.
#[global] Arguments Z.modulo : simpl never.
#[global] Arguments Z.div : simpl never.
#[global] Arguments Z.of_nat : simpl never.

(** The hint database of the development: invariant preservation lemmas go here. *)
Create HintDb congelado.

(** [lia] with division and remainder by constants. *)
Ltac mlia := Z.to_euclidean_division_equations; lia.

(** ** Machine integers *)

(** Reduction of an unbounded integer to an unsigned [w]-bit one. *)
Definition wrap (w z : Z) : Z := z mod 2 ^ w.

Abbreviation u8 := (wrap 8).
Abbreviation u32 := (wrap 32).
Abbreviation size_t := (wrap 64).

Definition is_byte (b : Z) : Prop := 0 <= b < 256.

(** A concrete list of octets. *)
Ltac solve_bytes :=
  repeat (apply Forall_cons_2; [unfold is_byte; lia|]); apply Forall_nil_2.

Lemma wrap_range w z : 0 <= w -> 0 <= wrap w z < 2 ^ w.
Proof. intros. apply Z.mod_pos_bound. lia. Qed.

Lemma wrap_small w z : 0 <= z < 2 ^ w -> wrap w z = z.
Proof. apply Z.mod_small. Qed.

Lemma u8_small z : is_byte z -> u8 z = z.
Proof. intros H. apply wrap_small. unfold is_byte in H. lia. Qed.

Lemma u8_byte z : is_byte (u8 z).
Proof. pose proof (wrap_range 8 z). unfold is_byte. lia. Qed.

(** ** Errors and the result monad

    One constructor per exception type the modelled code throws, plus
    [UndefinedBehaviour] for an operation the C++ standard leaves undefined. *)
Inductive error :=
  | InvalidArgument
  | TruncatedDataError
  | IntegerDecodeError
  | StringDecodeError
  | HuffmanDecodeError
  | InvalidIndexError
  | EmptyNameError
  | TableSizeError
  | DecodeError
  | OutOfRange
  | RuntimeError
  | UndefinedBehaviour.

#[export] Instance error_eq_dec : EqDecision error.
Proof. solve_decision. Defined.

Inductive result (A : Type) : Type :=
  | Ok (a : A)
  | Err (e : error).
Arguments Ok {A} a.
Arguments Err {A} e.

#[export] Instance result_ret : MRet result := fun A a => Ok a.
#[export] Instance result_bind : MBind result := fun A B f m =>
  match m with Ok a => f a | Err e => Err e end.

Lemma result_bind_Ok {A B} (m : result A) (f : A -> result B) b :
  (m ≫= f) = Ok b <-> exists a, m = Ok a /\ f a = Ok b.
Proof.
  destruct m as [a|e]; cbn; split.
  - eauto.
  - by intros (a' & [= ->] & ?).
  - done.
  - by intros (? & ? & ?).
Qed.

(** ** Bytes of strings *)

Definition byte_of_char (c : ascii) : Z := Z.of_N (N_of_ascii c).
Definition char_of_byte (b : Z) : ascii := ascii_of_N (Z.to_N b).

Definition bytes_of_string (s : string) : list Z :=
  byte_of_char <$> String.list_ascii_of_string s.
Definition string_of_bytes (bs : list Z) : string :=
  String.string_of_list_ascii (char_of_byte <$> bs).

Lemma char_of_byte_of_char c : char_of_byte (byte_of_char c) = c.
Proof. unfold char_of_byte, byte_of_char. by rewrite N2Z.id, ascii_N_embedding. Qed.

Lemma byte_of_char_byte c : is_byte (byte_of_char c).
Proof.
  unfold byte_of_char, is_byte. pose proof (N_ascii_bounded c). lia.
Qed.

Lemma string_of_bytes_of_string s : string_of_bytes (bytes_of_string s) = s.
Proof.
  unfold string_of_bytes, bytes_of_string.
  rewrite <- list_fmap_compose.
  rewrite (list_fmap_ext _ id _ ltac:(intros; apply char_of_byte_of_char)).
  by rewrite list_fmap_id, String.string_of_list_ascii_of_string.
Qed.

Lemma bytes_of_string_bytes s : Forall is_byte (bytes_of_string s).
Proof. apply Forall_fmap, Forall_true. intros. apply byte_of_char_byte. Qed.

Lemma length_bytes_of_string s : length (bytes_of_string s) = String.length s.
Proof.
  unfold bytes_of_string. rewrite length_fmap.
  induction s; simpl; [done|lia].
Qed.

Lemma length_string_of_bytes bs : String.length (string_of_bytes bs) = length bs.
Proof. unfold string_of_bytes. induction bs; simpl; [done|]. by f_equal. Qed.

(** ** Deciding a property of bytes by enumeration *)

Definition all_bytes : list Z := Z.of_nat <$> seq 0 256.

Lemma elem_of_all_bytes b : is_byte b -> b ∈ all_bytes.
Proof.
  intros [H1 H2]. apply list_elem_of_fmap. exists (Z.to_nat b).
  split; [lia|]. apply elem_of_seq. lia.
Qed.

Lemma byte_check (P : Z -> bool) b : forallb P all_bytes = true -> is_byte b -> P b = true.
Proof.
  intros H Hb. rewrite forallb_forall in H. apply H, list_elem_of_In.
  by apply elem_of_all_bytes.
Qed.

(** [byte_decide H] proves a decidable goal about the byte [b] of [H : is_byte b]. *)
Ltac byte_decide H :=
  match type of H with
  | is_byte ?b =>
      match goal with
      | |- ?G =>
          pattern b;
          match goal with
          | |- ?P b =>
              refine (bool_decide_eq_true_1 (P b) _);
              apply (byte_check (fun x => bool_decide (P x)) b); [vm_compute; reflexivity | exact H]
          end
      end
  end.

Lemma land_7F b : Z.land b 0x7F = b mod 128.
Proof. by apply (Z.land_ones b 7). Qed.

Lemma land_80 b : is_byte b -> (Z.land b 0x80 =? 0) = (b <? 128).
Proof. intros H. byte_decide H. Qed.

(** *** Trailing zeros *)

(** Trailing zeros of a non-zero value, [__builtin_ctz] and [std::countr_zero]; the fuel is the width. *)
Fixpoint ctz (fuel : nat) (m : Z) : nat :=
  match fuel with
  | O => 0
  | S fuel => if Z.odd m then 0 else S (ctz fuel (Z.shiftr m 1))
  end.

Lemma ctz_spec fuel m :
  0 < m < 2 ^ Z.of_nat fuel ->
  Z.testbit m (Z.of_nat (ctz fuel m)) = true /\
  forall j, (j < ctz fuel m)%nat -> Z.testbit m (Z.of_nat j) = false.
Proof.
  revert m. induction fuel as [|fuel IH]; intros m Hm; [simpl in Hm; lia|].
  replace (Z.of_nat (S fuel)) with (1 + Z.of_nat fuel) in Hm by lia.
  rewrite Z.pow_add_r in Hm by lia. change (2 ^ 1) with 2 in Hm.
  cbn [ctz]. destruct (Z.odd m) eqn:Ho.
  { split; [by rewrite Z.bit0_odd|lia]. }
  rewrite <- Z.negb_even, negb_false_iff, Z.even_spec in Ho. destruct Ho as [q ->].
  assert (Z.shiftr (2 * q) 1 = q) as ->.
  { rewrite Z.shiftr_div_pow2 by lia. change (2 ^ 1) with 2. by rewrite Z.mul_comm, Z.div_mul. }
  destruct (IH q ltac:(lia)) as [H1 H2].
  assert (forall j, Z.testbit (2 * q) (Z.of_nat (S j)) = Z.testbit q (Z.of_nat j)) as Hs.
  { intros j. replace (Z.of_nat (S j)) with (Z.succ (Z.of_nat j)) by lia.
    apply Z.testbit_even_succ. lia. }
  split; [by rewrite Hs|]. intros [|j] Hj; [apply Z.testbit_even_0|]. rewrite Hs. apply H2. lia.
Qed.

(** *** Fields packed above a low bit field *)

Lemma land_shifted_low a d n : 0 <= n -> 0 <= d < 2 ^ n -> Z.land (a * 2 ^ n) d = 0.
Proof.
  intros Hn Hd. rewrite <- Z.shiftl_mul_pow2 by done. apply Z.bits_inj'. intros i Hi.
  rewrite Z.land_spec, Z.bits_0. destruct (Z.lt_ge_cases i n).
  - by rewrite Z.shiftl_spec_low.
  - replace (Z.testbit d i) with false; [by rewrite andb_false_r|].
    rewrite <- (Z.mod_small d (2 ^ n)) by done. symmetry. by apply Z.mod_pow2_bits_high.
Qed.

(** A low field of [n] bits under higher bits: [lor] is addition. *)
Lemma lor_low_add a d n : 0 <= n -> 0 <= d < 2 ^ n -> Z.lor (a * 2 ^ n) d = a * 2 ^ n + d.
Proof.
  intros Hn Hd. pose proof (Z.add_lor_land (a * 2 ^ n) d) as H.
  rewrite land_shifted_low in H by done. lia.
Qed.

Lemma land_lnot_ones a n : 0 <= n -> Z.land a (Z.lnot (2 ^ n - 1)) = a / 2 ^ n * 2 ^ n.
Proof.
  intros Hn. replace (2 ^ n - 1) with (Z.ones n) by (rewrite Z.ones_equiv; lia).
  rewrite <- Z.ldiff_land, Z.ldiff_ones_r, Z.shiftl_mul_pow2, Z.shiftr_div_pow2 by done. done.
Qed.

Lemma land_pow2_mod a n : 0 <= n -> Z.land a (2 ^ n - 1) = a mod 2 ^ n.
Proof.
  intros Hn. replace (2 ^ n - 1) with (Z.ones n) by (rewrite Z.ones_equiv; lia).
  by apply Z.land_ones.
Qed.

Lemma land_pow2_testbit a n : 0 <= n -> (Z.land a (2 ^ n) =? 0) = negb (Z.testbit a n).
Proof.
  intros Hn. assert (Z.testbit (Z.land a (2 ^ n)) n = Z.testbit a n) as Hb.
  { by rewrite Z.land_spec, Z.pow2_bits_true, andb_true_r. }
  destruct (Z.testbit a n) eqn:Ha.
  - apply Z.eqb_neq. intros Hz. by rewrite Hz, Z.bits_0 in Hb.
  - apply Z.eqb_eq, Z.bits_inj'. intros i Hi. rewrite Z.land_spec, Z.bits_0.
    rewrite Z.pow2_bits_eqb by done. destruct (Z.eqb_spec n i) as [<-|]; [|by rewrite andb_false_r].
    by rewrite Ha.
Qed.

Lemma land_bound m x n : 0 <= n -> 0 <= m < 2 ^ n -> 0 <= Z.land m x < 2 ^ n.
Proof.
  intros Hn Hm. replace (Z.land m x) with (Z.land m x mod 2 ^ n); [apply Z.mod_pos_bound; lia|].
  rewrite <- Z.land_ones, <- Z.land_assoc, (Z.land_comm x), Z.land_assoc, Z.land_ones by done.
  by rewrite Z.mod_small.
Qed.

Lemma lor_ones a n : 0 <= n -> Z.lor a (2 ^ n - 1) = a / 2 ^ n * 2 ^ n + (2 ^ n - 1).
Proof.
  intros Hn. assert (0 < 2 ^ n) by lia. rewrite <- (lor_low_add _ _ n) by lia.
  replace (2 ^ n - 1) with (Z.ones n) by (rewrite Z.ones_equiv; lia).
  rewrite <- Z.shiftl_mul_pow2, <- Z.shiftr_div_pow2, <- Z.ldiff_ones_r by done.
  apply Z.bits_inj'. intros i Hi. rewrite !Z.lor_spec, Z.ldiff_spec.
  by destruct (Z.testbit a i), (Z.testbit (Z.ones n) i).
Qed.

(** ** Lists *)

Lemma fmap_seq_S {A} (f : nat -> A) (k n : nat) : f <$> seq (S k) n = (fun i => f (S i)) <$> seq k n.
Proof. rewrite <- fmap_S_seq. by rewrite <- list_fmap_compose. Qed.

Lemma seq_fmap_0 {A} (f : nat -> A) (n : nat) : f <$> seq 0 (S n) = f 0%nat :: ((fun i => f (S i)) <$> seq 0 n).
Proof. cbn [seq]. by rewrite fmap_cons, fmap_seq_S. Qed.

Lemma drop_lookup_cons {A} (l : list A) (i : nat) x : l !! i = Some x -> drop i l = x :: drop (S i) l.
Proof. intros H. by rewrite (drop_S l x i). Qed.

(** Filters that agree on the elements of the list. *)
Lemma filter_agree {A} (P Q : A -> Prop) `{!forall x, Decision (P x), !forall x, Decision (Q x)} (l : list A) :
  (forall x, x ∈ l -> (P x <-> Q x)) -> base.filter P l = base.filter Q l.
Proof.
  induction l as [|x l IH]; intros Hl; [done|]. rewrite !filter_cons, IH.
  2: { intros y Hy. apply Hl. by right. }
  pose proof (Hl x ltac:(by left)). by destruct (decide (P x)), (decide (Q x)); tauto || done.
Qed.
