(* ===== verification/Text.v ===== *)
(** * Text: the [std::string_view] operations the components use

    A [std::string_view] the code scans is a [list ascii]; [npos] is [None].  Number formatting is
    that of [std::to_string], and [from_chars] is [std::from_chars] on a signed type. *)

From stdpp Require Import base strings list sets.
From Stdlib Require Import ZArith Lia Ascii.
From S2P Require Import Prelude.

Open Scope string_scope.
Open Scope list_scope.
Open Scope Z_scope.

Abbreviation text := (list ascii).
Definition chars (s : string) : text := String.list_ascii_of_string s.
Definition str (t : text) : string := String.string_of_list_ascii t.

Definition quote_char : ascii := "034"%char.
Definition backslash : ascii := "092"%char.
Definition apostrophe : ascii := "039"%char.
Definition open_bracket : ascii := "["%char.
Definition close_bracket : ascii := "]"%char.
Definition open_brace : ascii := "{"%char.
Definition close_brace : ascii := "}"%char.

(** A literal whose double quotes are written as apostrophes. *)
Definition quoted (s : string) : text :=
  (fun c => if bool_decide (c = apostrophe) then quote_char else c) <$> chars s.

Definition eqc (c d : ascii) : bool := bool_decide (c = d).

(** ** Searching *)

(** [text.find(needle, pos)]: the offset from the start of [t] of the first occurrence. *)
Fixpoint is_prefix (needle t : text) : bool :=
  match needle, t with
  | [], _ => true
  | c :: needle', d :: t' => eqc c d && is_prefix needle' t'
  | _, [] => false
  end.

Fixpoint find_sub (needle t : text) : option nat :=
  if is_prefix needle t then Some 0%nat
  else match t with [] => None | _ :: t' => S <$> find_sub needle t' end.

(** [text.find(c)]. *)
Fixpoint find_char (c : ascii) (t : text) : option nat :=
  match t with
  | [] => None
  | d :: t' => if eqc c d then Some 0%nat else S <$> find_char c t'
  end.

(** The pieces of [t] between occurrences of [c]: the loop [find(c, start)], [substr],
    [start = pos + 1] of the field scanners. *)
Fixpoint split_on (c : ascii) (t : text) : list text :=
  match t with
  | [] => [[]]
  | d :: t' =>
      if eqc c d then [] :: split_on c t'
      else match split_on c t' with
           | piece :: rest => (d :: piece) :: rest
           | [] => [[d]]
           end
  end.

(** ** Numbers *)

Definition digit (d : Z) : ascii := ascii_of_N (Z.to_N (48 + d)).
Definition digit_val (c : ascii) : option Z :=
  let n := Z.of_N (N_of_ascii c) in if (48 <=? n) && (n <=? 57) then Some (n - 48) else None.

(** [std::to_string] of a non-negative number. *)
Fixpoint digits_loop (fuel : nat) (n : Z) (acc : text) : text :=
  match fuel with
  | O => acc
  | S fuel' =>
      let acc' := digit (n mod 10) :: acc in
      if n <? 10 then acc' else digits_loop fuel' (n / 10) acc'
  end.
Definition print_nonneg (n : Z) : text := digits_loop (S (Z.to_nat (Z.log2 n))) n [].
Definition to_text (n : Z) : text :=
  if n <? 0 then "-"%char :: print_nonneg (- n) else print_nonneg n.
Definition to_string (n : Z) : string := str (to_text n).

(** The longest run of digits at the start of [t], its value after [acc], and what follows. *)
Fixpoint digit_run (t : text) (acc : Z) : Z * text :=
  match t with
  | c :: t' => match digit_val c with Some d => digit_run t' (acc * 10 + d) | None => (acc, t) end
  | [] => (acc, [])
  end.

(** An integer at the start of [t]: an optional minus sign, if [signed], and at least one digit. *)
Definition read_int (signed : bool) (t : text) : option (Z * text) :=
  let '(negative, t1) :=
    match t with c :: t' => if eqc c "-"%char && signed then (true, t') else (false, t) | [] => (false, t) end in
  match t1 with
  | c :: _ =>
      match digit_val c with
      | None => None
      | Some _ =>
          let '(magnitude, rest) := digit_run t1 0 in
          Some (if negative then - magnitude else magnitude, rest)
      end
  | [] => None
  end.

(** [std::from_chars] on a type with range [lo..hi]: the value and the unread text, or [None]
    for [invalid_argument] and [result_out_of_range].  A minus sign is read for signed types only. *)
Definition from_chars (lo hi : Z) (t : text) : option (Z * text) :=
  match read_int (lo <? 0) t with
  | Some (value, rest) => if (lo <=? value) && (value <=? hi) then Some (value, rest) else None
  | None => None
  end.

Definition INT_MIN : Z := - 2 ^ 31.
Definition INT_MAX : Z := 2 ^ 31 - 1.

(** [out += text] in a loop over the characters of a text. *)
Definition concat_map (f : ascii -> text) (t : text) : text := t ≫= f.

(** ** Lemmas *)

Lemma str_chars s : str (chars s) = s.
Proof. apply String.string_of_list_ascii_of_string. Qed.

Lemma chars_str t : chars (str t) = t.
Proof. apply String.list_ascii_of_string_of_list_ascii. Qed.

Lemma eqc_true c d : eqc c d = true <-> c = d.
Proof. unfold eqc. apply bool_decide_eq_true. Qed.

Lemma eqc_false c d : eqc c d = false <-> c <> d.
Proof. unfold eqc. apply bool_decide_eq_false. Qed.

Lemma eqc_refl c : eqc c c = true.
Proof. by apply eqc_true. Qed.

Lemma is_prefix_app needle rest : is_prefix needle (needle ++ rest) = true.
Proof. induction needle as [|c needle IH]; cbn; [done|]. by rewrite eqc_refl, IH. Qed.

(** [needle] does not start in [pre] before position [length pre] of [pre ++ rest]. *)
Definition not_before (needle pre rest : text) : Prop :=
  forall i, (i < length pre)%nat -> is_prefix needle (drop i (pre ++ rest)) = false.

(** [find_sub] finds a needle at the first place it occurs. *)
Lemma find_sub_app needle pre rest :
  needle <> [] -> not_before needle pre (needle ++ rest) ->
  find_sub needle (pre ++ needle ++ rest) = Some (length pre).
Proof.
  intros Hn. induction pre as [|c pre IH]; intros H.
  - cbn [app length]. destruct needle as [|c needle]; [done|].
    change (c :: needle) with ([c] ++ needle). cbn [app find_sub].
    pose proof (is_prefix_app (c :: needle) rest) as E. cbn [app] in E. by rewrite E.
  - cbn [app find_sub length]. pose proof (H 0%nat ltac:(cbn; lia)) as H0. cbn [drop app] in H0.
    rewrite H0, IH; [done|]. intros i Hi. apply (H (S i)). cbn. lia.
Qed.

Lemma not_before_char c pre rest : c ∉ pre -> not_before [c] pre rest.
Proof.
  intros Hc i Hi. destruct (lookup_lt_is_Some_2 pre i Hi) as [d Hd].
  rewrite (drop_S _ d) by by apply lookup_app_l_Some.
  cbn. rewrite (proj2 (eqc_false c d)); [done|].
  intros ->. by eapply Hc, list_elem_of_lookup_2.
Qed.

(** *** [find_char] and [split_on] *)

Lemma find_char_Some c t i :
  find_char c t = Some i -> t !! i = Some c /\ c ∉ take i t.
Proof.
  revert i. induction t as [|d t IH]; intros i; [done|]. cbn [find_char].
  destruct (eqc c d) eqn:E.
  - intros [= <-]. apply eqc_true in E as ->. split; [done|]. set_solver.
  - destruct (find_char c t) as [j|]; [|done]. intros [= <-].
    destruct (IH j eq_refl) as [Hj Hn]. split; [done|]. cbn.
    apply eqc_false in E. set_solver.
Qed.

Lemma find_char_None c t : find_char c t = None <-> c ∉ t.
Proof.
  induction t as [|d t IH]; cbn; [set_solver|]. destruct (eqc c d) eqn:E.
  - apply eqc_true in E as ->. split; [done|set_solver].
  - apply eqc_false in E. destruct (find_char c t); cbn; split; intros H; try done; set_solver.
Qed.

Lemma find_char_app c pre rest : c ∉ pre -> find_char c (pre ++ c :: rest) = Some (length pre).
Proof.
  induction pre as [|d pre IH]; intros H; cbn; [by rewrite eqc_refl|].
  rewrite (proj2 (eqc_false c d)) by set_solver. by rewrite IH by set_solver.
Qed.

Lemma split_on_none c t : c ∉ t -> split_on c t = [t].
Proof.
  induction t as [|d t IH]; intros H; [done|]. cbn.
  rewrite (proj2 (eqc_false c d)) by set_solver. by rewrite IH by set_solver.
Qed.

Lemma split_on_app c pre rest : c ∉ pre -> split_on c (pre ++ c :: rest) = pre :: split_on c rest.
Proof.
  induction pre as [|d pre IH]; intros H; cbn; [by rewrite eqc_refl|].
  rewrite (proj2 (eqc_false c d)) by set_solver. by rewrite IH by set_solver.
Qed.

Lemma split_on_pieces c t piece : piece ∈ split_on c t -> c ∉ piece.
Proof.
  revert piece. induction t as [|d t IH]; intros piece; cbn.
  { intros ->%list_elem_of_singleton. apply not_elem_of_nil. }
  destruct (eqc c d) eqn:E.
  { intros [->|?]%elem_of_cons; [apply not_elem_of_nil|by apply IH]. }
  apply eqc_false in E.
  destruct (split_on c t) as [|p ps]; intros [->|?]%elem_of_cons; rewrite ?elem_of_cons.
  - by rewrite elem_of_nil; intros [?|?].
  - by apply not_elem_of_nil in H.
  - intros [?|Hc]; [done|]. revert Hc. apply IH. apply elem_of_cons. by left.
  - apply IH, elem_of_cons. by right.
Qed.

(** *** Numbers *)

Lemma digit_val_digit d : 0 <= d < 10 -> digit_val (digit d) = Some d.
Proof.
  intros H. unfold digit_val, digit. rewrite N_ascii_embedding by lia.
  rewrite Z2N.id by lia. destruct (Z.leb_spec 48 (48 + d)), (Z.leb_spec (48 + d) 57); cbn; try lia.
  f_equal. lia.
Qed.

Lemma digit_run_stop t acc :
  (forall c, head t = Some c -> digit_val c = None) -> digit_run t acc = (acc, t).
Proof. destruct t as [|c t]; intros H; [done|]. cbn. by rewrite (H c). Qed.

(** Reading back the digits of [n] written in front of [acc]. *)
Lemma digit_run_loop fuel n acc v :
  0 <= n < 2 ^ Z.of_nat fuel ->
  exists m, digit_run (digits_loop fuel n acc) v = digit_run acc (v * 10 ^ m + n) /\ 0 <= m
    /\ exists c t, digits_loop fuel n acc = c :: t /\ is_Some (digit_val c) \/ fuel = 0%nat.
Proof.
  revert n acc v. induction fuel as [|fuel IH]; intros n acc v Hn.
  { exists 0. split; [|split; [lia|exists quote_char, []; by right]].
    cbn. f_equal. rewrite Z.pow_0_r. change (Z.of_nat 0) with 0 in Hn. rewrite Z.pow_0_r in Hn. lia. }
  cbn [digits_loop]. pose proof (Z.mod_pos_bound n 10 ltac:(lia)) as Hm.
  destruct (Z.ltb_spec n 10) as [Hlt|Hge].
  - exists 1. split; [|split; [lia|]].
    + cbn [digit_run]. rewrite digit_val_digit by done. rewrite Z.mod_small by lia. f_equal; lia.
    + eexists _, _. left. split; [done|]. rewrite digit_val_digit by done. done.
  - assert (Hd : 0 <= n / 10 < 2 ^ Z.of_nat fuel).
    { rewrite Nat2Z.inj_succ, Z.pow_succ_r in Hn by lia. split; [mlia|].
      apply Z.div_lt_upper_bound; lia. }
    destruct (IH (n / 10) (digit (n mod 10) :: acc) v Hd) as (m & E & Hm0 & c & t & Ht).
    exists (m + 1). split; [|split; [lia|]].
    + rewrite E. cbn [digit_run]. rewrite digit_val_digit by done. f_equal.
      rewrite Z.pow_add_r by lia. pose proof (Z.div_mod n 10 ltac:(lia)). lia.
    + destruct Ht as [Ht| ->].
      * exists c, t. by left.
      * change (Z.of_nat 0) with 0 in Hd. rewrite Z.pow_0_r in Hd. mlia.
Qed.

Definition no_digit (t : text) : Prop := forall c, head t = Some c -> digit_val c = None.

Lemma digits_loop_app fuel m acc r : digits_loop fuel m acc ++ r = digits_loop fuel m (acc ++ r).
Proof.
  revert m acc. induction fuel as [|fuel IH]; intros m acc; [done|]. cbn [digits_loop].
  destruct (m <? 10); [done|]. by rewrite IH.
Qed.

Lemma print_nonneg_read m rest :
  0 <= m -> no_digit rest ->
  digit_run (print_nonneg m ++ rest) 0 = (m, rest)
  /\ exists c t, print_nonneg m ++ rest = c :: t /\ is_Some (digit_val c).
Proof.
  intros Hm Hr. unfold print_nonneg. rewrite digits_loop_app. cbn [app].
  assert (Hb : 0 <= m < 2 ^ Z.of_nat (S (Z.to_nat (Z.log2 m)))).
  { split; [done|]. rewrite Nat2Z.inj_succ, Z2Nat.id by apply Z.log2_nonneg.
    destruct (Z.eq_dec m 0) as [->|]; [done|]. apply Z.log2_spec. lia. }
  destruct (digit_run_loop _ m rest 0 Hb) as (k & E & Hk & c & t & Ht).
  split.
  - rewrite E, digit_run_stop by done. f_equal; lia.
  - destruct Ht as [Ht|?]; [by exists c, t|done].
Qed.

(** An integer is read back from what [std::to_string] wrote, up to the first non-digit. *)
Lemma read_int_to_text signed n rest :
  (n < 0 -> signed = true) -> no_digit rest -> read_int signed (to_text n ++ rest) = Some (n, rest).
Proof.
  intros Hneg Hr. unfold read_int, to_text. destruct (Z.ltb_spec n 0) as [Hlt|Hge].
  - cbn [app]. rewrite eqc_refl, Hneg by done. cbn [andb].
    destruct (print_nonneg_read (- n) rest ltac:(lia) Hr) as [E (c & t & Ht & [d Hd])].
    rewrite Ht in *. by rewrite Hd, E, Z.opp_involutive.
  - destruct (print_nonneg_read n rest ltac:(lia) Hr) as [E (c & t & Ht & [d Hd])].
    rewrite Ht in *.
    assert (Hc : eqc c "-"%char = false) by (apply eqc_false; intros ->; done).
    rewrite Hc. cbn [andb]. by rewrite Hd, E.
Qed.

Lemma from_chars_to_text lo hi n rest :
  lo <= n <= hi -> no_digit rest -> from_chars lo hi (to_text n ++ rest) = Some (n, rest).
Proof.
  intros Hn Hr. unfold from_chars. rewrite read_int_to_text; [|intros ?; apply Z.ltb_lt; lia|done].
  by rewrite (proj2 (Z.leb_le lo n)), (proj2 (Z.leb_le n hi)) by lia.
Qed.

(** What holds of the digits and of the minus sign holds of the text of a number. *)
Lemma to_text_Forall (P : ascii -> Prop) z :
  P "-"%char -> (forall d, 0 <= d < 10 -> P (digit d)) -> Forall P (to_text z).
Proof.
  intros Hm Hd.
  assert (Hl : forall fuel n acc, Forall P acc -> Forall P (digits_loop fuel n acc)).
  { intros fuel. induction fuel as [|fuel IH]; intros n acc Hacc; [done|]. cbn [digits_loop].
    assert (P (digit (n mod 10))) by (apply Hd; mlia).
    destruct (n <? 10); [by constructor|]. apply IH. by constructor. }
  unfold to_text. destruct (z <? 0); [constructor; [done|]|]; apply Hl; constructor.
Qed.

Lemma digit_not d c : 0 <= d < 10 -> digit_val c = None -> digit d <> c.
Proof. intros Hd Hc <-. by rewrite digit_val_digit in Hc. Qed.

(** ** [std::stoi] and [std::stoul]

    They skip white space, read an optional sign and digits and ignore what follows; [None] is the
    exception for a text without a number or for one out of range.  [std::stoul] negates in its
    unsigned type. *)

Definition is_space (c : ascii) : bool :=
  let n := N_of_ascii c in ((n =? 32) || ((9 <=? n) && (n <=? 13)))%N.

Fixpoint skip_white (t : text) : text :=
  match t with c :: t' => if is_space c then skip_white t' else t | [] => [] end.

(** The sign and the magnitude of the number at the start of [t]. *)
Definition read_signed (t : text) : option (bool * Z) :=
  let t1 := skip_white t in
  let '(negative, t2) :=
    match t1 with
    | c :: t' => if eqc c "-"%char then (true, t') else if eqc c "+"%char then (false, t') else (false, t1)
    | [] => (false, t1)
    end in
  match read_int false t2 with Some (magnitude, _) => Some (negative, magnitude) | None => None end.

Definition stoi (t : text) : option Z :=
  match read_signed t with
  | Some (negative, m) =>
      let value := if negative then - m else m in
      if (INT_MIN <=? value) && (value <=? INT_MAX) then Some value else None
  | None => None
  end.

Definition stoul (t : text) : option Z :=
  match read_signed t with
  | Some (negative, m) =>
      if m <? 2 ^ 64 then Some (if negative then wrap 64 (- m) else m) else None
  | None => None
  end.

Lemma digit_run_nonneg t acc m rest : 0 <= acc -> digit_run t acc = (m, rest) -> 0 <= m.
Proof.
  revert acc. induction t as [|d t IH]; intros acc Ha H; cbn in H; [by injection H as <- _|].
  destruct (digit_val d) as [v|] eqn:Ev; [|by injection H as <- _]. eapply IH, H.
  revert Ev. unfold digit_val. destruct (_ && _) eqn:Eb; [|done]. intros [= <-].
  apply andb_prop in Eb as [?%Z.leb_le _]. lia.
Qed.

Lemma read_signed_nonneg t negative m : read_signed t = Some (negative, m) -> 0 <= m.
Proof.
  unfold read_signed.
  match goal with |- context [let '(_, _) := ?x in _] => destruct x as [neg t2] end.
  unfold read_int. destruct t2 as [|c t2]; [done|]. rewrite andb_false_r.
  destruct (digit_val c); [|done]. destruct (digit_run _ 0) as [m' rest] eqn:Ed. intros [= _ <-].
  by eapply digit_run_nonneg in Ed.
Qed.

Lemma stoul_range t z : stoul t = Some z -> 0 <= z < 2 ^ 64.
Proof.
  unfold stoul. destruct (read_signed t) as [[negative m]|] eqn:E; [|done].
  apply read_signed_nonneg in E. destruct (Z.ltb_spec m (2 ^ 64)); [|done]. intros [= <-].
  destruct negative; [apply wrap_range|]; lia.
Qed.

(** ** C strings *)

Definition NUL : ascii := "000"%char.

(** What a C function sees of a text: it ends at the first NUL. *)
Fixpoint c_str (t : text) : text :=
  match t with [] => [] | c :: t' => if eqc c NUL then [] else c :: c_str t' end.

Definition c_string (s : string) : string := str (c_str (chars s)).

Lemma c_str_no_nul t : NUL ∉ t -> c_str t = t.
Proof.
  induction t as [|c t IH]; [done|]. intros [Hc Ht]%not_elem_of_cons. cbn.
  unfold eqc. rewrite bool_decide_eq_false_2 by done. by rewrite IH.
Qed.

Lemma c_string_no_nul s : NUL ∉ chars s -> c_string s = s.
Proof. intros H. unfold c_string. rewrite c_str_no_nul by done. apply str_chars. Qed.

Lemma c_string_idem s : c_string (c_string s) = c_string s.
Proof.
  unfold c_string. rewrite chars_str. f_equal. generalize (chars s) as t. clear s.
  induction t as [|c t IH]; [done|]. cbn. destruct (eqc c NUL) eqn:E; [done|]. cbn. by rewrite E, IH.
Qed.
