(* ===== verification/IntCodec.v ===== *)
(** * Prefix-integer codec (RFC 7541 section 5.1)

    Models [io::shared_codec::lowlevel::EncodeIntView] and [DecodeIntAdaptor]
    (src/include/io/codec/shared/lowlevel.cppm) and the eager twin
    [io::shared_codec::raw::Atom::encode_int] / [decode_int]
    (src/include/io/codec/shared/atom.cppm).  [w] is the bit width of the template
    parameter [UInt] (32 at every call site). *)

From stdpp Require Import base list.
From Stdlib Require Import ZArith Lia.
From S2P Require Import Prelude.

Open Scope Z_scope.

(** ** The result record *)

Record DecodeIntResult := mkDecodeIntResult {
  value : Z;
  prefix_bits : Z;
  consumed : nat;
}.

Definition is_never_indexed (r : DecodeIntResult) : bool :=
  negb (Z.land (prefix_bits r) 2 =? 0).
Definition is_static (r : DecodeIntResult) : bool :=
  negb (Z.land (prefix_bits r) 1 =? 0).

(** [static_cast<UInt>((1U << prefix_size) - 1U)]. *)
Definition max_prefix (w prefix_size : Z) : Z :=
  wrap w (u32 (Z.shiftl 1 prefix_size - 1)).

Definition bad_prefix (prefix_size : Z) : bool :=
  (prefix_size <? 1) || (8 <? prefix_size).

(** ** [EncodeIntView]: the lazy encoder *)

(** [EncodeIntView::compute_size]'s [while (data > 0x7F) { data >>= 7; ++comp_size; }];
    every turn drops seven bits, so [w] turns are enough for a [w]-bit [data]. *)
Fixpoint compute_size_loop (fuel : nat) (data : Z) (comp_size : nat) : nat :=
  match fuel with
  | O => comp_size
  | S fuel =>
      if 0x7F <? data then compute_size_loop fuel (Z.shiftr data 7) (S comp_size)
      else comp_size
  end.

Definition compute_size (w data prefix_size : Z) : nat :=
  let MAX_PREFIX := max_prefix w prefix_size in
  if data <? MAX_PREFIX then 1%nat
  else compute_size_loop (Z.to_nat w) (wrap w (data - MAX_PREFIX)) 2.

(** [EncodeIntView::Iterator::operator*]: the octet at position [pos]. *)
Definition deref (w data prefix_size prefix : Z) (pos : nat) : Z :=
  let m_max_prefix := max_prefix w prefix_size in
  let MASK := u8 m_max_prefix in
  if (pos =? 0)%nat then
    if data <? m_max_prefix
    then u8 (Z.lor (Z.land prefix (Z.lnot MASK)) (u8 data))
    else u8 (Z.lor prefix MASK)
  else
    let remainder := Z.shiftr (wrap w (data - m_max_prefix)) (7 * (Z.of_nat pos - 1)) in
    let MORE := 0 <? Z.shiftr remainder 7 in
    if MORE then u8 (Z.lor (Z.land remainder 0x7F) 0x80)
    else u8 (Z.land remainder 0x7F).

(** The constructor's range check and the octets [begin()] to [end()] yield. *)
Definition encode_int_view (w data prefix_size prefix : Z) : result (list Z) :=
  if bad_prefix prefix_size then Err InvalidArgument
  else Ok (deref w data prefix_size prefix <$> seq 0 (compute_size w data prefix_size)).

(** ** [Atom::encode_int]: the eager encoder *)

Fixpoint encode_int_loop (fuel : nat) (data : Z) : list Z :=
  match fuel with
  | O => [u8 data]
  | S fuel =>
      if 0x7F <? data then u8 (data mod 0x80 + 0x80) :: encode_int_loop fuel (Z.shiftr data 7)
      else [u8 data]
  end.

Definition encode_int (w data prefix_size prefix_data : Z) : result (list Z) :=
  if bad_prefix prefix_size then Err InvalidArgument
  else
    let MAX_PREFIX := u32 (Z.shiftl 1 prefix_size - 1) in
    let MASK := u8 MAX_PREFIX in
    let PREFIX := u8 prefix_data in
    if data <? MAX_PREFIX
    then Ok [u8 (Z.lor (Z.land PREFIX (Z.lnot MASK)) (u8 data))]
    else Ok (u8 (Z.lor PREFIX MASK) ::
             encode_int_loop (Z.to_nat w) (wrap w (data - MAX_PREFIX))).

(** ** [DecodeIntAdaptor]: the range decoder *)

(** The [find_if] over the continuation bytes; [consumed] and [value] are the captured
    variables the predicate updates. *)
Fixpoint decode_find_if (w : Z) (sub_range : list Z) (consumed : nat) (value : Z)
    : result (Z * nat) :=
  match sub_range with
  | [] => Err IntegerDecodeError
  | byte :: rest =>
      let SHIFT := (Z.of_nat consumed - 1) * 7 in
      if w <=? SHIFT then Err IntegerDecodeError
      else
        let SHIFTED := wrap w (Z.shiftl (Z.land byte 0x7F) SHIFT) in
        if 2 ^ w <=? value + SHIFTED then Err IntegerDecodeError
        else
          let value := value + SHIFTED in
          let consumed := S consumed in
          if Z.land byte 0x80 =? 0 then Ok (value, consumed)
          else decode_find_if w rest consumed value
  end.

Definition DecodeIntAdaptor (w : Z) (PrefixOffset : nat) (prefix_size : Z) (data : list Z)
    : result DecodeIntResult :=
  if bad_prefix prefix_size then Err InvalidArgument
  else match data with
  | [] => Err TruncatedDataError
  | FIRST_BYTE :: sub_range =>
      let prefix_metadata :=
        if (0 <? PrefixOffset)%nat then u8 (Z.shiftr FIRST_BYTE prefix_size) else 0 in
      let MASK := max_prefix w prefix_size in
      let value := wrap w (Z.land FIRST_BYTE MASK) in
      if value <? MASK then Ok (mkDecodeIntResult value prefix_metadata 1)
      else '(value, consumed) ← decode_find_if w sub_range 1 value;
           Ok (mkDecodeIntResult value prefix_metadata consumed)
  end.

(** ** [Atom::decode_int]: the cursor decoder *)

(** The [while (true)] loop; it advances [pos] on every turn, so the length of [data]
    bounds the number of turns. *)
Fixpoint decode_int_loop (fuel : nat) (w : Z) (data : list Z) (pos : nat)
    (bit_shift value : Z) : result (Z * nat) :=
  match fuel with
  | O => Err IntegerDecodeError
  | S fuel =>
      match data !! pos with
      | None => Err IntegerDecodeError
      | Some CONTINUATION_BYTE =>
          if w <=? bit_shift then Err IntegerDecodeError
          else
            let SHIFTED := wrap w (Z.shiftl (Z.land CONTINUATION_BYTE 0x7F) bit_shift) in
            if 2 ^ w <=? value + SHIFTED then Err IntegerDecodeError
            else if Z.land CONTINUATION_BYTE 0x80 =? 0 then Ok (value + SHIFTED, S pos)
            else decode_int_loop fuel w data (S pos) (u8 (bit_shift + 7)) (value + SHIFTED)
      end
  end.

(** Returns the decoded value, the metadata bits and the new cursor. *)
Definition decode_int (w : Z) (PrefixOffset : nat) (data : list Z) (pos : nat)
    (prefix_size : Z) : result (DecodeIntResult * nat) :=
  if bad_prefix prefix_size then Err InvalidArgument
  else match data !! pos with
  | None => Err TruncatedDataError
  | Some FIRST_BYTE =>
      let prefix_metadata :=
        if (0 <? PrefixOffset)%nat then u8 (Z.shiftr FIRST_BYTE prefix_size) else 0 in
      let MASK := max_prefix w prefix_size in
      let value := wrap w (Z.land FIRST_BYTE MASK) in
      if value <? MASK then Ok (mkDecodeIntResult value prefix_metadata 0, S pos)
      else '(value, pos) ← decode_int_loop (S (length data)) w data (S pos) 0 value;
           Ok (mkDecodeIntResult value prefix_metadata 0, pos)
  end.

(** ** Reference semantics: RFC 7541 over unbounded integers *)

Fixpoint rfc_cont (bs : list Z) : option (Z * nat) :=
  match bs with
  | [] => None
  | b :: rest =>
      if b <? 128 then Some (b, 1%nat)
      else '(v, n) ← rfc_cont rest; Some (b mod 128 + 128 * v, S n)
  end.

Definition rfc_decode (N : Z) (bs : list Z) : option (Z * nat) :=
  match bs with
  | [] => None
  | b :: rest =>
      let i := b mod 2 ^ N in
      if i <? 2 ^ N - 1 then Some (i, 1%nat)
      else '(v, n) ← rfc_cont rest; Some (i + v, S n)
  end.

(** ** Helper lemmas *)

Lemma bad_prefix_false N : 1 <= N <= 8 -> bad_prefix N = false.
Proof. unfold bad_prefix. lia. Qed.

Lemma pow_prefix N : 1 <= N <= 8 -> 2 <= 2 ^ N <= 256.
Proof.
  intros H. split.
  - change 2 with (2 ^ 1) at 1. apply Z.pow_le_mono_r; lia.
  - change 256 with (2 ^ 8). apply Z.pow_le_mono_r; lia.
Qed.

Lemma pow_width w : 32 <= w -> 2 ^ 32 <= 2 ^ w.
Proof. intros. apply Z.pow_le_mono_r; lia. Qed.

Lemma prefix_mask_eq N : 1 <= N <= 8 -> u32 (Z.shiftl 1 N - 1) = 2 ^ N - 1.
Proof.
  intros H. pose proof (pow_prefix N H).
  rewrite Z.shiftl_mul_pow2, Z.mul_1_l by lia. apply wrap_small. lia.
Qed.

Lemma max_prefix_eq w N : 32 <= w -> 1 <= N <= 8 -> max_prefix w N = 2 ^ N - 1.
Proof.
  intros Hw H. pose proof (pow_prefix N H). pose proof (pow_width w Hw).
  unfold max_prefix. rewrite prefix_mask_eq by done. apply wrap_small. lia.
Qed.

Lemma rfc_cont_bound bs v n : Forall is_byte bs -> rfc_cont bs = Some (v, n) -> 0 <= v /\ (1 <= n)%nat.
Proof.
  intros Hbs. revert v n. induction Hbs as [|b bs Hb Hbs IH]; intros v n; simpl; [done|].
  unfold is_byte in Hb. destruct (Z.ltb_spec b 128).
  - intros [= <- <-]. lia.
  - destruct (rfc_cont bs) as [[v' n']|]; simpl; [|done]. intros [= <- <-].
    destruct (IH v' n' eq_refl). mlia.
Qed.

Lemma rfc_cont_length bs v n : rfc_cont bs = Some (v, n) -> (n <= length bs)%nat.
Proof.
  revert v n. induction bs as [|b bs IH]; intros v n; simpl; [done|].
  destruct (b <? 128); [intros; simplify_eq; lia|].
  destruct (rfc_cont bs) as [[v' n']|]; simpl; [|done]. intros; simplify_eq.
  specialize (IH v' n' eq_refl). lia.
Qed.

(** *** Encoder loops *)

Definition cont_octet (r : Z) : Z :=
  if 0 <? Z.shiftr r 7 then u8 (Z.lor (Z.land r 0x7F) 0x80) else u8 (Z.land r 0x7F).

Lemma cont_octet_small r : 0 <= r <= 127 -> cont_octet r = u8 r.
Proof.
  intros H. unfold cont_octet. rewrite Z.shiftr_div_pow2 by lia.
  change (2 ^ 7) with 128. rewrite Z.div_small by lia. simpl.
  rewrite land_7F. by rewrite (Z.mod_small r 128) by lia.
Qed.


Lemma lor_80 x : is_byte x -> x < 128 -> Z.lor x 0x80 = x + 0x80.
Proof.
  intros H Hlt. assert ((x <? 128) = true -> Z.lor x 0x80 = x + 0x80) as G;
    [byte_decide H | apply G; lia].
Qed.

Lemma cont_octet_large r : 127 < r -> cont_octet r = u8 (r mod 0x80 + 0x80).
Proof.
  intros H. unfold cont_octet. rewrite Z.shiftr_div_pow2 by lia.
  change (2 ^ 7) with 128. destruct (Z.ltb_spec 0 (r / 128)) as [_|Hd]; [|mlia].
  rewrite land_7F, lor_80; [done| unfold is_byte; mlia | mlia].
Qed.

Lemma compute_size_loop_acc fuel r k :
  compute_size_loop fuel r k = (k + compute_size_loop fuel r 0)%nat.
Proof.
  revert r k. induction fuel as [|fuel IH]; intros r k; simpl; [lia|].
  destruct (0x7F <? r); [|lia]. rewrite (IH _ (S k)), (IH _ 1%nat). lia.
Qed.

Lemma encode_int_loop_map fuel r :
  0 <= r < 2 ^ (7 * (Z.of_nat fuel + 1)) ->
  encode_int_loop fuel r =
    (fun i : nat => cont_octet (Z.shiftr r (7 * Z.of_nat i))) <$>
      seq 0 (S (compute_size_loop fuel r 0)).
Proof.
  revert r. induction fuel as [|fuel IH]; intros r Hr.
  - simpl. rewrite Z.shiftr_0_r, cont_octet_small; [done|].
    change (7 * (Z.of_nat 0 + 1)) with 7 in Hr. lia.
  - cbn [encode_int_loop compute_size_loop]. destruct (Z.ltb_spec 0x7F r) as [Hlt|Hge].
    + rewrite compute_size_loop_acc, seq_fmap_0.
      change (Z.of_nat 0) with 0. rewrite Z.shiftr_0_r, cont_octet_large by lia. f_equal.
      rewrite IH.
      * apply list_fmap_ext. intros i x _. f_equal.
        rewrite Z.shiftr_shiftr by lia. f_equal. lia.
      * rewrite Z.shiftr_div_pow2 by lia. split; [mlia|].
        apply Z.div_lt_upper_bound; [lia|]. rewrite <- Z.pow_add_r by lia.
        replace (7 + 7 * (Z.of_nat fuel + 1)) with (7 * (Z.of_nat (S fuel) + 1)) by lia. lia.
    + simpl. by rewrite Z.shiftr_0_r, cont_octet_small by lia.
Qed.

Lemma pow_fuel w : 0 <= w -> 2 ^ w <= 2 ^ (7 * (Z.of_nat (Z.to_nat w) + 1)).
Proof. intros. apply Z.pow_le_mono_r; lia. Qed.

(** Continuation octets written by the loop read back as the integer they encode, and the
    reader stops exactly at the last of them. *)
Lemma rfc_cont_encode fuel r rest :
  0 <= r < 2 ^ (7 * (Z.of_nat fuel + 1)) ->
  rfc_cont (encode_int_loop fuel r ++ rest) = Some (r, length (encode_int_loop fuel r)).
Proof.
  revert r. induction fuel as [|fuel IH]; intros r Hr; cbn [encode_int_loop].
  - change (7 * (Z.of_nat 0 + 1)) with 7 in Hr.
    simpl. rewrite u8_small by (unfold is_byte; lia). by destruct (Z.ltb_spec r 128); [|lia].
  - destruct (Z.ltb_spec 0x7F r).
    + cbn [app rfc_cont]. rewrite u8_small by (unfold is_byte; mlia).
      destruct (Z.ltb_spec (r mod 128 + 128) 128); [mlia|].
      rewrite IH; cbn [mbind option_bind].
      * rewrite Z.shiftr_div_pow2 by lia. change (2 ^ 7) with 128. f_equal. f_equal. mlia.
      * rewrite Z.shiftr_div_pow2 by lia. split; [mlia|].
        apply Z.div_lt_upper_bound; [lia|]. rewrite <- Z.pow_add_r by lia.
        replace (7 + 7 * (Z.of_nat fuel + 1)) with (7 * (Z.of_nat (S fuel) + 1)) by lia. lia.
    + simpl. rewrite u8_small by (unfold is_byte; lia). by destruct (Z.ltb_spec r 128); [|lia].
Qed.

Lemma encode_int_loop_bytes fuel r : Forall is_byte (encode_int_loop fuel r).
Proof.
  revert r. induction fuel as [|fuel IH]; intros r; simpl;
    [|destruct (0x7F <? r)]; repeat constructor; try apply u8_byte. apply IH.
Qed.

Lemma encode_int_loop_length fuel r :
  0 <= r ->
  (1 <= length (encode_int_loop fuel r))%nat /\
  2 ^ (7 * (Z.of_nat (length (encode_int_loop fuel r)) - 1)) <= Z.max 1 r.
Proof.
  revert r. induction fuel as [|fuel IH]; intros r Hr; cbn [encode_int_loop];
    [|destruct (Z.ltb_spec 0x7F r)]; cbn [length].
  1, 3: change (7 * (Z.of_nat 1 - 1)) with 0; rewrite Z.pow_0_r; lia.
  destruct (IH (Z.shiftr r 7)) as [H1 H2]; [by apply Z.shiftr_nonneg|].
  split; [lia|]. rewrite Z.shiftr_div_pow2 in H1, H2 by lia. rewrite Z.shiftr_div_pow2 by lia.
  set (n := length (encode_int_loop fuel (r / 2 ^ 7))) in *.
  replace (7 * (Z.of_nat (S n) - 1)) with (7 + 7 * (Z.of_nat n - 1)) by lia.
  rewrite Z.pow_add_r by lia. change (2 ^ 7) with 128 in *. mlia.
Qed.

(** *** Decoder loops *)

Lemma decode_find_if_complete w bs c v V n :
  Forall is_byte bs -> 32 <= w -> (1 <= c)%nat -> 0 <= v ->
  rfc_cont bs = Some (V, n) ->
  v + V * 2 ^ (7 * (Z.of_nat c - 1)) < 2 ^ w ->
  7 * (Z.of_nat c + Z.of_nat n - 2) < w ->
  decode_find_if w bs c v = Ok (v + V * 2 ^ (7 * (Z.of_nat c - 1)), (c + n)%nat).
Proof.
  intros Hbs Hw. revert c v V n.
  induction Hbs as [|b bs Hb Hbs IH]; intros c v V n Hc Hv HV Hlt Hsh; cbn in HV; [done|].
  cbn [decode_find_if]. rewrite land_7F, land_80 by done.
  rewrite Z.shiftl_mul_pow2, (Z.mul_comm (_ - 1) 7) by lia.
  set (p := 2 ^ (7 * (Z.of_nat c - 1))) in *.
  assert (0 < p) as Hp by (apply Z.pow_pos_nonneg; lia).
  unfold is_byte in Hb. destruct (Z.ltb_spec b 128).
  - simplify_eq. rewrite (Z.mod_small V 128) by lia.
    destruct (Z.leb_spec w (7 * (Z.of_nat c - 1))); [lia|].
    rewrite wrap_small by nia.
    destruct (Z.leb_spec (2 ^ w) (v + V * p)); [lia|]. do 2 f_equal. lia.
  - destruct (rfc_cont bs) as [[V' n']|] eqn:Hr; simplify_eq/=.
    destruct (rfc_cont_bound _ _ _ Hbs Hr) as [HV' Hn'].
    destruct (Z.leb_spec w (7 * (Z.of_nat c - 1))); [lia|].
    assert (0 <= b mod 128 < 128) by mlia.
    rewrite wrap_small by nia.
    destruct (Z.leb_spec (2 ^ w) (v + b mod 128 * p)); [nia|].
    assert (2 ^ (7 * (Z.of_nat (S c) - 1)) = 128 * p) as Hp'.
    { replace (7 * (Z.of_nat (S c) - 1)) with (7 + 7 * (Z.of_nat c - 1)) by lia.
      by rewrite Z.pow_add_r by lia. }
    rewrite (IH (S c) _ V' n'); rewrite ?Hp'; try lia; try done.
    f_equal. f_equal; lia.
Qed.

Lemma decode_find_if_sound w bs c v v' c' :
  Forall is_byte bs -> 32 <= w -> (1 <= c)%nat -> 0 <= v < 2 ^ w ->
  decode_find_if w bs c v = Ok (v', c') ->
  exists V n, rfc_cont bs = Some (V, n) /\ c' = (c + n)%nat /\
    v' = (v + V * 2 ^ (7 * (Z.of_nat c - 1))) mod 2 ^ w.
Proof.
  intros Hbs Hw. revert c v. 
  induction Hbs as [|b bs Hb Hbs IH]; intros c v Hc Hv; cbn [decode_find_if rfc_cont]; [done|].
  rewrite land_7F, land_80, Z.shiftl_mul_pow2, (Z.mul_comm (_ - 1) 7) by (done || lia).
  set (p := 2 ^ (7 * (Z.of_nat c - 1))).
  destruct (w <=? 7 * (Z.of_nat c - 1)); [done|].
  destruct (Z.leb_spec (2 ^ w) (v + wrap w (b mod 128 * p))) as [|Hadd]; [done|].
  pose proof (wrap_range w (b mod 128 * p)). unfold is_byte in Hb.
  destruct (Z.ltb_spec b 128).
  - intros [= <- <-]. exists b, 1%nat. split_and!; [done|lia|].
    rewrite (Z.mod_small b 128) in * by lia. unfold wrap.
    rewrite <- Zplus_mod_idemp_r. symmetry. apply Z.mod_small. unfold wrap in *. lia.
  - intros Hd. apply IH in Hd as (V & n & HV & -> & ->); [|lia|lia].
    exists (b mod 128 + 128 * V), (S n). rewrite HV. split_and!; [done|lia|].
    replace (2 ^ (7 * (Z.of_nat (S c) - 1))) with (128 * p); last first.
    { replace (7 * (Z.of_nat (S c) - 1)) with (7 + 7 * (Z.of_nat c - 1)) by lia.
      by rewrite Z.pow_add_r by lia. }
    unfold wrap. rewrite <- Zplus_assoc, (Z.add_comm (_ mod _)), Z.add_assoc.
    rewrite Zplus_mod_idemp_r. f_equal. ring.
Qed.

(** *** The first octet *)

(** Both shapes of the first octet keep the bits of [prefix] above the prefix field and
    carry [i] in the field: [i] is the value, or all ones when the value does not fit. *)
Definition first_octet (N prefix i : Z) : Z := prefix / 2 ^ N * 2 ^ N + i.

Lemma first_octet_fits N prefix i :
  1 <= N <= 8 -> is_byte prefix -> 0 <= i < 2 ^ N ->
  is_byte (first_octet N prefix i) /\ first_octet N prefix i mod 2 ^ N = i /\
  first_octet N prefix i / 2 ^ N = prefix / 2 ^ N.
Proof.
  intros HN [Hp1 Hp2] Hi. unfold first_octet, is_byte.
  assert (2 ^ N * 2 ^ (8 - N) = 256) as HP
    by (rewrite <- Z.pow_add_r by lia; by replace (N + (8 - N)) with 8 by lia).
  assert (0 < 2 ^ (8 - N)) by lia.
  assert (prefix / 2 ^ N < 2 ^ (8 - N)) by (apply Z.div_lt_upper_bound; lia).
  assert (0 <= prefix / 2 ^ N) by (apply Z.div_pos; lia).
  rewrite Z.add_comm, Z.mod_add, (Z.mod_small i), Z.div_add, (Z.div_small i) by lia.
  split_and!; nia.
Qed.

Lemma encode_int_eq w data N prefix :
  32 <= w -> 1 <= N <= 8 -> is_byte prefix -> 0 <= data < 2 ^ w ->
  encode_int w data N prefix = Ok (
    if data <? 2 ^ N - 1 then [first_octet N prefix data]
    else first_octet N prefix (2 ^ N - 1) ::
         encode_int_loop (Z.to_nat w) (data - (2 ^ N - 1))).
Proof.
  intros Hw HN Hp Hd. pose proof (pow_prefix N HN). unfold encode_int.
  rewrite bad_prefix_false, prefix_mask_eq, (u8_small prefix), (u8_small (2 ^ N - 1))
    by (done || unfold is_byte; lia).
  rewrite land_lnot_ones, lor_ones by lia.
  destruct (Z.ltb_spec data (2 ^ N - 1)).
  - rewrite (u8_small data) by (unfold is_byte; lia). rewrite lor_low_add by lia.
    rewrite u8_small; [done|]. apply first_octet_fits; (done || lia).
  - rewrite u8_small; [|apply first_octet_fits; (done || lia)].
    rewrite wrap_small by lia. done.
Qed.

Lemma rfc_decode_consumed N bs v n : rfc_decode N bs = Some (v, n) -> (1 <= n)%nat.
Proof.
  destruct bs as [|b bs]; [done|]. cbn [rfc_decode]. case_match; [by intros; simplify_eq|].
  destruct (rfc_cont bs) as [[]|]; intros; simplify_eq/=; lia.
Qed.

(** ** The two encoders, the two decoders and the round trip *)

Lemma encode_int_view_eq (w data N prefix : Z) :
  32 <= w -> is_byte prefix -> 0 <= data < 2 ^ w ->
  encode_int_view w data N prefix = encode_int w data N prefix.
Proof.
  intros Hw Hp Hd. destruct (bad_prefix N) eqn:HN.
  { unfold encode_int_view, encode_int. by rewrite HN. }
  assert (1 <= N <= 8) as HN' by (unfold bad_prefix in HN; lia).
  pose proof (pow_prefix N HN').
  rewrite encode_int_eq by done. unfold encode_int_view, compute_size. rewrite HN.
  rewrite max_prefix_eq by done. f_equal.
  destruct (Z.ltb_spec data (2 ^ N - 1)) as [Hlt|Hge].
  - simpl. unfold deref. simpl. rewrite max_prefix_eq, (u8_small (2 ^ N - 1)) by (done || unfold is_byte; lia).
    destruct (Z.ltb_spec data (2 ^ N - 1)); [|lia].
    rewrite land_lnot_ones, (u8_small data), lor_low_add by (unfold is_byte; lia).
    rewrite u8_small; [done|]. apply first_octet_fits; (done || lia).
  - rewrite wrap_small, compute_size_loop_acc by lia. cbn [Nat.add]. rewrite seq_fmap_0. f_equal.
    + unfold deref. simpl. rewrite max_prefix_eq, (u8_small (2 ^ N - 1)) by (done || unfold is_byte; lia).
      destruct (Z.ltb_spec data (2 ^ N - 1)); [lia|].
      rewrite lor_ones, u8_small; [done| |lia]. apply first_octet_fits; (done || lia).
    + rewrite encode_int_loop_map by (pose proof (pow_fuel w); lia).
      apply list_fmap_ext. intros i x _. unfold deref, cont_octet. cbn [Nat.eqb].
      rewrite max_prefix_eq, wrap_small by (done || lia).
      by replace (Z.of_nat (S x) - 1) with (Z.of_nat x) by lia.
Qed.

(** The range decoder against the reference, from the first octet on. *)
Lemma DecodeIntAdaptor_complete w off N b bs v n :
  32 <= w -> 1 <= N <= 8 -> is_byte b -> Forall is_byte bs ->
  rfc_decode N (b :: bs) = Some (v, n) -> v < 2 ^ w -> 7 * (Z.of_nat n - 2) < w ->
  DecodeIntAdaptor w off N (b :: bs) =
    Ok (mkDecodeIntResult v (if (0 <? off)%nat then b / 2 ^ N else 0) n).
Proof.
  intros Hw HN Hb Hbs Hrfc Hv Hn. pose proof (pow_prefix N HN). pose proof (pow_width w Hw).
  unfold DecodeIntAdaptor. rewrite bad_prefix_false, max_prefix_eq, land_pow2_mod by (done || lia).
  pose proof (Z.mod_pos_bound b (2 ^ N)). rewrite (wrap_small w (b mod 2 ^ N)) by lia.
  replace (u8 (b ≫ N)) with (b / 2 ^ N); last first.
  { rewrite Z.shiftr_div_pow2 by lia. symmetry. apply u8_small. unfold is_byte in *.
    split; [apply Z.div_pos; lia|]. apply Z.div_lt_upper_bound; nia. }
  cbn [rfc_decode] in Hrfc. destruct (b mod 2 ^ N <? 2 ^ N - 1); [by simplify_eq|].
  destruct (rfc_cont bs) as [[V m]|] eqn:HV; simplify_eq/=.
  rewrite (decode_find_if_complete w bs 1 (b mod 2 ^ N) V m); try (done || lia).
  change (2 ^ (7 * (Z.of_nat 1 - 1))) with 1. by rewrite Z.mul_1_r.
Qed.

Lemma encode_decode_int (w data N prefix : Z) (off : nat) (rest : list Z) :
  32 <= w -> 1 <= N <= 8 -> is_byte prefix -> 0 <= data < 2 ^ w -> Forall is_byte rest ->
  exists bs, encode_int_view w data N prefix = Ok bs /\ Forall is_byte bs /\
    DecodeIntAdaptor w off N (bs ++ rest) =
      Ok (mkDecodeIntResult data (if (0 <? off)%nat then prefix / 2 ^ N else 0) (length bs)).
Proof.
  intros Hw HN Hp Hd Hrest. pose proof (pow_prefix N HN). pose proof (pow_width w Hw).
  rewrite encode_int_view_eq, encode_int_eq by done. eexists. split; [done|].
  destruct (Z.ltb_spec data (2 ^ N - 1)) as [Hlt|Hge].
  - destruct (first_octet_fits N prefix data HN Hp ltac:(lia)) as (Hb & Hm & Hq).
    split; [by apply Forall_singleton|]. cbn [app length].
    rewrite (DecodeIntAdaptor_complete w off N _ rest data 1); try done; try lia.
    + by rewrite Hq.
    + cbn [rfc_decode]. rewrite Hm. by destruct (Z.ltb_spec data (2 ^ N - 1)); [|lia].
  - destruct (first_octet_fits N prefix (2 ^ N - 1) HN Hp ltac:(lia)) as (Hb & Hm & Hq).
    split; [constructor; [done|apply encode_int_loop_bytes]|]. cbn [app length].
    set (r := data - (2 ^ N - 1)) in *. set (l := encode_int_loop (Z.to_nat w) r).
    destruct (encode_int_loop_length (Z.to_nat w) r ltac:(lia)) as [Hl1 Hl2].
    fold l in Hl1, Hl2.
    rewrite (DecodeIntAdaptor_complete w off N _ (l ++ rest) data (S (length l))); try done; try lia.
    + by rewrite Hq.
    + apply Forall_app. split; [apply encode_int_loop_bytes|done].
    + cbn [rfc_decode]. rewrite Hm. destruct (Z.ltb_spec (2 ^ N - 1) (2 ^ N - 1)); [lia|].
      unfold l. rewrite rfc_cont_encode by (pose proof (pow_fuel w); lia). cbn.
      do 2 f_equal. lia.
    + apply (Z.pow_lt_mono_r_iff 2); [lia|lia|].
      replace (Z.of_nat (S (length l)) - 2) with (Z.of_nat (length l) - 1) by lia. lia.
Qed.

(** The first octet of an encoded integer under a prefix whose field is clear: the prefix
    plus a non-zero field for a non-zero value. *)
Lemma encode_int_view_head w data N prefix :
  32 <= w -> 1 <= N <= 8 -> is_byte prefix -> prefix mod 2 ^ N = 0 -> 0 <= data < 2 ^ w ->
  exists b bs, encode_int_view w data N prefix = Ok (b :: bs) /\ Forall is_byte (b :: bs) /\
    prefix <= b < prefix + 2 ^ N /\ (1 <= data -> prefix < b) /\
    forall off rest, Forall is_byte rest -> DecodeIntAdaptor w off N ((b :: bs) ++ rest) =
      Ok (mkDecodeIntResult data (if (0 <? off)%nat then prefix / 2 ^ N else 0) (length (b :: bs))).
Proof.
  intros Hw HN Hp Hz Hd. pose proof (pow_prefix N HN).
  assert (forall i, first_octet N prefix i = prefix + i) as Hfo.
  { intros i. unfold first_octet. pose proof (Z.div_mod prefix (2 ^ N) ltac:(lia)). lia. }
  assert (exists b bs, encode_int_view w data N prefix = Ok (b :: bs) /\
    prefix <= b < prefix + 2 ^ N /\ (1 <= data -> prefix < b)) as (b & bs & He & Hb & Hb1).
  { rewrite encode_int_view_eq, encode_int_eq by done. rewrite !Hfo.
    destruct (Z.ltb_spec data (2 ^ N - 1)); eexists _, _; (split; [reflexivity|]); lia. }
  exists b, bs. split; [done|].
  assert (forall off rest, Forall is_byte rest -> Forall is_byte (b :: bs) /\
    DecodeIntAdaptor w off N ((b :: bs) ++ rest) =
      Ok (mkDecodeIntResult data (if (0 <? off)%nat then prefix / 2 ^ N else 0) (length (b :: bs)))) as Hdec.
  { intros off rest Hr. destruct (encode_decode_int w data N prefix off rest) as (l & He' & ? & ?); [done..|].
    rewrite He in He'. by injection He' as <-. }
  split; [by apply (Hdec 0%nat [] (Forall_nil_2 _))|]. split; [done|]. split; [done|].
  intros off rest Hr. by apply Hdec.
Qed.

Lemma DecodeIntAdaptor_sound (w N : Z) (off : nat) (data : list Z) (r : DecodeIntResult) :
  32 <= w -> Forall is_byte data -> DecodeIntAdaptor w off N data = Ok r ->
  exists v, rfc_decode N data = Some (v, consumed r) /\ value r = v mod 2 ^ w /\
    (consumed r <= length data)%nat.
Proof.
  intros Hw Hdata. unfold DecodeIntAdaptor. destruct (bad_prefix N) eqn:HN; [done|].
  assert (1 <= N <= 8) as HN' by (unfold bad_prefix in HN; lia).
  pose proof (pow_prefix N HN'). pose proof (pow_width w Hw).
  destruct data as [|b bs]; [done|]. apply Forall_cons in Hdata as [Hb Hbs].
  rewrite max_prefix_eq, land_pow2_mod by (done || lia).
  pose proof (Z.mod_pos_bound b (2 ^ N)). rewrite (wrap_small w (b mod 2 ^ N)) by lia.
  cbn [rfc_decode]. destruct (Z.ltb_spec (b mod 2 ^ N) (2 ^ N - 1)) as [Hlt|Hge].
  { intros [= <-]. exists (b mod 2 ^ N). simpl. rewrite (Z.mod_small (b mod 2 ^ N) (2 ^ w)) by lia.
    split_and!; [done|done|lia]. }
  intros ([v' c'] & Hd & [= <-])%result_bind_Ok.
  apply decode_find_if_sound in Hd as (V & n & HV & -> & ->); [|done|done|lia|lia].
  rewrite HV. exists (b mod 2 ^ N + V). cbn. change (2 ^ (7 * (Z.of_nat 1 - 1))) with 1.
  rewrite Z.mul_1_r. split_and!; [done|done|].
  apply rfc_cont_length in HV. lia.
Qed.

Lemma decode_find_if_cursor w bs c v v' c' :
  decode_find_if w bs c v = Ok (v', c') -> (c < c')%nat.
Proof.
  revert c v. induction bs as [|b bs IH]; intros c v; cbn [decode_find_if]; [done|].
  repeat case_match; try done; [intros; simplify_eq; lia|]. intros ?%IH. lia.
Qed.

Lemma decode_int_loop_equiv w fuel data pos c v :
  32 <= w <= 64 -> (1 <= c)%nat -> 7 * (Z.of_nat c - 1) < w + 7 ->
  (length data < fuel + pos)%nat ->
  decode_int_loop fuel w data pos (7 * (Z.of_nat c - 1)) v =
    match decode_find_if w (drop pos data) c v with
    | Ok (v', c') => Ok (v', (pos + (c' - c))%nat)
    | Err e => Err e
    end.
Proof.
  intros Hw. revert pos c v. induction fuel as [|fuel IH]; intros pos c v Hc Hsh Hf.
  { by rewrite drop_ge by lia. }
  cbn [decode_int_loop]. destruct (data !! pos) as [b|] eqn:Hb.
  - rewrite (drop_lookup_cons _ _ _ Hb). cbn [decode_find_if].
    rewrite (Z.mul_comm 7). destruct (Z.leb_spec w ((Z.of_nat c - 1) * 7)); [done|].
    destruct (2 ^ w <=? _); [done|]. destruct (Z.land b 0x80 =? 0).
    + do 2 f_equal. lia.
    + rewrite wrap_small by lia.
      replace ((Z.of_nat c - 1) * 7 + 7) with (7 * (Z.of_nat (S c) - 1)) by lia.
      rewrite IH by lia.
      destruct (decode_find_if w (drop (S pos) data) (S c) _) as [[v' c']|] eqn:Hd; [|done].
      apply decode_find_if_cursor in Hd. do 2 f_equal. lia.
  - apply lookup_ge_None in Hb. by rewrite drop_ge.
Qed.

Lemma decode_int_eq (w N : Z) (off : nat) (data : list Z) (pos : nat) :
  32 <= w <= 64 ->
  decode_int w off data pos N =
    match DecodeIntAdaptor w off N (drop pos data) with
    | Ok r => Ok (mkDecodeIntResult (value r) (prefix_bits r) 0, (pos + consumed r)%nat)
    | Err e => Err e
    end.
Proof.
  intros Hw. unfold decode_int, DecodeIntAdaptor. destruct (bad_prefix N); [done|].
  destruct (data !! pos) as [b|] eqn:Hb.
  - rewrite (drop_lookup_cons _ _ _ Hb). destruct (wrap w _ <? _) eqn:Hlt.
    + do 2 f_equal. simpl. lia.
    + epose proof (decode_int_loop_equiv w (S (length data)) data (S pos) 1) as E.
      change (7 * (Z.of_nat 1 - 1)) with 0 in E. rewrite E by lia.
      destruct (decode_find_if w (drop (S pos) data) 1 _) as [[v' c']|] eqn:Hd; [|done].
      apply decode_find_if_cursor in Hd. cbn. do 2 f_equal. lia.
  - apply lookup_ge_None in Hb. by rewrite drop_ge.
Qed.

(** ** Properties *)

(** the lazy view and the eager encoder produce the same octets, for every value of
    the width, every prefix and every prefix size, the rejected ones included. *)
Theorem encode_int_view_equiv (w data N prefix : Z) :
  32 <= w -> is_byte prefix -> 0 <= data < 2 ^ w ->
  encode_int_view w data N prefix = encode_int w data N prefix.
Proof. apply encode_int_view_eq. Qed.

Lemma encode_int_view_equiv_witness :
  encode_int_view 32 1337 5 0x20 = encode_int 32 1337 5 0x20.
Proof. apply (encode_int_view_equiv 32 1337 5 0x20); unfold is_byte; lia. Defined.

(** C40: For widths of 32 to 64 bits and fields of 1 to 8 bits in an octet of any content,
    decoding what was encoded gives back the value, the bits of the prefix above the
    field, and consumes exactly the encoded octets, whatever precedes and follows them on
    the wire; the range decoder and the cursor decoder both do. *)
Theorem decode_encode_int (w data N prefix : Z) (off : nat) (pre rest : list Z) :
  32 <= w <= 64 -> 1 <= N <= 8 -> is_byte prefix -> 0 <= data < 2 ^ w -> Forall is_byte rest ->
  exists bs, encode_int_view w data N prefix = Ok bs /\ Forall is_byte bs /\
    let meta := if (0 <? off)%nat then prefix / 2 ^ N else 0 in
    DecodeIntAdaptor w off N (bs ++ rest) = Ok (mkDecodeIntResult data meta (length bs)) /\
    decode_int w off (pre ++ bs ++ rest) (length pre) N =
      Ok (mkDecodeIntResult data meta 0, (length pre + length bs)%nat).
Proof.
  intros Hw HN Hp Hd Hr.
  destruct (encode_decode_int w data N prefix off rest) as (bs & He & Hb & Hdec); [lia|done..|].
  exists bs. split; [done|]. split; [done|]. intros meta. split; [done|].
  rewrite decode_int_eq, drop_app_length, Hdec by done. done.
Qed.

Lemma decode_encode_int_witness :
  exists bs, encode_int_view 32 1337 5 0x20 = Ok bs /\ Forall is_byte bs /\
    DecodeIntAdaptor 32 1 5 (bs ++ [7]) = Ok (mkDecodeIntResult 1337 (0x20 / 2 ^ 5) (length bs)) /\
    decode_int 32 1 ([5; 6] ++ bs ++ [7]) 2 5 =
      Ok (mkDecodeIntResult 1337 (0x20 / 2 ^ 5) 0, (2 + length bs)%nat).
Proof.
  apply (decode_encode_int 32 1337 5 0x20 1 [5; 6] [7]); try (unfold is_byte; lia).
  solve_bytes.
Defined.

(** an integer the range decoder accepts is, modulo the width, the one RFC 7541
    defines for these octets, and the decoder consumed exactly the octets of the integer. *)
Theorem decode_int_sound (w N : Z) (off : nat) (data : list Z) (r : DecodeIntResult) :
  32 <= w -> Forall is_byte data -> DecodeIntAdaptor w off N data = Ok r ->
  exists v, rfc_decode N data = Some (v, consumed r) /\ value r = v mod 2 ^ w /\
    (consumed r <= length data)%nat.
Proof. apply DecodeIntAdaptor_sound. Qed.

Lemma decode_int_sound_witness :
  exists v, rfc_decode 5 [0x1F; 0x9A; 0x0A] = Some (v, 3%nat) /\ 1337 = v mod 2 ^ 32 /\ (3 <= 3)%nat.
Proof.
  apply (decode_int_sound 32 5 0 [0x1F; 0x9A; 0x0A] (mkDecodeIntResult 1337 0 3)); [lia| |done].
  solve_bytes.
Defined.

(** the cursor decoder and the range decoder agree on every input: same value and
    metadata, the cursor moves by the octets the range decoder consumes, and both reject
    the same inputs with the same exception. *)
Theorem decode_int_equiv (w N : Z) (off : nat) (data : list Z) (pos : nat) :
  32 <= w <= 64 ->
  decode_int w off data pos N =
    match DecodeIntAdaptor w off N (drop pos data) with
    | Ok r => Ok (mkDecodeIntResult (value r) (prefix_bits r) 0, (pos + consumed r)%nat)
    | Err e => Err e
    end.
Proof. apply decode_int_eq. Qed.

Lemma decode_int_equiv_witness :
  decode_int 32 1 [9; 0x1F; 0x9A; 0x0A] 1 5 = Ok (mkDecodeIntResult 1337 0 0, 4%nat).
Proof. rewrite (decode_int_equiv 32 5 1 [9; 0x1F; 0x9A; 0x0A] 1) by lia. reflexivity. Defined.

(** the documentation of [DecodeIntAdaptor] promises an [IntegerDecodeError] when the
    continuation octets overflow the width, "no silent wraparound".  The check is on the
    sum, after the shift has already dropped the bits above the width: these six octets
    denote 2^32 + 31 and are accepted as 31. *)
Theorem decode_int_silent_wraparound :
  rfc_decode 5 [0x1F; 0x80; 0x80; 0x80; 0x80; 0x10] = Some (2 ^ 32 + 31, 6%nat) /\
  DecodeIntAdaptor 32 0 5 [0x1F; 0x80; 0x80; 0x80; 0x80; 0x10] = Ok (mkDecodeIntResult 31 0 6).
Proof. split; vm_compute; reflexivity. Qed.
