(* ===== verification/Huffman.v ===== *)
(** * Huffman string coding (RFC 7541 section 5.2)

    Models src/include/io/codec/shared/huffman.cppm: the code table [CODES], [build_trie],
    [build_table], the lazy encoder [HuffmanEncodeView::Iterator] and the table-driven
    decoder [HuffmanDecodeView::Iterator].  Fixed-size C++ arrays are maps with the
    array's initial value as default; [build_table] and the decoder are generic in the
    chunk width [W], which is 4 at every call site. *)

From stdpp Require Import base gmap strings list.
From Stdlib Require Import ZArith Lia.
From S2P Require Import Prelude.

Open Scope Z_scope.

(** ** The code table *)

Definition SYM_COUNT : Z := 257.
Definition SYM_EOS : Z := 256.
Definition SYM_NONE : Z := 0xFFFFFFFE.
Definition TRIE_CAP : nat := 600.

(** Code (right-aligned) and length in bits of each symbol. *)
Definition CODES : list (Z * Z) :=
  [(0x1FF8, 13); (0x7FFFD8, 23); (0xFFFFFE2, 28); (0xFFFFFE3, 28); (0xFFFFFE4, 28); (0xFFFFFE5, 28);
   (0xFFFFFE6, 28); (0xFFFFFE7, 28); (0xFFFFFE8, 28); (0xFFFFEA, 24); (0x3FFFFFFC, 30); (0xFFFFFE9, 28);
   (0xFFFFFEA, 28); (0x3FFFFFFD, 30); (0xFFFFFEB, 28); (0xFFFFFEC, 28); (0xFFFFFED, 28); (0xFFFFFEE, 28);
   (0xFFFFFEF, 28); (0xFFFFFF0, 28); (0xFFFFFF1, 28); (0xFFFFFF2, 28); (0x3FFFFFFE, 30); (0xFFFFFF3, 28);
   (0xFFFFFF4, 28); (0xFFFFFF5, 28); (0xFFFFFF6, 28); (0xFFFFFF7, 28); (0xFFFFFF8, 28); (0xFFFFFF9, 28);
   (0xFFFFFFA, 28); (0xFFFFFFB, 28); (0x14, 6); (0x3F8, 10); (0x3F9, 10); (0xFFA, 12);
   (0x1FF9, 13); (0x15, 6); (0xF8, 8); (0x7FA, 11); (0x3FA, 10); (0x3FB, 10);
   (0xF9, 8); (0x7FB, 11); (0xFA, 8); (0x16, 6); (0x17, 6); (0x18, 6);
   (0x0, 5); (0x1, 5); (0x2, 5); (0x19, 6); (0x1A, 6); (0x1B, 6);
   (0x1C, 6); (0x1D, 6); (0x1E, 6); (0x1F, 6); (0x5C, 7); (0xFB, 8);
   (0x7FFC, 15); (0x20, 6); (0xFFB, 12); (0x3FC, 10); (0x1FFA, 13); (0x21, 6);
   (0x5D, 7); (0x5E, 7); (0x5F, 7); (0x60, 7); (0x61, 7); (0x62, 7);
   (0x63, 7); (0x64, 7); (0x65, 7); (0x66, 7); (0x67, 7); (0x68, 7);
   (0x69, 7); (0x6A, 7); (0x6B, 7); (0x6C, 7); (0x6D, 7); (0x6E, 7);
   (0x6F, 7); (0x70, 7); (0x71, 7); (0x72, 7); (0xFC, 8); (0x73, 7);
   (0xFD, 8); (0x1FFB, 13); (0x7FFF0, 19); (0x1FFC, 13); (0x3FFC, 14); (0x22, 6);
   (0x7FFD, 15); (0x3, 5); (0x23, 6); (0x4, 5); (0x24, 6); (0x5, 5);
   (0x25, 6); (0x26, 6); (0x27, 6); (0x6, 5); (0x74, 7); (0x75, 7);
   (0x28, 6); (0x29, 6); (0x2A, 6); (0x7, 5); (0x2B, 6); (0x76, 7);
   (0x2C, 6); (0x8, 5); (0x9, 5); (0x2D, 6); (0x77, 7); (0x78, 7);
   (0x79, 7); (0x7A, 7); (0x7B, 7); (0x7FFE, 15); (0x7FC, 11); (0x3FFD, 14);
   (0x1FFD, 13); (0xFFFFFFC, 28); (0xFFFE6, 20); (0x3FFFD2, 22); (0xFFFE7, 20); (0xFFFE8, 20);
   (0x3FFFD3, 22); (0x3FFFD4, 22); (0x3FFFD5, 22); (0x7FFFD9, 23); (0x3FFFD6, 22); (0x7FFFDA, 23);
   (0x7FFFDB, 23); (0x7FFFDC, 23); (0x7FFFDD, 23); (0x7FFFDE, 23); (0xFFFFEB, 24); (0x7FFFDF, 23);
   (0xFFFFEC, 24); (0xFFFFED, 24); (0x3FFFD7, 22); (0x7FFFE0, 23); (0xFFFFEE, 24); (0x7FFFE1, 23);
   (0x7FFFE2, 23); (0x7FFFE3, 23); (0x7FFFE4, 23); (0x1FFFDC, 21); (0x3FFFD8, 22); (0x7FFFE5, 23);
   (0x3FFFD9, 22); (0x7FFFE6, 23); (0x7FFFE7, 23); (0xFFFFEF, 24); (0x3FFFDA, 22); (0x1FFFDD, 21);
   (0xFFFE9, 20); (0x3FFFDB, 22); (0x3FFFDC, 22); (0x7FFFE8, 23); (0x7FFFE9, 23); (0x1FFFDE, 21);
   (0x7FFFEA, 23); (0x3FFFDD, 22); (0x3FFFDE, 22); (0xFFFFF0, 24); (0x1FFFDF, 21); (0x3FFFDF, 22);
   (0x7FFFEB, 23); (0x7FFFEC, 23); (0x1FFFE0, 21); (0x1FFFE1, 21); (0x3FFFE0, 22); (0x1FFFE2, 21);
   (0x7FFFED, 23); (0x3FFFE1, 22); (0x7FFFEE, 23); (0x7FFFEF, 23); (0xFFFEA, 20); (0x3FFFE2, 22);
   (0x3FFFE3, 22); (0x3FFFE4, 22); (0x7FFFF0, 23); (0x3FFFE5, 22); (0x3FFFE6, 22); (0x7FFFF1, 23);
   (0x3FFFFE0, 26); (0x3FFFFE1, 26); (0xFFFEB, 20); (0x7FFF1, 19); (0x3FFFE7, 22); (0x7FFFF2, 23);
   (0x3FFFE8, 22); (0x1FFFFEC, 25); (0x3FFFFE2, 26); (0x3FFFFE3, 26); (0x3FFFFE4, 26); (0x7FFFFDE, 27);
   (0x7FFFFDF, 27); (0x3FFFFE5, 26); (0xFFFFF1, 24); (0x1FFFFED, 25); (0x7FFF2, 19); (0x1FFFE3, 21);
   (0x3FFFFE6, 26); (0x7FFFFE0, 27); (0x7FFFFE1, 27); (0x3FFFFE7, 26); (0x7FFFFE2, 27); (0xFFFFF2, 24);
   (0x1FFFE4, 21); (0x1FFFE5, 21); (0x3FFFFE8, 26); (0x3FFFFE9, 26); (0xFFFFFFD, 28); (0x7FFFFE3, 27);
   (0x7FFFFE4, 27); (0x7FFFFE5, 27); (0xFFFEC, 20); (0xFFFFF3, 24); (0xFFFED, 20); (0x1FFFE6, 21);
   (0x3FFFE9, 22); (0x1FFFE7, 21); (0x1FFFE8, 21); (0x7FFFF3, 23); (0x3FFFEA, 22); (0x3FFFEB, 22);
   (0x1FFFFEE, 25); (0x1FFFFEF, 25); (0xFFFFF4, 24); (0xFFFFF5, 24); (0x3FFFFEA, 26); (0x7FFFF4, 23);
   (0x3FFFFEB, 26); (0x7FFFFE6, 27); (0x3FFFFEC, 26); (0x3FFFFED, 26); (0x7FFFFE7, 27); (0x7FFFFE8, 27);
   (0x7FFFFE9, 27); (0x7FFFFEA, 27); (0x7FFFFEB, 27); (0xFFFFFFE, 28); (0x7FFFFEC, 27); (0x7FFFFED, 27);
   (0x7FFFFEE, 27); (0x7FFFFEF, 27); (0x7FFFFF0, 27); (0x3FFFFEE, 26); (0x3FFFFFFF, 30)].

(** ** The code trie *)

Record TrieNode := mkTrieNode { m_child0 : Z; m_child1 : Z; m_sym : Z }.
Definition node_init : TrieNode := mkTrieNode (-1) (-1) SYM_NONE.

Record Trie := mkTrie { m_nodes : gmap Z TrieNode; m_size : Z }.
Definition trie_init : Trie := mkTrie ∅ 1.

Definition node_at (t : Trie) (i : Z) : TrieNode := default node_init (m_nodes t !! i).
Definition m_child (n : TrieNode) (BIT : Z) : Z := if BIT =? 0 then m_child0 n else m_child1 n.
Definition set_child (n : TrieNode) (BIT c : Z) : TrieNode :=
  if BIT =? 0 then mkTrieNode c (m_child1 n) (m_sym n) else mkTrieNode (m_child0 n) c (m_sym n).
Definition set_sym (n : TrieNode) (s : Z) : TrieNode := mkTrieNode (m_child0 n) (m_child1 n) s.
Definition set_node (t : Trie) (i : Z) (n : TrieNode) : Trie :=
  mkTrie (<[i := n]> (m_nodes t)) (m_size t).

(** One step of the inner loop: follow the edge for bit [shift] of [code], creating the
    child first when it is missing. *)
Definition trie_descend (code : Z) (shift : nat) (tc : Trie * Z) : Trie * Z :=
  let '(t, cur) := tc in
  let BIT := Z.land (Z.shiftr code (Z.of_nat shift)) 1 in
  let t' :=
    if m_child (node_at t cur) BIT <? 0
    then let t1 := set_node t cur (set_child (node_at t cur) BIT (m_size t)) in
         mkTrie (m_nodes t1) (m_size t1 + 1)
    else t in
  (t', m_child (node_at t' cur) BIT).

Definition trie_insert (t : Trie) (sym : Z) (entry : Z * Z) : Trie :=
  let '(code, len) := entry in
  let '(t, cur) :=
    foldl (fun tc shift => trie_descend code shift tc) (t, 0) (reverse (seq 0 (Z.to_nat len))) in
  set_node t cur (set_sym (node_at t cur) sym).

Definition build_trie : Trie :=
  foldl (fun t se => trie_insert t se.1 se.2) trie_init
    (zip (Z.of_nat <$> seq 0 (length CODES)) CODES).

(** ** The W-bit transition table *)

(** The table under construction with the row allocator and the worklist of [build_table];
    the array [queue] between [q_head] and [q_tail] is the list [queue]. *)
Record Builder := mkBuilder {
  m_entries : gmap Z (Z * Z);
  m_row_count : Z;
  node_to_row : gmap Z Z;
  queue : list Z;
}.

Definition alloc_row (s : Builder) (node : Z) : Builder :=
  mkBuilder (m_entries s) (m_row_count s + 1) (<[node := m_row_count s]> (node_to_row s)) (queue s).

Definition enqueue (s : Builder) (node : Z) : Builder :=
  mkBuilder (m_entries s) (m_row_count s) (node_to_row s) (queue s ++ [node]).

Definition set_entry (s : Builder) (SLOT : Z) (e : Z * Z) : Builder :=
  mkBuilder (<[SLOT := e]> (m_entries s)) (m_row_count s) (node_to_row s) (queue s).

(** The walk over the [W] bits of one chunk: [None] is the [invalid] flag, otherwise the
    node reached and the last symbol met ([SYM_NONE] for none). *)
Fixpoint chunk_walk (t : Trie) (chunk : Z) (shifts : list nat) (cur emitted_sym : Z)
    : option (Z * Z) :=
  match shifts with
  | [] => Some (cur, emitted_sym)
  | shift :: rest =>
      let BIT := Z.land (Z.shiftr chunk (Z.of_nat shift)) 1 in
      let NEXT := m_child (node_at t cur) BIT in
      if NEXT <? 0 then None
      else if m_sym (node_at t NEXT) =? SYM_NONE
      then chunk_walk t chunk rest NEXT emitted_sym
      else chunk_walk t chunk rest 0 (m_sym (node_at t NEXT))
  end.

Definition fill_chunk (t : Trie) (W : nat) (START ROW : Z) (s : Builder) (chunk : Z) : Builder :=
  let SLOT := ROW * 2 ^ Z.of_nat W + chunk in
  match chunk_walk t chunk (reverse (seq 0 W)) START SYM_NONE with
  | None => set_entry s SLOT (0xFFFF, 0xFFFF)
  | Some (cur, emitted_sym) =>
      let s := match node_to_row s !! cur with
               | Some _ => s
               | None => enqueue (alloc_row s cur) cur
               end in
      let SYM16 := if emitted_sym =? SYM_NONE then 0xFFFE else wrap 16 emitted_sym in
      set_entry s SLOT (wrap 16 (default (-1) (node_to_row s !! cur)), SYM16)
  end.

(** [while (q_head < q_tail)]: a node enters the queue when it gets its row, so at most
    [TRIE_CAP] turns. *)
Fixpoint build_loop (fuel : nat) (t : Trie) (W : nat) (s : Builder) : Builder :=
  match fuel, queue s with
  | S fuel, START :: rest =>
      let s := mkBuilder (m_entries s) (m_row_count s) (node_to_row s) rest in
      let ROW := default (-1) (node_to_row s !! START) in
      build_loop fuel t W
        (foldl (fill_chunk t W START ROW) s (Z.of_nat <$> seq 0 (Nat.pow 2 W)))
  | _, _ => s
  end.

Definition build_table (W : nat) : Builder :=
  build_loop TRIE_CAP build_trie W (enqueue (alloc_row (mkBuilder ∅ 0 ∅ []) 0) 0).

(** ** The encoder *)

(** [HuffmanEncodeView::Iterator]: remaining input, the 64-bit accumulator, the number of
    bits in it, the done flag. *)
Record EncIt := mkEncIt { e_inner : list Z; m_bits : Z; m_shift : Z; e_done : bool }.

(** A shift of a [width]-bit operand is defined for amounts in [0, width). *)
Definition shift_ok (width n : Z) : bool := (0 <=? n) && (n <? width).

Definition enc_advance (it : EncIt) : result EncIt :=
  match e_inner it with
  | [] =>
      if m_shift it =? 0 then Ok (mkEncIt [] (m_bits it) (m_shift it) true)
      else
        let PAD := 8 - m_shift it in
        if shift_ok 32 PAD
        then Ok (mkEncIt []
               (Z.lor (wrap 64 (Z.shiftl (m_bits it) PAD)) (u32 (u32 (Z.shiftl 1 PAD) - 1)))
               8 (e_done it))
        else Err UndefinedBehaviour
  | sym :: inner =>
      match CODES !! Z.to_nat sym with
      | None => Err UndefinedBehaviour
      | Some (code, len) =>
          Ok (mkEncIt inner (Z.lor (wrap 64 (Z.shiftl (m_bits it) len)) code)
                (m_shift it + len) (e_done it))
      end
  end.

Definition enc_deref (it : EncIt) : result Z :=
  if shift_ok 64 (m_shift it - 8) then Ok (u8 (Z.shiftr (m_bits it) (m_shift it - 8)))
  else Err UndefinedBehaviour.

(** The range-for over the view. *)
Fixpoint enc_drain (fuel : nat) (it : EncIt) : result (list Z) :=
  match fuel with
  | O => Err UndefinedBehaviour
  | S fuel =>
      if e_done it then Ok []
      else
        b ← enc_deref it;
        it' ← enc_advance (mkEncIt (e_inner it) (m_bits it) (m_shift it - 8) (e_done it));
        bs ← enc_drain fuel it';
        Ok (b :: bs)
  end.

Definition HuffmanEncodeView (input : list Z) : result (list Z) :=
  it ← enc_advance (mkEncIt input 0 0 false);
  enc_drain (4 * length input + 4) it.

(** ** The decoder *)

(** [HuffmanDecodeView::Iterator]. *)
Record DecIt := mkDecIt {
  m_inner : list Z; m_fsm : Z; m_chunk_idx : nat; m_padding_bits : Z }.

(** [advance()]: [None] is [m_done], [Some c] a character stashed in [m_current].  Every turn
    of the loop consumes one chunk. *)
Fixpoint advance (fuel W : nat) (entries : gmap Z (Z * Z)) (it : DecIt)
    : result (option Z * DecIt) :=
  match fuel with
  | O => Err UndefinedBehaviour
  | S fuel =>
      match m_inner it with
      | [] =>
          if negb (m_chunk_idx it =? 0)%nat then Err HuffmanDecodeError
          else if negb (m_fsm it =? 0) && (7 <? m_padding_bits it) then Err HuffmanDecodeError
          else Ok (None, it)
      | byte :: rest =>
          let CHUNK := Z.land (2 ^ Z.of_nat W - 1)
                         (Z.shiftr byte (8 - Z.of_nat W * (Z.of_nat (m_chunk_idx it) + 1))) in
          let '(inner, chunk_idx) :=
            if (S (m_chunk_idx it) =? 8 / W)%nat then (rest, 0%nat)
            else (byte :: rest, S (m_chunk_idx it)) in
          let '(ns, sym) := default (0, 0) (entries !! (m_fsm it * 2 ^ Z.of_nat W + CHUNK)) in
          if sym <? 256 then Ok (Some sym, mkDecIt inner ns chunk_idx 0)
          else if sym =? 0xFFFF then Err HuffmanDecodeError
          else if sym =? SYM_EOS then Err HuffmanDecodeError
          else advance fuel W entries
                 (mkDecIt inner ns chunk_idx (m_padding_bits it + Z.of_nat W))
      end
  end.

(** The range-for over the view, collecting characters. *)
Fixpoint dec_drain (fuel W : nat) (entries : gmap Z (Z * Z)) (it : DecIt) : result (list Z) :=
  match fuel with
  | O => Err UndefinedBehaviour
  | S fuel =>
      '(c, it') ← advance (S fuel) W entries it;
      match c with
      | None => Ok []
      | Some c => cs ← dec_drain fuel W entries it'; Ok (c :: cs)
      end
  end.

Definition HuffmanDecodeView (W : nat) (data : list Z) : result (list Z) :=
  dec_drain (S (8 * length data)) W (m_entries (build_table W)) (mkDecIt data 0 0 0).

Example dec_www :
  HuffmanDecodeView 4 [0xF1; 0xE3; 0xC2; 0xE5; 0xF2; 0x3A; 0x6B; 0xA0; 0xAB; 0x90; 0xF4; 0xFF]
  = Ok (bytes_of_string "www.example.com").
Proof. vm_compute. reflexivity. Qed.
Example enc_w : HuffmanEncodeView (bytes_of_string "w") = Err UndefinedBehaviour.
Proof. vm_compute. reflexivity. Qed.
Example enc_ok : HuffmanEncodeView (bytes_of_string "!") = Ok [0xFE; 0x3F].
Proof. vm_compute. reflexivity. Qed.

(** ** Reference semantics: walking the code tree bit by bit *)

Definition bits_msb (n : nat) (z : Z) : list bool :=
  (fun i : nat => Z.testbit z (Z.of_nat i)) <$> reverse (seq 0 n).

(** The bits RFC 7541 assigns to a symbol, and the bits of an octet string. *)
Definition code_bits (sym : Z) : list bool :=
  match CODES !! Z.to_nat sym with
  | Some (code, len) => bits_msb (Z.to_nat len) code
  | None => []
  end.
Definition encoding (s : list Z) : list bool := s ≫= code_bits.
Definition octet_bits (bs : list Z) : list bool := bs ≫= bits_msb 8.

(** From node [n], the symbols completed by [bits] and the node reached. *)
Fixpoint walk (t : Trie) (n : Z) (bits : list bool) : option (list Z * Z) :=
  match bits with
  | [] => Some ([], n)
  | b :: rest =>
      let NEXT := m_child (node_at t n) (if b then 1 else 0) in
      if NEXT <? 0 then None
      else if m_sym (node_at t NEXT) =? SYM_NONE then walk t NEXT rest
      else '(ss, n') ← walk t 0 rest; Some (m_sym (node_at t NEXT) :: ss, n')
  end.

(** *** Facts established by evaluation *)

Definition T : Trie := build_trie.
Definition B4 : Builder := build_table 4.

Definition check_codes : bool :=
  forallb (fun sym => bool_decide (walk T 0 (code_bits sym) = Some ([sym], 0))) all_bytes.

Definition check_row (t : Trie) (e : gmap Z (Z * Z)) (rows : gmap Z Z) (node row chunk : Z) : bool :=
  match walk t node (bits_msb 4 chunk), e !! (row * 16 + chunk) with
  | None, Some (ns, sym) => (ns =? 0xFFFF) && (sym =? 0xFFFF)
  | Some ([], n'), Some (ns, sym) => bool_decide (rows !! n' = Some ns) && (sym =? 0xFFFE)
  | Some ([s], n'), Some (ns, sym) => bool_decide (rows !! n' = Some ns) && (sym =? s)
  | _, _ => false
  end.

Definition check_table (t : Trie) (e : gmap Z (Z * Z)) (rows : gmap Z Z) : bool :=
  forallb (fun nr : Z * Z => forallb (check_row t e rows nr.1 nr.2) (Z.of_nat <$> seq 0 16))
    (map_to_list rows).

Definition check_children : bool :=
  forallb (fun nt : Z * TrieNode => negb (m_child0 nt.2 =? 0) && negb (m_child1 nt.2 =? 0))
    (map_to_list (m_nodes T)).

Definition check_padding : bool :=
  forallb (fun k => match walk T 0 (replicate k true) with Some ([], _) => true | _ => false end)
    (seq 0 8).

Lemma check_codes_ok : check_codes = true.
Proof. vm_compute. reflexivity. Qed.
Lemma check_table_ok : check_table T (m_entries B4) (node_to_row B4) = true.
Proof. vm_compute. reflexivity. Qed.
Lemma check_children_ok : check_children = true.
Proof. vm_compute. reflexivity. Qed.
Lemma check_padding_ok : check_padding = true.
Proof. vm_compute. reflexivity. Qed.
Lemma root_row : node_to_row B4 !! 0 = Some 0.
Proof. vm_compute. reflexivity. Qed.


Lemma walk_app t n b1 b2 :
  walk t n (b1 ++ b2) =
    match walk t n b1 with
    | Some (ss, n') => match walk t n' b2 with
                       | Some (ss', n'') => Some (ss ++ ss', n'')
                       | None => None
                       end
    | None => None
    end.
Proof.
  revert n. induction b1 as [|b b1 IH]; intros n; cbn [walk app].
  { by destruct (walk t n b2) as [[??]|]. }
  destruct (_ <? 0); [done|]. destruct (_ =? SYM_NONE); rewrite IH; [done|].
  destruct (walk t 0 b1) as [[ss n']|]; [|done]. cbn.
  by destruct (walk t n' b2) as [[??]|].
Qed.

Lemma B4_eq : build_table 4 = B4.
Proof. unfold B4. reflexivity. Qed.

#[local] Opaque T B4 CODES.

Lemma walk_code sym : is_byte sym -> walk T 0 (code_bits sym) = Some ([sym], 0).
Proof.
  intros H. pose proof check_codes_ok as Hc. unfold check_codes in Hc.
  pose proof (byte_check _ sym Hc H) as Hb. cbv beta in Hb. by apply bool_decide_eq_true_1 in Hb.
Qed.

Lemma walk_padding k : (k < 8)%nat -> exists n, walk T 0 (replicate k true) = Some ([], n).
Proof.
  intros Hk. pose proof check_padding_ok as H. unfold check_padding in H.
  rewrite forallb_forall in H. specialize (H k ltac:(apply in_seq; lia)).
  destruct (walk T 0 (replicate k true)) as [[[|??] n]|]; [by eauto|done|done].
Qed.

Lemma child_nonroot n b : m_child (node_at T n) b <> 0.
Proof.
  pose proof check_children_ok as H. unfold check_children in H. rewrite forallb_forall in H.
  unfold node_at. destruct (m_nodes T !! n) as [nd|] eqn:E; cbn.
  - specialize (H (n, nd)). rewrite <- list_elem_of_In, elem_of_map_to_list in H.
    specialize (H E). unfold m_child. cbn in H. destruct (b =? 0); lia.
  - unfold m_child. by destruct (b =? 0).
Qed.

Lemma check_table_sound t e rows node row chunk ss n' :
  check_table t e rows = true -> rows !! node = Some row -> 0 <= chunk < 16 ->
  walk t node (bits_msb 4 chunk) = Some (ss, n') ->
  exists ns sym, e !! (row * 16 + chunk) = Some (ns, sym) /\ rows !! n' = Some ns /\
    (ss = [] /\ sym = 0xFFFE \/ ss = [sym]).
Proof.
  intros H Hrow Hc Hw. unfold check_table in H. rewrite forallb_forall in H.
  specialize (H (node, row)). rewrite <- list_elem_of_In, elem_of_map_to_list in H.
  specialize (H Hrow). cbn [fst snd] in H. rewrite forallb_forall in H.
  assert (check_row t e rows node row chunk = true) as Hr.
  { apply H, list_elem_of_In, list_elem_of_fmap. exists (Z.to_nat chunk).
    split; [lia|]. apply elem_of_seq. lia. }
  unfold check_row in Hr. rewrite Hw in Hr.
  destruct (e !! (row * 16 + chunk)) as [[ns sym]|]; destruct ss as [|s [|??]]; try done;
    apply andb_true_iff in Hr as [Hns Hs]; apply bool_decide_eq_true_1 in Hns;
    apply Z.eqb_eq in Hs; subst; eauto 10.
Qed.

(** *** The decoder as a machine over the list of chunks *)

Fixpoint fsm_run (e : gmap Z (Z * Z)) (fsm pad : Z) (cs : list Z) : result (list Z) :=
  match cs with
  | [] => if negb (fsm =? 0) && (7 <? pad) then Err HuffmanDecodeError else Ok []
  | c :: cs =>
      let '(ns, sym) := default (0, 0) (e !! (fsm * 16 + c)) in
      if sym <? 256 then l ← fsm_run e ns 0 cs; Ok (sym :: l)
      else if sym =? 0xFFFF then Err HuffmanDecodeError
      else if sym =? SYM_EOS then Err HuffmanDecodeError
      else fsm_run e ns (pad + 4) cs
  end.

Definition nibbles (bs : list Z) : list Z := bs ≫= (fun b => [b / 16; b mod 16]).

Definition chunks_left (it : DecIt) : list Z :=
  match m_chunk_idx it, m_inner it with
  | O, bs => nibbles bs
  | _, b :: bs => b mod 16 :: nibbles bs
  | _, [] => []
  end.

Definition it_ok (it : DecIt) : Prop :=
  Forall is_byte (m_inner it) /\
  (m_chunk_idx it = 0%nat \/ m_chunk_idx it = 1%nat /\ m_inner it <> []).

Lemma bits_octet b : is_byte b -> bits_msb 8 b = bits_msb 4 (b / 16) ++ bits_msb 4 (b mod 16).
Proof. intros H. byte_decide H. Qed.

Lemma chunk_hi b : is_byte b -> Z.land (2 ^ Z.of_nat 4 - 1) (Z.shiftr b (8 - Z.of_nat 4 * (Z.of_nat 0 + 1))) = b / 16.
Proof. intros H. byte_decide H. Qed.
Lemma chunk_lo b : is_byte b -> Z.land (2 ^ Z.of_nat 4 - 1) (Z.shiftr b (8 - Z.of_nat 4 * (Z.of_nat 1 + 1))) = b mod 16.
Proof. intros H. byte_decide H. Qed.

Lemma octet_bits_nibbles bs : Forall is_byte bs -> octet_bits bs = nibbles bs ≫= bits_msb 4.
Proof.
  induction 1 as [|b bs Hb Hbs IH]; [done|]. unfold octet_bits, nibbles in *.
  rewrite !bind_cons, bits_octet, IH by done. cbn [app]. by rewrite !bind_cons, <- app_assoc.
Qed.

Lemma length_nibbles bs : length (nibbles bs) = (2 * length bs)%nat.
Proof.
  unfold nibbles. induction bs as [|b bs IH]; [done|]. rewrite bind_cons, length_app, IH. cbn. lia.
Qed.

Lemma nibbles_bound bs : Forall is_byte bs -> Forall (fun c => 0 <= c < 16) (nibbles bs).
Proof.
  induction 1 as [|b bs Hb Hbs IH]; [constructor|]. unfold nibbles in *. cbn.
  unfold is_byte in Hb. repeat constructor; try mlia. done.
Qed.

(** The iterator after one turn of [advance]'s loop. *)
Definition it_next (it : DecIt) (ns pad : Z) : DecIt :=
  match m_chunk_idx it, m_inner it with
  | O, bs => mkDecIt bs ns 1 pad
  | _, _ :: bs => mkDecIt bs ns 0 pad
  | _, [] => it
  end.

Lemma it_next_ok it c cs ns pad :
  it_ok it -> chunks_left it = c :: cs ->
  it_ok (it_next it ns pad) /\ chunks_left (it_next it ns pad) = cs /\
  m_fsm (it_next it ns pad) = ns /\ m_padding_bits (it_next it ns pad) = pad.
Proof.
  destruct it as [[|b bs] fsm [|i] pd]; intros [Hb Hi] Hc; cbn in *; try done.
  - injection Hc as <- <-. split_and!; [split; cbn; [done|by right]|done|done|done].
  - destruct Hi as [|[Hi _]]; [done|]. injection Hc as <- <-. injection Hi as ->.
    apply Forall_cons in Hb as [_ Hb]. split_and!; [split; cbn; [done|by left]|done|done|done].
Qed.

Lemma advance_step f e it c cs :
  it_ok it -> chunks_left it = c :: cs ->
  advance (S f) 4 e it =
    let '(ns, sym) := default (0, 0) (e !! (m_fsm it * 16 + c)) in
    if sym <? 256 then Ok (Some sym, it_next it ns 0)
    else if sym =? 0xFFFF then Err HuffmanDecodeError
    else if sym =? SYM_EOS then Err HuffmanDecodeError
    else advance f 4 e (it_next it ns (m_padding_bits it + 4)).
Proof.
  destruct it as [[|b bs] fsm [|i] pd]; intros [Hb Hi] Hc; cbn in Hc; try done;
    apply Forall_cons in Hb as [Hb _]; cbn [advance m_inner m_chunk_idx m_fsm m_padding_bits].
  - injection Hc as <- <-. rewrite chunk_hi by done. done.
  - destruct Hi as [|[Hi _]]; [done|]. cbn in Hi. injection Hi as ->. injection Hc as <- <-.
    rewrite chunk_lo by done. done.
Qed.

Lemma advance_end f e it :
  it_ok it -> chunks_left it = [] ->
  advance (S f) 4 e it =
    if negb (m_fsm it =? 0) && (7 <? m_padding_bits it) then Err HuffmanDecodeError else Ok (None, it).
Proof.
  destruct it as [[|b bs] fsm [|i] pd]; intros [Hb Hi] Hc; cbn in *; try done.
  by destruct Hi as [|[_ Hi]].
Qed.

(** [advance], from any state, runs the machine to the next symbol. *)
Lemma advance_fsm e fuel k it :
  it_ok it -> (length (chunks_left it) < fuel)%nat ->
  (forall it', it_ok it' -> (length (chunks_left it') < length (chunks_left it))%nat ->
    k it' = fsm_run e (m_fsm it') 0 (chunks_left it') \/ m_padding_bits it' <> 0) ->
  ('(c, it') ← advance fuel 4 e it;
   match c with None => Ok [] | Some c => cs ← k it'; Ok (c :: cs) end) =
  fsm_run e (m_fsm it) (m_padding_bits it) (chunks_left it).
Proof.
  revert it. induction fuel as [|fuel IH]; intros it Hit Hlen Hk; [lia|].
  destruct (chunks_left it) as [|c cs] eqn:Hcs.
  - rewrite advance_end by done. cbn. by destruct (negb _ && _).
  - rewrite (advance_step _ _ _ c cs) by done. cbn [fsm_run].
    destruct (default (0, 0) _) as [ns sym]. destruct (sym <? 256).
    + destruct (it_next_ok it c cs ns 0 Hit Hcs) as (H1 & H2 & H3 & H4). cbn.
      destruct (Hk _ H1) as [->|]; [by rewrite H2; cbn; lia|by rewrite H2, H3|done].
    + destruct (sym =? 0xFFFF); [done|]. destruct (sym =? SYM_EOS); [done|].
      destruct (it_next_ok it c cs ns (m_padding_bits it + 4) Hit Hcs) as (H1 & H2 & H3 & H4).
      rewrite IH; [by rewrite H2, H3, H4|done| |].
      * rewrite H2. cbn in Hlen. lia.
      * intros it' ? Hl. apply Hk; [done|]. rewrite H2 in Hl. cbn. lia.
Qed.

Lemma drain_fsm e fuel it :
  it_ok it -> (length (chunks_left it) < fuel)%nat ->
  dec_drain fuel 4 e it = fsm_run e (m_fsm it) (m_padding_bits it) (chunks_left it).
Proof.
  revert it. induction fuel as [|fuel IH]; intros it Hit Hlen; [lia|]. cbn [dec_drain].
  apply (advance_fsm e (S fuel) (dec_drain fuel 4 e)); [done|done|].
  intros it' Hit' Hl. destruct (Z.eq_dec (m_padding_bits it') 0) as [E|]; [left|by right].
  rewrite IH by (done || lia). by rewrite E.
Qed.

(** ** Simulation

    The development below is parametric in the trie [t], the table [e] and the row
    numbering [rows]; the evaluated facts above are its hypotheses. *)
Section Simulation.
Context (t : Trie) (e : gmap Z (Z * Z)) (rows : gmap Z Z).
Hypothesis codes_ok : forall sym, is_byte sym -> walk t 0 (code_bits sym) = Some ([sym], 0).
Hypothesis nonroot : forall n b, m_child (node_at t n) b <> 0.
Hypothesis table_ok : check_table t e rows = true.
Hypothesis root_ok : rows !! 0 = Some 0.
Hypothesis padding_ok :
  forall k, (k < 8)%nat -> exists n, walk t 0 (replicate k true) = Some ([], n).

Lemma walk_encoding s : Forall is_byte s -> walk t 0 (encoding s) = Some (s, 0).
Proof.
  induction 1 as [|c s Hc Hs IH]; [done|]. unfold encoding in *. rewrite bind_cons.
  by rewrite walk_app, codes_ok, IH.
Qed.

(** A walk that returns to the root without completing a symbol is empty. *)
Lemma walk_to_root n bits : walk t n bits = Some ([], 0) -> bits = [].
Proof.
  revert n. assert (forall bits n, n <> 0 -> walk t n bits <> Some ([], 0)) as G.
  { induction bits0 as [|b bits0 IH]; intros n Hn; cbn [walk]; [congruence|].
    destruct (_ <? 0); [done|]. destruct (_ =? SYM_NONE).
    - apply IH, nonroot.
    - by destruct (walk t 0 bits0) as [[??]|]. }
  intros n. destruct bits as [|b bits]; [done|]. cbn [walk]. destruct (_ <? 0); [done|].
  destruct (_ =? SYM_NONE).
  - intros H. by apply G in H; [|apply nonroot].
  - by destruct (walk t 0 bits) as [[??]|].
Qed.

(** One table lookup simulates the walk over the four bits of the chunk. *)
Lemma entry_walk node row chunk ss n' :
  rows !! node = Some row -> 0 <= chunk < 16 ->
  walk t node (bits_msb 4 chunk) = Some (ss, n') ->
  exists ns sym, e !! (row * 16 + chunk) = Some (ns, sym) /\ rows !! n' = Some ns /\
    (ss = [] /\ sym = 0xFFFE \/ ss = [sym]).
Proof. by apply check_table_sound. Qed.

(** The tail of a stream: chunks that complete no symbol, at most seven bits of them. *)
Lemma fsm_run_tail cs fsm pad node nf :
  Forall (fun c => 0 <= c < 16) cs -> rows !! node = Some fsm ->
  walk t node (cs ≫= bits_msb 4) = Some ([], nf) -> pad + 4 * Z.of_nat (length cs) <= 7 ->
  fsm_run e fsm pad cs = Ok [].
Proof.
  intros Hcs. revert fsm pad node. induction Hcs as [|c cs Hc Hcs IH]; intros fsm pad node Hn Hw Hp.
  { cbn in *. destruct (Z.ltb_spec 7 pad); [lia|]. by rewrite andb_false_r. }
  rewrite bind_cons, walk_app in Hw.
  destruct (walk t node (bits_msb 4 c)) as [[ss n']|] eqn:Hw1; [|done].
  destruct (walk t n' (cs ≫= bits_msb 4)) as [[ss' n'']|] eqn:Hw2; [|done].
  injection Hw as [-> ->]%app_nil ->.
  destruct (entry_walk _ _ _ _ _ Hn Hc Hw1) as (ns & sym & He & Hns & [[_ ->]|[=]]).
  cbn [fsm_run]. rewrite He. cbn [default id]. cbn [length] in Hp.
  apply (IH _ _ n'); [done|done|lia].
Qed.

Lemma length_chunk_bits cs : length (cs ≫= bits_msb 4) = (4 * length cs)%nat.
Proof. induction cs as [|c cs IH]; [done|]. rewrite bind_cons, length_app, IH. cbn. lia. Qed.

Lemma fsm_run_sym fsm pad c cs ns sym l :
  e !! (fsm * 16 + c) = Some (ns, sym) -> is_byte sym ->
  fsm_run e ns 0 cs = Ok l ->
  fsm_run e fsm pad (c :: cs) = Ok (sym :: l).
Proof.
  intros He Hs Hr. cbn [fsm_run]. rewrite He. cbn [default id]. unfold is_byte in Hs.
  destruct (Z.ltb_spec sym 256); [|lia].
  by rewrite Hr.
Qed.

(** A stream of complete codes [B1] followed by at most seven bits [B2] of padding. *)
Lemma fsm_run_walk cs fsm pad node syms B1 B2 nf :
  Forall (fun c => 0 <= c < 16) cs -> Forall is_byte syms ->
  rows !! node = Some fsm -> cs ≫= bits_msb 4 = B1 ++ B2 -> (length B2 <= 7)%nat ->
  walk t node B1 = Some (syms, 0) -> syms <> [] -> walk t 0 B2 = Some ([], nf) ->
  fsm_run e fsm pad cs = Ok syms.
Proof.
  intros Hcs. revert fsm pad node syms B1 B2.
  induction Hcs as [|c cs Hc Hcs IH]; intros fsm pad node syms B1 B2 Hs Hn HB HB2 Hw1 Hne Hw2.
  { cbn in HB. symmetry in HB. apply app_nil in HB as [-> ->]. cbn in Hw1. congruence. }
  rewrite bind_cons in HB. pose proof (length_chunk_bits cs) as Hlen.
  apply app_eq_inv in HB as [(k & Hq & ->)|(k & -> & Hr)].
  - (* the last code ends inside this chunk *)
    rewrite walk_app in Hw2. destruct (walk t 0 k) as [[s1 n2]|] eqn:Hk; [|done].
    destruct (walk t n2 (cs ≫= bits_msb 4)) as [[s2 n3]|] eqn:Hr; [|done].
    injection Hw2 as [-> ->]%app_nil ->.
    assert (walk t node (bits_msb 4 c) = Some (syms, n2)) as Hw
      by (rewrite Hq, walk_app, Hw1, Hk; by rewrite app_nil_r).
    destruct (entry_walk _ _ _ _ _ Hn Hc Hw) as (ns & sym & He & Hns & [[-> _]| ->]); [done|].
    apply Forall_cons in Hs as [Hs _]. apply (fsm_run_sym _ _ _ _ ns); [exact He|exact Hs|].
    apply (fsm_run_tail cs ns 0 n2 nf); [done|done|done|]. rewrite length_app in HB2. lia.
  - (* the codes go on after this chunk *)
    rewrite walk_app in Hw1. destruct (walk t node (bits_msb 4 c)) as [[s1 n1]|] eqn:Hw; [|done].
    destruct (walk t n1 k) as [[s2 n2]|] eqn:Hk; [|done]. injection Hw1 as <- ->.
    apply Forall_app in Hs as [Hs1 Hs2].
    destruct (entry_walk _ _ _ _ _ Hn Hc Hw) as (ns & sym & He & Hns & Hcase).
    assert (s2 = [] -> fsm_run e ns 0 cs = Ok []) as Hend.
    { intros ->. apply walk_to_root in Hk as Hnil. subst k. cbn in Hk. injection Hk as ->.
      rewrite app_nil_l in Hr. rewrite Hr in Hlen.
      apply (fsm_run_tail cs ns 0 0 nf); [done|done|by rewrite Hr|lia]. }
    destruct Hcase as [[-> ->]| ->].
    + cbn [fsm_run]. rewrite He. cbn [default id app] in *. apply (IH _ _ n1 s2 k B2); done.
    + apply Forall_cons in Hs1 as [Hs1 _]. apply (fsm_run_sym _ _ _ _ ns); [exact He|exact Hs1|].
      destruct s2 as [|s s2]; [by apply Hend|]. by apply (IH _ _ n1 (s :: s2) k B2).
Qed.

(** Decoding a padded stream of codes. *)
Lemma dec_drain_encoding s data pad :
  Forall is_byte s -> Forall is_byte data -> (pad < 8)%nat ->
  octet_bits data = encoding s ++ replicate pad true ->
  dec_drain (S (8 * length data)) 4 e (mkDecIt data 0 0 0) = Ok s.
Proof.
  intros Hs Hd Hpad Hbits.
  assert (it_ok (mkDecIt data 0 0 0)) as Hok by (split; [done|by left]).
  rewrite drain_fsm; [|done|cbn [chunks_left m_chunk_idx m_inner]; rewrite length_nibbles; lia].
  cbn [m_fsm m_padding_bits chunks_left m_chunk_idx m_inner].
  rewrite octet_bits_nibbles in Hbits by done.
  destruct (padding_ok pad Hpad) as [nf Hnf]. destruct s as [|c s].
  - apply (fsm_run_tail _ 0 0 0 nf); [by apply nibbles_bound|done|by rewrite Hbits|].
    apply (f_equal length) in Hbits. rewrite length_chunk_bits in Hbits.
    cbn in Hbits. rewrite length_replicate in Hbits. lia.
  - apply (fsm_run_walk _ 0 0 0 (c :: s) (encoding (c :: s)) (replicate pad true) nf);
      try done; [by apply nibbles_bound|rewrite length_replicate; lia|by apply walk_encoding].
Qed.

End Simulation.

Lemma HuffmanDecodeView_encoding (s data : list Z) (pad : nat) :
  Forall is_byte s -> Forall is_byte data -> (pad < 8)%nat ->
  octet_bits data = encoding s ++ replicate pad true ->
  HuffmanDecodeView 4 data = Ok s.
Proof.
  unfold HuffmanDecodeView. rewrite B4_eq.
  exact (dec_drain_encoding T (m_entries B4) (node_to_row B4) walk_code child_nonroot
           check_table_ok root_row walk_padding s data pad).
Qed.

(** C34: the table-driven decoder inverts the Huffman code of RFC 7541: octets that hold the
    codes of [s] followed by fewer than eight one-bits of padding decode to [s]. *)
Theorem huffman_decode_encoding (s data : list Z) (pad : nat) :
  Forall is_byte s -> Forall is_byte data -> (pad < 8)%nat ->
  octet_bits data = encoding s ++ replicate pad true ->
  HuffmanDecodeView 4 data = Ok s.
Proof. apply HuffmanDecodeView_encoding. Qed.

Lemma huffman_decode_encoding_witness :
  HuffmanDecodeView 4 [0xF1; 0xE3; 0xC2; 0xE5; 0xF2; 0x3A; 0x6B; 0xA0; 0xAB; 0x90; 0xF4; 0xFF]
  = Ok (bytes_of_string "www.example.com").
Proof.
  apply (huffman_decode_encoding _ _ 7); [apply bytes_of_string_bytes| |lia|vm_compute; reflexivity].
  solve_bytes.
Defined.

(** Lengths of all codes, by evaluation. *)
Lemma codes_length : Forall (fun cl : Z * Z => 5 <= cl.2 <= 30) CODES.
Proof. apply (bool_decide_eq_true_1 _). vm_compute. reflexivity. Qed.

(** the lazy encoder pulls one symbol per output octet instead of filling its
    accumulator up to eight bits.  Any input that starts with one of the symbols whose code
    is shorter than eight bits (all letters and digits among them) makes the very first
    dereference shift by a negative amount, which is undefined behaviour. *)
Theorem huffman_encode_short_code_undefined (sym code len : Z) (rest : list Z) :
  CODES !! Z.to_nat sym = Some (code, len) -> len < 8 ->
  HuffmanEncodeView (sym :: rest) = Err UndefinedBehaviour.
Proof.
  intros Hc Hlen. unfold HuffmanEncodeView, enc_advance. cbn [e_inner m_bits m_shift e_done].
  rewrite Hc. cbn [mbind result_bind].
  replace (4 * length (sym :: rest) + 4)%nat with (S (4 * length (sym :: rest) + 3)) by lia.
  cbn [enc_drain e_done]. unfold enc_deref, shift_ok. cbn [m_shift].
  destruct (Z.leb_spec 0 (0 + len - 8)); [lia|]. done.
Qed.

Lemma huffman_encode_short_code_undefined_witness :
  HuffmanEncodeView (bytes_of_string "www.example.com") = Err UndefinedBehaviour.
Proof.
  apply (huffman_encode_short_code_undefined 119 0x78 7); [vm_compute; reflexivity|lia].
Defined.

(** RFC 7541 section 5.2 and the comment in [advance] require leftover bits to be a
    prefix of the EOS code (all ones).  The decoder only counts them: zeros after the code
    of [a] are accepted. *)
Theorem huffman_accepts_zero_padding :
  octet_bits [0x18] = encoding (bytes_of_string "a") ++ [false; false; false] /\
  HuffmanDecodeView 4 [0x18] = Ok (bytes_of_string "a").
Proof. split; vm_compute; reflexivity. Qed.
