(* ===== verification/StringCodec.v ===== *)
(** * Length-prefixed strings (RFC 7541 section 5.2)

    Models [EncodeStringAdaptor] / [DecodeStringAdaptor] of
    src/include/io/codec/shared/lowlevel.cppm and [Atom::encode_string] /
    [Atom::decode_string] of src/include/io/codec/shared/atom.cppm.  The decode width of
    the Huffman table is 4, as at every call site. *)

From stdpp Require Import base strings list.
From Stdlib Require Import ZArith Lia.
From S2P Require Import Prelude IntCodec Huffman.

Open Scope Z_scope.

Definition HUFFMAN_ENABLED : Z := 0x80.
Definition HUFFMAN_DISABLED : Z := 0x00.
Definition MAX_LENGTH : Z := 65536.

(** ** Range adaptors *)

(** The Huffman branch of [operator()] is commented out in the source: [huffman_encode] is
    stored and ignored, and the body is always raw. *)
Definition EncodeStringAdaptor (huffman_encode : bool) (prefix_size : Z) (data : list Z)
    : result (list Z) :=
  let LEN := u32 (Z.of_nat (length data)) in
  len ← encode_int_view 32 LEN prefix_size HUFFMAN_DISABLED;
  Ok (len ++ data).

Definition DecodeStringAdaptor (data : list Z) : result (string * nat) :=
  match data with
  | [] => Err TruncatedDataError
  | first :: _ =>
      let TOTAL := length data in
      let H_FLAG := negb (Z.land first 0x80 =? 0) in
      LENGTH ← DecodeIntAdaptor 32 0 7 data;
      let HEADER := consumed LENGTH in
      if MAX_LENGTH <? value LENGTH then Err StringDecodeError
      else if Z.of_nat TOTAL <? Z.of_nat HEADER + value LENGTH then Err StringDecodeError
      else
        let body := take (Z.to_nat (value LENGTH)) (drop HEADER data) in
        let CONSUMED := (HEADER + Z.to_nat (value LENGTH))%nat in
        if H_FLAG then
          decoded ← HuffmanDecodeView 4 body;
          Ok (string_of_bytes decoded, CONSUMED)
        else Ok (string_of_bytes body, CONSUMED)
  end.

(** ** The cursor codec of [Atom] *)

(** [huffman] tells whether the Huffman coder pointer is non-null. *)
Definition encode_string (huffman : bool) (str : string) (prefix_size : Z) : result (list Z) :=
  if huffman then
    encoded ← HuffmanEncodeView (bytes_of_string str);
    len ← encode_int 32 (u32 (Z.of_nat (length encoded))) prefix_size HUFFMAN_ENABLED;
    Ok (len ++ encoded)
  else
    len ← encode_int 32 (u32 (Z.of_nat (String.length str))) prefix_size HUFFMAN_DISABLED;
    Ok (len ++ bytes_of_string str).

Definition decode_string (data : list Z) (pos : nat) : result (string * nat) :=
  match data !! pos with
  | None => Err TruncatedDataError
  | Some first =>
      let HUFFMAN_FLAG := negb (Z.land first 0x80 =? 0) in
      '(LENGTH, pos) ← decode_int 32 0 data pos 7;
      if MAX_LENGTH <? value LENGTH then Err StringDecodeError
      else if Z.of_nat (length data) <? Z.of_nat pos + value LENGTH then Err StringDecodeError
      else
        let body := take (Z.to_nat (value LENGTH)) (drop pos data) in
        let pos := (pos + Z.to_nat (value LENGTH))%nat in
        if HUFFMAN_FLAG then
          decoded ← HuffmanDecodeView 4 body;
          Ok (string_of_bytes decoded, pos)
        else Ok (string_of_bytes body, pos)
  end.

(** ** Lemmas *)

#[local] Opaque HuffmanDecodeView HuffmanEncodeView encode_int_loop.

(** The Huffman flag is the bit above the 7-bit length prefix. *)
Lemma H_flag prefix i :
  is_byte prefix -> 0 <= i < 2 ^ 7 ->
  (Z.land (first_octet 7 prefix i) 0x80 =? 0) = (prefix <? 128).
Proof.
  intros Hp Hi. destruct (first_octet_fits 7 prefix i ltac:(lia) Hp Hi) as (Hb & _ & _).
  rewrite land_80 by done. unfold first_octet, is_byte in *. mlia.
Qed.

(** The length header: its first octet carries the flag, and it decodes to the length. *)
Lemma length_header len prefix rest :
  is_byte prefix -> 0 <= len < 2 ^ 32 -> Forall is_byte rest ->
  exists b bs, encode_int_view 32 len 7 prefix = Ok (b :: bs) /\
    encode_int 32 len 7 prefix = Ok (b :: bs) /\
    Forall is_byte (b :: bs) /\ (Z.land b 0x80 =? 0) = (prefix <? 128) /\
    DecodeIntAdaptor 32 0 7 ((b :: bs) ++ rest) =
      Ok (mkDecodeIntResult len 0 (length (b :: bs))).
Proof.
  intros Hp Hl Hr.
  destruct (encode_decode_int 32 len 7 prefix 0 rest) as (l & He & Hb & Hd); [lia|lia|done..|].
  rewrite encode_int_view_eq in * by (done || lia).
  pose proof He as He'. rewrite encode_int_eq in He' by (done || lia).
  generalize dependent (encode_int_loop (Z.to_nat 32) (len - (2 ^ 7 - 1))). intros l' He'.
  destruct l as [|b bs]; [by case_match|]. exists b, bs. split_and!; try done.
  destruct (Z.ltb_spec len (2 ^ 7 - 1)); injection He' as <- _; apply H_flag; (done || lia).
Qed.

Lemma take_header (hdr body rest : list Z) :
  take (length body) (drop (length hdr) (hdr ++ body ++ rest)) = body.
Proof. by rewrite drop_app_length, take_app_length. Qed.

Lemma DecodeStringAdaptor_frame b hdr body rest :
  Z.of_nat (length body) <= MAX_LENGTH ->
  DecodeIntAdaptor 32 0 7 ((b :: hdr) ++ body ++ rest) =
    Ok (mkDecodeIntResult (Z.of_nat (length body)) 0 (length (b :: hdr))) ->
  DecodeStringAdaptor ((b :: hdr) ++ body ++ rest) =
    decoded ← (if negb (Z.land b 0x80 =? 0) then HuffmanDecodeView 4 body else Ok body);
    Ok (string_of_bytes decoded, length ((b :: hdr) ++ body)).
Proof.
  intros Hlen Hd. unfold DecodeStringAdaptor. rewrite Hd. cbn [mbind result_bind value consumed].
  cbn [app].
  destruct (Z.ltb_spec MAX_LENGTH (Z.of_nat (length body))); [lia|].
  destruct (Z.ltb_spec (Z.of_nat (length (b :: hdr ++ body ++ rest)))
    (Z.of_nat (length (b :: hdr)) + Z.of_nat (length body))) as [Hc|_].
  { simpl in Hc. rewrite !length_app in Hc. lia. }
  change (b :: hdr ++ body ++ rest) with ((b :: hdr) ++ body ++ rest).
  rewrite Nat2Z.id, take_header.
  change (b :: hdr ++ body) with ((b :: hdr) ++ body).
  rewrite length_app. by destruct (negb _).
Qed.

Lemma decode_string_eq data pos :
  decode_string data pos =
    match DecodeStringAdaptor (drop pos data) with
    | Ok (s, n) => Ok (s, (pos + n)%nat)
    | Err e => Err e
    end.
Proof.
  unfold decode_string, DecodeStringAdaptor. rewrite decode_int_eq by lia.
  destruct (data !! pos) as [b|] eqn:Hb.
  2: { apply lookup_ge_None in Hb. by rewrite drop_ge. }
  pose proof (lookup_lt_Some _ _ _ Hb) as Hlt.
  assert (length (drop pos data) = length data - pos)%nat as HL by apply length_drop.
  rewrite (drop_lookup_cons _ _ _ Hb) in *.
  destruct (DecodeIntAdaptor 32 0 7 _) as [r|] eqn:Hd; [|done].
  cbn [mbind result_bind value]. destruct (MAX_LENGTH <? value r); [done|].
  rewrite HL, <- drop_lookup_cons, drop_drop by done.
  destruct (Z.ltb_spec (Z.of_nat (length data)) (Z.of_nat (pos + consumed r) + value r)),
    (Z.ltb_spec (Z.of_nat (length data - pos)) (Z.of_nat (consumed r) + value r)); try lia; [done|].
  destruct (negb _); [destruct (HuffmanDecodeView 4 _)|]; cbn; try done; do 2 f_equal; lia.
Qed.

(** [s] as a raw or as a Huffman-coded string literal: [body] is what follows the length. *)
Inductive string_body (s : string) : bool -> list Z -> Prop :=
  | raw_body : string_body s false (bytes_of_string s)
  | huffman_body data pad :
      Forall is_byte data -> (pad < 8)%nat ->
      octet_bits data = encoding (bytes_of_string s) ++ replicate pad true ->
      string_body s true data.

Lemma string_body_bytes s h body : string_body s h body -> Forall is_byte body.
Proof. destruct 1; [apply bytes_of_string_bytes|done]. Qed.

Lemma string_body_decode s h body :
  string_body s h body -> (if h then HuffmanDecodeView 4 body else Ok body) = Ok (bytes_of_string s).
Proof.
  destruct 1 as [|data pad]; [done|]. apply (HuffmanDecodeView_encoding _ _ pad); try done.
  apply bytes_of_string_bytes.
Qed.

(** The length octets the raw encoders emit. *)
Lemma decode_string_literal s h body rest :
  string_body s h body -> Z.of_nat (length body) <= MAX_LENGTH -> Forall is_byte rest ->
  exists len,
    encode_int_view 32 (Z.of_nat (length body)) 7 (if h then HUFFMAN_ENABLED else HUFFMAN_DISABLED) = Ok len /\
    encode_int 32 (Z.of_nat (length body)) 7 (if h then HUFFMAN_ENABLED else HUFFMAN_DISABLED) = Ok len /\
    Forall is_byte len /\ (0 < length len)%nat /\
    DecodeStringAdaptor (len ++ body ++ rest) = Ok (s, length (len ++ body)).
Proof.
  intros Hs Hl Hr. unfold MAX_LENGTH in Hl.
  destruct (length_header (Z.of_nat (length body)) (if h then HUFFMAN_ENABLED else HUFFMAN_DISABLED) (body ++ rest))
    as (b & bs & Hv & He & Hb & Hf & Hd).
  - unfold is_byte, HUFFMAN_ENABLED, HUFFMAN_DISABLED. destruct h; lia.
  - lia.
  - apply Forall_app. split; [by eapply string_body_bytes|done].
  - exists (b :: bs). split_and!; [done|done|done|simpl; lia|].
    rewrite DecodeStringAdaptor_frame by done. rewrite Hf.
    replace (negb _) with h by by destruct h.
    rewrite (string_body_decode s) by done. cbn. by rewrite string_of_bytes_of_string.
Qed.

Lemma EncodeStringAdaptor_decode h s :
  Z.of_nat (String.length s) <= MAX_LENGTH ->
  exists bs, EncodeStringAdaptor h 7 (bytes_of_string s) = Ok bs /\ Forall is_byte bs /\
    (0 < length bs)%nat /\
    forall rest, Forall is_byte rest -> DecodeStringAdaptor (bs ++ rest) = Ok (s, length bs).
Proof.
  intros Hl. unfold EncodeStringAdaptor. rewrite wrap_small.
  2: { rewrite length_bytes_of_string. unfold MAX_LENGTH in Hl. lia. }
  assert (forall rest, Forall is_byte rest -> exists len,
    encode_int_view 32 (Z.of_nat (length (bytes_of_string s))) 7 HUFFMAN_DISABLED = Ok len /\
    Forall is_byte len /\ (0 < length len)%nat /\
    DecodeStringAdaptor (len ++ bytes_of_string s ++ rest) = Ok (s, length (len ++ bytes_of_string s))) as Hlit.
  { intros rest Hr. destruct (decode_string_literal s false (bytes_of_string s) rest)
      as (len & Hv & _ & Hb & Hp & Hd); [constructor|by rewrite length_bytes_of_string|done|]. eauto. }
  destruct (Hlit [] (Forall_nil_2 _)) as (len & Hv & Hb & Hp & _).
  rewrite Hv. eexists. split; [done|]. split; [|split].
  - apply Forall_app. split; [done|apply bytes_of_string_bytes].
  - rewrite length_app. lia.
  - intros rest Hr. rewrite <- app_assoc. destruct (Hlit rest Hr) as (len' & Hv' & _ & _ & Hd).
    rewrite Hv in Hv'. by injection Hv' as <-.
Qed.

Lemma DecodeStringAdaptor_bounds (data : list Z) (s : string) (n : nat) :
  Forall is_byte data -> DecodeStringAdaptor data = Ok (s, n) ->
  (1 <= n <= length data)%nat /\
  (Z.land (hd 0 data) 0x80 = 0 -> Z.of_nat (String.length s) <= MAX_LENGTH).
Proof.
  intros Hdata. unfold DecodeStringAdaptor. destruct data as [|b data]; [done|].
  intros (r & Hr & Hd)%result_bind_Ok.
  apply DecodeIntAdaptor_sound in Hr as (v & Hv & Hval & Hc); [|lia|done].
  destruct (Z.ltb_spec MAX_LENGTH (value r)); [done|].
  destruct (Z.ltb_spec (Z.of_nat (length (b :: data))) (Z.of_nat (consumed r) + value r)); [done|].
  assert (0 <= value r) by (rewrite Hval; apply Z.mod_pos_bound; lia).
  apply rfc_decode_consumed in Hv.
  assert (n = consumed r + Z.to_nat (value r))%nat as ->.
  { destruct (negb _) in Hd; [apply result_bind_Ok in Hd as (? & _ & ?)|]; by simplify_eq. }
  split; [lia|]. intros Hflag. simpl in Hflag. rewrite Hflag in Hd. simplify_eq/=.
  rewrite length_string_of_bytes, length_take. lia.
Qed.

(** ** Properties *)

(** a string the range encoder or the cursor encoder writes (raw, as both do without a
    Huffman coder) is read back unchanged by both decoders, which consume exactly the
    octets written, whatever precedes and follows them. *)
Theorem decode_encode_string (h : bool) (s : string) (pre rest : list Z) :
  Z.of_nat (String.length s) <= MAX_LENGTH -> Forall is_byte rest ->
  exists bs, EncodeStringAdaptor h 7 (bytes_of_string s) = Ok bs /\
    encode_string false s 7 = Ok bs /\
    DecodeStringAdaptor (bs ++ rest) = Ok (s, length bs) /\
    decode_string (pre ++ bs ++ rest) (length pre) = Ok (s, (length pre + length bs)%nat).
Proof.
  intros Hl Hr. destruct (EncodeStringAdaptor_decode h s Hl) as (bs & He & Hb & _ & Hd). specialize (Hd rest Hr).
  exists bs. split_and!; [done| |done|].
  - revert He. unfold EncodeStringAdaptor, encode_string. rewrite length_bytes_of_string.
    rewrite encode_int_view_eq; [done|lia|unfold is_byte, HUFFMAN_DISABLED; lia|].
    apply wrap_range. lia.
  - rewrite decode_string_eq, drop_app_length, Hd. done.
Qed.

Lemma decode_encode_string_witness :
  exists bs, EncodeStringAdaptor true 7 (bytes_of_string "custom-key") = Ok bs /\
    encode_string false "custom-key" 7 = Ok bs /\
    DecodeStringAdaptor (bs ++ [1]) = Ok ("custom-key"%string, length bs) /\
    decode_string ([4; 4] ++ bs ++ [1]) 2 = Ok ("custom-key"%string, (2 + length bs)%nat).
Proof.
  apply (decode_encode_string true "custom-key" [4; 4] [1]); [vm_compute; done|].
  solve_bytes.
Defined.

(** a Huffman-coded literal in the sense of RFC 7541 section 5.2 (the code of every
    octet of [s], then fewer than eight one bits of padding), under a length header with
    the Huffman flag, decodes to [s] and is consumed exactly. *)
Theorem decode_huffman_string (s : string) (body : list Z) (pad : nat) (rest : list Z) :
  Forall is_byte body -> Forall is_byte rest -> (pad < 8)%nat ->
  octet_bits body = encoding (bytes_of_string s) ++ replicate pad true ->
  Z.of_nat (length body) <= MAX_LENGTH ->
  exists len, encode_int 32 (Z.of_nat (length body)) 7 HUFFMAN_ENABLED = Ok len /\
    DecodeStringAdaptor (len ++ body ++ rest) = Ok (s, length (len ++ body)).
Proof.
  intros Hb Hr Hp He Hl.
  destruct (decode_string_literal s true body rest) as (len & _ & Hi & _ & _ & Hd);
    [by eapply huffman_body|done..|]. eauto.
Qed.

Lemma decode_huffman_string_witness :
  exists len, encode_int 32 8 7 HUFFMAN_ENABLED = Ok len /\
    DecodeStringAdaptor (len ++ [0x25; 0xA8; 0x49; 0xE9; 0x5B; 0xA9; 0x7D; 0x7F] ++ [3]) =
      Ok ("custom-key"%string, length (len ++ [0x25; 0xA8; 0x49; 0xE9; 0x5B; 0xA9; 0x7D; 0x7F])).
Proof.
  apply (decode_huffman_string "custom-key" [0x25; 0xA8; 0x49; 0xE9; 0x5B; 0xA9; 0x7D; 0x7F] 7 [3]);
    [solve_bytes..|lia|vm_compute; reflexivity|vm_compute; done].
Defined.

(** the cursor decoder and the range decoder of strings agree on every input, errors
    included: the cursor decoder at [pos] is the range decoder on what follows [pos]. *)
Theorem decode_string_equiv (data : list Z) (pos : nat) :
  decode_string data pos =
    match DecodeStringAdaptor (drop pos data) with
    | Ok (s, n) => Ok (s, (pos + n)%nat)
    | Err e => Err e
    end.
Proof. apply decode_string_eq. Qed.

(** a string decoder that succeeds stays inside the buffer: the octets consumed are at
    least one and at most those given, and a raw string is no longer than [MAX_LENGTH]. *)
Theorem decode_string_bounds (data : list Z) (s : string) (n : nat) :
  Forall is_byte data -> DecodeStringAdaptor data = Ok (s, n) ->
  (1 <= n <= length data)%nat /\
  (Z.land (hd 0 data) 0x80 = 0 -> Z.of_nat (String.length s) <= MAX_LENGTH).
Proof. apply DecodeStringAdaptor_bounds. Qed.

Lemma decode_string_bounds_witness :
  (1 <= 4 <= 6)%nat /\ (Z.land 3 0x80 = 0 -> Z.of_nat (String.length "abc") <= MAX_LENGTH).
Proof.
  apply (decode_string_bounds [3; 97; 98; 99; 7; 7] "abc" 4); [|vm_compute; reflexivity].
  solve_bytes.
Defined.
