(* ===== verification/Swiss.v ===== *)
(** * The Swiss hash map

    Models [hashmap::swiss::SwissHashMap] (src/include/utils/hashmap/swiss.cppm): control
    bytes in groups of sixteen, seven-bit fingerprints, group-linear probing, tombstones
    and doubling.  The map is generic in the key and value types; the [Hash] and
    [KeyEqual] template parameters are section variables.  The SSE2 intrinsics are modelled
    by the 16-bit mask they return.  Capacities and sizes are unbounded naturals: a
    capacity that overflows [std::size_t] does not fit the address space. *)

From stdpp Require Import base gmap list fin_maps.
From Stdlib Require Import ZArith Lia.
From S2P Require Import Prelude.

Open Scope Z_scope.

Definition GROUP_WIDTH : nat := 16.

(** [enum class ControlByte]. *)
Definition EMPTY : Z := 0xFF.
Definition DELETED : Z := 0x7E.
Definition SENTINEL : Z := 0xFE.

Definition is_full (b : Z) : bool :=
  negb (b =? EMPTY) && negb (b =? DELETED) && negb (b =? SENTINEL).

(** ** SSE2 masks *)

(** [_mm_movemask_epi8] of a comparison result. *)
Fixpoint movemask (cmp : list bool) : Z :=
  match cmp with
  | [] => 0
  | b :: cmp => Z.b2z b + 2 * movemask cmp
  end.

(** [while (match != 0) { bit = ctz(match); if (p bit) return bit; match &= ~(1U << bit); }]:
    the first set bit that satisfies [p].  A mask has 16 bits, and every turn clears one. *)
Fixpoint mask_loop (fuel : nat) (p : nat -> bool) (match_ : Z) : option nat :=
  match fuel with
  | O => None
  | S fuel =>
      if match_ =? 0 then None
      else
        let bit := ctz 32 match_ in
        if p bit then Some bit
        else mask_loop fuel p (Z.land match_ (Z.lnot (Z.shiftl 1 (Z.of_nat bit))))
  end.

(** The bits [mask_loop] tests, in order. *)
Fixpoint mask_visited (fuel : nat) (p : nat -> bool) (match_ : Z) : list nat :=
  match fuel with
  | O => []
  | S fuel =>
      if match_ =? 0 then []
      else
        let bit := ctz 32 match_ in
        if p bit then [bit]
        else bit :: mask_visited fuel p (Z.land match_ (Z.lnot (Z.shiftl 1 (Z.of_nat bit))))
  end.

(** ** Fingerprints *)

Definition h2 (hash : Z) : Z :=
  let fp := u8 (Z.land hash 0x7F) in
  if fp =? 0x7E then 0x7D else if fp =? 0x7F then 0x7C else fp.

(** ** Lemmas on masks *)

Lemma movemask_bound l : 0 <= movemask l < 2 ^ Z.of_nat (length l).
Proof.
  induction l as [|b l IH]; [done|]. cbn [movemask length].
  replace (Z.of_nat (S (length l))) with (1 + Z.of_nat (length l)) by lia.
  rewrite Z.pow_add_r by lia. destruct b; simpl; lia.
Qed.

Lemma movemask_testbit l i : Z.testbit (movemask l) (Z.of_nat i) = true <-> l !! i = Some true.
Proof.
  revert i. induction l as [|b l IH]; intros [|i]; cbn [movemask].
  - done.
  - by rewrite Z.bits_0.
  - replace (Z.b2z b + 2 * movemask l) with (2 * movemask l + Z.b2z b) by lia.
    change (Z.of_nat 0) with 0. rewrite Z.testbit_0_r. by destruct b.
  - replace (Z.b2z b + 2 * movemask l) with (2 * movemask l + Z.b2z b) by lia.
    replace (Z.of_nat (S i)) with (Z.succ (Z.of_nat i)) by lia.
    rewrite Z.testbit_succ_r by lia. apply IH.
Qed.

#[local] Opaque ctz.

Lemma testbit_clear m b i :
  Z.testbit (Z.land m (Z.lnot (Z.shiftl 1 (Z.of_nat b)))) (Z.of_nat i) =
    Z.testbit m (Z.of_nat i) && negb (i =? b)%nat.
Proof.
  rewrite Z.land_spec, Z.lnot_spec, Z.shiftl_1_l, Z.pow2_bits_eqb by lia. f_equal. f_equal.
  destruct (Nat.eqb_spec i b), (Z.eqb_spec (Z.of_nat b) (Z.of_nat i)); (done || lia).
Qed.

Lemma bits_nonzero m n : 0 <= m < 2 ^ Z.of_nat n -> m <> 0 ->
  exists i, (i < n)%nat /\ Z.testbit m (Z.of_nat i) = true.
Proof.
  intros Hm Hz. destruct (ctz_spec n m ltac:(lia)) as [H _]. exists (ctz n m). split; [|done].
  destruct (Nat.lt_ge_cases (ctz n m) n) as [|Hge]; [done|].
  rewrite Z.bits_above_log2 in H; [done|lia|]. apply Z.log2_lt_pow2; [lia|].
  enough (2 ^ Z.of_nat n <= 2 ^ Z.of_nat (ctz n m)) by lia. apply Z.pow_le_mono_r; lia.
Qed.

Lemma mask_loop_Some fuel p m b :
  0 <= m < 2 ^ 16 -> mask_loop fuel p m = Some b ->
  Z.testbit m (Z.of_nat b) = true /\ p b = true.
Proof.
  revert m. induction fuel as [|fuel IH]; intros m Hm; cbn [mask_loop]; [done|].
  destruct (Z.eqb_spec m 0); [done|]. destruct (ctz_spec 32 m ltac:(lia)) as [H _].
  destruct (p (ctz 32 m)) eqn:Hp; [by intros [= <-]|].
  intros Hl. apply IH in Hl as [Hb Hpb].
  - rewrite testbit_clear in Hb. by destruct (Z.testbit m (Z.of_nat b)).
  - by apply land_bound.
Qed.

Lemma mask_loop_None fuel p m j :
  0 <= m < 2 ^ 16 -> (forall i, (i < j)%nat -> Z.testbit m (Z.of_nat i) = false) ->
  (16 < fuel + j)%nat -> mask_loop fuel p m = None ->
  forall b, (b < 16)%nat -> Z.testbit m (Z.of_nat b) = true -> p b = false.
Proof.
  revert m j. induction fuel as [|fuel IH]; intros m j Hm Hj Hf; cbn [mask_loop].
  { intros _ b Hb Ht. rewrite Hj in Ht; [done|lia]. }
  destruct (Z.eqb_spec m 0) as [->|]; [by intros _ b _; rewrite Z.bits_0|].
  destruct (ctz_spec 32 m ltac:(lia)) as [H Hlow].
  destruct (p (ctz 32 m)) eqn:Hp; [done|]. intros Hl b Hb Ht.
  destruct (decide (b = ctz 32 m)) as [->|Hne]; [done|].
  eapply (IH _ (S (ctz 32 m))); [| | |exact Hl|done|].
  - by apply land_bound.
  - intros i Hi. rewrite testbit_clear. destruct (Nat.eqb_spec i (ctz 32 m)); [by rewrite andb_false_r|].
    by rewrite Hlow by lia.
  - destruct (Nat.lt_ge_cases (ctz 32 m) j) as [Hlt|]; [|lia].
    by rewrite Hj in H by done.
  - rewrite testbit_clear, Ht. by destruct (Nat.eqb_spec b (ctz 32 m)).
Qed.

Lemma h2_range h : 0 <= h2 h <= 0x7D.
Proof.
  unfold h2. rewrite land_7F. pose proof (Z.mod_pos_bound h 128).
  rewrite u8_small by (unfold is_byte; lia). repeat case_match; lia.
Qed.

Section SwissHashMap.
Context {K V : Type}.
Context (Hash : K -> Z) (KeyEqual : K -> K -> bool).

(** [m_raw_slots]: [None] is raw storage in which no [Entry] is alive. *)
Record SwissHashMap := mkSwiss {
  m_control : list Z;
  m_slots : list (option (K * V));
  m_capacity : nat;
  m_size : nat;
}.

Definition swiss_empty : SwissHashMap := mkSwiss [] [] 0 0.

Definition groups (m : SwissHashMap) : nat := (m_capacity m / GROUP_WIDTH)%nat.

Definition h1 (m : SwissHashMap) (hash : Z) : nat :=
  Z.to_nat (Z.shiftr hash 7 mod Z.of_nat (groups m)).

(** The 16 control bytes [_mm_loadu_si128] reads for a group. *)
Definition load_group (m : SwissHashMap) (g : nat) : list Z :=
  take GROUP_WIDTH (drop (g * GROUP_WIDTH) (m_control m)).

Definition match_byte (m : SwissHashMap) (group_idx : nat) (target : Z) : Z :=
  movemask ((fun c => c =? target) <$> load_group m group_idx).

Definition match_empty_or_deleted (m : SwissHashMap) (group_idx : nat) : Z :=
  movemask ((fun c => (c =? EMPTY) || (c =? DELETED)) <$> load_group m group_idx).

Definition slot (m : SwissHashMap) (i : nat) : option (K * V) := mjoin (m_slots m !! i).

(** The probe loop shared by [find], [upsert] and [erase]: the slot whose fingerprint
    matches and whose key satisfies [p]; stop at the first group that has an empty byte. *)
Fixpoint probe_loop (m : SwissHashMap) (p : K -> bool) (grp : nat) (fp : Z)
    (todo probe : nat) : option nat :=
  match todo with
  | O => None
  | S todo =>
      let cur := ((grp + probe) mod groups m)%nat in
      let key_matches bit :=
        match slot m (cur * GROUP_WIDTH + bit) with
        | Some (k, _) => p k
        | None => false
        end in
      match mask_loop 17 key_matches (match_byte m cur fp) with
      | Some bit => Some (cur * GROUP_WIDTH + bit)%nat
      | None =>
          if negb (match_byte m cur EMPTY =? 0) then None
          else probe_loop m p grp fp todo (S probe)
      end
  end.

Definition locate (m : SwissHashMap) (hash_value : Z) (p : K -> bool) : option nat :=
  probe_loop m p (h1 m hash_value) (h2 hash_value) (groups m) 0.

(** *** Which stored keys an operation reads

    A key may hold views into storage it does not own; the clients below need to know which
    keys are compared ([KeyEqual]) or hashed ([rehash]). *)
Definition key_at (m : SwissHashMap) (i : nat) : list K :=
  match slot m i with Some (k, _) => [k] | None => [] end.

Fixpoint probe_visited (m : SwissHashMap) (p : K -> bool) (grp : nat) (fp : Z)
    (todo probe : nat) : list K :=
  match todo with
  | O => []
  | S todo =>
      let cur := ((grp + probe) mod groups m)%nat in
      let key_matches bit :=
        match slot m (cur * GROUP_WIDTH + bit) with
        | Some (k, _) => p k
        | None => false
        end in
      (mask_visited 17 key_matches (match_byte m cur fp) ≫= fun bit => key_at m (cur * GROUP_WIDTH + bit)) ++
      match mask_loop 17 key_matches (match_byte m cur fp) with
      | Some bit => []
      | None =>
          if negb (match_byte m cur EMPTY =? 0) then []
          else probe_visited m p grp fp todo (S probe)
      end
  end.

Definition compared (m : SwissHashMap) (hash_value : Z) (p : K -> bool) : list K :=
  if (m_capacity m =? 0)%nat then []
  else probe_visited m p (h1 m hash_value) (h2 hash_value) (groups m) 0.

Definition stored_keys (m : SwissHashMap) : list K := m_slots m ≫= fun e => option_list (fst <$> e).

(** ** Operations *)

(** [find(args...)], for the hash of the arguments and the test of a stored key against
    them: the transparent overloads of [Hash] and [KeyEqual]. *)
Definition find (m : SwissHashMap) (hash_value : Z) (p : K -> bool) : option V :=
  if (m_capacity m =? 0)%nat then None
  else i ← locate m hash_value p; snd <$> slot m i.

Fixpoint insert_probe (m : SwissHashMap) (grp todo probe : nat) : option nat :=
  match todo with
  | O => None
  | S todo =>
      let cur := ((grp + probe) mod groups m)%nat in
      let avail := match_empty_or_deleted m cur in
      if negb (avail =? 0) then Some (cur * GROUP_WIDTH + ctz 32 avail)%nat
      else insert_probe m grp todo (S probe)
  end.

Definition insert_impl (m : SwissHashMap) (key : K) (value : V) : result SwissHashMap :=
  match insert_probe m (h1 m (Hash key)) (groups m) 0 with
  | Some slot_index =>
      Ok (mkSwiss (<[slot_index := h2 (Hash key)]> (m_control m))
            (<[slot_index := Some (key, value)]> (m_slots m))
            (m_capacity m) (S (m_size m)))
  | None => Err RuntimeError
  end.

(** The re-insertion loop of [rehash]: entries of the old arrays whose control byte is a
    fingerprint move to the new ones. *)
Fixpoint reinsert (old : list (Z * option (K * V))) (m : SwissHashMap) : result SwissHashMap :=
  match old with
  | [] => Ok m
  | (c, e) :: old =>
      if is_full c then
        match e with
        | Some (k, v) => m ← insert_impl m k v; reinsert old m
        | None => Err UndefinedBehaviour
        end
      else reinsert old m
  end.

Definition fresh_table (capacity : nat) : SwissHashMap :=
  mkSwiss (replicate (capacity + GROUP_WIDTH) EMPTY) (replicate capacity None) capacity 0.

Definition rehash (m : SwissHashMap) : result SwissHashMap :=
  let m_capacity' :=
    if (m_capacity m =? 0)%nat then (16 * GROUP_WIDTH)%nat else (m_capacity m * 2)%nat in
  reinsert (zip (take (m_capacity m) (m_control m)) (m_slots m)) (fresh_table m_capacity').

Definition grow (m : SwissHashMap) : result SwissHashMap :=
  if (m_capacity m =? 0)%nat || (m_capacity m * 7 / 8 <=? m_size m)%nat then rehash m else Ok m.

Definition insert (m : SwissHashMap) (key : K) (value : V) : result SwissHashMap :=
  m ← grow m; insert_impl m key value.

(** The keys an [upsert] hashes or compares: all of them when the table grows. *)
Definition upsert_reads (m : SwissHashMap) (key : K) : list K :=
  if (m_capacity m =? 0)%nat || (m_capacity m * 7 / 8 <=? m_size m)%nat then stored_keys m
  else compared m (Hash key) (fun k => KeyEqual k key).

(** [false]: the key was present and keeps its stored copy; [true]: a new entry. *)
Definition upsert (m : SwissHashMap) (key : K) (value : V) : result (SwissHashMap * bool) :=
  m ← grow m;
  match locate m (Hash key) (fun k => KeyEqual k key) with
  | Some i =>
      match slot m i with
      | Some (k, _) =>
          Ok (mkSwiss (m_control m) (<[i := Some (k, value)]> (m_slots m)) (m_capacity m) (m_size m), false)
      | None => Err UndefinedBehaviour
      end
  | None => m ← insert_impl m key value; Ok (m, true)
  end.

Definition erase (m : SwissHashMap) (hash_value : Z) (p : K -> bool) : SwissHashMap :=
  if (m_capacity m =? 0)%nat then m
  else match locate m hash_value p with
  | Some i =>
      mkSwiss (<[i := DELETED]> (m_control m)) (<[i := None]> (m_slots m)) (m_capacity m) (m_size m - 1)
  | None => m
  end.

(** [destroy_all] ends the life of every entry; the control bytes are reset. *)
Definition clear (m : SwissHashMap) : SwissHashMap :=
  mkSwiss (if (0 <? m_capacity m)%nat then replicate (m_capacity m + GROUP_WIDTH) EMPTY else m_control m)
    (replicate (m_capacity m) None) (m_capacity m) 0.

(** *** Iteration *)

(** [IteratorBase::advance]: skip the control bytes that are not fingerprints. *)
Fixpoint advance (fuel : nat) (m : SwissHashMap) (m_idx : nat) : nat :=
  match fuel with
  | O => m_idx
  | S fuel =>
      if (m_idx <? m_capacity m)%nat then
        if is_full (nth m_idx (m_control m) EMPTY) then m_idx else advance fuel m (S m_idx)
      else m_idx
  end.

(** The entries from an iterator position to [end()]; [None] is a dead slot. *)
Fixpoint drain_from (fuel : nat) (m : SwissHashMap) (m_idx : nat) : list (option (K * V)) :=
  match fuel with
  | O => []
  | S fuel =>
      let m_idx := advance (S (m_capacity m)) m m_idx in
      if (m_idx =? m_capacity m)%nat then []
      else slot m m_idx :: drain_from fuel m (S m_idx)
  end.

Definition iterate (m : SwissHashMap) : list (option (K * V)) :=
  drain_from (S (m_capacity m)) m 0.

(** ** Invariant

    [canon] picks a representative of a class of equal keys: [KeyEqual] is equality of
    representatives and [Hash] respects it. *)
Context {C : Type} `{Countable C} (canon : K -> C).

Class HashLaws := {
  KeyEqual_canon k1 k2 : KeyEqual k1 k2 = true <-> canon k1 = canon k2;
  Hash_canon k1 k2 : canon k1 = canon k2 -> Hash k1 = Hash k2;
}.

Definition entries (m : SwissHashMap) : list (K * V) := omap id (m_slots m).

(** Group [g] has no control byte in [bad]. *)
Definition group_free (m : SwissHashMap) (bad : Z -> bool) (g : nat) : Prop :=
  forall b c, (b < GROUP_WIDTH)%nat -> m_control m !! (g * GROUP_WIDTH + b)%nat = Some c -> bad c = false.

Definition is_empty_byte (c : Z) : bool := c =? EMPTY.
Definition is_available (c : Z) : bool := (c =? EMPTY) || (c =? DELETED).

(** Slot [i] is reached by the probe sequence of hash [h] without crossing an empty byte. *)
Definition reachable_slot (m : SwissHashMap) (h : Z) (i : nat) : Prop :=
  exists d, (d < groups m)%nat /\ (i / GROUP_WIDTH = (h1 m h + d) mod groups m)%nat /\
    forall d', (d' < d)%nat -> group_free m is_empty_byte ((h1 m h + d') mod groups m).

Record wf (m : SwissHashMap) : Prop := {
  wf_cap : exists g, m_capacity m = (g * GROUP_WIDTH)%nat;
  wf_control : m_capacity m <> 0%nat -> length (m_control m) = (m_capacity m + GROUP_WIDTH)%nat;
  wf_slots : length (m_slots m) = m_capacity m;
  wf_byte i c : (i < m_capacity m)%nat -> m_control m !! i = Some c ->
    match slot m i with
    | Some (k, _) => c = h2 (Hash k)
    | None => is_available c = true
    end;
  wf_size : m_size m = length (entries m);
  wf_chain i k v : slot m i = Some (k, v) -> reachable_slot m (Hash k) i;
}.

(** *** Groups *)

Lemma groups_cap m : wf m -> m_capacity m = (groups m * GROUP_WIDTH)%nat.
Proof. intros [[g Hg] _ _ _ _ _]. unfold groups, GROUP_WIDTH in *. rewrite Hg, Nat.div_mul; lia. Qed.

Lemma slot_Some_lt m i e : wf m -> slot m i = Some e -> (i < m_capacity m)%nat.
Proof.
  intros Hwf. unfold slot. destruct (m_slots m !! i) eqn:Hi; [|done]. intros _.
  rewrite <- wf_slots by done. by eapply lookup_lt_Some.
Qed.

Lemma control_is_Some m i : wf m -> (i < m_capacity m)%nat -> exists c, m_control m !! i = Some c.
Proof. intros Hwf Hi. apply lookup_lt_is_Some_2. rewrite wf_control; (done || lia). Qed.

Lemma length_load_group m g : (length (load_group m g) <= 16)%nat.
Proof. unfold load_group. rewrite length_take. unfold GROUP_WIDTH. lia. Qed.

Lemma load_group_lookup m g b c :
  load_group m g !! b = Some c <-> (b < GROUP_WIDTH)%nat /\ m_control m !! (g * GROUP_WIDTH + b)%nat = Some c.
Proof. unfold load_group. rewrite lookup_take_Some, lookup_drop. tauto. Qed.

Lemma group_mask_bound m g f : 0 <= movemask (f <$> load_group m g) < 2 ^ 16.
Proof.
  pose proof (movemask_bound (f <$> load_group m g)) as Hb. rewrite length_fmap in Hb.
  pose proof (length_load_group m g).
  assert (2 ^ Z.of_nat (length (load_group m g)) <= 2 ^ 16) by (apply Z.pow_le_mono_r; lia). lia.
Qed.

Lemma group_mask_bit m g f b :
  Z.testbit (movemask (f <$> load_group m g)) (Z.of_nat b) = true <->
  (b < GROUP_WIDTH)%nat /\ exists c, m_control m !! (g * GROUP_WIDTH + b)%nat = Some c /\ f c = true.
Proof.
  rewrite movemask_testbit, list_lookup_fmap, fmap_Some. setoid_rewrite load_group_lookup.
  naive_solver.
Qed.

Lemma group_mask_zero m g f : movemask (f <$> load_group m g) = 0 <-> group_free m f g.
Proof.
  split.
  - intros Hz b c Hb Hc. destruct (f c) eqn:Hf; [|done].
    assert (Z.testbit (movemask (f <$> load_group m g)) (Z.of_nat b) = true) as Ht
      by (apply group_mask_bit; eauto).
    by rewrite Hz, Z.bits_0 in Ht.
  - intros Hf. destruct (Z.eq_dec (movemask (f <$> load_group m g)) 0) as [|Hz]; [done|].
    destruct (bits_nonzero _ 16 (group_mask_bound m g f) Hz) as (b & _ & Ht).
    apply group_mask_bit in Ht as (Hb & c & Hc & Hfc). by rewrite (Hf b c) in Hfc.
Qed.

(** *** Locating a key *)

Lemma locate_Some m h p i :
  locate m h p = Some i -> exists k v, slot m i = Some (k, v) /\ p k = true.
Proof.
  unfold locate. generalize 0%nat (groups m). intros probe todo. revert probe.
  induction todo as [|todo IH]; intros probe; cbn [probe_loop]; [done|].
  destruct (mask_loop _ _ _) as [b|] eqn:Hm.
  - intros [= <-]. apply mask_loop_Some in Hm as [_ Hk]; [|apply group_mask_bound].
    destruct (slot _ _) as [[k v]|]; eauto. done.
  - case_match; [done|]. apply IH.
Qed.

Lemma locate_None m h p i k v :
  wf m -> locate m h p = None -> slot m i = Some (k, v) -> Hash k = h -> p k = false.
Proof.
  intros Hwf Hloc Hi <-. destruct (wf_chain m Hwf i k v Hi) as (d & Hd & Hgrp & Hfree).
  assert (0 <= d)%nat as Hp by lia. assert (groups m + 0 = groups m)%nat as Ht by lia.
  revert Hloc Hp Ht. unfold locate. generalize 0%nat. generalize (groups m) at 1 2. intros todo.
  induction todo as [|todo IH]; intros probe Hloc Hp Ht; [lia|].
  cbn [probe_loop] in Hloc. destruct (mask_loop _ _ _) eqn:Hm; [done|].
  destruct (decide (probe = d)) as [->|Hne].
  - pose proof (slot_Some_lt m i _ Hwf Hi) as Hlt.
    destruct (control_is_Some m i Hwf Hlt) as [c Hc].
    pose proof (wf_byte m Hwf i c Hlt Hc) as Hb. rewrite Hi in Hb.
    assert (i = (h1 m (Hash k) + d) mod groups m * GROUP_WIDTH + i mod GROUP_WIDTH)%nat as Hdiv.
    { rewrite <- Hgrp. unfold GROUP_WIDTH. rewrite Nat.mul_comm. apply Nat.div_mod_eq. }
    assert (i mod GROUP_WIDTH < GROUP_WIDTH)%nat by (apply Nat.mod_upper_bound; unfold GROUP_WIDTH; lia).
    eapply mask_loop_None with (b := (i mod GROUP_WIDTH)%nat) (j := 0%nat) in Hm.
    + by rewrite <- Hdiv, Hi in Hm.
    + apply group_mask_bound.
    + lia.
    + lia.
    + done.
    + apply group_mask_bit. split; [done|]. exists c. rewrite <- Hdiv, Hb. split; [congruence|].
      apply Z.eqb_refl.
  - unfold match_byte in Hloc.
    rewrite (proj2 (group_mask_zero m _ (fun c => c =? EMPTY)) (Hfree probe ltac:(lia))) in Hloc.
    simpl in Hloc. eapply IH; [exact Hloc|lia|lia].
Qed.

(** *** Inserting into a table with room *)

Lemma insert_probe_Some m grp todo probe i :
  insert_probe m grp todo probe = Some i ->
  exists d b c, (probe <= d < probe + todo)%nat /\ (b < GROUP_WIDTH)%nat /\
    i = ((grp + d) mod groups m * GROUP_WIDTH + b)%nat /\
    m_control m !! i = Some c /\ is_available c = true /\
    forall d', (probe <= d' < d)%nat -> group_free m is_available ((grp + d') mod groups m).
Proof.
  revert probe. induction todo as [|todo IH]; intros probe; cbn [insert_probe]; [done|].
  unfold match_empty_or_deleted. fold is_available.
  set (mask := movemask _). destruct (Z.eqb_spec mask 0) as [Hz|Hz]; cbn [negb].
  - intros (d & b & c & ? & ? & ? & ? & ? & Hfree)%IH. exists d, b, c. split_and!; try (done || lia).
    intros d' Hd'. destruct (decide (d' = probe)) as [->|].
    + by apply group_mask_zero.
    + apply Hfree. lia.
  - intros [= <-]. pose proof (group_mask_bound m ((grp + probe) mod groups m) is_available).
    destruct (ctz_spec 32 mask ltac:(unfold mask; lia)) as [Ht _].
    apply group_mask_bit in Ht as (Hb & c & Hc & Ha).
    exists probe, (ctz 32 mask), c. split_and!; try (done || lia).
Qed.

Lemma insert_probe_None m grp todo probe d :
  insert_probe m grp todo probe = None -> (probe <= d < probe + todo)%nat ->
  group_free m is_available ((grp + d) mod groups m).
Proof.
  revert probe. induction todo as [|todo IH]; intros probe; cbn [insert_probe]; [lia|].
  unfold match_empty_or_deleted. fold is_available.
  destruct (Z.eqb_spec (movemask (is_available <$> load_group m ((grp + probe) mod groups m))) 0)
    as [Hz|]; [|done].
  cbn [negb]. intros Hn Hd. destruct (decide (d = probe)) as [->|].
  - by apply group_mask_zero.
  - apply (IH (S probe)); [done|lia].
Qed.

Lemma omap_id_insert {A} (l : list (option A)) i e :
  l !! i = Some None -> omap id (<[i := Some e]> l) ≡ₚ e :: omap id l.
Proof.
  intros Hi. rewrite insert_take_drop by (by eapply lookup_lt_Some).
  rewrite <- (take_drop_middle l i None Hi) at 3. rewrite !omap_app. cbn.
  by rewrite Permutation_middle.
Qed.

Lemma omap_id_update {A} (l : list (option A)) i e e' :
  l !! i = Some (Some e) -> exists l1 l2,
    omap id l = l1 ++ e :: l2 /\ omap id (<[i := Some e']> l) = l1 ++ e' :: l2 /\
    omap id (<[i := None]> l) = l1 ++ l2.
Proof.
  intros Hi. exists (omap id (take i l)), (omap id (drop (S i) l)).
  rewrite !insert_take_drop by (by eapply lookup_lt_Some).
  rewrite <- (take_drop_middle l i _ Hi) at 1. by rewrite !omap_app.
Qed.

Lemma omap_id_room {A} (l : list (option A)) :
  (length (omap id l) < length l)%nat -> exists i, l !! i = Some None.
Proof.
  induction l as [|[e|] l IH]; cbn; intros Hlt; [lia| |by exists 0%nat].
  destruct IH as [i Hi]; [lia|]. by exists (S i).
Qed.

Lemma h1_lt m h : (0 < groups m)%nat -> (h1 m h < groups m)%nat.
Proof.
  intros. unfold h1. pose proof (Z.mod_pos_bound (Z.shiftr h 7) (Z.of_nat (groups m))). lia.
Qed.

Lemma group_visited m h g :
  (g < groups m)%nat -> exists d, (d < groups m)%nat /\ ((h1 m h + d) mod groups m = g)%nat.
Proof.
  intros Hg. pose proof (h1_lt m h ltac:(lia)) as Hh. set (a := h1 m h) in *.
  destruct (Nat.le_gt_cases a g).
  - exists (g - a)%nat. split; [lia|]. rewrite Nat.mod_small; lia.
  - exists (g + groups m - a)%nat. split; [lia|].
    replace (a + (g + groups m - a))%nat with (g + 1 * groups m)%nat by lia.
    rewrite Nat.Div0.mod_add. apply Nat.mod_small. lia.
Qed.

Lemma slot_lookup m i : wf m -> (i < m_capacity m)%nat -> m_slots m !! i = Some (slot m i).
Proof.
  intros Hwf Hi. unfold slot. destruct (m_slots m !! i) eqn:E; [done|].
  apply lookup_ge_None in E. rewrite wf_slots in E by done. lia.
Qed.

(** Overwriting the control byte of an available slot by a fingerprint. *)
Definition put (m : SwissHashMap) (i : nat) (k : K) (v : V) : SwissHashMap :=
  mkSwiss (<[i := h2 (Hash k)]> (m_control m)) (<[i := Some (k, v)]> (m_slots m))
    (m_capacity m) (S (m_size m)).

Lemma slot_insert m i j e ctl sz :
  wf m -> (i < m_capacity m)%nat ->
  slot (mkSwiss ctl (<[i := e]> (m_slots m)) (m_capacity m) sz) j = if decide (i = j) then e else slot m j.
Proof.
  intros Hwf Hi. unfold slot. cbn. destruct (decide (i = j)) as [<-|].
  - rewrite list_lookup_insert_eq; [done|]. by rewrite wf_slots.
  - by rewrite list_lookup_insert_ne.
Qed.

Lemma group_free_overwrite m i c' bad g sl sz :
  group_free m bad g -> bad c' = false ->
  group_free (mkSwiss (<[i := c']> (m_control m)) sl (m_capacity m) sz) bad g.
Proof.
  intros Hf Hc' b c Hb. cbn. intros [(-> & <- & _)|(Hne & Hc)]%list_lookup_insert_Some; [done|].
  by eapply Hf.
Qed.

Lemma put_wf m i k v :
  wf m -> (i < m_capacity m)%nat -> slot m i = None -> reachable_slot m (Hash k) i ->
  wf (put m i k v) /\ entries (put m i k v) ≡ₚ (k, v) :: entries m.
Proof.
  intros Hwf Hi Hslot Hreach.
  assert (entries (put m i k v) ≡ₚ (k, v) :: entries m) as Hent.
  { apply omap_id_insert. by rewrite slot_lookup, Hslot. }
  assert (forall h j, reachable_slot m h j -> reachable_slot (put m i k v) h j) as Hmono.
  { intros h j (d & Hd & Hj & Hfree). exists d. split_and!; [done|done|].
    intros d' Hd'. apply group_free_overwrite; [by apply Hfree|].
    unfold is_empty_byte, EMPTY. pose proof (h2_range (Hash k)). lia. }
  split; [|done]. split; cbn.
  - apply wf_cap, Hwf.
  - rewrite length_insert. apply wf_control, Hwf.
  - rewrite length_insert. apply wf_slots, Hwf.
  - intros j c Hj Hc. unfold put. rewrite slot_insert by done.
    apply list_lookup_insert_Some in Hc as [(<- & <- & _)|(Hne & Hc)].
    + by rewrite decide_True.
    + rewrite decide_False by done. by apply wf_byte.
  - rewrite Hent. cbn. by rewrite wf_size.
  - intros j k' v'. unfold put. rewrite slot_insert by done. destruct (decide (i = j)) as [<-|].
    + intros [= <- <-]. by apply Hmono.
    + intros Hj. eapply Hmono, wf_chain; done.
Qed.

(** With room the probe finds a slot, and the entry is added. *)
Lemma insert_impl_Ok m k v :
  wf m -> (m_size m < m_capacity m)%nat ->
  exists m', insert_impl m k v = Ok m' /\ wf m' /\ m_capacity m' = m_capacity m /\
    entries m' ≡ₚ (k, v) :: entries m.
Proof.
  intros Hwf Hroom. unfold insert_impl. pose proof (groups_cap m Hwf) as Hcap.
  assert (0 < groups m)%nat as Hg by lia.
  destruct (insert_probe m _ _ 0) as [i|] eqn:Hp.
  - apply insert_probe_Some in Hp as (d & b & c & Hd & Hb & -> & Hc & Ha & Hfree).
    set (g := ((h1 m (Hash k) + d) mod groups m)%nat) in *.
    assert (g < groups m)%nat by (apply Nat.mod_upper_bound; lia).
    assert (g * GROUP_WIDTH + b < m_capacity m)%nat as Hi by (unfold GROUP_WIDTH in *; lia).
    assert ((g * GROUP_WIDTH + b) / GROUP_WIDTH = g)%nat as Hdiv.
    { unfold GROUP_WIDTH in *. rewrite Nat.div_add_l, (Nat.div_small b); lia. }
    eexists. split; [done|]. change (mkSwiss _ _ _ _) with (put m (g * GROUP_WIDTH + b) k v).
    destruct (put_wf m (g * GROUP_WIDTH + b)%nat k v Hwf Hi) as [? ?]; [| |by split_and!].
    + pose proof (wf_byte m Hwf _ c Hi Hc) as Hbyte. destruct (slot m _) as [[k' v']|]; [|done].
      unfold is_available, EMPTY, DELETED in Ha. pose proof (h2_range (Hash k')). lia.
    + exists d. rewrite Hdiv. split_and!; [lia|done|]. intros d' Hd' b' c' Hb' Hc'.
      specialize (Hfree d' ltac:(lia) b' c' Hb' Hc'). unfold is_available, is_empty_byte in *.
      by apply orb_false_iff in Hfree as [? _].
  - exfalso. rewrite wf_size in Hroom by done. rewrite <- (wf_slots m Hwf) in Hroom.
    apply omap_id_room in Hroom as [i Hi].
    assert (i < m_capacity m)%nat as Hlt by (rewrite <- (wf_slots m Hwf); by eapply lookup_lt_Some).
    destruct (control_is_Some m i Hwf Hlt) as [c Hc]. pose proof (wf_byte m Hwf i c Hlt Hc) as Hbyte.
    rewrite (slot_lookup m i Hwf Hlt) in Hi. injection Hi as Hi. rewrite Hi in Hbyte.
    assert (i / GROUP_WIDTH < groups m)%nat as Hig.
    { apply Nat.Div0.div_lt_upper_bound. unfold GROUP_WIDTH in *. lia. }
    destruct (group_visited m (Hash k) _ Hig) as (d & Hd & Hvis).
    pose proof (insert_probe_None m _ _ _ d Hp ltac:(lia)) as Hfree. rewrite Hvis in Hfree.
    rewrite (Hfree (i mod GROUP_WIDTH)%nat c) in Hbyte; [done| |].
    + apply Nat.mod_upper_bound. unfold GROUP_WIDTH. lia.
    + by rewrite (Nat.mul_comm (i / _)), <- Nat.div_mod_eq.
Qed.

(** *** Rehashing *)

Lemma fresh_table_wf g :
  wf (fresh_table (g * GROUP_WIDTH)) /\ entries (fresh_table (g * GROUP_WIDTH)) = [].
Proof.
  assert (forall n, omap id (replicate n (@None (K * V))) = []) as He by (induction n; done).
  assert (forall i, slot (fresh_table (g * GROUP_WIDTH)) i = None) as Hs.
  { intros i. unfold slot. cbn. destruct (replicate _ _ !! i) as [e|] eqn:Hi; [|done].
    by apply lookup_replicate in Hi as [-> _]. }
  split; [|apply He]. split; cbn.
  - eauto.
  - intros _. by rewrite length_replicate.
  - by rewrite length_replicate.
  - intros i c _ [-> _]%lookup_replicate. by rewrite Hs.
  - unfold entries. cbn. by rewrite He.
  - intros i k v. by rewrite Hs.
Qed.

Definition byte_slot_ok (ce : Z * option (K * V)) : Prop := is_full ce.1 = true <-> ce.2 <> None.

Lemma reinsert_Ok old m :
  wf m -> Forall byte_slot_ok old -> (m_size m + length (omap snd old) < m_capacity m)%nat ->
  exists m', reinsert old m = Ok m' /\ wf m' /\ m_capacity m' = m_capacity m /\
    entries m' ≡ₚ omap snd old ++ entries m.
Proof.
  intros Hwf Hold. revert m Hwf.
  induction Hold as [|[c e] old Hce Hold IH]; intros m Hwf Hroom; cbn [reinsert]; [eauto|].
  unfold byte_slot_ok in Hce. cbn in Hce, Hroom. destruct (is_full c).
  - destruct e as [[k v]|]; [|naive_solver]. cbn in *.
    destruct (insert_impl_Ok m k v Hwf ltac:(lia)) as (m1 & -> & Hwf1 & Hcap1 & He1). cbn.
    destruct (IH m1 Hwf1) as (m' & -> & Hwf' & Hcap' & He').
    { rewrite wf_size, He1, Hcap1 by done. cbn. rewrite wf_size in Hroom by done. lia. }
    eexists. split_and!; [done|done|congruence|]. rewrite He', He1. cbn. by rewrite Permutation_middle.
  - destruct e as [e|]; [|by apply IH]. destruct Hce as [_ Hce]. by discriminate Hce.
Qed.

Lemma zip_omap_snd {A B} (l : list A) (k : list (option B)) :
  length l = length k -> omap snd (zip l k) = omap id k.
Proof.
  revert k. induction l as [|a l IH]; intros [|[b|] k] Hl; cbn in *; try done.
  - by rewrite IH by lia.
  - by rewrite IH by lia.
Qed.

Lemma entries_length m : wf m -> (length (entries m) <= m_capacity m)%nat.
Proof.
  intros Hwf. rewrite <- (wf_slots m Hwf). unfold entries. 
  induction (m_slots m) as [|[e|] l IH]; cbn; lia.
Qed.

Lemma old_bytes_ok m :
  wf m -> Forall byte_slot_ok (zip (take (m_capacity m) (m_control m)) (m_slots m)).
Proof.
  intros Hwf. apply Forall_lookup. intros i [c e] Hi. rewrite lookup_zip_Some in Hi.
  destruct Hi as [Hc He]. apply lookup_take_Some in Hc as [Hc Hlt].
  pose proof (wf_byte m Hwf i c Hlt Hc) as Hb. unfold slot in Hb. rewrite He in Hb. cbn in Hb.
  unfold byte_slot_ok, is_full, EMPTY, DELETED, SENTINEL. cbn. destruct e as [[k v]|].
  - pose proof (h2_range (Hash k)). subst. split; [done|]. intros _.
    destruct (Z.eqb_spec (h2 (Hash k)) 0xFF), (Z.eqb_spec (h2 (Hash k)) 0x7E),
      (Z.eqb_spec (h2 (Hash k)) 0xFE); (done || lia).
  - unfold is_available, EMPTY, DELETED in Hb. split; [|done].
    apply orb_true_iff in Hb as [-> | ->]; [done|]. by rewrite andb_false_r.
Qed.

Lemma rehash_Ok m :
  wf m -> exists m', rehash m = Ok m' /\ wf m' /\ entries m' ≡ₚ entries m /\
    (m_size m' < m_capacity m')%nat.
Proof.
  intros Hwf. unfold rehash. set (cap' := if (m_capacity m =? 0)%nat then (16 * GROUP_WIDTH)%nat else (m_capacity m * 2)%nat).
  assert (exists g, cap' = (g * GROUP_WIDTH)%nat /\ (m_capacity m < cap')%nat) as (g & Hg & Hlt).
  { unfold cap'. destruct (Nat.eqb_spec (m_capacity m) 0).
    - exists 16%nat. unfold GROUP_WIDTH. lia.
    - destruct (wf_cap m Hwf) as [g ?]. exists (g * 2)%nat. lia. }
  rewrite Hg in *. destruct (fresh_table_wf g) as [Hf He].
  assert (omap snd (zip (take (m_capacity m) (m_control m)) (m_slots m)) = entries m) as Hz.
  { apply zip_omap_snd. rewrite length_take, (wf_slots m Hwf).
    destruct (decide (m_capacity m = 0%nat)); [lia|]. rewrite wf_control by done. lia. }
  pose proof (entries_length m Hwf).
  destruct (reinsert_Ok _ _ Hf (old_bytes_ok m Hwf)) as (m' & -> & Hwf' & Hcap & Hent).
  { rewrite Hz. cbn. lia. }
  rewrite Hz, He, app_nil_r in Hent. exists m'. split_and!; try done.
  rewrite wf_size, Hent, Hcap by done. cbn. lia.
Qed.

Lemma grow_Ok m :
  wf m -> exists m', grow m = Ok m' /\ wf m' /\ entries m' ≡ₚ entries m /\
    (m_size m' < m_capacity m')%nat.
Proof.
  intros Hwf. unfold grow. destruct (_ || _) eqn:Hc; [by apply rehash_Ok|].
  apply orb_false_iff in Hc as [_ Hc]. apply Nat.leb_gt in Hc.
  exists m. split_and!; try done. pose proof (Nat.Div0.div_le_upper_bound (m_capacity m * 7) 8 (m_capacity m)).
  lia.
Qed.

(** ** The finite map a table represents *)

Definition key_value (e : K * V) : C * V := (canon e.1, e.2).
Definition abs (m : SwissHashMap) : gmap C V := list_to_map (key_value <$> entries m).
Definition unique (m : SwissHashMap) : Prop := NoDup ((key_value <$> entries m).*1).

Definition valid (m : SwissHashMap) : Prop := wf m /\ unique m.

Lemma abs_perm (l1 l2 : list (K * V)) :
  NoDup ((key_value <$> l1).*1) -> l1 ≡ₚ l2 ->
  NoDup ((key_value <$> l2).*1) /\
  (list_to_map (key_value <$> l1) : gmap C V) = list_to_map (key_value <$> l2).
Proof.
  intros Hnd Hp. split; [by rewrite <- Hp|].
  apply list_to_map_proper; [done|]. by rewrite Hp.
Qed.

Lemma elem_of_entries m k v : (k, v) ∈ entries m <-> exists i, slot m i = Some (k, v).
Proof.
  unfold entries. rewrite list_elem_of_omap. unfold slot. split.
  - intros (e & He & Hs). cbn in Hs. subst. apply list_elem_of_lookup in He as [i Hi].
    exists i. by rewrite Hi.
  - intros [i Hi]. destruct (m_slots m !! i) as [[e|]|] eqn:E; simplify_eq/=.
    exists (Some (k, v)). split; [|done]. by eapply list_elem_of_lookup_2.
Qed.

Lemma abs_lookup m k v : unique m -> (k, v) ∈ entries m -> abs m !! canon k = Some v.
Proof.
  intros Hu Hin. apply elem_of_list_to_map; [done|]. apply list_elem_of_fmap. by exists (k, v).
Qed.

Lemma abs_lookup_inv m c v : abs m !! c = Some v -> exists k, canon k = c /\ (k, v) ∈ entries m.
Proof.
  intros Hl. apply elem_of_list_to_map_2, list_elem_of_fmap in Hl as ([k v0] & Heq & ?).
  injection Heq as -> ->.
  eauto.
Qed.

(** A transparent query: among the keys of the table the test recognises one class, and
    the hash is theirs. *)
Definition query (m : SwissHashMap) (h : Z) (p : K -> bool) (c : C) : Prop :=
  forall k, k ∈ (entries m).*1 -> (p k = true <-> canon k = c) /\ (canon k = c -> Hash k = h).

Lemma key_query `{!HashLaws} m k : query m (Hash k) (fun k' => KeyEqual k' k) (canon k).
Proof. intros k' _. split; [apply KeyEqual_canon|apply Hash_canon]. Qed.

Lemma slot_key m i k v : slot m i = Some (k, v) -> k ∈ (entries m).*1.
Proof. intros Hi. apply list_elem_of_fmap. exists (k, v). split; [done|]. apply elem_of_entries. eauto. Qed.

Lemma locate_query m h p c :
  valid m -> query m h p c ->
  match locate m h p with
  | Some i => exists k v, slot m i = Some (k, v) /\ canon k = c
  | None => abs m !! c = None
  end.
Proof.
  intros [Hwf Hu] Hq. destruct (locate m h p) as [i|] eqn:Hl.
  - apply locate_Some in Hl as (k & v & Hi & Hp). exists k, v. split; [done|]. apply Hq; [by eapply slot_key|done].
  - destruct (abs m !! c) as [v|] eqn:Ha; [|done]. exfalso.
    apply abs_lookup_inv in Ha as (k & Hk & Hin). apply elem_of_entries in Hin as [i Hi].
    destruct (Hq k (slot_key m i k v Hi)) as [Hpk Hh].
    pose proof (locate_None m h p i k v Hwf Hl Hi (Hh Hk)) as Hp. apply Hpk in Hk. congruence.
Qed.

Lemma find_abs m h p c : valid m -> query m h p c -> find m h p = abs m !! c.
Proof.
  intros Hv Hq. pose proof (locate_query m h p c Hv Hq) as Hl. unfold find.
  destruct (Nat.eqb_spec (m_capacity m) 0) as [Hz|_].
  - destruct Hv as [Hwf _]. pose proof (entries_length m Hwf).
    unfold abs. destruct (entries m); [done|]. cbn in *. lia.
  - destruct (locate m h p) as [i|]; [|done]. destruct Hl as (k & v & Hi & <-). cbn.
    rewrite Hi. cbn. symmetry. apply abs_lookup; [apply Hv|]. apply elem_of_entries. eauto.
Qed.

(** Without a hash that agrees with the stored key's a query may miss, but what it returns
    is stored under a matching key. *)
Lemma find_sound m h p v : find m h p = Some v -> exists k, (k, v) ∈ entries m /\ p k = true.
Proof.
  unfold find. case_match; [done|]. destruct (locate m h p) as [i|] eqn:Hl; [|done].
  apply locate_Some in Hl as (k & v' & Hi & Hp). cbn. rewrite Hi. intros [= <-].
  exists k. split; [|done]. apply elem_of_entries. eauto.
Qed.

(** *** Refinement of each operation *)

Lemma upsert_refines `{!HashLaws} m k v :
  valid m -> exists m', upsert m k v = Ok (m', bool_decide (abs m !! canon k = None)) /\ valid m' /\
    abs m' = <[canon k := v]> (abs m).
Proof.
  intros [Hwf Hu]. unfold upsert.
  destruct (grow_Ok m Hwf) as (m1 & -> & Hwf1 & He1 & Hroom). cbn [mbind result_bind].
  destruct (abs_perm (entries m) (entries m1)) as [Hu1 Ha1]; [done|by rewrite He1|].
  change (abs m) with (list_to_map (key_value <$> entries m) : gmap C V). rewrite Ha1.
  change (list_to_map (key_value <$> entries m1)) with (abs m1).
  pose proof (locate_query m1 _ _ _ (conj Hwf1 Hu1) (key_query m1 k)) as Hl.
  destruct (locate m1 _ _) as [i|].
  - destruct Hl as (k0 & v0 & Hi & Hk). rewrite Hi.
    pose proof (slot_Some_lt m1 i _ Hwf1 Hi) as Hlt.
    rewrite bool_decide_eq_false_2.
    2: { rewrite <- Hk, (abs_lookup m1 k0 v0); [done..|]. apply elem_of_entries. eauto. }
    eexists. split; [done|].
    destruct (omap_id_update (m_slots m1) i (k0, v0) (k0, v)) as (l1 & l2 & E1 & E2 & _).
    { by rewrite slot_lookup, Hi. }
    split; [split; [split; cbn|]|].
    + apply wf_cap, Hwf1.
    + apply wf_control, Hwf1.
    + rewrite length_insert. apply wf_slots, Hwf1.
    + intros j c Hj Hc. rewrite slot_insert by done. pose proof (wf_byte m1 Hwf1 j c Hj Hc) as Hb.
      destruct (decide (i = j)) as [<-|]; [by rewrite Hi in Hb|done].
    + unfold entries. cbn. rewrite E2, wf_size by done. unfold entries. rewrite E1, !length_app. done.
    + intros j k' v'. rewrite slot_insert by done. destruct (decide (i = j)) as [<-|].
      * intros [= <- <-]. eapply (wf_chain m1 Hwf1), Hi.
      * intros Hj. eapply (wf_chain m1 Hwf1), Hj.
    + unfold unique, entries in *. cbn. rewrite E1 in Hu1. rewrite E2.
      by rewrite !fmap_app in *.
    + unfold abs, entries. cbn. rewrite E1, E2, !fmap_app. cbn.
      rewrite !list_to_map_app. cbn. unfold unique, entries in Hu1. rewrite E1, !fmap_app in Hu1. cbn in Hu1.
      rewrite Hk. rewrite <- !insert_union_r, insert_insert_eq; [done|..];
        apply not_elem_of_list_to_map; rewrite <- Hk; intros Hin; apply NoDup_app in Hu1 as (_ & Hd & _);
        apply (Hd _ Hin); set_solver.
  - destruct (insert_impl_Ok m1 k v Hwf1 Hroom) as (m' & -> & Hwf' & _ & He').
    rewrite bool_decide_eq_true_2 by done. eexists. split; [done|].
    assert (NoDup ((key_value <$> (k, v) :: entries m1).*1)) as Hnd.
    { cbn. constructor; [|done]. by apply not_elem_of_list_to_map. }
    destruct (abs_perm ((k, v) :: entries m1) (entries m')) as [Hu' Ha']; [done|by rewrite He'|].
    split; [by split|]. unfold abs. rewrite <- Ha'. done.
Qed.

Lemma erase_valid m h p : valid m -> valid (erase m h p).
Proof.
  intros [Hwf Hu]. unfold erase. destruct (m_capacity m =? 0)%nat; [done|].
  destruct (locate m h p) as [i|] eqn:Hl; [|done].
  apply locate_Some in Hl as (k & v & Hi & _). pose proof (slot_Some_lt m i _ Hwf Hi) as Hlt.
  destruct (omap_id_update (m_slots m) i (k, v) (k, v)) as (l1 & l2 & E1 & _ & E2).
  { by rewrite slot_lookup, Hi. }
  split; [split; cbn|].
  - apply wf_cap, Hwf.
  - rewrite length_insert. apply wf_control, Hwf.
  - rewrite length_insert. apply wf_slots, Hwf.
  - intros j c Hj Hc. rewrite slot_insert by done.
    apply list_lookup_insert_Some in Hc as [(<- & <- & _)|(Hne & Hc)].
    + by rewrite decide_True.
    + rewrite decide_False by done. by apply wf_byte.
  - unfold entries. cbn. rewrite E2, wf_size by done. unfold entries. rewrite E1, !length_app. cbn. lia.
  - intros j k' v'. rewrite slot_insert by done. destruct (decide (i = j)) as [|]; [done|].
    intros Hj. destruct (wf_chain m Hwf j k' v' Hj) as (d & Hd & Hj' & Hfree).
    exists d. split_and!; [done|done|]. intros d' Hd'. apply group_free_overwrite; [by apply Hfree|done].
  - unfold unique, entries in *. cbn. rewrite E1 in Hu. rewrite E2. rewrite !fmap_app in *. cbn in Hu.
    eapply sublist_NoDup; [exact Hu|]. apply sublist_app; [done|by constructor].
Qed.

Lemma erase_refines m h p c :
  valid m -> query m h p c -> valid (erase m h p) /\ abs (erase m h p) = delete c (abs m).
Proof.
  intros Hv Hq. split; [by apply erase_valid|].
  pose proof (find_abs m h p c Hv Hq) as Hf.
  pose proof (locate_query m h p c Hv Hq) as Hl. pose proof Hv as [Hwf Hu].
  unfold erase. unfold find in Hf. destruct (m_capacity m =? 0)%nat; [by rewrite delete_id|].
  destruct (locate m h p) as [i|]; [|by rewrite delete_id].
  destruct Hl as (k & v & Hi & <-). clear Hf.
  destruct (omap_id_update (m_slots m) i (k, v) (k, v)) as (l1 & l2 & E1 & _ & E2).
  { rewrite (slot_lookup m i); [by rewrite Hi|done|by eapply slot_Some_lt]. }
  unfold abs, entries. cbn. rewrite E1, E2. rewrite !fmap_app, !list_to_map_app. cbn.
  unfold unique, entries in Hu. rewrite E1, !fmap_app in Hu. cbn in Hu.
  apply NoDup_app in Hu as (_ & Hd & Hnd). apply NoDup_cons in Hnd as [Hnot _].
  rewrite delete_union, delete_insert_id.
  - rewrite delete_id; [done|]. apply not_elem_of_list_to_map. intros Hin.
    apply (Hd _ Hin). set_solver.
  - by apply not_elem_of_list_to_map.
Qed.

Lemma swiss_empty_valid : valid swiss_empty.
Proof.
  split; [|constructor]. split; cbn; try done. by exists 0%nat.
Qed.

Lemma clear_refines m : valid m -> valid (clear m) /\ abs (clear m) = ∅.
Proof.
  intros [Hwf Hu]. destruct (wf_cap m Hwf) as [g Hg].
  destruct (fresh_table_wf g) as [Hf He]. unfold clear.
  destruct (Nat.ltb_spec 0 (m_capacity m)) as [Hlt|Hge].
  - rewrite Hg. change (mkSwiss _ _ _ _) with (fresh_table (g * GROUP_WIDTH)).
    unfold valid, unique, abs. rewrite He. split; [split; [done|constructor]|done].
  - assert (m_capacity m = 0)%nat as -> by lia. cbn. split; [|done]. split; [|constructor].
    split; cbn; try done; [by exists 0%nat|lia..].
Qed.

Lemma clear_entries (m : SwissHashMap) : entries (clear m) = [].
Proof. unfold entries. cbn. by induction (m_capacity m). Qed.

Lemma valid_size m : valid m -> m_size m = size (abs m).
Proof.
  intros [Hwf Hu]. rewrite wf_size by done. unfold abs.
  rewrite map_size_list_to_map by done. by rewrite length_fmap.
Qed.

Lemma rehash_refines m : valid m -> exists m', rehash m = Ok m' /\ valid m' /\ abs m' = abs m.
Proof.
  intros [Hwf Hu]. destruct (rehash_Ok m Hwf) as (m' & -> & Hwf' & He & _). eexists. split; [done|].
  destruct (abs_perm (entries m) (entries m')) as [Hu' Ha']; [done|by rewrite He|]. done.
Qed.

(** *** What an update does to the set of entries *)

Lemma upsert_entries m k v m' b :
  wf m -> upsert m k v = Ok (m', b) ->
  forall k' v', (k', v') ∈ entries m' -> (k', v') ∈ entries m \/
    (v' = v /\ (k' = k \/ (k' ∈ (entries m).*1 /\ KeyEqual k' k = true))).
Proof.
  intros Hwf. unfold upsert. destruct (grow_Ok m Hwf) as (m1 & -> & Hwf1 & He1 & Hroom).
  cbn [mbind result_bind]. setoid_rewrite <- He1.
  pose proof (slot_key m1) as Hkeys.
  destruct (locate m1 (Hash k) (fun k0 => KeyEqual k0 k)) as [i|] eqn:Hl.
  - apply locate_Some in Hl as (k0 & v0 & Hi & Hp). rewrite Hi. intros [= <- <-] k' v'.
    pose proof (slot_Some_lt m1 i _ Hwf1 Hi) as Hlt.
    rewrite !elem_of_entries. intros [j Hj]. rewrite slot_insert in Hj by done.
    destruct (decide (i = j)); [simplify_eq; eauto 8|eauto].
  - destruct (insert_impl_Ok m1 k v Hwf1 Hroom) as (m2 & -> & _ & _ & He'). intros [= <- <-] k' v'.
    rewrite He', elem_of_cons. intros [[= -> ->]|]; eauto.
Qed.

Lemma erase_entries m h p e : wf m -> e ∈ entries (erase m h p) -> e ∈ entries m.
Proof.
  intros Hwf. unfold erase. destruct (m_capacity m =? 0)%nat; [done|].
  destruct (locate m h p) as [i|] eqn:Hl; [|done].
  apply locate_Some in Hl as (k0 & v0 & Hi & Hp).
  pose proof (slot_Some_lt m i _ Hwf Hi) as Hlt. destruct e as [k v].
  rewrite !elem_of_entries. intros [j Hj]. rewrite slot_insert in Hj by done.
  destruct (decide (i = j)); [done|eauto].
Qed.

Lemma key_at_entries m i k : k ∈ key_at m i -> k ∈ (entries m).*1.
Proof.
  unfold key_at. destruct (slot m i) as [[k0 v]|] eqn:Hi; [|by rewrite elem_of_nil].
  rewrite list_elem_of_singleton. intros ->. apply list_elem_of_fmap. exists (k0, v). split; [done|].
  apply elem_of_entries. eauto.
Qed.

Lemma compared_entries m h p k : k ∈ compared m h p -> k ∈ (entries m).*1.
Proof.
  unfold compared. destruct (m_capacity m =? 0)%nat; [by rewrite elem_of_nil|].
  generalize (h1 m h) (h2 h) (groups m) 0%nat. intros grp fp todo.
  induction todo as [|todo IH]; intros probe; cbn [probe_visited]; [by rewrite elem_of_nil|].
  rewrite elem_of_app, list_elem_of_bind. intros [(bit & Hk & _)|Hk]; [by eapply key_at_entries|].
  destruct (mask_loop _ _ _); [by rewrite elem_of_nil in Hk|].
  destruct (negb _); [by rewrite elem_of_nil in Hk|]. by eapply IH.
Qed.

Lemma stored_keys_entries m : stored_keys m = (entries m).*1.
Proof. unfold stored_keys, entries. induction (m_slots m) as [|[[k v]|] l IH]; cbn; by f_equal. Qed.

Lemma upsert_reads_entries m key k : k ∈ upsert_reads m key -> k ∈ (entries m).*1.
Proof.
  unfold upsert_reads. case_match; [by rewrite stored_keys_entries|apply compared_entries].
Qed.

(** *** Iteration yields the entries *)

Lemma advance_spec m fuel i :
  wf m -> (i <= m_capacity m < fuel + i)%nat ->
  forall j, j = advance fuel m i ->
  (i <= j <= m_capacity m)%nat /\ omap id (drop i (m_slots m)) = omap id (drop j (m_slots m)) /\
  ((j < m_capacity m)%nat -> slot m j <> None).
Proof.
  intros Hwf. revert i. induction fuel as [|fuel IH]; intros i Hi j ->; [lia|]. cbn [advance].
  destruct (Nat.ltb_spec i (m_capacity m)) as [Hlt|]; [|split_and!; (done || lia)].
  destruct (control_is_Some m i Hwf Hlt) as [c Hc]. rewrite (nth_lookup_Some _ _ _ _ Hc).
  pose proof (wf_byte m Hwf i c Hlt Hc) as Hb.
  pose proof (slot_lookup m i Hwf Hlt) as Hs. destruct (is_full c) eqn:Hf.
  - split_and!; try (done || lia). intros _ Hn. rewrite Hn in Hb.
    unfold is_full, is_available in *. apply orb_true_iff in Hb as [Hb|Hb]; rewrite Hb in Hf;
      [done|]. by rewrite andb_false_r in Hf.
  - destruct (IH (S i) ltac:(lia) _ eq_refl) as (H1 & H2 & H3). split_and!; try (done || lia).
    rewrite <- H2, (drop_lookup_cons _ _ _ Hs). destruct (slot m i) as [[k v]|]; [|done].
    exfalso. subst c. unfold is_full, EMPTY, DELETED, SENTINEL in Hf. pose proof (h2_range (Hash k)).
    destruct (Z.eqb_spec (h2 (Hash k)) 0xFF), (Z.eqb_spec (h2 (Hash k)) 0x7E),
      (Z.eqb_spec (h2 (Hash k)) 0xFE); (done || lia).
Qed.

Lemma drain_from_entries m fuel i :
  wf m -> (i <= m_capacity m < fuel + i)%nat ->
  drain_from fuel m i = Some <$> omap id (drop i (m_slots m)).
Proof.
  intros Hwf. revert i. induction fuel as [|fuel IH]; intros i Hi; [lia|]. cbn [drain_from].
  destruct (advance_spec m (S (m_capacity m)) i Hwf ltac:(lia) _ eq_refl) as (H1 & -> & H3).
  generalize dependent (advance (S (m_capacity m)) m i). intros j H1 H3. destruct (Nat.eqb_spec j (m_capacity m)) as [->|Hne].
  - by rewrite <- (wf_slots m Hwf), drop_all.
  - pose proof (slot_lookup m j Hwf ltac:(lia)) as Hs. specialize (H3 ltac:(lia)).
    rewrite (drop_lookup_cons _ _ _ Hs). destruct (slot m j); [|done]. cbn. f_equal.
    rewrite IH by lia. done.
Qed.

Lemma iterate_entries m : wf m -> iterate m = Some <$> entries m.
Proof. intros Hwf. unfold iterate. by rewrite drain_from_entries by (done || lia). Qed.

End SwissHashMap.

#[export] Hint Resolve swiss_empty_valid : congelado.

(** ** Properties *)

Section Properties.
Context {K V C : Type} `{Countable C}.
Context (Hash : K -> Z) (KeyEqual : K -> K -> bool) (canon : K -> C).
Context `{!HashLaws Hash KeyEqual canon}.

Let lookup (m : SwissHashMap) (k : K) : option V := find m (Hash k) (fun k' => KeyEqual k' k).

(** C27: [SwissHashMap] refines a finite map.  From any valid table, [upsert] never throws
    and inserts or overwrites exactly the given key (its flag tells which), [erase] deletes
    exactly the given key, [clear] empties the table, [rehash] changes nothing, every
    result is valid again, [size] is the number of keys, and [find] is the lookup of the map.
    [insert], which may add a key a second time, as its class says, is not among them. *)
Theorem swiss_refines_map (m : @SwissHashMap K V) (k : K) (v : V) :
  valid Hash canon m ->
  lookup m k = abs canon m !! canon k /\
  m_size m = size (abs canon m) /\
  (exists m', upsert Hash KeyEqual m k v = Ok (m', bool_decide (abs canon m !! canon k = None)) /\
     valid Hash canon m' /\ abs canon m' = <[canon k := v]> (abs canon m)) /\
  (valid Hash canon (erase m (Hash k) (fun k' => KeyEqual k' k)) /\
   abs canon (erase m (Hash k) (fun k' => KeyEqual k' k)) = delete (canon k) (abs canon m)) /\
  (valid Hash canon (clear m) /\ abs canon (clear m) = ∅) /\
  (exists m', rehash Hash m = Ok m' /\ valid Hash canon m' /\ abs canon m' = abs canon m).
Proof.
  intros Hv.
  split; [by eapply find_abs, key_query|]. split; [by eapply valid_size|].
  split; [by apply upsert_refines|]. split; [by eapply erase_refines, key_query|].
  split; [by apply clear_refines|]. by apply rehash_refines.
Qed.

(** iterating a valid table visits every key of the map exactly once with its value,
    and [insert], which does not look for the key first, never throws and adds exactly one
    entry to what an iteration visits. *)
Theorem swiss_iterate (m : @SwissHashMap K V) (k : K) (v : V) :
  valid Hash canon m ->
  (exists l, iterate m = Some <$> l /\ NoDup (key_value canon <$> l).*1 /\
     list_to_map (key_value canon <$> l) = abs canon m) /\
  (exists m', insert Hash m k v = Ok m' /\ iterate m' ≡ₚ Some (k, v) :: iterate m).
Proof.
  intros [Hwf Hu]. split.
  - exists (entries m). by rewrite (iterate_entries Hash).
  - unfold insert. destruct (grow_Ok Hash m Hwf) as (m1 & -> & Hwf1 & He1 & Hroom).
    cbn [mbind result_bind]. destruct (insert_impl_Ok Hash m1 k v Hwf1 Hroom) as (m' & -> & Hwf' & _ & He').
    exists m'. split; [done|]. rewrite !(iterate_entries Hash) by done. by rewrite He', He1.
Qed.
End Properties.

(** A hash that collides: every key of a table of integers lands in one of four groups. *)
Definition demo_hash (z : Z) : Z := 128 * (z mod 4) + 0x7E.

#[export] Instance demo_laws : HashLaws demo_hash Z.eqb (fun z : Z => z).
Proof. split; [apply Z.eqb_eq|by intros ?? ->]. Qed.

Lemma swiss_refines_map_witness :
  exists m m' : SwissHashMap,
    upsert demo_hash Z.eqb m 9 1 = Ok (m', true) /\
    abs (fun z : Z => z) m = ({[5 := 7]} : gmap Z Z) /\
    find m' (demo_hash 5) (fun k => k =? 5) = Some 7.
Proof.
  destruct (upsert_refines demo_hash Z.eqb (fun z => z) swiss_empty 5 7)
    as (m & _ & Hv & Ha); [apply swiss_empty_valid|].
  destruct (swiss_refines_map demo_hash Z.eqb (fun z => z) m 9 1 Hv)
    as (_ & _ & (m' & Hup & Hv' & Ha') & _).
  exists m, m'. rewrite Hup, Ha. split; [done|]. split; [done|].
  destruct (swiss_refines_map demo_hash Z.eqb (fun z => z) m' 5 1 Hv') as (Hf & _).
  rewrite Hf, Ha', Ha. done.
Defined.

Lemma swiss_iterate_witness :
  exists m : SwissHashMap, insert demo_hash swiss_empty 5 7 = Ok m /\ iterate m ≡ₚ [Some (5, 7)].
Proof.
  exact (proj2 (swiss_iterate demo_hash (fun z => z) swiss_empty 5 7
    (swiss_empty_valid demo_hash (fun z => z)))).
Defined.
