(* ===== verification/HttpTypes.v ===== *)
(** * HTTP vocabulary: methods, header tokens and their names

    Models src/include/interfaces/io/types.cppm: [enum class Method] with [method_str] and
    [parse_method], and [enum class Token] with [tokenize] (a [switch] on the length over one
    helper per length) and [token_to_string].  Header names are the keys of the HPACK tables
    (HeaderTable.v). *)

From stdpp Require Import base strings list countable finite.
From Stdlib Require Import ZArith Lia Ascii.
From S2P Require Import Prelude.

#[local] Open Scope string_scope.

(** ** Methods *)

Inductive Method :=
  | GET
  | POST
  | PUT
  | DELETE
  | PATCH
  | HEAD
  | OPTIONS
  | CONNECT
  | TRACE
  | UNKNOWN.

#[export] Instance Method_eq_dec : EqDecision Method.
Proof. solve_decision. Defined.

Definition method_str (method : Method) : string :=
  match method with
  | GET => "GET"
  | HEAD => "HEAD"
  | POST => "POST"
  | PUT => "PUT"
  | DELETE => "DELETE"
  | CONNECT => "CONNECT"
  | OPTIONS => "OPTIONS"
  | TRACE => "TRACE"
  | PATCH => "PATCH"
  | _ => ""
  end.

Definition parse_method (view : string) : Method :=
  match view with
  | "" => UNKNOWN
  | String c _ =>
      if Ascii.eqb c "G"%char then if view =? "GET" then GET else UNKNOWN
      else if Ascii.eqb c "H"%char then if view =? "HEAD" then HEAD else UNKNOWN
      else if Ascii.eqb c "P"%char then
        match String.length view with
        | 4%nat => if view =? "POST" then POST else UNKNOWN
        | 3%nat => if view =? "PUT" then PUT else UNKNOWN
        | 5%nat => if view =? "PATCH" then PATCH else UNKNOWN
        | _ => UNKNOWN
        end
      else if Ascii.eqb c "D"%char then if view =? "DELETE" then DELETE else UNKNOWN
      else if Ascii.eqb c "C"%char then if view =? "CONNECT" then CONNECT else UNKNOWN
      else if Ascii.eqb c "O"%char then if view =? "OPTIONS" then OPTIONS else UNKNOWN
      else if Ascii.eqb c "T"%char then if view =? "TRACE" then TRACE else UNKNOWN
      else UNKNOWN
  end.

(** ** Header tokens *)

Inductive Token :=
  | NONE
  | AUTHORITY
  | METHOD
  | PATH
  | SCHEME
  | STATUS
  | ACCEPT_CHARSET
  | ACCEPT_ENCODING
  | ACCEPT_LANGUAGE
  | ACCEPT_RANGES
  | ACCEPT
  | ACCESS_CONTROL_ALLOW_ORIGIN
  | AGE
  | ALLOW
  | AUTHORIZATION
  | CACHE_CONTROL
  | CONTENT_DISPOSITION
  | CONTENT_ENCODING
  | CONTENT_LANGUAGE
  | CONTENT_LENGTH
  | CONTENT_LOCATION
  | CONTENT_RANGE
  | CONTENT_TYPE
  | COOKIE
  | DATE
  | E_TAG
  | EXPECT
  | EXPIRES
  | FROM
  | HOST
  | IF_MATCH
  | IF_MODIFIED_SINCE
  | IF_NONE_MATCH
  | IF_RANGE
  | IF_UNMODIFIED_SINCE
  | LAST_MODIFIED
  | LINK
  | LOCATION
  | MAX_FORWARDS
  | PROXY_AUTHENTICATE
  | PROXY_AUTHORIZATION
  | RANGE
  | REFERER
  | REFRESH
  | RETRY_AFTER
  | SERVER
  | SET_COOKIE
  | STRICT_TRANSPORT_SECURITY
  | TRANSFER_ENCODING
  | USER_AGENT
  | VARY
  | VIA
  | WWW_AUTHENTICATE
  | ACCESS_CONTROL_ALLOW_CREDENTIALS
  | ACCESS_CONTROL_ALLOW_HEADERS
  | ACCESS_CONTROL_ALLOW_METHODS
  | ACCESS_CONTROL_EXPOSE_HEADERS
  | ACCESS_CONTROL_REQUEST_HEADERS
  | ACCESS_CONTROL_REQUEST_METHOD
  | ALT_SVC
  | CONTENT_SECURITY_POLICY
  | EARLY_DATA
  | EXPECT_CT
  | FORWARDED
  | ORIGIN
  | PURPOSE
  | TIMING_ALLOW_ORIGIN
  | UPGRADE_INSECURE_REQUESTS
  | X_CONTENT_TYPE_OPTIONS
  | X_FORWARDED_FOR
  | X_FRAME_OPTIONS
  | X_XSS_PROTECTION.

#[export] Instance Token_eq_dec : EqDecision Token.
Proof. solve_decision. Defined.

(** [std::to_underlying]. *)
Definition token_code (t : Token) : Z :=
  match t with
  | NONE => 0
  | AUTHORITY => 1
  | METHOD => 2
  | PATH => 3
  | SCHEME => 4
  | STATUS => 5
  | ACCEPT_CHARSET => 6
  | ACCEPT_ENCODING => 7
  | ACCEPT_LANGUAGE => 8
  | ACCEPT_RANGES => 9
  | ACCEPT => 10
  | ACCESS_CONTROL_ALLOW_ORIGIN => 11
  | AGE => 12
  | ALLOW => 13
  | AUTHORIZATION => 14
  | CACHE_CONTROL => 15
  | CONTENT_DISPOSITION => 16
  | CONTENT_ENCODING => 17
  | CONTENT_LANGUAGE => 18
  | CONTENT_LENGTH => 19
  | CONTENT_LOCATION => 20
  | CONTENT_RANGE => 21
  | CONTENT_TYPE => 22
  | COOKIE => 23
  | DATE => 24
  | E_TAG => 25
  | EXPECT => 26
  | EXPIRES => 27
  | FROM => 28
  | HOST => 29
  | IF_MATCH => 30
  | IF_MODIFIED_SINCE => 31
  | IF_NONE_MATCH => 32
  | IF_RANGE => 33
  | IF_UNMODIFIED_SINCE => 34
  | LAST_MODIFIED => 35
  | LINK => 36
  | LOCATION => 37
  | MAX_FORWARDS => 38
  | PROXY_AUTHENTICATE => 39
  | PROXY_AUTHORIZATION => 40
  | RANGE => 41
  | REFERER => 42
  | REFRESH => 43
  | RETRY_AFTER => 44
  | SERVER => 45
  | SET_COOKIE => 46
  | STRICT_TRANSPORT_SECURITY => 47
  | TRANSFER_ENCODING => 48
  | USER_AGENT => 49
  | VARY => 50
  | VIA => 51
  | WWW_AUTHENTICATE => 52
  | ACCESS_CONTROL_ALLOW_CREDENTIALS => 53
  | ACCESS_CONTROL_ALLOW_HEADERS => 54
  | ACCESS_CONTROL_ALLOW_METHODS => 55
  | ACCESS_CONTROL_EXPOSE_HEADERS => 56
  | ACCESS_CONTROL_REQUEST_HEADERS => 57
  | ACCESS_CONTROL_REQUEST_METHOD => 58
  | ALT_SVC => 59
  | CONTENT_SECURITY_POLICY => 60
  | EARLY_DATA => 61
  | EXPECT_CT => 62
  | FORWARDED => 63
  | ORIGIN => 64
  | PURPOSE => 65
  | TIMING_ALLOW_ORIGIN => 66
  | UPGRADE_INSECURE_REQUESTS => 67
  | X_CONTENT_TYPE_OPTIONS => 68
  | X_FORWARDED_FOR => 69
  | X_FRAME_OPTIONS => 70
  | X_XSS_PROTECTION => 71
  end%Z.

Definition tokenize_length_3 (name : string) : option Token :=
  if name =? "age" then Some AGE else
  if name =? "via" then Some VIA else
  None.

Definition tokenize_length_4 (name : string) : option Token :=
  if name =? "date" then Some DATE else
  if name =? "etag" then Some E_TAG else
  if name =? "from" then Some FROM else
  if name =? "host" then Some HOST else
  if name =? "link" then Some LINK else
  if name =? "vary" then Some VARY else
  None.

Definition tokenize_length_5 (name : string) : option Token :=
  if name =? ":path" then Some PATH else
  if name =? "allow" then Some ALLOW else
  if name =? "range" then Some RANGE else
  None.

Definition tokenize_length_6 (name : string) : option Token :=
  if name =? "accept" then Some ACCEPT else
  if name =? "cookie" then Some COOKIE else
  if name =? "expect" then Some EXPECT else
  if name =? "origin" then Some ORIGIN else
  if name =? "server" then Some SERVER else
  None.

Definition tokenize_length_7 (name : string) : option Token :=
  if name =? ":method" then Some METHOD else
  if name =? ":scheme" then Some SCHEME else
  if name =? ":status" then Some STATUS else
  if name =? "alt-svc" then Some ALT_SVC else
  if name =? "expires" then Some EXPIRES else
  if name =? "purpose" then Some PURPOSE else
  if name =? "referer" then Some REFERER else
  if name =? "refresh" then Some REFRESH else
  None.

Definition tokenize_length_8 (name : string) : option Token :=
  if name =? "if-match" then Some IF_MATCH else
  if name =? "if-range" then Some IF_RANGE else
  if name =? "location" then Some LOCATION else
  None.

Definition tokenize_length_9 (name : string) : option Token :=
  if name =? "expect-ct" then Some EXPECT_CT else
  if name =? "forwarded" then Some FORWARDED else
  None.

Definition tokenize_length_10 (name : string) : option Token :=
  if name =? ":authority" then Some AUTHORITY else
  if name =? "early-data" then Some EARLY_DATA else
  if name =? "set-cookie" then Some SET_COOKIE else
  if name =? "user-agent" then Some USER_AGENT else
  None.

Definition tokenize_length_11 (name : string) : option Token :=
  if name =? "retry-after" then Some RETRY_AFTER else
  None.

Definition tokenize_length_12 (name : string) : option Token :=
  if name =? "accept-ranges" then Some ACCEPT_RANGES else
  if name =? "content-type" then Some CONTENT_TYPE else
  if name =? "max-forwards" then Some MAX_FORWARDS else
  None.

Definition tokenize_length_13 (name : string) : option Token :=
  if name =? "authorization" then Some AUTHORIZATION else
  if name =? "cache-control" then Some CACHE_CONTROL else
  if name =? "content-range" then Some CONTENT_RANGE else
  if name =? "if-none-match" then Some IF_NONE_MATCH else
  if name =? "last-modified" then Some LAST_MODIFIED else
  None.

Definition tokenize_length_14 (name : string) : option Token :=
  if name =? "accept-charset" then Some ACCEPT_CHARSET else
  if name =? "content-length" then Some CONTENT_LENGTH else
  None.

Definition tokenize_length_15 (name : string) : option Token :=
  if name =? "accept-encoding" then Some ACCEPT_ENCODING else
  if name =? "accept-language" then Some ACCEPT_LANGUAGE else
  None.

Definition tokenize_length_16 (name : string) : option Token :=
  if name =? "content-encoding" then Some CONTENT_ENCODING else
  if name =? "content-language" then Some CONTENT_LANGUAGE else
  if name =? "content-location" then Some CONTENT_LOCATION else
  if name =? "www-authenticate" then Some WWW_AUTHENTICATE else
  None.

Definition tokenize_length_17 (name : string) : option Token :=
  if name =? "if-modified-since" then Some IF_MODIFIED_SINCE else
  if name =? "transfer-encoding" then Some TRANSFER_ENCODING else
  None.

Definition tokenize_length_18 (name : string) : option Token :=
  if name =? "proxy-authenticate" then Some PROXY_AUTHENTICATE else
  if name =? "x-xss-protection" then Some X_XSS_PROTECTION else
  None.

Definition tokenize_length_19 (name : string) : option Token :=
  if name =? "content-disposition" then Some CONTENT_DISPOSITION else
  if name =? "if-unmodified-since" then Some IF_UNMODIFIED_SINCE else
  if name =? "proxy-authorization" then Some PROXY_AUTHORIZATION else
  if name =? "timing-allow-origin" then Some TIMING_ALLOW_ORIGIN else
  if name =? "x-frame-options" then Some X_FRAME_OPTIONS else
  None.

Definition tokenize_length_20 (name : string) : option Token :=
  if name =? "x-forwarded-for" then Some X_FORWARDED_FOR else
  None.

Definition tokenize_length_22 (name : string) : option Token :=
  if name =? "x-content-type-options" then Some X_CONTENT_TYPE_OPTIONS else
  None.

Definition tokenize_length_23 (name : string) : option Token :=
  if name =? "content-security-policy" then Some CONTENT_SECURITY_POLICY else
  None.

Definition tokenize_length_25 (name : string) : option Token :=
  if name =? "strict-transport-security" then Some STRICT_TRANSPORT_SECURITY else
  if name =? "upgrade-insecure-requests" then Some UPGRADE_INSECURE_REQUESTS else
  None.

Definition tokenize_length_27 (name : string) : option Token :=
  if name =? "access-control-allow-origin" then Some ACCESS_CONTROL_ALLOW_ORIGIN else
  None.

Definition tokenize_length_28 (name : string) : option Token :=
  if name =? "access-control-allow-headers" then Some ACCESS_CONTROL_ALLOW_HEADERS else
  if name =? "access-control-allow-methods" then Some ACCESS_CONTROL_ALLOW_METHODS else
  None.

Definition tokenize_length_29 (name : string) : option Token :=
  if name =? "access-control-expose-headers" then Some ACCESS_CONTROL_EXPOSE_HEADERS else
  if name =? "access-control-request-method" then Some ACCESS_CONTROL_REQUEST_METHOD else
  None.

Definition tokenize_length_30 (name : string) : option Token :=
  if name =? "access-control-request-headers" then Some ACCESS_CONTROL_REQUEST_HEADERS else
  None.

Definition tokenize_length_32 (name : string) : option Token :=
  if name =? "access-control-allow-credentials" then Some ACCESS_CONTROL_ALLOW_CREDENTIALS else
  None.

Definition tokenize (name : string) : option Token :=
  match String.length name with
  | 3%nat => tokenize_length_3 name
  | 4%nat => tokenize_length_4 name
  | 5%nat => tokenize_length_5 name
  | 6%nat => tokenize_length_6 name
  | 7%nat => tokenize_length_7 name
  | 8%nat => tokenize_length_8 name
  | 9%nat => tokenize_length_9 name
  | 10%nat => tokenize_length_10 name
  | 11%nat => tokenize_length_11 name
  | 12%nat => tokenize_length_12 name
  | 13%nat => tokenize_length_13 name
  | 14%nat => tokenize_length_14 name
  | 15%nat => tokenize_length_15 name
  | 16%nat => tokenize_length_16 name
  | 17%nat => tokenize_length_17 name
  | 18%nat => tokenize_length_18 name
  | 19%nat => tokenize_length_19 name
  | 20%nat => tokenize_length_20 name
  | 22%nat => tokenize_length_22 name
  | 23%nat => tokenize_length_23 name
  | 25%nat => tokenize_length_25 name
  | 27%nat => tokenize_length_27 name
  | 28%nat => tokenize_length_28 name
  | 29%nat => tokenize_length_29 name
  | 30%nat => tokenize_length_30 name
  | 32%nat => tokenize_length_32 name
  | _ => None
  end.

Definition token_to_string (tkst : Token) : string :=
  match tkst with
  | AUTHORITY => ":authority"
  | METHOD => ":method"
  | PATH => ":path"
  | SCHEME => ":scheme"
  | STATUS => ":status"
  | ACCEPT_CHARSET => "accept-charset"
  | ACCEPT_ENCODING => "accept-encoding"
  | ACCEPT_LANGUAGE => "accept-language"
  | ACCEPT_RANGES => "accept-ranges"
  | ACCEPT => "accept"
  | ACCESS_CONTROL_ALLOW_ORIGIN => "access-control-allow-origin"
  | AGE => "age"
  | ALLOW => "allow"
  | AUTHORIZATION => "authorization"
  | CACHE_CONTROL => "cache-control"
  | CONTENT_DISPOSITION => "content-disposition"
  | CONTENT_ENCODING => "content-encoding"
  | CONTENT_LANGUAGE => "content-language"
  | CONTENT_LENGTH => "content-length"
  | CONTENT_LOCATION => "content-location"
  | CONTENT_RANGE => "content-range"
  | CONTENT_TYPE => "content-type"
  | COOKIE => "cookie"
  | DATE => "date"
  | E_TAG => "etag"
  | EXPECT => "expect"
  | EXPIRES => "expires"
  | FROM => "from"
  | HOST => "host"
  | IF_MATCH => "if-match"
  | IF_MODIFIED_SINCE => "if-modified-since"
  | IF_NONE_MATCH => "if-none-match"
  | IF_RANGE => "if-range"
  | IF_UNMODIFIED_SINCE => "if-unmodified-since"
  | LAST_MODIFIED => "last-modified"
  | LINK => "link"
  | LOCATION => "location"
  | MAX_FORWARDS => "max-forwards"
  | PROXY_AUTHENTICATE => "proxy-authenticate"
  | PROXY_AUTHORIZATION => "proxy-authorization"
  | RANGE => "range"
  | REFERER => "referer"
  | REFRESH => "refresh"
  | RETRY_AFTER => "retry-after"
  | SERVER => "server"
  | SET_COOKIE => "set-cookie"
  | STRICT_TRANSPORT_SECURITY => "strict-transport-security"
  | TRANSFER_ENCODING => "transfer-encoding"
  | USER_AGENT => "user-agent"
  | VARY => "vary"
  | VIA => "via"
  | WWW_AUTHENTICATE => "www-authenticate"
  | ACCESS_CONTROL_ALLOW_CREDENTIALS => "access-control-allow-credentials"
  | ACCESS_CONTROL_ALLOW_HEADERS => "access-control-allow-headers"
  | ACCESS_CONTROL_ALLOW_METHODS => "access-control-allow-methods"
  | ACCESS_CONTROL_EXPOSE_HEADERS => "access-control-expose-headers"
  | ACCESS_CONTROL_REQUEST_HEADERS => "access-control-request-headers"
  | ACCESS_CONTROL_REQUEST_METHOD => "access-control-request-method"
  | ALT_SVC => "alt-svc"
  | CONTENT_SECURITY_POLICY => "content-security-policy"
  | EARLY_DATA => "early-data"
  | EXPECT_CT => "expect-ct"
  | FORWARDED => "forwarded"
  | ORIGIN => "origin"
  | PURPOSE => "purpose"
  | TIMING_ALLOW_ORIGIN => "timing-allow-origin"
  | UPGRADE_INSECURE_REQUESTS => "upgrade-insecure-requests"
  | X_CONTENT_TYPE_OPTIONS => "x-content-type-options"
  | X_FORWARDED_FOR => "x-forwarded-for"
  | X_FRAME_OPTIONS => "x-frame-options"
  | X_XSS_PROTECTION => "x-xss-protection"
  | NONE => ""
  end.

Create HintDb tokenizers.
#[export] Hint Unfold tokenize_length_3 tokenize_length_4 tokenize_length_5 tokenize_length_6 tokenize_length_7 tokenize_length_8 tokenize_length_9 tokenize_length_10 tokenize_length_11 tokenize_length_12 tokenize_length_13 tokenize_length_14 tokenize_length_15 tokenize_length_16 tokenize_length_17 tokenize_length_18 tokenize_length_19 tokenize_length_20 tokenize_length_22 tokenize_length_23 tokenize_length_25 tokenize_length_27 tokenize_length_28 tokenize_length_29 tokenize_length_30 tokenize_length_32 : tokenizers.

(** ** Enumerations *)

Definition all_tokens : list Token :=
  [NONE; AUTHORITY; METHOD; PATH; SCHEME; STATUS; ACCEPT_CHARSET; ACCEPT_ENCODING;
   ACCEPT_LANGUAGE; ACCEPT_RANGES; ACCEPT; ACCESS_CONTROL_ALLOW_ORIGIN; AGE; ALLOW;
   AUTHORIZATION; CACHE_CONTROL; CONTENT_DISPOSITION; CONTENT_ENCODING; CONTENT_LANGUAGE;
   CONTENT_LENGTH; CONTENT_LOCATION; CONTENT_RANGE; CONTENT_TYPE; COOKIE; DATE; E_TAG; EXPECT;
   EXPIRES; FROM; HOST; IF_MATCH; IF_MODIFIED_SINCE; IF_NONE_MATCH; IF_RANGE;
   IF_UNMODIFIED_SINCE; LAST_MODIFIED; LINK; LOCATION; MAX_FORWARDS; PROXY_AUTHENTICATE;
   PROXY_AUTHORIZATION; RANGE; REFERER; REFRESH; RETRY_AFTER; SERVER; SET_COOKIE;
   STRICT_TRANSPORT_SECURITY; TRANSFER_ENCODING; USER_AGENT; VARY; VIA; WWW_AUTHENTICATE;
   ACCESS_CONTROL_ALLOW_CREDENTIALS; ACCESS_CONTROL_ALLOW_HEADERS; ACCESS_CONTROL_ALLOW_METHODS;
   ACCESS_CONTROL_EXPOSE_HEADERS; ACCESS_CONTROL_REQUEST_HEADERS; ACCESS_CONTROL_REQUEST_METHOD;
   ALT_SVC; CONTENT_SECURITY_POLICY; EARLY_DATA; EXPECT_CT; FORWARDED; ORIGIN; PURPOSE;
   TIMING_ALLOW_ORIGIN; UPGRADE_INSECURE_REQUESTS; X_CONTENT_TYPE_OPTIONS; X_FORWARDED_FOR;
   X_FRAME_OPTIONS; X_XSS_PROTECTION].

Lemma elem_of_all_tokens t : t ∈ all_tokens.
Proof. apply list_elem_of_In. destruct t; vm_compute; tauto. Qed.

(** A decidable property of tokens, by enumeration. *)
Lemma token_check (P : Token -> bool) : forallb P all_tokens = true -> forall t, P t = true.
Proof.
  intros H t. rewrite forallb_forall in H. apply H, list_elem_of_In, elem_of_all_tokens.
Qed.

Lemma token_forall (P : Token -> Prop) `{!forall t, Decision (P t)} :
  forallb (fun t => bool_decide (P t)) all_tokens = true -> forall t, P t.
Proof. intros Hall t. eapply bool_decide_eq_true_1, (token_check _ Hall). Qed.

Lemma token_code_inj t1 t2 : token_code t1 = token_code t2 -> t1 = t2.
Proof.
  assert (forall t, forallb (fun t' => implb (token_code t =? token_code t')%Z (bool_decide (t = t'))) all_tokens = true)
    as H by (apply token_check; vm_compute; reflexivity).
  intros E. specialize (H t1). rewrite forallb_forall in H.
  specialize (H t2 ltac:(apply list_elem_of_In, elem_of_all_tokens)).
  rewrite E, Z.eqb_refl in H. by apply bool_decide_eq_true in H.
Qed.

Lemma token_to_string_inj t1 t2 : token_to_string t1 = token_to_string t2 -> t1 = t2.
Proof.
  assert (forall t, forallb (fun t' => implb (token_to_string t =? token_to_string t') (bool_decide (t = t'))) all_tokens = true)
    as H by (apply token_check; vm_compute; reflexivity).
  intros E. specialize (H t1). rewrite forallb_forall in H.
  specialize (H t2 ltac:(apply list_elem_of_In, elem_of_all_tokens)).
  rewrite E, String.eqb_refl in H. by apply bool_decide_eq_true in H.
Qed.

Definition token_of_code (z : Z) : option Token :=
  head (filter (fun t => token_code t = z) all_tokens).

Lemma token_of_code_code t : token_of_code (token_code t) = Some t.
Proof.
  revert t. refine (token_forall _ _). vm_compute. reflexivity.
Qed.

#[export] Instance Token_countable : Countable Token :=
  inj_countable token_code token_of_code token_of_code_code.

(** Every branch of [tokenize] is a comparison with a literal. *)
Ltac tokenize_cases :=
  repeat match goal with
  | |- context [if ?n =? ?s then _ else _] => destruct (String.eqb_spec n s); [by intros [= <-]|]
  end; try done.

Lemma tokenize_inverts name t : tokenize name = Some t -> token_to_string t = name.
Proof.
  unfold tokenize. repeat (case_match; try done); autounfold with tokenizers; tokenize_cases.
Qed.

(** ** Properties *)

(** [parse_method] and [method_str] are inverse on every known method, and whatever
    [parse_method] accepts is the spelling of the method it returns. *)
Theorem method_round_trip (m : Method) (view : string) :
  parse_method (method_str m) = m /\ (parse_method view <> UNKNOWN -> method_str (parse_method view) = view).
Proof.
  split; [by destruct m|]. unfold parse_method.
  repeat match goal with
  | |- context [if ?n =? ?s then _ else _] => destruct (String.eqb_spec n s) as [->|]; [done|]
  | |- _ => case_match; try done
  end.
Qed.

(** a name [tokenize] recognises is the spelling of the token it returns, so [tokenize]
    is injective on the names it recognises. *)
Theorem tokenize_sound (name : string) (t : Token) :
  tokenize name = Some t -> token_to_string t = name.
Proof. apply tokenize_inverts. Qed.

Lemma tokenize_sound_witness : token_to_string CONTENT_TYPE = "content-type".
Proof. apply tokenize_sound. reflexivity. Defined.

(** the tokens [tokenize] cannot recover from their own spelling are exactly [NONE] and
    four whose name is compared in the helper of another length: the [switch] on
    [name.length()] never reaches the comparison. *)
Theorem tokenize_unreachable (t : Token) :
  tokenize (token_to_string t) <> Some t <->
  t ∈ [NONE; ACCEPT_RANGES; X_XSS_PROTECTION; X_FRAME_OPTIONS; X_FORWARDED_FOR].
Proof.
  revert t. refine (token_forall _ _). vm_compute. reflexivity.
Qed.

(** distinct tokens have distinct names, which is what makes a name an HPACK key. *)
Theorem token_to_string_injective (t1 t2 : Token) :
  token_to_string t1 = token_to_string t2 -> t1 = t2.
Proof. apply token_to_string_inj. Qed.

Lemma token_to_string_injective_witness : AGE = AGE.
Proof. apply (token_to_string_injective AGE AGE). reflexivity. Defined.
