(* ===== verification/HeaderTable.v ===== *)
(** * Header fields and the indexed header tables

    Models src/include/interfaces/io/header.cppm ([HeaderField]), [SearchResult] of
    src/include/io/codec/shared/types.cppm, and src/include/io/codec/shared/table.cppm:
    [HeaderKey], [HeaderHasher], [StaticTable] and [DynamicTable], over the hash map of
    Swiss.v.  [std::hash] is a parameter.

    A [HeaderKey] holds [string_view]s into the header field it was built from, and does not
    own them.  The model keeps with each key the insertion number of that field
    ([m_owner]); a map operation that compares or hashes a key whose field has been
    destroyed is undefined behaviour. *)

From Stdlib Require Import ZArith Lia.
From stdpp Require Import base gmap strings list countable.
From S2P Require Import Prelude HttpTypes Swiss.

Open Scope Z_scope.

Definition ENTRY_OVERHEAD : Z := 32.

Definition slen (s : string) : Z := Z.of_nat (String.length s).

(** ** [HeaderField] and [HeaderEntry] *)

(** [HeaderEntry], a variant of [HeaderField<true>] (a token names it) and
    [HeaderField<false>] (it owns its name). *)
Inductive HeaderEntry :=
  | StaticField (name : Token) (value : string)
  | LiteralField (name : string) (value : string).

#[export] Instance HeaderEntry_eq_dec : EqDecision HeaderEntry.
Proof. solve_decision. Defined.

(** The constructor of [HeaderField<false>]. *)
Definition make_field (name value : string) : result HeaderEntry :=
  if decide (name = ""%string) then Err RuntimeError else Ok (LiteralField name value).

Definition entry_name (e : HeaderEntry) : string :=
  match e with StaticField t _ => token_to_string t | LiteralField n _ => n end.

Definition get_value (e : HeaderEntry) : string :=
  match e with StaticField _ v | LiteralField _ v => v end.

(** [HeaderField::size]: [sizeof(Token)] is 1. *)
Definition field_size (e : HeaderEntry) : Z :=
  match e with
  | StaticField _ v => size_t (1 + slen v + ENTRY_OVERHEAD)
  | LiteralField n v => size_t (slen n + slen v + ENTRY_OVERHEAD)
  end.

(** ** [SearchResult]: an index and two flags packed in a [size_t] *)

Definition NPOS : Z := 2 ^ 64 - 1.
Definition STATIC_BIT : Z := Z.shiftl 1 63.
Definition FULL_BIT : Z := Z.shiftl 1 62.
Definition INDEX_MASK : Z := size_t (Z.lnot (Z.lor STATIC_BIT FULL_BIT)).

Definition SearchResult := Z.

Definition mkSearchResult (idx : Z) (is_static is_full : bool) : SearchResult :=
  Z.lor (Z.lor (if is_static then STATIC_BIT else 0) (if is_full then FULL_BIT else 0))
        (Z.land idx INDEX_MASK).
Definition none : SearchResult := NPOS.
Definition found (r : SearchResult) : bool := negb (r =? NPOS).
Definition sr_is_static (r : SearchResult) : bool := negb (Z.land r STATIC_BIT =? 0) && negb (r =? NPOS).
Definition is_full_match (r : SearchResult) : bool := negb (Z.land r FULL_BIT =? 0) && negb (r =? NPOS).
Definition index (r : SearchResult) : Z := Z.land r INDEX_MASK.

Lemma mkSearchResult_eq idx s f :
  mkSearchResult idx s f = (2 * Z.b2z s + Z.b2z f) * 2 ^ 62 + idx mod 2 ^ 62.
Proof.
  unfold mkSearchResult. change INDEX_MASK with (2 ^ 62 - 1). rewrite land_pow2_mod by lia.
  rewrite <- lor_low_add; [|lia|apply Z.mod_pos_bound; lia]. f_equal. by destruct s, f.
Qed.

Lemma testbit_top q i n : 0 <= n -> 0 <= i < 2 ^ n -> Z.testbit (q * 2 ^ n + i) n = Z.odd q.
Proof.
  intros Hn Hi. rewrite <- (Z.bit0_odd q).
  replace q with ((q * 2 ^ n + i) / 2 ^ n) at 2.
  - by rewrite Z.div_pow2_bits by lia.
  - rewrite Z.div_add_l, Z.div_small by lia. lia.
Qed.

Lemma SearchResult_fields idx s f :
  0 <= idx < 2 ^ 62 - 1 ->
  let r := mkSearchResult idx s f in
  found r = true /\ index r = idx /\ sr_is_static r = s /\ is_full_match r = f.
Proof.
  intros Hi r. unfold r. rewrite mkSearchResult_eq, Z.mod_small by lia.
  set (q := 2 * Z.b2z s + Z.b2z f).
  assert (q * 2 ^ 62 + idx <> NPOS) as Hnp by (unfold NPOS, q; destruct s, f; cbn; lia).
  unfold found, index, sr_is_static, is_full_match. rewrite (proj2 (Z.eqb_neq _ _) Hnp).
  change INDEX_MASK with (2 ^ 62 - 1). change FULL_BIT with (2 ^ 62). change STATIC_BIT with (2 ^ 63).
  rewrite land_pow2_mod, !land_pow2_testbit, !negb_involutive by lia.
  split_and!; [done| | |].
  - rewrite Z.add_comm, Z.mod_add, Z.mod_small; lia.
  - rewrite andb_true_r. replace (q * 2 ^ 62 + idx) with (Z.b2z s * 2 ^ 63 + (Z.b2z f * 2 ^ 62 + idx)) by (unfold q; lia).
    rewrite testbit_top by (destruct f; cbn; lia). by destruct s.
  - rewrite andb_true_r, testbit_top by lia. unfold q. by destruct s, f.
Qed.

Lemma stale_full_match : mkSearchResult NPOS true true = none.
Proof. reflexivity. Qed.

(** ** [HeaderKey] *)

Inductive HeaderKeyType := NAME_ONLY | FULL_MATCH.

#[export] Instance HeaderKeyType_eq_dec : EqDecision HeaderKeyType.
Proof. solve_decision. Defined.

Definition type_code (t : HeaderKeyType) : Z := match t with NAME_ONLY => 0 | FULL_MATCH => 1 end.

(** [std::variant<Token, std::string_view>]. *)
Definition KeyName : Type := Token + string.

(** [m_owner]: the insertion number of the field the views point into; [None] for a key
    without views or with views into static storage. *)
Record HeaderKey := mkHeaderKey {
  m_name : KeyName;
  m_value : string;
  m_type : HeaderKeyType;
  m_owner : option Z;
}.

(** [operator==]. *)
Definition key_eq (lhs rhs : HeaderKey) : bool :=
  match m_name lhs, m_name rhs with
  | inl t1, inl t2 => bool_decide (t1 = t2)
  | inr n1, inr n2 => bool_decide (n1 = n2)
  | _, _ => false
  end &&
  (bool_decide (m_type lhs = m_type rhs) &&
   (bool_decide (m_type lhs = NAME_ONLY) || bool_decide (m_value lhs = m_value rhs))).

(** [is_equal(string_view, string_view, HeaderKeyType)]. *)
Definition is_equal (name value : string) (type : HeaderKeyType) (key : HeaderKey) : bool :=
  if negb (bool_decide (m_type key = type)) then false
  else
    let name_match :=
      match m_name key with
      | inl token => bool_decide (token_to_string token = name)
      | inr view => bool_decide (view = name)
      end in
    if negb name_match then false
    else bool_decide (m_type key = NAME_ONLY) || bool_decide (m_value key = value).

(** [is_equal(Token, string_view, HeaderKeyType)]. *)
Definition is_equal_token (token : Token) (value : string) (type : HeaderKeyType) (key : HeaderKey) : bool :=
  if negb (bool_decide (m_type key = type)) then false
  else
    let name_match :=
      match m_name key with
      | inl stored_token => bool_decide (stored_token = token)
      | inr view => bool_decide (view = token_to_string token)
      end in
    if negb name_match then false
    else bool_decide (m_type key = NAME_ONLY) || bool_decide (m_value key = value).

(** The two keys a field is stored under, [gen] its insertion number. *)
Definition full_key (owner : option Z) (e : HeaderEntry) : HeaderKey :=
  match e with
  | StaticField t v => mkHeaderKey (inl t) v FULL_MATCH owner
  | LiteralField n v => mkHeaderKey (inr n) v FULL_MATCH owner
  end.
Definition name_key (owner : option Z) (e : HeaderEntry) : HeaderKey :=
  match e with
  | StaticField t _ => mkHeaderKey (inl t) "" NAME_ONLY None
  | LiteralField n _ => mkHeaderKey (inr n) "" NAME_ONLY owner
  end.

(** ** [HeaderHasher] *)

Section Tables.
(** [std::hash<std::string_view>] and [std::hash<std::uint32_t>]. *)
Context (hash_string : string -> Z) (hash_uint32 : Z -> Z).

Definition hash_combine (seed value : Z) : Z :=
  Z.lxor seed (size_t (value + 0x9E3779B9 + size_t (Z.shiftl seed 6) + Z.shiftr seed 2)).

Definition hash_impl (name value : string) (type : HeaderKeyType) : Z :=
  let hash := hash_string name in
  let hash := match type with FULL_MATCH => hash_combine hash (hash_string value) | NAME_ONLY => hash end in
  hash_combine hash (type_code type).

Definition hash_impl_token (token : Token) (value : string) (type : HeaderKeyType) : Z :=
  let hash := hash_uint32 (token_code token) in
  let hash := match type with FULL_MATCH => hash_combine hash (hash_string value) | NAME_ONLY => hash end in
  hash_combine hash (type_code type).

Definition hash_key (key : HeaderKey) : Z :=
  match m_name key with
  | inl token => hash_impl_token token (m_value key) (m_type key)
  | inr name => hash_impl name (m_value key) (m_type key)
  end.

(** [QpackMap = SwissHashMap<HeaderKey, std::size_t, HeaderHasher, HeaderEqual>]. *)
Definition QpackMap := @SwissHashMap HeaderKey Z.

Inductive IndexCalculation := Q_PACK | H_PACK.

(** ** [StaticTable<Table>] *)

Section StaticTable.
Context (Table : list HeaderEntry).

Definition STATIC_SIZE : Z := Z.of_nat (length Table).

Definition static_at (idx : Z) : option HeaderEntry :=
  if STATIC_SIZE <=? idx then None else Table !! Z.to_nat idx.

(** The loop of [get_map], from entry [i] on. *)
Fixpoint build_map (fields : list HeaderEntry) (i : Z) (built : QpackMap) : result QpackMap :=
  match fields with
  | [] => Ok built
  | field :: fields =>
      '(built, _) ← upsert hash_key key_eq built (full_key None field) i;
      '(built, _) ← upsert hash_key key_eq built (name_key None field) i;
      build_map fields (i + 1) built
  end.

Definition get_map : result QpackMap := build_map Table 0 swiss_empty.

(** [static_cast<size_t>(Calc == H_PACK)] is added to the position. *)
Definition calc_offset (c : IndexCalculation) : Z := match c with H_PACK => 1 | Q_PACK => 0 end.

Definition static_search_full_match (c : IndexCalculation) (name value : string) : result SearchResult :=
  MAP ← get_map;
  match find MAP (hash_impl name value FULL_MATCH) (is_equal name value FULL_MATCH) with
  | Some positon => Ok (mkSearchResult (size_t (positon + calc_offset c)) true true)
  | None => Ok none
  end.

Definition static_search_name_only (c : IndexCalculation) (name : string) : result SearchResult :=
  MAP ← get_map;
  match find MAP (hash_impl name "" NAME_ONLY) (is_equal name "" NAME_ONLY) with
  | Some positon => Ok (mkSearchResult (size_t (positon + calc_offset c)) true false)
  | None => Ok none
  end.

Definition static_search (c : IndexCalculation) (name value : string) : result SearchResult :=
  r ← static_search_full_match c name value;
  if found r then Ok r
  else r ← static_search_name_only c name; if found r then Ok r else Ok none.
End StaticTable.

(** ** [DynamicTable] *)

(** [m_generation] counts insertions; it is unbounded here, 2^64 insertions are out of
    reach.  The front of [m_deque] is the newest entry. *)
Record DynamicTable := mkDynamicTable {
  m_max_size : Z;
  m_current_size : Z;
  m_generation : Z;
  m_deque : list HeaderEntry;
  m_map : QpackMap;
}.

Definition make_table (max_size : Z) : DynamicTable := mkDynamicTable max_size 0 0 [] swiss_empty.

Definition deque_size (t : DynamicTable) : Z := Z.of_nat (length (m_deque t)).

Definition generation_to_position (t : DynamicTable) (gen : Z) : Z :=
  if (gen =? 0) || (m_generation t <? gen) || (deque_size t =? 0) then NPOS
  else
    let OLDEST := m_generation t - (deque_size t - 1) in
    if gen <? OLDEST then NPOS else m_generation t - gen.

Definition at_positon (t : DynamicTable) (pos : Z) : option HeaderEntry :=
  if pos <? deque_size t then m_deque t !! Z.to_nat pos else None.

Definition at_generation (t : DynamicTable) (gen : Z) : option HeaderEntry :=
  let POS := generation_to_position t gen in
  if negb (POS =? NPOS) then m_deque t !! Z.to_nat POS else None.

(** *** Map operations and the lifetime of the keys *)

(** Insertion number [g] belongs to a live field: one of the [n] newest, or one that the
    caller keeps alive by a [shared_ptr] of its own. *)
Definition alive (held : list Z) (newest n : Z) (key : HeaderKey) : bool :=
  match m_owner key with
  | None => true
  | Some g => ((newest - n <? g) && (g <=? newest)) || bool_decide (g ∈ held)
  end.

Definition guarded {A} (live : HeaderKey -> bool) (reads : list HeaderKey) (a : A) : result A :=
  if forallb live reads then Ok a else Err UndefinedBehaviour.

Definition map_find (live : HeaderKey -> bool) (m : QpackMap) (name value : string) (type : HeaderKeyType)
    : result (option Z) :=
  guarded live (compared m (hash_impl name value type) (is_equal name value type))
    (find m (hash_impl name value type) (is_equal name value type)).

Definition map_erase (live : HeaderKey -> bool) (m : QpackMap) (name value : string) (type : HeaderKeyType)
    : result QpackMap :=
  guarded live (compared m (hash_impl name value type) (is_equal name value type))
    (erase m (hash_impl name value type) (is_equal name value type)).

Definition map_upsert (live : HeaderKey -> bool) (m : QpackMap) (key : HeaderKey) (v : Z) : result QpackMap :=
  u ← guarded live (upsert_reads hash_key key_eq m key) tt;
  '(m, _) ← upsert hash_key key_eq m key v;
  Ok m.

(** *** Eviction *)

Definition evict_oldest (held : list Z) (t : DynamicTable) : result DynamicTable :=
  match list.last (m_deque t) with
  | None => Ok t
  | Some field =>
      let OLDEST_GEN := m_generation t - (deque_size t - 1) in
      let live := alive held (m_generation t) (deque_size t) in
      let name := entry_name field in
      let value := get_value field in
      m ← map_erase live (m_map t) name value FULL_MATCH;
      current_name_match ← map_find live m name "" NAME_ONLY;
      m ← (match current_name_match with
           | Some g => if g =? OLDEST_GEN then map_erase live m name "" NAME_ONLY else Ok m
           | None => Ok m
           end);
      Ok (mkDynamicTable (m_max_size t)
            (size_t (m_current_size t - size_t (slen name + slen value + ENTRY_OVERHEAD)))
            (m_generation t) (take (length (m_deque t) - 1) (m_deque t)) m)
  end.

Definition evict_all (t : DynamicTable) : DynamicTable :=
  mkDynamicTable (m_max_size t) 0 (m_generation t) [] (clear (m_map t)).

(** [while (!m_deque.empty() && cond) evict_oldest();]: every turn removes an entry, so the
    length of the deque is enough fuel. *)
Fixpoint evict_while (fuel : nat) (held : list Z) (cond : DynamicTable -> bool) (t : DynamicTable)
    : result DynamicTable :=
  match fuel with
  | O => Ok t
  | S fuel =>
      if negb (deque_size t =? 0) && cond t then
        t ← evict_oldest held t; evict_while fuel held cond t
      else Ok t
  end.

Definition set_max_size (new_max : Z) (t : DynamicTable) : result DynamicTable :=
  let t := mkDynamicTable new_max (m_current_size t) (m_generation t) (m_deque t) (m_map t) in
  evict_while (length (m_deque t)) [] (fun t => m_max_size t <? m_current_size t) t.

(** *** Insertion *)

Definition insert_field (c : IndexCalculation) (held : list Z) (field : HeaderEntry) (t : DynamicTable)
    : result (Z * DynamicTable) :=
  let ENTRY_SIZE := field_size field in
  if m_max_size t <? ENTRY_SIZE then Ok (0, evict_all t)
  else
    t ← evict_while (length (m_deque t)) held
          (fun t => m_max_size t <? size_t (m_current_size t + ENTRY_SIZE)) t;
    let gen := m_generation t + 1 in
    let live := alive held gen (deque_size t + 1) in
    m ← map_upsert live (m_map t) (full_key (Some gen) field) gen;
    m ← map_upsert live m (name_key (Some gen) field) gen;
    let t := mkDynamicTable (m_max_size t) (size_t (m_current_size t + ENTRY_SIZE)) gen
               (field :: m_deque t) m in
    Ok (match c with Q_PACK => gen | H_PACK => generation_to_position t gen end, t).

Definition insert (c : IndexCalculation) (held : list Z) (name value : string) (t : DynamicTable)
    : result (Z * DynamicTable) :=
  field ← make_field name value;
  insert_field c held field t.

Definition insert_token (c : IndexCalculation) (held : list Z) (token : Token) (value : string) (t : DynamicTable)
    : result (Z * DynamicTable) :=
  insert_field c held (StaticField token value) t.

(** *** Search *)

Definition table_live (t : DynamicTable) : HeaderKey -> bool := alive [] (m_generation t) (deque_size t).

Definition search_full_match (c : IndexCalculation) (name value : string) (t : DynamicTable)
    : result SearchResult :=
  g ← map_find (table_live t) (m_map t) name value FULL_MATCH;
  match g with
  | Some generation =>
      match c with
      | Q_PACK => Ok (mkSearchResult generation true true)
      | H_PACK => Ok (mkSearchResult (generation_to_position t generation) true true)
      end
  | None => Ok none
  end.

Definition search_name_only (c : IndexCalculation) (name : string) (t : DynamicTable) : result SearchResult :=
  g ← map_find (table_live t) (m_map t) name "" NAME_ONLY;
  match g with
  | Some generation =>
      match c with
      | Q_PACK => Ok (mkSearchResult generation true false)
      | H_PACK => Ok (mkSearchResult (generation_to_position t generation) true false)
      end
  | None => Ok none
  end.

Definition search (c : IndexCalculation) (name value : string) (t : DynamicTable) : result SearchResult :=
  r ← search_full_match c name value t;
  if found r then Ok r
  else r ← search_name_only c name t; if found r then Ok r else Ok none.

(** ** Keys and classes of keys *)

#[export] Instance HeaderKeyType_countable : Countable HeaderKeyType :=
  inj_countable' (fun t => match t with NAME_ONLY => false | FULL_MATCH => true end)
    (fun b : bool => if b then FULL_MATCH else NAME_ONLY) ltac:(by intros []).

(** [operator==] ignores the value of a [NAME_ONLY] key. *)
Definition canon (k : HeaderKey) : KeyName * string * HeaderKeyType :=
  (m_name k, match m_type k with FULL_MATCH => m_value k | NAME_ONLY => ""%string end, m_type k).

#[export] Instance header_hash_laws : HashLaws hash_key key_eq canon.
Proof.
  split.
  - intros [[] v1 ty1 o1] [[] v2 ty2 o2]; unfold key_eq, canon; cbn;
      rewrite ?andb_true_iff, ?orb_true_iff, ?bool_decide_eq_true; destruct ty1, ty2; naive_solver.
  - intros [n1 v1 ty1 o1] [n2 v2 ty2 o2]; unfold canon, hash_key; cbn. intros [= -> Hv ->].
    destruct n2, ty2; cbn in *; unfold hash_impl, hash_impl_token; congruence.
Qed.

Definition key_name (k : HeaderKey) : string :=
  match m_name k with inl t => token_to_string t | inr n => n end.

(** The key is one of the two a field is stored under. *)
Definition key_matches (k : HeaderKey) (e : HeaderEntry) : Prop :=
  key_name k = entry_name e /\ (m_type k = FULL_MATCH -> m_value k = get_value e).

Lemma full_key_matches o e : key_matches (full_key o e) e.
Proof. by destruct e. Qed.
Lemma name_key_matches o e : key_matches (name_key o e) e.
Proof. by destruct e. Qed.

Lemma key_eq_matches k k' e : key_eq k k' = true -> key_matches k' e -> key_matches k e.
Proof.
  intros Hk%(@KeyEqual_canon _ hash_key _ _ _ _). unfold canon in Hk. unfold key_matches, key_name.
  destruct k as [n1 v1 ty1 o1], k' as [n2 v2 ty2 o2]; cbn in *. injection Hk as -> Hv ->.
  intros [? Hm]. split; [done|]. intros ->. cbn in *. subst. by apply Hm.
Qed.

Lemma is_equal_matches name value type k :
  is_equal name value type k = true ->
  key_name k = name /\ m_type k = type /\ (type = FULL_MATCH -> m_value k = value).
Proof.
  unfold is_equal, key_name. destruct k as [n v ty o]; cbn.
  repeat (case_bool_decide; cbn); try done; destruct n; cbn; repeat (case_bool_decide; cbn); try done;
    simplify_eq; naive_solver.
Qed.

(** ** Invariant of the dynamic table *)

Record table_ok (t : DynamicTable) : Prop := {
  ok_map : valid hash_key canon (m_map t);
  ok_gen : deque_size t <= m_generation t;
  ok_keys k g : (k, g) ∈ entries (m_map t) ->
    1 <= g <= m_generation t /\
    (forall e, m_deque t !! Z.to_nat (m_generation t - g) = Some e -> key_matches k e);
}.

Lemma make_table_ok max : table_ok (make_table max).
Proof.
  split; cbn.
  - apply swiss_empty_valid.
  - done.
  - intros k g H. by apply elem_of_nil in H.
Qed.

Lemma map_find_Ok live m name value type r :
  map_find live m name value type = Ok r ->
  r = find m (hash_impl name value type) (is_equal name value type).
Proof. unfold map_find, guarded. case_match; naive_solver. Qed.

Lemma map_erase_valid live m name value type m' :
  valid hash_key canon m -> map_erase live m name value type = Ok m' ->
  valid hash_key canon m' /\ (forall e, e ∈ entries m' -> e ∈ entries m).
Proof.
  intros Hv. unfold map_erase, guarded. case_match; [|done]. intros [= <-].
  split; [by apply erase_valid|]. intros e. eapply erase_entries, Hv.
Qed.

Lemma map_upsert_valid live m key v m' :
  valid hash_key canon m -> map_upsert live m key v = Ok m' ->
  valid hash_key canon m' /\ abs canon m' = <[canon key := v]> (abs canon m) /\
  (forall k g, (k, g) ∈ entries m' -> (k, g) ∈ entries m \/
     (g = v /\ (k = key \/ (k ∈ (entries m).*1 /\ key_eq k key = true)))).
Proof.
  intros Hv. unfold map_upsert. intros (u & _ & Hu)%result_bind_Ok.
  apply result_bind_Ok in Hu as ([m1 b] & Hu & [= <-]).
  destruct (upsert_refines hash_key key_eq canon m key v Hv) as (m2 & Hu' & Hv' & Ha).
  rewrite Hu in Hu'. simplify_eq. split; [done|]. split; [done|].
  eapply upsert_entries; [apply Hv|done].
Qed.

(** Fewer entries, the same or fewer keys. *)
Lemma table_ok_shrink t max cur n m' :
  table_ok t -> valid hash_key canon m' -> (forall e, e ∈ entries m' -> e ∈ entries (m_map t)) ->
  table_ok (mkDynamicTable max cur (m_generation t) (take n (m_deque t)) m').
Proof.
  intros [Hm Hg Hk] Hv Hsub. split; cbn.
  - done.
  - unfold deque_size in *. cbn. rewrite length_take. lia.
  - intros k g [Hr Hd]%Hsub%Hk. split; [done|]. intros e [He _]%lookup_take_Some. by apply Hd.
Qed.

Lemma evict_oldest_ok held t t' :
  table_ok t -> evict_oldest held t = Ok t' ->
  table_ok t' /\ m_max_size t' = m_max_size t /\ m_generation t' = m_generation t /\
  m_deque t' = take (length (m_deque t) - 1) (m_deque t) /\
  (forall e, e ∈ entries (m_map t') -> e ∈ entries (m_map t)).
Proof.
  intros Hok. unfold evict_oldest. destruct (list.last (m_deque t)) as [field|] eqn:Hlast.
  2: { apply last_None in Hlast. intros [= <-]. by rewrite Hlast. }
  intros (m1 & H1 & (cur & H2 & (m2 & H3 & [= <-])%result_bind_Ok)%result_bind_Ok)%result_bind_Ok.
  apply map_erase_valid in H1 as [Hv1 Hs1]; [|apply Hok].
  assert (valid hash_key canon m2 /\ (forall e, e ∈ entries m2 -> e ∈ entries m1)) as [Hv2 Hs2].
  { destruct cur; [case_match|]; [by eapply map_erase_valid|naive_solver..]. }
  cbn [m_max_size m_generation m_deque m_map]. split_and!; eauto. apply table_ok_shrink; eauto.
Qed.

Lemma evict_while_ok fuel held cond t t' :
  table_ok t -> (length (m_deque t) <= fuel)%nat -> evict_while fuel held cond t = Ok t' ->
  table_ok t' /\ m_max_size t' = m_max_size t /\ m_generation t' = m_generation t /\
  (exists n, m_deque t' = take n (m_deque t)) /\
  (forall e, e ∈ entries (m_map t') -> e ∈ entries (m_map t)).
Proof.
  revert t. induction fuel as [|fuel IH]; intros t Hok Hf; cbn [evict_while].
  - intros [= <-]. split_and!; try done. exists 0%nat. by destruct (m_deque t); cbn in *; try lia.
  - unfold deque_size. destruct (Z.eqb_spec (Z.of_nat (length (m_deque t))) 0) as [Hz|Hz]; cbn [negb andb].
    + intros [= <-]. split_and!; try done. exists 0%nat. by destruct (m_deque t); cbn in *; try lia.
    + destruct (cond t) eqn:Hc.
      * intros (t1 & H1 & H2)%result_bind_Ok. apply evict_oldest_ok in H1 as (Hok1 & Hm1 & Hg1 & Hd1 & He1); [|done].
        apply IH in H2 as (Hok2 & Hm2 & Hg2 & (n & Hd2) & He2); [|done|rewrite Hd1, length_take; lia].
        split_and!; try done; [congruence..| |by auto]. rewrite Hd2, Hd1. eexists. by rewrite take_take.
      * intros [= <-]. split_and!; try done. exists (length (m_deque t)). by rewrite firstn_all.
Qed.

(** A new field at the front: the generations of the others stay the same. *)
Lemma table_ok_push t max cur field m' :
  table_ok t -> valid hash_key canon m' ->
  (forall k g, (k, g) ∈ entries m' ->
     (k, g) ∈ entries (m_map t) \/ (g = m_generation t + 1 /\ key_matches k field)) ->
  table_ok (mkDynamicTable max cur (m_generation t + 1) (field :: m_deque t) m').
Proof.
  intros [Hm Hg Hk] Hv Hent. split; cbn.
  - done.
  - unfold deque_size in *. cbn. lia.
  - intros k g [Hin|[-> Hma]]%Hent.
    + apply Hk in Hin as [Hr Hd]. split; [lia|].
      replace (Z.to_nat (m_generation t + 1 - g)) with (S (Z.to_nat (m_generation t - g))) by lia.
      done.
    + unfold deque_size in Hg. split; [lia|].
      replace (Z.to_nat (m_generation t + 1 - (m_generation t + 1))) with 0%nat by lia. naive_solver.
Qed.

Lemma insert_field_ok c held field t r t' :
  table_ok t -> insert_field c held field t = Ok (r, t') ->
  table_ok t' /\ m_max_size t' = m_max_size t /\
  (m_deque t' = [] \/ exists n, m_deque t' = field :: take n (m_deque t)).
Proof.
  intros Hok. unfold insert_field. destruct (m_max_size t <? field_size field).
  { intros [= <- <-]. split_and!; [|done|by left]. split; cbn [evict_all m_map m_generation m_deque].
    - exact (proj1 (clear_refines hash_key canon _ (ok_map t Hok))).
    - pose proof (ok_gen t Hok). unfold deque_size in *. cbn. lia.
    - intros k g Hin. rewrite clear_entries in Hin.
      by apply elem_of_nil in Hin. }
  intros (t1 & Ht1 & (m1 & H1 & (m2 & H2 & [= <- <-])%result_bind_Ok)%result_bind_Ok)%result_bind_Ok.
  apply evict_while_ok in Ht1 as (Hok1 & Hm1 & Hg1 & (n & Hd1) & _); [|done|done].
  split_and!; [|done|right; exists n; cbn; by rewrite Hd1].
  apply map_upsert_valid in H1 as (Hv1 & _ & He1); [|apply Hok1].
  apply map_upsert_valid in H2 as (Hv2 & _ & He2); [|done].
  apply table_ok_push; [done|done|]. intros k g [Hin|[-> Hkey]]%He2.
  - apply He1 in Hin as [Hin|[-> Hkey]]; [by left|right]. split; [done|].
    destruct Hkey as [->|[_ Hkey]]; [apply full_key_matches|]. eapply key_eq_matches, full_key_matches; done.
  - right. split; [done|].
    destruct Hkey as [->|[_ Hkey]]; [apply name_key_matches|]. eapply key_eq_matches, name_key_matches; done.
Qed.

(** ** Search *)

Lemma generation_to_position_eq t gen :
  table_ok t -> 1 <= gen <= m_generation t ->
  generation_to_position t gen = if m_generation t - gen <? deque_size t then m_generation t - gen else NPOS.
Proof.
  intros Hok Hg. unfold generation_to_position.
  destruct (Z.eqb_spec gen 0); [lia|]. destruct (Z.ltb_spec (m_generation t) gen); [lia|]. cbn [orb].
  destruct (Z.eqb_spec (deque_size t) 0), (Z.ltb_spec gen (m_generation t - (deque_size t - 1))),
    (Z.ltb_spec (m_generation t - gen) (deque_size t)); (done || lia).
Qed.

Lemma find_entry t name value type g :
  table_ok t ->
  find (m_map t) (hash_impl name value type) (is_equal name value type) = Some g ->
  1 <= g <= m_generation t /\
  (m_generation t - g < deque_size t -> exists e, at_positon t (m_generation t - g) = Some e /\
     entry_name e = name /\ (type = FULL_MATCH -> get_value e = value)).
Proof.
  intros Hok (k & Hin & Hp)%find_sound. destruct (ok_keys t Hok k g Hin) as [Hr Hm]. split; [done|].
  intros Hlt. unfold at_positon. rewrite (proj2 (Z.ltb_lt _ _) Hlt).
  destruct (lookup_lt_is_Some_2 (m_deque t) (Z.to_nat (m_generation t - g))) as [e He].
  { unfold deque_size in Hlt. lia. }
  exists e. split; [done|]. destruct (Hm e He) as [Hn Hv].
  apply is_equal_matches in Hp as (Hkn & Hty & Hkv). split; [congruence|].
  intros ->. rewrite <- Hv by done. by apply Hkv.
Qed.

(** A full match the table reports is an entry with that name and value. *)
Lemma search_full_match_sound name value t r :
  table_ok t -> deque_size t < 2 ^ 61 ->
  search_full_match H_PACK name value t = Ok r -> found r = true ->
  exists pos e, r = mkSearchResult pos true true /\ 0 <= pos < deque_size t /\
    at_positon t pos = Some e /\ entry_name e = name /\ get_value e = value.
Proof.
  intros Hok Hsz. unfold search_full_match. intros (og & Hf & Hr)%result_bind_Ok.
  apply map_find_Ok in Hf. subst og. destruct (find _ _ _) as [g|] eqn:Hf; [|by simplify_eq].
  apply find_entry in Hf as [Hg He]; [|done]. rewrite generation_to_position_eq in Hr by done.
  destruct (Z.ltb_spec (m_generation t - g) (deque_size t)) as [Hlt|].
  - intros _. destruct (He Hlt) as (e & Hat & Hn & Hv). simplify_eq.
    exists (m_generation t - g), e. split_and!; try (done || lia). by apply Hv.
  - rewrite stale_full_match in Hr. by simplify_eq.
Qed.

(** ** Tables from which nothing with a key has been evicted *)

(** Every key of the map belongs to an entry of the deque and views a live field. *)
Definition fresh (t : DynamicTable) : Prop :=
  forall k g, (k, g) ∈ entries (m_map t) -> m_generation t - g < deque_size t /\ table_live t k = true.

Lemma make_table_fresh max : fresh (make_table max).
Proof. intros k g H. by apply elem_of_nil in H. Qed.

Lemma guarded_live {A} (live : HeaderKey -> bool) reads (a : A) :
  (forall k, k ∈ reads -> live k = true) -> guarded live reads a = Ok a.
Proof.
  intros H. unfold guarded. rewrite (proj2 (forallb_forall live reads)); [done|].
  intros k Hk. apply H. by apply list_elem_of_In.
Qed.

Lemma fresh_live t k : fresh t -> k ∈ (entries (m_map t)).*1 -> table_live t k = true.
Proof. intros Hf ([k' g] & -> & Hin)%list_elem_of_fmap. by eapply Hf. Qed.

Lemma map_find_fresh t name value type :
  fresh t -> map_find (table_live t) (m_map t) name value type =
    Ok (find (m_map t) (hash_impl name value type) (is_equal name value type)).
Proof.
  intros Hf. apply guarded_live. intros k Hk%compared_entries. by apply fresh_live.
Qed.

Lemma search_name_only_sound name t :
  table_ok t -> fresh t -> deque_size t < 2 ^ 61 ->
  search_name_only H_PACK name t = Ok none \/
  exists pos e, search_name_only H_PACK name t = Ok (mkSearchResult pos true false) /\
    0 <= pos < deque_size t /\ at_positon t pos = Some e /\ entry_name e = name.
Proof.
  intros Hok Hf Hsz. unfold search_name_only. rewrite map_find_fresh by done. cbn [mbind result_bind].
  destruct (find _ _ _) as [g|] eqn:Hfd; [right|by left].
  pose proof Hfd as (k & Hin & _)%find_sound. destruct (Hf k g Hin) as [Hlt _].
  apply find_entry in Hfd as [Hg He]; [|done]. rewrite generation_to_position_eq by done.
  rewrite (proj2 (Z.ltb_lt _ _) Hlt). destruct (He Hlt) as (e & Hat & Hn & _).
  exists (m_generation t - g), e. split_and!; try (done || lia).
Qed.

Lemma search_full_match_fresh name value t :
  table_ok t -> fresh t -> deque_size t < 2 ^ 61 ->
  search_full_match H_PACK name value t = Ok none \/
  exists pos e, search_full_match H_PACK name value t = Ok (mkSearchResult pos true true) /\
    0 <= pos < deque_size t /\ at_positon t pos = Some e /\ entry_name e = name /\ get_value e = value.
Proof.
  intros Hok Hf Hsz.
  destruct (search_full_match H_PACK name value t) as [r|e] eqn:Hs.
  - destruct (found r) eqn:Hr.
    + right. destruct (search_full_match_sound _ _ _ _ Hok Hsz Hs Hr) as (pos & e & -> & ?). eauto.
    + left. unfold found in Hr. apply negb_false_iff, Z.eqb_eq in Hr. by subst r.
  - unfold search_full_match in Hs. rewrite map_find_fresh in Hs by done. cbn in Hs.
    by destruct (find _ _ _).
Qed.

Lemma map_upsert_live live m key v :
  valid hash_key canon m -> (forall k, k ∈ (entries m).*1 -> live k = true) ->
  exists m', map_upsert live m key v = Ok m'.
Proof.
  intros Hv Hl. unfold map_upsert. rewrite guarded_live by (intros k Hk%upsert_reads_entries; auto).
  destruct (upsert_refines hash_key key_eq canon m key v Hv) as (m2 & -> & _). by eexists.
Qed.

(** The keys of an entry stay alive when the entry is the newest. *)
Lemma alive_grow held t k : table_live t k = true -> alive held (m_generation t + 1) (deque_size t + 1) k = true.
Proof.
  unfold table_live, alive. destruct (m_owner k) as [g|]; [|done].
  rewrite !orb_true_iff, !andb_true_iff, !Z.ltb_lt, !Z.leb_le, bool_decide_eq_true, elem_of_nil. lia.
Qed.

Lemma alive_self held newest n ty name value e :
  0 <= n -> e = mkHeaderKey name value ty (Some newest) \/ e = mkHeaderKey name value ty None ->
  alive held newest (n + 1) e = true.
Proof. intros Hn [-> | ->]; unfold alive; cbn; [|done]. apply orb_true_iff. left. lia. Qed.

Lemma full_key_alive held newest n e : 0 <= n -> alive held newest (n + 1) (full_key (Some newest) e) = true.
Proof. intros Hn. destruct e; eapply alive_self; eauto. Qed.
Lemma name_key_alive held newest n e : 0 <= n -> alive held newest (n + 1) (name_key (Some newest) e) = true.
Proof. intros Hn. destruct e; eapply alive_self; eauto. Qed.

Lemma alive_held held newest n k : alive [] newest n k = true -> alive held newest n k = true.
Proof.
  unfold alive. destruct (m_owner k); [|done].
  rewrite !orb_true_iff, !bool_decide_eq_true, elem_of_nil. tauto.
Qed.

Lemma generation_newest t :
  1 <= m_generation t -> m_deque t <> [] -> generation_to_position t (m_generation t) = 0.
Proof.
  intros Hg Hd. assert (1 <= deque_size t) by (unfold deque_size; destruct (m_deque t); cbn; (done || lia)).
  unfold generation_to_position. rewrite Z.ltb_irrefl.
  destruct (Z.eqb_spec (m_generation t) 0), (Z.eqb_spec (deque_size t) 0); try lia. cbn [orb].
  destruct (Z.ltb_spec (m_generation t) (m_generation t - (deque_size t - 1))); lia.
Qed.

(** The two updates of an insertion, when every stored key is alive. *)
Lemma upsert_field_live (live' live : HeaderKey -> bool) m gen field :
  (forall k, live k = true -> live' k = true) ->
  valid hash_key canon m -> (forall k, k ∈ (entries m).*1 -> live k = true) ->
  live (full_key (Some gen) field) = true -> live (name_key (Some gen) field) = true ->
  exists m1 m2, map_upsert live' m (full_key (Some gen) field) gen = Ok m1 /\
    map_upsert live' m1 (name_key (Some gen) field) gen = Ok m2 /\
    (forall k g, (k, g) ∈ entries m2 -> live k = true /\ ((k, g) ∈ entries m \/ g = gen)).
Proof.
  intros Hweak Hv Hl Hfull Hname.
  destruct (map_upsert_live live' m (full_key (Some gen) field) gen Hv) as [m1 H1]; [by auto|].
  destruct (map_upsert_valid _ _ _ _ _ Hv H1) as (Hv1 & _ & He1).
  assert (forall k g, (k, g) ∈ entries m1 -> live k = true /\ ((k, g) ∈ entries m \/ g = gen)) as Hl1.
  { intros k g Hin. apply He1 in Hin as [Hin|[-> [->|[Hin _]]]]; [|by auto..].
    split; [|by left]. apply Hl, list_elem_of_fmap. by exists (k, g). }
  destruct (map_upsert_live live' m1 (name_key (Some gen) field) gen Hv1) as [m2 H2].
  { intros k ([k' g] & -> & Hin)%list_elem_of_fmap. eapply Hweak, Hl1, Hin. }
  destruct (map_upsert_valid _ _ _ _ _ Hv1 H2) as (_ & _ & He2).
  exists m1, m2. split_and!; [done..|]. intros k g Hin.
  apply He2 in Hin as [Hin|[-> [->|[Hin _]]]]; [by apply Hl1|by auto|].
  apply list_elem_of_fmap in Hin as ([k' g'] & -> & Hin). apply Hl1 in Hin as [? _]. by auto.
Qed.

Lemma evict_while_fits held size t :
  0 <= m_current_size t + size <= m_max_size t -> m_max_size t < 2 ^ 64 ->
  evict_while (length (m_deque t)) held
    (fun t => m_max_size t <? size_t (m_current_size t + size)) t = Ok t.
Proof.
  intros Hfit Hmax. destruct (m_deque t) as [|e d] eqn:Hd; [done|]. cbn [length evict_while].
  rewrite wrap_small by lia. destruct (Z.ltb_spec (m_max_size t) (m_current_size t + size)); [lia|].
  by rewrite andb_false_r.
Qed.

(** An entry that fits is inserted without eviction, and nothing dangles. *)
Lemma insert_field_fits held field t :
  table_ok t -> fresh t -> 0 <= m_current_size t -> 0 <= field_size field ->
  m_current_size t + field_size field <= m_max_size t < 2 ^ 64 ->
  exists t', insert_field H_PACK held field t = Ok (0, t') /\ table_ok t' /\ fresh t' /\
    m_deque t' = field :: m_deque t /\ m_max_size t' = m_max_size t /\
    m_current_size t' = m_current_size t + field_size field.
Proof.
  intros Hok Hf Hc Hfs Hfit. pose proof (ok_gen t Hok) as Hgen.
  assert (0 <= deque_size t) as Hds by (unfold deque_size; lia).
  set (gen := m_generation t + 1). set (live := alive held gen (deque_size t + 1)).
  destruct (upsert_field_live live (alive [] gen (deque_size t + 1)) (m_map t) gen field)
    as (m1 & m2 & H1 & H2 & Hl).
  { apply alive_held. }
  { apply Hok. }
  { intros k Hk. apply alive_grow. by apply fresh_live. }
  { by apply full_key_alive. }
  { by apply name_key_alive. }
  set (t' := mkDynamicTable (m_max_size t) (m_current_size t + field_size field) gen (field :: m_deque t) m2).
  assert (insert_field H_PACK held field t = Ok (0, t')) as Hins.
  { unfold insert_field. destruct (Z.ltb_spec (m_max_size t) (field_size field)); [lia|].
    rewrite evict_while_fits by lia. cbn [mbind result_bind]. fold gen. fold live.
    rewrite H1. cbn [mbind result_bind]. rewrite H2. cbn [mbind result_bind].
    rewrite wrap_small by lia. fold t'. do 2 f_equal.
    apply (generation_newest t'); [cbn; lia|done]. }
  exists t'. split; [done|]. split; [by eapply insert_field_ok|]. split; [|done].
  intros k g Hin. apply Hl in Hin as [Hlive Hg].
  assert (deque_size t' = deque_size t + 1) as Hd' by (unfold deque_size, t'; cbn; lia).
  unfold table_live. rewrite Hd'. split; [|done]. change (m_generation t') with gen.
  destruct Hg as [Hg| ->]; [|lia]. apply Hf in Hg as [? _]. unfold gen. lia.
Qed.

(** ** The static table *)

(** Every key of the map is the key of the entry at its position. *)
Definition static_keys_ok (Table : list HeaderEntry) (m : QpackMap) : Prop :=
  forall k i, (k, i) ∈ entries m ->
    0 <= i /\ exists e, Table !! Z.to_nat i = Some e /\ key_matches k e.

Lemma static_upsert_ok Table m key i e :
  valid hash_key canon m -> static_keys_ok Table m -> 0 <= i -> Table !! Z.to_nat i = Some e ->
  key_matches key e ->
  exists m' b, upsert hash_key key_eq m key i = Ok (m', b) /\ valid hash_key canon m' /\ static_keys_ok Table m'.
Proof.
  intros Hv Hk Hi He Hm.
  destruct (upsert_refines hash_key key_eq canon m key i Hv) as (m' & Hu & Hv' & _).
  eexists m', _. split; [done|]. split; [done|]. intros k j Hin.
  eapply upsert_entries in Hin as [Hin|[-> Hkey]]; [by apply Hk| |apply Hv|done].
  split; [done|]. exists e. split; [done|].
  destruct Hkey as [->|[_ Hkey]]; [done|]. by eapply key_eq_matches.
Qed.

Lemma build_map_ok Table fields i built :
  fields = drop (Z.to_nat i) Table -> 0 <= i -> valid hash_key canon built -> static_keys_ok Table built ->
  exists m, build_map fields i built = Ok m /\ valid hash_key canon m /\ static_keys_ok Table m.
Proof.
  revert i built. induction fields as [|e fields IH]; intros i built Hd Hi Hv Hk; cbn [build_map]; [eauto|].
  assert (Table !! Z.to_nat i = Some e) as He.
  { rewrite <- (Nat.add_0_r (Z.to_nat i)), <- lookup_drop, <- Hd. done. }
  destruct (static_upsert_ok Table built (full_key None e) i e) as (m1 & b1 & -> & Hv1 & Hk1);
    [done..|apply full_key_matches|]. cbn [mbind result_bind].
  destruct (static_upsert_ok Table m1 (name_key None e) i e) as (m2 & b2 & -> & Hv2 & Hk2);
    [done..|apply name_key_matches|]. cbn [mbind result_bind].
  apply IH; [|lia|done|done]. replace (Z.to_nat (i + 1)) with (S (Z.to_nat i)) by lia.
  pose proof (drop_lookup_cons _ _ _ He) as Hd'. rewrite <- Hd in Hd'. by injection Hd'.
Qed.

Lemma get_map_ok Table : exists m, get_map Table = Ok m /\ static_keys_ok Table m.
Proof.
  destruct (build_map_ok Table Table 0 swiss_empty) as (m & ? & ? & ?); [done..| | |by eauto].
  - apply swiss_empty_valid.
  - intros k i Hin. by apply elem_of_nil in Hin.
Qed.

Section static_search.
Context (Table : list HeaderEntry) (Hsize : Z.of_nat (length Table) < 2 ^ 61).

Lemma static_find_sound m name value type i :
  static_keys_ok Table m -> find m (hash_impl name value type) (is_equal name value type) = Some i ->
  0 <= i < STATIC_SIZE Table /\ exists e, static_at Table i = Some e /\ entry_name e = name /\
    (type = FULL_MATCH -> get_value e = value).
Proof.
  intros Hk (k & (Hi & e & He & Hm)%Hk & Hp)%find_sound.
  pose proof (lookup_lt_Some _ _ _ He) as Hlt. unfold static_at, STATIC_SIZE. split; [lia|].
  exists e. destruct (Z.leb_spec (Z.of_nat (length Table)) i); [lia|]. split; [done|].
  apply is_equal_matches in Hp as (Hn & Hty & Hv). destruct Hm as [Hm1 Hm2]. split; [congruence|].
  intros ->. rewrite <- Hm2 by done. by apply Hv.
Qed.

Lemma static_search_full_match_sound name value :
  static_search_full_match Table H_PACK name value = Ok none \/
  exists i e, static_search_full_match Table H_PACK name value = Ok (mkSearchResult (i + 1) true true) /\
    0 <= i < STATIC_SIZE Table /\ static_at Table i = Some e /\ entry_name e = name /\ get_value e = value.
Proof.
  unfold static_search_full_match. destruct (get_map_ok Table) as (m & -> & Hk). cbn [mbind result_bind].
  destruct (find m _ _) as [i|] eqn:Hf; [right|by left].
  apply static_find_sound in Hf as (Hi & e & He & Hn & Hv); [|done]. exists i, e.
  change (calc_offset H_PACK) with 1. rewrite wrap_small by (unfold STATIC_SIZE in Hi; lia). split_and!; try done; try lia. by apply Hv.
Qed.

Lemma static_search_name_only_sound name :
  static_search_name_only Table H_PACK name = Ok none \/
  exists i e, static_search_name_only Table H_PACK name = Ok (mkSearchResult (i + 1) true false) /\
    0 <= i < STATIC_SIZE Table /\ static_at Table i = Some e /\ entry_name e = name.
Proof.
  unfold static_search_name_only. destruct (get_map_ok Table) as (m & -> & Hk). cbn [mbind result_bind].
  destruct (find m _ _) as [i|] eqn:Hf; [right|by left].
  apply static_find_sound in Hf as (Hi & e & He & Hn & Hv); [|done]. exists i, e.
  change (calc_offset H_PACK) with 1. rewrite wrap_small by (unfold STATIC_SIZE in Hi; lia). split_and!; try done; lia.
Qed.
End static_search.

(** ** Size accounting of tables of literal fields *)

Definition is_literal (e : HeaderEntry) : Prop :=
  match e with LiteralField _ _ => True | StaticField _ _ => False end.

Definition total (d : list HeaderEntry) : Z := foldr (fun e acc => field_size e + acc) 0 d.

Record accounted (t : DynamicTable) : Prop := {
  acc_literal : Forall is_literal (m_deque t);
  acc_size : m_current_size t = total (m_deque t);
  acc_bound : total (m_deque t) < 2 ^ 64;
}.

Lemma field_size_nonneg e : 0 <= field_size e.
Proof. destruct e; apply wrap_range; lia. Qed.

Lemma total_cons e d : total (e :: d) = field_size e + total d.
Proof. done. Qed.

Lemma total_nonneg d : 0 <= total d.
Proof. induction d as [|e d IH]; [done|]. rewrite total_cons. pose proof (field_size_nonneg e). lia. Qed.

Lemma total_app d1 d2 : total (d1 ++ d2) = total d1 + total d2.
Proof. induction d1 as [|e d1 IH]; [done|]. rewrite <- app_comm_cons, !total_cons. lia. Qed.

Lemma total_take n d : total (take n d) <= total d.
Proof.
  rewrite <- (take_drop n d) at 2. rewrite total_app. pose proof (total_nonneg (drop n d)). lia.
Qed.

Lemma literal_size e :
  is_literal e -> size_t (slen (entry_name e) + slen (get_value e) + ENTRY_OVERHEAD) = field_size e.
Proof. destruct e; [intros []|done]. Qed.

Lemma evict_oldest_accounted held t t' :
  table_ok t -> accounted t -> m_deque t <> [] -> evict_oldest held t = Ok t' -> accounted t'.
Proof.
  intros Hok [Hl Hs Hb] Hne Hev. destruct (evict_oldest_ok held t t' Hok Hev) as (_ & _ & _ & Hd & _).
  revert Hev. unfold evict_oldest. destruct (list.last (m_deque t)) as [field|] eqn:Hlast.
  2: { by apply last_None in Hlast. }
  apply last_Some in Hlast as [d Hdq]. rewrite Hdq in *.
  rewrite length_app, Nat.add_sub, take_app_length in Hd.
  apply Forall_app in Hl as [Hl1 Hl2]. rewrite Forall_singleton in Hl2.
  rewrite total_app, total_cons in *. change (total []) with 0 in *. rewrite Z.add_0_r in *.
  rewrite literal_size by done. intros (m1 & _ & (cur & _ & (m2 & _ & [= <-])%result_bind_Ok)%result_bind_Ok)%result_bind_Ok.
  cbn in Hd. split; cbn [m_deque m_current_size]; rewrite Hd; try done.
  - rewrite Hs. replace (total d + field_size field - field_size field) with (total d) by lia.
    apply wrap_small. pose proof (total_nonneg d). pose proof (field_size_nonneg field). lia.
  - pose proof (field_size_nonneg field). lia.
Qed.

Lemma evict_all_accounted t : accounted (evict_all t).
Proof. split; [apply Forall_nil_2|done|cbn; lia]. Qed.

(** The eviction loop drops exactly the oldest entries that have to go. *)
Lemma evict_while_minimal held cond s B fuel t t' :
  (forall t, accounted t -> total (m_deque t) <= B -> cond t = (m_max_size t <? total (m_deque t) + s)) ->
  table_ok t -> accounted t -> total (m_deque t) <= B -> (length (m_deque t) <= fuel)%nat ->
  evict_while fuel held cond t = Ok t' ->
  accounted t' /\ exists n, m_deque t' = take n (m_deque t) /\
    (m_deque t' = [] \/ total (m_deque t') + s <= m_max_size t) /\
    ((n < length (m_deque t))%nat -> m_max_size t < total (take (S n) (m_deque t)) + s).
Proof.
  intros Hcond. revert t. induction fuel as [|fuel IH]; intros t Hok Hacc HB Hf; cbn [evict_while].
  { intros [= <-]. split; [done|]. exists 0%nat. destruct (m_deque t); cbn in *; [|lia].
    split_and!; [done|by left|lia]. }
  destruct (m_deque t) as [|e0 d0] eqn:Hd0.
  { unfold deque_size. rewrite Hd0. intros [= <-]. split; [done|]. exists 0%nat. rewrite Hd0. cbn.
    split_and!; [done|by left|lia]. }
  rewrite <- Hd0 in *. assert (m_deque t <> []) as Hne by (by rewrite Hd0). clear Hd0 e0 d0.
  assert ((deque_size t =? 0) = false) as ->.
  { unfold deque_size. destruct (m_deque t); [done|]. apply Z.eqb_neq. cbn. lia. }
  rewrite Hcond by done. cbn [negb andb].
  destruct (Z.ltb_spec (m_max_size t) (total (m_deque t) + s)) as [Hgt|Hle].
  - intros (t1 & H1 & H2)%result_bind_Ok.
    pose proof (evict_oldest_accounted held t t1 Hok Hacc Hne H1) as Hacc1.
    destruct (evict_oldest_ok held t t1 Hok H1) as (Hok1 & Hm1 & _ & Hd1 & _).
    assert (0 < length (m_deque t))%nat by (destruct (m_deque t); cbn; [done|lia]).
    apply IH in H2 as (Hacc' & n & Hd' & Hfit & Hmin);
      [|done|done|rewrite Hd1; pose proof (total_take (length (m_deque t) - 1) (m_deque t)); lia
       |rewrite Hd1, length_take; lia].
    split; [done|]. rewrite Hm1 in *. rewrite Hd1, take_take in Hd'.
    exists (n `min` (length (m_deque t) - 1))%nat. split; [done|]. split; [done|]. intros _.
    destruct (Nat.lt_ge_cases n (length (m_deque t) - 1)) as [Hlt|Hge].
    + rewrite Nat.min_l by lia. rewrite Hd1, take_take, length_take in Hmin.
      rewrite (Nat.min_l (S n)) in Hmin by lia. apply Hmin. lia.
    + rewrite Nat.min_r by lia.
      replace (S (length (m_deque t) - 1)) with (length (m_deque t)) by lia. by rewrite firstn_all.
  - intros [= <-]. split; [done|]. exists (length (m_deque t)). rewrite firstn_all.
    split_and!; [done|by right|lia].
Qed.

(** *** Tables whose keys all hold a string *)

Definition literal_keys (m : QpackMap) : Prop :=
  forall k, k ∈ (entries m).*1 -> exists n, m_name k = inr n.

Lemma literal_query m name value type :
  literal_keys m ->
  query hash_key canon m (hash_impl name value type) (is_equal name value type)
    (inr name, match type with FULL_MATCH => value | NAME_ONLY => ""%string end, type).
Proof.
  intros Hl k [n Hn]%Hl. destruct k as [kn v ty o]. cbn in Hn. subst kn. unfold is_equal, canon, hash_key. cbn.
  split.
  - destruct ty, type; repeat (case_bool_decide; cbn); naive_solver.
  - intros [= -> Hv ->]. destruct type; cbn in *; unfold hash_impl; congruence.
Qed.

Lemma fits_insert_search held name value t :
  table_ok t -> fresh t -> literal_keys (m_map t) -> name <> ""%string -> deque_size t < 2 ^ 60 ->
  0 <= m_current_size t -> m_current_size t + field_size (LiteralField name value) <= m_max_size t < 2 ^ 64 ->
  exists t', insert H_PACK held name value t = Ok (0, t') /\
    at_positon t' 0 = Some (LiteralField name value) /\
    search_full_match H_PACK name value t' = Ok (mkSearchResult 0 true true).
Proof.
  intros Hok Hf Hlit Hne Hd Hc Hfit.
  destruct (insert_field_fits held (LiteralField name value) t) as (t' & Hins & Hok' & Hf' & Hd' & _);
    try done; [apply field_size_nonneg|].
  exists t'. unfold insert, make_field. rewrite decide_False by done. split; [exact Hins|].
  assert (at_positon t' 0 = Some (LiteralField name value)) as Hat.
  { unfold at_positon, deque_size. by rewrite Hd'. }
  split; [done|]. unfold search_full_match. rewrite map_find_fresh by done. cbn [mbind result_bind].
  unfold insert_field in Hins. destruct (m_max_size t <? _); [by simplify_eq|].
  rewrite evict_while_fits in Hins by (pose proof (field_size_nonneg (LiteralField name value)); lia).
  cbn [mbind result_bind] in Hins.
  apply result_bind_Ok in Hins as (m1 & H1 & (m2 & H2 & Heq)%result_bind_Ok). injection Heq as Hpos Ht'.
  destruct (map_upsert_valid _ _ _ _ _ (ok_map t Hok) H1) as (Hv1 & Ha1 & He1).
  destruct (map_upsert_valid _ _ _ _ _ Hv1 H2) as (Hv2 & Ha2 & He2).
  assert (literal_keys m2) as Hlit2.
  { assert (literal_keys m1) as Hlit1.
    { intros k ([k' g] & -> & Hin)%list_elem_of_fmap. cbn.
      apply He1 in Hin as [Hin|[-> [->|[Hin _]]]]; [|by eauto|by apply Hlit].
      apply Hlit, list_elem_of_fmap. by exists (k', g). }
    intros k ([k' g] & -> & Hin)%list_elem_of_fmap. cbn.
    apply He2 in Hin as [Hin|[-> [->|[Hin _]]]]; [|by eauto|by apply Hlit1].
    apply Hlit1, list_elem_of_fmap. by exists (k', g). }
  assert (m_map t' = m2) as -> by (by rewrite <- Ht').
  rewrite (find_abs hash_key canon _ _ _ _ Hv2 (literal_query m2 name value FULL_MATCH Hlit2)).
  rewrite Ha2, lookup_insert_ne, Ha1, lookup_insert_eq by done.
  rewrite Ht' in Hpos. by rewrite Hpos.
Qed.

Lemma insert_minimal c held name value t r t' :
  table_ok t -> accounted t -> total (m_deque t) <= m_max_size t < 2 ^ 63 ->
  insert c held name value t = Ok (r, t') ->
  let e := LiteralField name value in
  table_ok t' /\ accounted t' /\ m_max_size t' = m_max_size t /\ total (m_deque t') <= m_max_size t' /\
  (m_max_size t < field_size e -> m_deque t' = []) /\
  (field_size e <= m_max_size t -> exists n, m_deque t' = e :: take n (m_deque t) /\
     ((n < length (m_deque t))%nat -> m_max_size t < total (take (S n) (m_deque t)) + field_size e)).
Proof.
  intros Hok Hacc Hmax Hins e. pose proof (total_nonneg (m_deque t)) as Hpos.
  unfold insert, make_field in Hins. destruct (decide (name = ""%string)) as [|Hne]; [done|].
  cbn [mbind result_bind] in Hins. fold e in Hins.
  assert (is_literal e) as Hlit by done. clearbody e. pose proof (field_size_nonneg e) as He.
  destruct (insert_field_ok c held e t r t' Hok Hins) as (Hok' & Hmax' & _).
  split; [done|]. unfold insert_field in Hins. rewrite Hmax'.
  destruct (Z.ltb_spec (m_max_size t) (field_size e)) as [Hbig|Hsmall].
  { injection Hins as <- <-. split; [apply evict_all_accounted|]. cbn [m_deque m_max_size evict_all].
    change (total []) with 0. split_and!; [done|lia|done|intros; exfalso; lia]. }
  apply result_bind_Ok in Hins as (t1 & H1 & (m1 & _ & (m2 & _ & [= <- <-])%result_bind_Ok)%result_bind_Ok).
  destruct (evict_while_ok _ _ _ _ _ Hok (le_n _) H1) as (_ & Hm1 & _ & _ & _).
  apply (evict_while_minimal held _ (field_size e) (m_max_size t)) in H1 as (Hacc1 & n & Hd1 & Hfit & Hmin);
    [|intros t2 Ha2 HB|done|done|lia|done].
  2: { pose proof (total_nonneg (m_deque t2)). rewrite (acc_size t2 Ha2), wrap_small; [done|lia]. }
  cbn [m_deque m_max_size].
  assert (total (m_deque t1) + field_size e <= m_max_size t) as Htot.
  { destruct Hfit as [->|]; [change (total []) with 0|]; lia. }
  split_and!; try done.
  - split; cbn [m_deque m_current_size].
    + constructor; [done|apply Hacc1].
    + rewrite total_cons, (acc_size t1 Hacc1). pose proof (total_nonneg (m_deque t1)).
      rewrite wrap_small; lia.
    + rewrite total_cons. lia.
  - rewrite total_cons. lia.
  - lia.
  - intros _. exists n. rewrite Hd1. split; [done|exact Hmin].
Qed.

(** ** Properties *)

(** insertion into the dynamic table is first-in first-out with minimal eviction.  On a
    table of literal fields whose size is accounted for, an insertion that returns keeps
    the accounting exact and within [m_max_size], empties the table if the field is larger
    than the table, and otherwise puts the field in front of the longest run of newest
    entries that still fits. *)
Theorem insert_evicts_oldest c held name value t r t' :
  table_ok t -> accounted t -> total (m_deque t) <= m_max_size t < 2 ^ 63 ->
  insert c held name value t = Ok (r, t') ->
  let e := LiteralField name value in
  table_ok t' /\ accounted t' /\ m_max_size t' = m_max_size t /\ total (m_deque t') <= m_max_size t' /\
  (m_max_size t < field_size e -> m_deque t' = []) /\
  (field_size e <= m_max_size t -> exists n, m_deque t' = e :: take n (m_deque t) /\
     ((n < length (m_deque t))%nat -> m_max_size t < total (take (S n) (m_deque t)) + field_size e)).
Proof. apply insert_minimal. Qed.

(** changing the maximum size evicts from the old end exactly what no longer fits. *)
Theorem set_max_size_evicts new_max t t' :
  table_ok t -> accounted t -> 0 <= new_max < 2 ^ 64 ->
  set_max_size new_max t = Ok t' ->
  table_ok t' /\ accounted t' /\ m_max_size t' = new_max /\ total (m_deque t') <= new_max /\
  exists n, m_deque t' = take n (m_deque t) /\
    ((n < length (m_deque t))%nat -> new_max < total (take (S n) (m_deque t))).
Proof.
  intros Hok Hacc Hnew. unfold set_max_size.
  set (t0 := mkDynamicTable new_max (m_current_size t) (m_generation t) (m_deque t) (m_map t)).
  assert (table_ok t0) as Hok0 by (destruct Hok; by split).
  assert (accounted t0) as Hacc0 by (destruct Hacc; by split). intros H1.
  destruct (evict_while_ok _ _ _ _ _ Hok0 (le_n _) H1) as (Hok' & Hm & _ & _ & _).
  apply (evict_while_minimal [] _ 0 (2 ^ 64)) in H1 as (Hacc' & n & Hd & Hfit & Hmin);
    [|intros t2 Ha2 _|done|done|pose proof (acc_bound t Hacc); cbn [m_deque t0]; lia|done].
  2: { by rewrite (acc_size t2 Ha2), Z.add_0_r. }
  rewrite Z.add_0_r in *. change (m_max_size t0) with new_max in *. change (m_deque t0) with (m_deque t) in *.
  split_and!; try done.
  - destruct Hfit as [->|]; [change (total []) with 0|]; lia.
  - exists n. split; [done|exact Hmin].
Qed.

(** what a search of the dynamic table reports exists: a full match is an entry with
    that name and value, at a position inside the table. *)
Theorem dynamic_search_sound name value t r :
  table_ok t -> deque_size t < 2 ^ 61 ->
  search_full_match H_PACK name value t = Ok r -> found r = true ->
  is_full_match r = true /\ exists e, at_positon t (index r) = Some e /\
    entry_name e = name /\ get_value e = value.
Proof.
  intros Hok Hd Hs Hf.
  destruct (search_full_match_sound name value t r Hok Hd Hs Hf) as (pos & e & -> & Hpos & He & Hn & Hv).
  destruct (SearchResult_fields pos true true) as (_ & -> & _ & ->); [lia|]. eauto.
Qed.

(** a field that fits is found again at position 0: insertion evicts nothing, reads no
    dangling key, and a full search for the same name and value returns the new entry. *)
Theorem insert_then_search held name value t :
  table_ok t -> fresh t -> literal_keys (m_map t) -> name <> ""%string -> deque_size t < 2 ^ 60 ->
  0 <= m_current_size t -> m_current_size t + field_size (LiteralField name value) <= m_max_size t < 2 ^ 64 ->
  exists t', insert H_PACK held name value t = Ok (0, t') /\
    at_positon t' 0 = Some (LiteralField name value) /\
    search_full_match H_PACK name value t' = Ok (mkSearchResult 0 true true).
Proof. apply fits_insert_search. Qed.

End Tables.

(** the packed representation of a search result loses nothing for an index below the
    reserved range. *)
Theorem search_result_round_trip (idx : Z) (s f : bool) :
  0 <= idx < 2 ^ 62 - 1 ->
  let r := mkSearchResult idx s f in
  found r = true /\ index r = idx /\ sr_is_static r = s /\ is_full_match r = f.
Proof. apply SearchResult_fields. Qed.

Lemma search_result_round_trip_witness :
  found (mkSearchResult 62 true false) = true /\ index (mkSearchResult 62 true false) = 62 /\
  sr_is_static (mkSearchResult 62 true false) = true /\ is_full_match (mkSearchResult 62 true false) = false.
Proof. apply (search_result_round_trip 62 true false). lia. Defined.

(** ** Concrete hashes for the witnesses and the examples *)

(** FNV-1a, 64 bits. *)
Definition fnv1a (s : string) : Z :=
  fold_left (fun h b => size_t (Z.lxor h b * 0x100000001B3)) (bytes_of_string s) 0xCBF29CE484222325.
Definition id_hash (z : Z) : Z := z.

Definition demo_table (max : Z) (fields : list (string * string)) : result DynamicTable :=
  foldl (fun t '(n, v) => t ← t; '(_, t) ← insert fnv1a id_hash H_PACK [] n v t; Ok t)
    (Ok (make_table max)) fields.

Lemma make_table_accounted max : accounted (make_table max).
Proof. split; [apply Forall_nil_2|done|cbn; lia]. Qed.

Lemma demo_table_ok max fields t :
  0 <= max < 2 ^ 63 -> demo_table max fields = Ok t ->
  table_ok fnv1a id_hash t /\ accounted t /\ total (m_deque t) <= m_max_size t < 2 ^ 63.
Proof.
  intros Hmax. revert t. induction fields as [|[n v] fields IH] using rev_ind; intros t.
  - intros [= <-]. split; [apply make_table_ok|]. split; [apply make_table_accounted|]. cbn. lia.
  - unfold demo_table. rewrite foldl_app. cbn. intros (t0 & Ht0 & ([r t1] & Hi & [= <-])%result_bind_Ok)%result_bind_Ok.
    destruct (IH t0 Ht0) as (Hok & Hacc & Htot).
    destruct (insert_minimal _ _ _ _ _ _ _ _ _ Hok Hacc Htot Hi) as (Hok1 & Hacc1 & Hm & Htot1 & _).
    split; [done|]. split; [done|]. lia.
Qed.

Lemma insert_evicts_oldest_witness :
  exists t1 t2, demo_table 70 [("a"%string, "1"%string); ("b"%string, "2"%string)] = Ok t1 /\
    insert fnv1a id_hash H_PACK [] "c" "3" t1 = Ok (0, t2) /\
    exists n, m_deque t2 = LiteralField "c" "3" :: take n (m_deque t1) /\
      ((n < length (m_deque t1))%nat -> 70 < total (take (S n) (m_deque t1)) + 34).
Proof.
  eexists _, _. split; [vm_compute; reflexivity|]. split; [vm_compute; reflexivity|].
  eapply (insert_evicts_oldest fnv1a id_hash H_PACK [] "c" "3"); [..|vm_compute; done];
    [| | |vm_compute; reflexivity];
    eapply (demo_table_ok 70 [("a"%string, "1"%string); ("b"%string, "2"%string)]);
    [lia|vm_compute; reflexivity..|lia|vm_compute; reflexivity|lia|vm_compute; reflexivity].
Defined.

Lemma set_max_size_evicts_witness :
  exists t1 t2, demo_table 100 [("a"%string, "1"%string); ("b"%string, "2"%string)] = Ok t1 /\
    set_max_size fnv1a 40 t1 = Ok t2 /\ total (m_deque t2) <= 40.
Proof.
  eexists _, _. split; [vm_compute; reflexivity|]. split; [vm_compute; reflexivity|].
  eapply (set_max_size_evicts fnv1a id_hash 40);
    [eapply (demo_table_ok 100 [("a"%string, "1"%string); ("b"%string, "2"%string)]);
       [lia|vm_compute; reflexivity]..|lia|vm_compute; reflexivity].
Defined.

Lemma dynamic_search_sound_witness :
  exists t r, demo_table 100 [("a"%string, "1"%string); ("b"%string, "2"%string)] = Ok t /\
    search_full_match fnv1a H_PACK "a" "1" t = Ok r /\ is_full_match r = true /\
    exists e, at_positon t (index r) = Some e /\ entry_name e = "a"%string /\ get_value e = "1"%string.
Proof.
  eexists _, _. split; [vm_compute; reflexivity|]. split; [vm_compute; reflexivity|].
  eapply (dynamic_search_sound fnv1a id_hash "a" "1");
    [eapply (demo_table_ok 100 [("a"%string, "1"%string); ("b"%string, "2"%string)]);
       [lia|vm_compute; reflexivity]|vm_compute; done|vm_compute; reflexivity|vm_compute; reflexivity].
Defined.

Lemma insert_then_search_witness :
  exists t', insert fnv1a id_hash H_PACK [] "a" "1" (make_table 4096) = Ok (0, t') /\
    at_positon t' 0 = Some (LiteralField "a" "1") /\
    search_full_match fnv1a H_PACK "a" "1" t' = Ok (mkSearchResult 0 true true).
Proof.
  apply (insert_then_search fnv1a id_hash [] "a" "1" (make_table 4096)).
  - apply make_table_ok.
  - apply make_table_fresh.
  - intros k Hk. by apply elem_of_nil in Hk.
  - done.
  - vm_compute; done.
  - vm_compute; done.
  - vm_compute; done.
Defined.

(** ** What the tables do not do *)

(** an entry named by a token is charged one octet for its name when it is inserted and
    the full length of the name when it is evicted, so that evicting it drives the size of
    an empty table below zero, to 2^64 - 11. *)
Theorem token_entry_size_underflow :
  exists t1 t2, insert_token fnv1a id_hash H_PACK [] CONTENT_TYPE "" (make_table 100) = Ok (0, t1) /\
    m_current_size t1 = 33 /\ set_max_size fnv1a 10 t1 = Ok t2 /\
    m_deque t2 = [] /\ m_current_size t2 = 2 ^ 64 - 11.
Proof.
  eexists _, _. split; [vm_compute; reflexivity|]. split; [vm_compute; reflexivity|].
  split; [vm_compute; reflexivity|]. split; vm_compute; reflexivity.
Qed.

(** the name key of a repeated name keeps the views of the first entry: once that entry
    is evicted the next insertion under the name compares a destroyed string. *)
Theorem repeated_name_dangles :
  (exists t, demo_table 70 [("a"%string, "1"%string); ("a"%string, "2"%string); ("b"%string, "3"%string)] = Ok t) /\
  demo_table 70 [("a"%string, "1"%string); ("a"%string, "2"%string); ("b"%string, "3"%string); ("a"%string, "4"%string)]
    = Err UndefinedBehaviour.
Proof. split; [eexists|]; vm_compute; reflexivity. Qed.

(** the maps of the static tables are keyed by tokens and searched by strings, which
    hash differently: with the hash above the search for the static entry ":method GET" misses,
    although the entry is there. *)
Theorem static_search_misses :
  let Table := [StaticField AUTHORITY ""; StaticField METHOD "GET"] in
  static_at Table 1 = Some (StaticField METHOD "GET") /\
  static_search fnv1a id_hash Table H_PACK ":method" "GET" = Ok none.
Proof. split; vm_compute; reflexivity. Qed.
