(* ===== verification/Hpack.v ===== *)
(** * HPACK (RFC 7541): the table, the encoder and the decoder

    Models src/include/io/codec/hpack/table.cppm ([STATIC_TABLE], [HPackTable]),
    src/include/io/codec/hpack/types.cppm ([policy_for]), [detect_representation_hpack] of
    src/include/io/codec/shared/types.cppm, and src/include/io/codec/hpack/hpack.cppm
    ([HpackEncoder], [HpackTableSizeUpdateAdaptor], [HpackDecoderAdapter]), composed from
    IntCodec.v, StringCodec.v and HeaderTable.v.  [UInt] is [std::uint32_t], as everywhere in
    the repository.  The target of the decoder, an [IRequest] or [IResponse], is modelled by
    the log of its [add_header] calls. *)

From Stdlib Require Import ZArith Lia Ascii.
From stdpp Require Import base strings list.
From S2P Require Import Prelude HttpTypes Swiss HeaderTable IntCodec Huffman StringCodec.

Open Scope Z_scope.

Definition DEFAULT_MAX_TABLE_SIZE : Z := 4096.

(** ** The static table *)

Definition STATIC_TABLE : list HeaderEntry := [
  StaticField AUTHORITY "";
  StaticField METHOD "GET";
  StaticField METHOD "POST";
  StaticField PATH "/";
  StaticField PATH "/index.html";
  StaticField SCHEME "http";
  StaticField SCHEME "https";
  StaticField STATUS "200";
  StaticField STATUS "204";
  StaticField STATUS "206";
  StaticField STATUS "304";
  StaticField STATUS "400";
  StaticField STATUS "404";
  StaticField STATUS "500";
  StaticField ACCEPT_CHARSET "";
  StaticField ACCEPT_ENCODING "gzip, deflate";
  StaticField ACCEPT_LANGUAGE "";
  StaticField ACCEPT_RANGES "";
  StaticField ACCEPT "";
  StaticField ACCESS_CONTROL_ALLOW_ORIGIN "";
  StaticField AGE "";
  StaticField ALLOW "";
  StaticField AUTHORIZATION "";
  StaticField CACHE_CONTROL "";
  StaticField CONTENT_DISPOSITION "";
  StaticField CONTENT_ENCODING "";
  StaticField CONTENT_LANGUAGE "";
  StaticField CONTENT_LENGTH "";
  StaticField CONTENT_LOCATION "";
  StaticField CONTENT_RANGE "";
  StaticField CONTENT_TYPE "";
  StaticField COOKIE "";
  StaticField DATE "";
  StaticField E_TAG "";
  StaticField EXPECT "";
  StaticField EXPIRES "";
  StaticField FROM "";
  StaticField HOST "";
  StaticField IF_MATCH "";
  StaticField IF_MODIFIED_SINCE "";
  StaticField IF_NONE_MATCH "";
  StaticField IF_RANGE "";
  StaticField IF_UNMODIFIED_SINCE "";
  StaticField LAST_MODIFIED "";
  StaticField LINK "";
  StaticField LOCATION "";
  StaticField MAX_FORWARDS "";
  StaticField PROXY_AUTHENTICATE "";
  StaticField PROXY_AUTHORIZATION "";
  StaticField RANGE "";
  StaticField REFERER "";
  StaticField REFRESH "";
  StaticField RETRY_AFTER "";
  StaticField SERVER "";
  StaticField SET_COOKIE "";
  StaticField STRICT_TRANSPORT_SECURITY "";
  StaticField TRANSFER_ENCODING "";
  StaticField USER_AGENT "";
  StaticField VARY "";
  StaticField VIA "";
  StaticField WWW_AUTHENTICATE ""
].

Definition HPACK_STATIC_SIZE : Z := STATIC_SIZE STATIC_TABLE.

(** ** Representations *)

Inductive PrefixHelper :=
  | HPACK_INDEXED_FIELD
  | HPACK_LITERAL_WITH_INDEXING
  | HPACK_DYNAMIC_TABLE_SIZE_UPDATE
  | HPACK_LITERAL_NEVER_INDEXED
  | HPACK_LITERAL_WITHOUT_INDEXING.

#[export] Instance PrefixHelper_eq_dec : EqDecision PrefixHelper.
Proof. solve_decision. Defined.

(** [std::to_underlying]. *)
Definition prefix_code (p : PrefixHelper) : Z :=
  match p with
  | HPACK_INDEXED_FIELD => 0x80
  | HPACK_LITERAL_WITH_INDEXING => 0x40
  | HPACK_DYNAMIC_TABLE_SIZE_UPDATE => 0x20
  | HPACK_LITERAL_NEVER_INDEXED => 0x10
  | HPACK_LITERAL_WITHOUT_INDEXING => 0x00
  end.

Definition detect_representation_hpack (byte : Z) : PrefixHelper :=
  if negb (Z.land byte (prefix_code HPACK_INDEXED_FIELD) =? 0) then HPACK_INDEXED_FIELD
  else if negb (Z.land byte (prefix_code HPACK_LITERAL_WITH_INDEXING) =? 0) then HPACK_LITERAL_WITH_INDEXING
  else if negb (Z.land byte (prefix_code HPACK_DYNAMIC_TABLE_SIZE_UPDATE) =? 0) then HPACK_DYNAMIC_TABLE_SIZE_UPDATE
  else if negb (Z.land byte (prefix_code HPACK_LITERAL_NEVER_INDEXED) =? 0) then HPACK_LITERAL_NEVER_INDEXED
  else HPACK_LITERAL_WITHOUT_INDEXING.

(** ** Policies *)

Inductive EncodePolicy := WITH_INDEXING | WITHOUT_INDEXING | NEVER_INDEXED.

Definition NEVER_INDEXED_NAMES : list string :=
  ["authorization"; "proxy-authorization"; "cookie"; "set-cookie"]%string.

Definition policy_for (name : string) : EncodePolicy :=
  if existsb (fun header => String.eqb name header) NEVER_INDEXED_NAMES then NEVER_INDEXED
  else WITH_INDEXING.

Section Hpack.
Context (hash_string : string -> Z) (hash_uint32 : Z -> Z).

(** ** [HPackTable] *)

Definition HPackTable := DynamicTable.

(** [operator[]]: [None] for an invalid index. *)
Definition table_lookup (t : HPackTable) (idx : Z) : option HeaderEntry :=
  if idx =? 0 then None
  else if idx <=? HPACK_STATIC_SIZE then static_at STATIC_TABLE (idx - 1)
  else at_positon t (idx - HPACK_STATIC_SIZE - 1).

Definition table_at (t : HPackTable) (idx : Z) : result HeaderEntry :=
  match table_lookup t idx with Some field => Ok field | None => Err OutOfRange end.

Definition table_search (name value : string) (t : HPackTable) : result SearchResult :=
  r ← static_search_full_match hash_string hash_uint32 STATIC_TABLE H_PACK name value;
  if found r then Ok r
  else
  r ← search_full_match hash_string H_PACK name value t;
  if found r then Ok (mkSearchResult (size_t (index r + HPACK_STATIC_SIZE + 1)) true true)
  else
  r ← static_search_name_only hash_string hash_uint32 STATIC_TABLE H_PACK name;
  if found r then Ok r
  else
  r ← search_name_only hash_string H_PACK name t;
  if found r then Ok (mkSearchResult (size_t (index r + HPACK_STATIC_SIZE + 1)) true false)
  else Ok none.

(** [at(idx)] hands out a copy of the [shared_ptr]: while it lives it keeps the field alive. *)
Definition held_by (t : HPackTable) (idx : Z) : list Z :=
  if idx <=? HPACK_STATIC_SIZE then [] else [m_generation t - (idx - HPACK_STATIC_SIZE - 1)].

(** [insert(ptr->get_name(), value)] inside [std::visit]: the overload for the name. *)
Definition insert_like (field : HeaderEntry) (held : list Z) (value : string) (t : HPackTable)
    : result (Z * HPackTable) :=
  match field with
  | StaticField token _ => insert_token hash_string hash_uint32 H_PACK held token value t
  | LiteralField name _ => insert hash_string hash_uint32 H_PACK held name value t
  end.

(** ** [HpackEncoder] *)

Inductive HpackFlushReason := OVERFLOW | END_.

(** [m_buf] holds the octets before [m_buf_pos]; [flushed] is the log of [m_on_flush]. *)
Record Encoder := mkEncoder {
  m_table : HPackTable;
  m_buf : list Z;
  flushed : list (list Z * HpackFlushReason);
}.

Section Encoder.
Context (m_flush_size : nat) (m_use_auto_policy m_use_huffman : bool).

Definition BUF_CAPACITY : nat := 16384.

Definition emit (byte : Z) (st : Encoder) : result Encoder :=
  if (BUF_CAPACITY <=? length (m_buf st))%nat then Err UndefinedBehaviour
  else
    let buf := m_buf st ++ [byte] in
    if (length buf =? m_flush_size)%nat
    then Ok (mkEncoder (m_table st) [] (flushed st ++ [(buf, OVERFLOW)]))
    else Ok (mkEncoder (m_table st) buf (flushed st)).

Fixpoint drain (range : list Z) (st : Encoder) : result Encoder :=
  match range with
  | [] => Ok st
  | byte :: range => st ← emit byte st; drain range st
  end.

(** [HpackEncoder::encode_string]. *)
Definition encode_str (view : string) : result (list Z) :=
  EncodeStringAdaptor m_use_huffman 7 (bytes_of_string view).

Definition encode_indexed (idx : Z) (st : Encoder) : result Encoder :=
  bs ← encode_int_view 32 idx 7 (prefix_code HPACK_INDEXED_FIELD);
  drain bs st.

Definition encode_incremental (idx : Z) (value : string) (st : Encoder) : result Encoder :=
  bs ← encode_int_view 32 idx 6 (prefix_code HPACK_LITERAL_WITH_INDEXING);
  vs ← encode_str value;
  st ← drain (bs ++ vs) st;
  field ← table_at (m_table st) idx;
  '(_, t) ← insert_like field (held_by (m_table st) idx) value (m_table st);
  Ok (mkEncoder t (m_buf st) (flushed st)).

Definition encode_incremental_new (name value : string) (st : Encoder) : result Encoder :=
  ns ← encode_str name;
  vs ← encode_str value;
  st ← drain ([prefix_code HPACK_LITERAL_WITH_INDEXING] ++ ns ++ vs) st;
  '(_, t) ← insert hash_string hash_uint32 H_PACK [] name value (m_table st);
  Ok (mkEncoder t (m_buf st) (flushed st)).

Definition encode_without_indexing (idx : Z) (value : string) (st : Encoder) : result Encoder :=
  bs ← encode_int_view 32 idx 4 (prefix_code HPACK_LITERAL_WITHOUT_INDEXING);
  vs ← encode_str value;
  drain (bs ++ vs) st.

Definition encode_without_indexing_new (name value : string) (st : Encoder) : result Encoder :=
  ns ← encode_str name;
  vs ← encode_str value;
  drain ([prefix_code HPACK_LITERAL_WITHOUT_INDEXING] ++ ns ++ vs) st.

Definition encode_never_indexed (idx : Z) (value : string) (st : Encoder) : result Encoder :=
  bs ← encode_int_view 32 idx 4 (prefix_code HPACK_LITERAL_NEVER_INDEXED);
  vs ← encode_str value;
  drain (bs ++ vs) st.

Definition encode_never_indexed_new (name value : string) (st : Encoder) : result Encoder :=
  ns ← encode_str name;
  vs ← encode_str value;
  drain ([prefix_code HPACK_LITERAL_NEVER_INDEXED] ++ ns ++ vs) st.

Definition encode_hpack_field (name value : string) (policy : EncodePolicy) (r : SearchResult)
    (st : Encoder) : result Encoder :=
  match policy with
  | WITH_INDEXING =>
      if is_full_match r then encode_indexed (u32 (index r)) st
      else if found r then encode_incremental (u32 (index r)) value st
      else encode_incremental_new name value st
  | WITHOUT_INDEXING =>
      if found r then encode_without_indexing (u32 (index r)) value st
      else encode_without_indexing_new name value st
  | NEVER_INDEXED =>
      if found r then encode_never_indexed (u32 (index r)) value st
      else encode_never_indexed_new name value st
  end.

(** [value | std::views::split("; ")]. *)
Fixpoint split_cookie (crumb : string) (value : string) : list string :=
  match value with
  | EmptyString => [crumb]
  | String ";"%char (String " "%char rest) => crumb :: split_cookie "" rest
  | String c rest => split_cookie (crumb +:+ String c "") rest
  end.

Fixpoint encode_crumbs (crumbs : list string) (st : Encoder) : result Encoder :=
  match crumbs with
  | [] => Ok st
  | crumb :: crumbs =>
      if decide (crumb = ""%string) then encode_crumbs crumbs st
      else
        r ← table_search "cookie" crumb (m_table st);
        st ← encode_hpack_field "cookie" crumb WITH_INDEXING r st;
        encode_crumbs crumbs st
  end.

Definition encode_cookies (value : string) (st : Encoder) : result Encoder :=
  encode_crumbs (split_cookie "" value) st.

Definition encode_field (name value : string) (st : Encoder) : result Encoder :=
  let POLICY := if m_use_auto_policy then policy_for name else WITH_INDEXING in
  r ← table_search name value (m_table st);
  encode_hpack_field name value POLICY r st.

Definition encode_entry (entry : HeaderEntry) (st : Encoder) : result Encoder :=
  match entry with
  | StaticField COOKIE value => encode_cookies value st
  | StaticField token value => encode_field (token_to_string token) value st
  | LiteralField name value => encode_field name value st
  end.

Fixpoint encode_entries (headers : list HeaderEntry) (st : Encoder) : result Encoder :=
  match headers with
  | [] => Ok st
  | entry :: headers => st ← encode_entry entry st; encode_entries headers st
  end.

(** [operator()]: the final [END] flush empties the buffer. *)
Definition hpack_encode (t : HPackTable) (headers : list HeaderEntry) : result Encoder :=
  st ← encode_entries headers (mkEncoder t [] []);
  Ok (mkEncoder (m_table st) [] (flushed st ++ [(m_buf st, END_)])).

End Encoder.

(** [HpackTableSizeUpdateAdaptor]. *)
Definition encode_table_size_update (size : Z) (t : HPackTable) : result (list Z * HPackTable) :=
  t ← set_max_size hash_string size t;
  bs ← encode_int_view 32 size 5 (prefix_code HPACK_DYNAMIC_TABLE_SIZE_UPDATE);
  Ok (bs, t).

(** ** [HpackDecoderAdapter] *)

(** The table and the log of [add_header] calls on the target; an entry of the log is a
    [StaticField] when the overload for tokens was called. *)
Definition Decoder : Type := HPackTable * list HeaderEntry.

Definition detect (range : list Z) : PrefixHelper * bool :=
  let REP := hd 0 range in
  let REP_TYPE := detect_representation_hpack REP in
  let IS_NEW :=
    negb (bool_decide (REP_TYPE = HPACK_INDEXED_FIELD)) &&
    negb (bool_decide (REP_TYPE = HPACK_DYNAMIC_TABLE_SIZE_UPDATE)) &&
    (Z.land REP (Z.lnot (prefix_code REP_TYPE)) =? 0) in
  (REP_TYPE, IS_NEW).

Definition add_field (entry : HeaderEntry) (log : list HeaderEntry) : list HeaderEntry :=
  log ++ [LiteralField (entry_name entry) (get_value entry)].

(** The last step of an indexable push: look the new entry up and hand it to the target. *)
Definition add_inserted (ins : Z * HPackTable) (log : list HeaderEntry) : Decoder :=
  let '(INS_IDX, t) := ins in
  match table_lookup t (size_t (HPACK_STATIC_SIZE + 1 + INS_IDX)) with
  | Some entry => (t, add_field entry log)
  | None => (t, log)
  end.

Definition push_helper (Indexable : bool) (idx : Z) (value : string) (d : Decoder) : result Decoder :=
  let '(t, log) := d in
  if idx =? 0 then Err InvalidIndexError
  else
    field ← table_at t idx;
    if Indexable then
      ins ← insert_like field (held_by t idx) value t;
      Ok (add_inserted ins log)
    else Ok (t, log ++ [match field with
                        | StaticField token _ => StaticField token value
                        | LiteralField name _ => LiteralField name value
                        end]).

Definition push_helper_new (Indexable : bool) (name value : string) (d : Decoder) : result Decoder :=
  let '(t, log) := d in
  if decide (name = ""%string) then Err EmptyNameError
  else if Indexable then
    ins ← insert hash_string hash_uint32 H_PACK [] name value t;
    Ok (add_inserted ins log)
  else Ok (t, log ++ [LiteralField name value]).

Definition decode_indexed (range : list Z) (d : Decoder) : result (nat * Decoder) :=
  IDX ← DecodeIntAdaptor 32 0 7 range;
  if IntCodec.value IDX =? 0 then Err InvalidIndexError
  else
    field ← table_at (fst d) (IntCodec.value IDX);
    Ok (consumed IDX, (fst d, add_field field (snd d))).

(** [decode_literal<Indexable>(range, prefix_bits)]; [decode_incremental] is its instance
    for 6 bits and an indexable field. *)
Definition decode_literal (Indexable : bool) (prefix_bits : Z) (range : list Z) (d : Decoder)
    : result (nat * Decoder) :=
  IDX ← DecodeIntAdaptor 32 0 prefix_bits range;
  '(value, value_size) ← DecodeStringAdaptor (drop (consumed IDX) range);
  d ← push_helper Indexable (IntCodec.value IDX) value d;
  Ok ((consumed IDX + value_size)%nat, d).

Definition decode_incremental (range : list Z) (d : Decoder) : result (nat * Decoder) :=
  decode_literal true 6 range d.

Definition decode_literal_new (Indexable : bool) (range : list Z) (d : Decoder) : result (nat * Decoder) :=
  '(name, name_size) ← DecodeStringAdaptor (drop 1 range);
  let name_size := S name_size in
  '(value, value_size) ← DecodeStringAdaptor (drop name_size range);
  d ← push_helper_new Indexable name value d;
  Ok ((name_size + value_size)%nat, d).

Definition decode_incremental_new (range : list Z) (d : Decoder) : result (nat * Decoder) :=
  decode_literal_new true range d.

Definition decode_table_size_update (range : list Z) (d : Decoder) : result (nat * Decoder) :=
  NEW_SIZE ← DecodeIntAdaptor 32 0 5 range;
  if m_max_size (fst d) <? IntCodec.value NEW_SIZE then Err TableSizeError
  else
    t ← set_max_size hash_string (IntCodec.value NEW_SIZE) (fst d);
    Ok (consumed NEW_SIZE, (t, snd d)).

Definition decode_one (slice : list Z) (d : Decoder) : result (nat * Decoder) :=
  match detect slice with
  | (HPACK_INDEXED_FIELD, _) => decode_indexed slice d
  | (HPACK_LITERAL_WITH_INDEXING, is_new) =>
      if is_new then decode_incremental_new slice d else decode_incremental slice d
  | (HPACK_LITERAL_NEVER_INDEXED, is_new) | (HPACK_LITERAL_WITHOUT_INDEXING, is_new) =>
      if is_new then decode_literal_new false slice d else decode_literal false 4 slice d
  | (HPACK_DYNAMIC_TABLE_SIZE_UPDATE, _) => decode_table_size_update slice d
  end.

(** The [for_each] over [data]: one turn per octet, which does nothing once [offset] has
    reached the end. *)
Fixpoint decode_turns (turns : nat) (data : list Z) (offset : nat) (d : Decoder) : result (nat * Decoder) :=
  match turns with
  | O => Ok (offset, d)
  | S turns =>
      if (length data <=? offset)%nat then decode_turns turns data offset d
      else
        '(n, d) ← decode_one (drop offset data) d;
        decode_turns turns data (offset + n) d
  end.

Definition hpack_decode (data : list Z) (d : Decoder) : result (nat * Decoder) :=
  decode_turns (length data) data 0 d.

(** ** Tables without eviction

    [room] octets may still be inserted before anything is evicted. *)
Record sync_ok (t : HPackTable) (room : Z) : Prop := {
  sync_table : table_ok hash_string hash_uint32 t;
  sync_fresh : fresh t;
  sync_count : 32 * deque_size t <= m_current_size t;
  sync_room : m_current_size t + room <= m_max_size t;
  sync_max : m_max_size t < 2 ^ 32;
}.

Lemma sync_ok_weaken t room room' : sync_ok t room -> room' <= room -> sync_ok t room'.
Proof. intros []. by split; try lia. Qed.

Lemma make_table_sync max : 0 <= max < 2 ^ 32 -> sync_ok (make_table max) max.
Proof.
  intros Hm. split; [apply make_table_ok|apply make_table_fresh|..];
    unfold make_table, deque_size; cbn [m_deque m_current_size m_max_size length]; lia.
Qed.

Lemma deque_nonneg t : 0 <= deque_size t.
Proof. unfold deque_size. lia. Qed.

(** The charge of RFC 7541 for a field; an entry is never charged more. *)
Definition charge (name value : string) : Z := slen name + slen value + ENTRY_OVERHEAD.

Lemma slen_pos s : s <> ""%string -> 1 <= slen s.
Proof. intros Hs. unfold slen. destruct s; [done|]. cbn. lia. Qed.

Lemma slen_nonneg s : 0 <= slen s.
Proof. unfold slen. lia. Qed.

Definition with_value (field : HeaderEntry) (value : string) : HeaderEntry :=
  match field with
  | StaticField token _ => StaticField token value
  | LiteralField name _ => LiteralField name value
  end.

Lemma insert_like_fits field held value t room :
  sync_ok t room -> entry_name field <> ""%string -> charge (entry_name field) value <= room ->
  exists t', insert_like field held value t = Ok (0, t') /\
    sync_ok t' (room - charge (entry_name field) value) /\
    m_deque t' = with_value field value :: m_deque t.
Proof.
  intros [Hok Hf Hcnt Hroom Hmax] Hne Hch. pose proof (deque_nonneg t).
  pose proof (slen_pos _ Hne). pose proof (slen_nonneg value).
  assert (32 <= field_size (with_value field value) <= charge (entry_name field) value) as Hfs.
  { unfold charge, ENTRY_OVERHEAD in *.
    destruct field; cbn in *; rewrite wrap_small; unfold ENTRY_OVERHEAD in *; lia. }
  destruct (insert_field_fits hash_string hash_uint32 held (with_value field value) t)
    as (t' & Hins & Hok' & Hf' & Hd' & Hm' & Hc'); [done|done|lia|lia|lia|].
  exists t'. split; [|split; [|done]].
  - destruct field as [token v|name v]; [done|]. cbn in *. unfold insert, make_field.
    by rewrite decide_False.
  - split; try done; try lia. unfold deque_size in *. rewrite Hd', Hc'. cbn [length]. lia.
Qed.

(** ** Searching the unified index *)

Lemma STATIC_TABLE_names e : e ∈ STATIC_TABLE -> entry_name e <> ""%string.
Proof.
  assert (forallb (fun e => negb (String.eqb (entry_name e) "")) STATIC_TABLE = true) as Hall
    by (vm_compute; reflexivity).
  intros He. rewrite forallb_forall in Hall. specialize (Hall e (proj1 (list_elem_of_In _ _) He)).
  intros E. by rewrite E in Hall.
Qed.

(** The four lookups of [table_search], in order. *)
Definition search_chain (r1 r2 r3 r4 : result SearchResult) : result SearchResult :=
  r ← r1;
  if found r then Ok r
  else
  r ← r2;
  if found r then Ok (mkSearchResult (size_t (index r + HPACK_STATIC_SIZE + 1)) true true)
  else
  r ← r3;
  if found r then Ok r
  else
  r ← r4;
  if found r then Ok (mkSearchResult (size_t (index r + HPACK_STATIC_SIZE + 1)) true false)
  else Ok none.

(** A lookup misses or returns an index below [n] whose entry has property [P]. *)
Definition hit_or_miss (r : result SearchResult) (offset n : Z) (full : bool) (P : Z -> Prop) : Prop :=
  r = Ok none \/ exists pos, r = Ok (mkSearchResult (pos + offset) true full) /\ 0 <= pos < n /\ P pos.

Lemma search_chain_sound r1 r2 r3 r4 n1 n2 P1 P2 P3 P4 :
  hit_or_miss r1 1 n1 true P1 -> hit_or_miss r2 0 n2 true P2 ->
  hit_or_miss r3 1 n1 false P3 -> hit_or_miss r4 0 n2 false P4 ->
  n1 < 2 ^ 30 -> n2 < 2 ^ 30 ->
  search_chain r1 r2 r3 r4 = Ok none \/
  exists idx full, search_chain r1 r2 r3 r4 = Ok (mkSearchResult idx true full) /\
    ((1 <= idx <= n1 /\ if full then P1 (idx - 1) else P3 (idx - 1)) \/
     (62 <= idx < n2 + 62 /\ if full then P2 (idx - 62) else P4 (idx - 62))).
Proof.
  assert (HPACK_STATIC_SIZE = 61) as H61 by done.
  unfold search_chain. rewrite H61.
  intros [-> | (p1 & -> & Hp1 & HP1)] H2 H3 H4 Hn1 Hn2; cbn [mbind result_bind].
  2: { destruct (SearchResult_fields (p1 + 1) true true) as (-> & _); [lia|].
       right. exists (p1 + 1), true. split; [done|]. left. replace (p1 + 1 - 1) with p1 by lia. split; [lia|done]. }
  change (found none) with false. cbv iota.
  destruct H2 as [-> | (p2 & -> & Hp2 & HP2)]; cbn [mbind result_bind].
  2: { rewrite Z.add_0_r. destruct (SearchResult_fields p2 true true) as (-> & -> & _); [lia|].
       rewrite wrap_small by lia. right. exists (p2 + 61 + 1), true. split; [done|]. right.
       replace (p2 + 61 + 1 - 62) with p2 by lia. split; [lia|done]. }
  change (found none) with false. cbv iota.
  destruct H3 as [-> | (p3 & -> & Hp3 & HP3)]; cbn [mbind result_bind].
  2: { destruct (SearchResult_fields (p3 + 1) true false) as (-> & _); [lia|].
       right. exists (p3 + 1), false. split; [done|]. left. replace (p3 + 1 - 1) with p3 by lia. split; [lia|done]. }
  change (found none) with false. cbv iota.
  destruct H4 as [-> | (p4 & -> & Hp4 & HP4)]; cbn [mbind result_bind]; [by left|].
  rewrite Z.add_0_r. destruct (SearchResult_fields p4 true false) as (-> & -> & _); [lia|].
  rewrite wrap_small by lia. right. exists (p4 + 61 + 1), false. split; [done|]. right.
  replace (p4 + 61 + 1 - 62) with p4 by lia. split; [lia|done].
Qed.

Lemma table_lookup_static t idx : 1 <= idx <= 61 -> table_lookup t idx = static_at STATIC_TABLE (idx - 1).
Proof.
  intros Hi. unfold table_lookup. change HPACK_STATIC_SIZE with 61.
  destruct (Z.eqb_spec idx 0), (Z.leb_spec idx 61); (done || lia).
Qed.

Lemma table_lookup_dynamic t idx : 62 <= idx -> table_lookup t idx = at_positon t (idx - 62).
Proof.
  intros Hi. unfold table_lookup. change HPACK_STATIC_SIZE with 61.
  destruct (Z.eqb_spec idx 0), (Z.leb_spec idx 61); try lia. f_equal. lia.
Qed.

(** The entry a lookup reports has the name, and the value if the match is full. *)
Definition is_entry (name value : string) (full : bool) (oe : option HeaderEntry) : Prop :=
  exists e, oe = Some e /\ entry_name e = name /\ (full = true -> get_value e = value).

Lemma STATIC_SIZE_61 : STATIC_SIZE STATIC_TABLE = 61.
Proof. reflexivity. Qed.

Lemma STATIC_TABLE_small : Z.of_nat (length STATIC_TABLE) < 2 ^ 61.
Proof. vm_compute. done. Qed.

#[local] Opaque static_search_full_match static_search_name_only search_full_match search_name_only STATIC_TABLE.

Lemma table_search_sound name value t room :
  sync_ok t room -> 0 <= room ->
  table_search name value t = Ok none \/
  exists idx full, table_search name value t = Ok (mkSearchResult idx true full) /\
    1 <= idx < 2 ^ 30 /\ is_entry name value full (table_lookup t idx).
Proof.
  intros [Hok Hf Hcnt Hroom Hmax] Hr. pose proof (deque_nonneg t).
  assert (deque_size t < 2 ^ 27) as Hds by lia.
  pose (Ps full i := is_entry name value full (static_at STATIC_TABLE i)).
  pose (Pd full i := is_entry name value full (at_positon t i)).
  destruct (search_chain_sound
    (static_search_full_match hash_string hash_uint32 STATIC_TABLE H_PACK name value)
    (search_full_match hash_string H_PACK name value t)
    (static_search_name_only hash_string hash_uint32 STATIC_TABLE H_PACK name)
    (search_name_only hash_string H_PACK name t) 61 (deque_size t) (Ps true) (Pd true) (Ps false) (Pd false))
    as [E | (idx & full & E & Hidx)]; [..|left; exact E|].
  1: destruct (static_search_full_match_sound hash_string hash_uint32 STATIC_TABLE STATIC_TABLE_small name value)
       as [-> | (i & e & -> & Hi & He & Hn & Hv)]; [by left|right; exists i; rewrite STATIC_SIZE_61 in Hi;
         (split; [reflexivity|]); (split; [exact Hi|]); exists e; (split; [exact He|]); split; [exact Hn|by auto]].
  1: destruct (search_full_match_fresh hash_string hash_uint32 name value t Hok Hf ltac:(lia))
       as [-> | (i & e & -> & Hi & He & Hn & Hv)]; [by left|right; exists i; rewrite Z.add_0_r;
         (split; [reflexivity|]); (split; [exact Hi|]); exists e; (split; [exact He|]); split; [exact Hn|by auto]].
  1: destruct (static_search_name_only_sound hash_string hash_uint32 STATIC_TABLE STATIC_TABLE_small name)
       as [-> | (i & e & -> & Hi & He & Hn)]; [by left|right; exists i; rewrite STATIC_SIZE_61 in Hi;
         (split; [reflexivity|]); (split; [exact Hi|]); exists e; (split; [exact He|]); split; [exact Hn|by auto]].
  1: destruct (search_name_only_sound hash_string hash_uint32 name t Hok Hf ltac:(lia))
       as [-> | (i & e & -> & Hi & He & Hn)]; [by left|right; exists i; rewrite Z.add_0_r;
         (split; [reflexivity|]); (split; [exact Hi|]); exists e; (split; [exact He|]); split; [exact Hn|by auto]].
  1,2: lia.
  right. exists idx, full. split; [exact E|].
  destruct Hidx as [[Hi HP]|[Hi HP]].
  - split; [lia|]. rewrite table_lookup_static by lia. by destruct full.
  - split; [lia|]. rewrite table_lookup_dynamic by lia. by destruct full.
Qed.

(** ** Octets on the wire *)

Section Wire.
Context (m_flush_size : nat) (Hflush : (0 < m_flush_size <= BUF_CAPACITY)%nat).

Definition emitted (st : Encoder) : list Z := concat (fst <$> flushed st) ++ m_buf st.

(** Every chunk flushed so far is a full frame, and the buffer is not yet one. *)
Definition frames_ok (st : Encoder) : Prop :=
  (length (m_buf st) < m_flush_size)%nat /\
  Forall (fun c : list Z * HpackFlushReason => c.2 = OVERFLOW /\ length c.1 = m_flush_size) (flushed st).

(** [st'] comes from [st] by writing [bs] with table [t]. *)
Definition writes (st : Encoder) (bs : list Z) (t : HPackTable) (st' : Encoder) : Prop :=
  frames_ok st' /\ emitted st' = emitted st ++ bs /\ m_table st' = t.

Lemma emit_writes byte st :
  frames_ok st -> exists st', emit m_flush_size byte st = Ok st' /\ writes st [byte] (m_table st) st'.
Proof.
  intros [Hb Hc]. unfold emit. destruct (Nat.leb_spec BUF_CAPACITY (length (m_buf st))); [lia|].
  rewrite length_app. cbn [length]. destruct (Nat.eqb_spec (length (m_buf st) + 1) m_flush_size) as [He|He].
  - eexists. split; [done|]. split_and!; [split; cbn; [lia|]| |done].
    + apply Forall_app. split; [done|]. apply Forall_singleton. split; [done|]. cbn. rewrite length_app. cbn. lia.
    + unfold emitted. cbn. rewrite fmap_app, concat_app. cbn. by rewrite !app_nil_r, app_assoc.
  - eexists. split; [done|]. split_and!; [split; cbn; [rewrite length_app; cbn; lia|done]| |done].
    unfold emitted. cbn. by rewrite app_assoc.
Qed.

Lemma drain_writes bs st :
  frames_ok st -> exists st', drain m_flush_size bs st = Ok st' /\ writes st bs (m_table st) st'.
Proof.
  revert st. induction bs as [|b bs IH]; intros st Hf; cbn [drain].
  - exists st. split; [done|]. split_and!; [apply Hf..| |done]. by rewrite app_nil_r.
  - destruct (emit_writes b st Hf) as (st1 & -> & Hf1 & He1 & Ht1). cbn [mbind result_bind].
    destruct (IH st1 Hf1) as (st2 & -> & Hf2 & He2 & Ht2). exists st2. split; [done|].
    split; [done|]. split; [|congruence]. rewrite He2, He1, <- app_assoc. done.
Qed.

(** A buffer and a log with another table. *)
Lemma writes_table st bs t st' t' :
  writes st bs t st' -> writes st bs t' (mkEncoder t' (m_buf st') (flushed st')).
Proof. intros (Hf & He & _). by split_and!; try apply Hf. Qed.

(** ** Recognising a representation *)

Definition representation (b : Z) : PrefixHelper * bool :=
  if 128 <=? b then (HPACK_INDEXED_FIELD, false)
  else if 64 <=? b then (HPACK_LITERAL_WITH_INDEXING, b =? 64)
  else if 32 <=? b then (HPACK_DYNAMIC_TABLE_SIZE_UPDATE, false)
  else if 16 <=? b then (HPACK_LITERAL_NEVER_INDEXED, b =? 16)
  else (HPACK_LITERAL_WITHOUT_INDEXING, b =? 0).

Lemma detect_representation b bs : is_byte b -> detect (b :: bs) = representation b.
Proof. intros Hb. change (detect (b :: bs)) with (detect [b]). byte_decide Hb. Qed.

(** ** One field on the wire *)

(** [bs] is a representation that a decoder with table [t] turns into one header with the
    given name and value and table [t']. *)
Definition decodes (bs : list Z) (t t' : HPackTable) (name value : string) : Prop :=
  (0 < length bs)%nat /\ Forall is_byte bs /\
  forall rest log, Forall is_byte rest ->
    exists e, decode_one (bs ++ rest) (t, log) = Ok (length bs, (t', log ++ [e])) /\
      entry_name e = name /\ get_value e = value.

Definition short (s : string) : Prop := slen s <= MAX_LENGTH.

Lemma encode_str_decodes h s :
  short s -> exists bs, encode_str h s = Ok bs /\ Forall is_byte bs /\ (0 < length bs)%nat /\
    forall rest, Forall is_byte rest -> DecodeStringAdaptor (bs ++ rest) = Ok (s, length bs).
Proof. apply EncodeStringAdaptor_decode. Qed.

(** A field name given by its index, then the value. *)
Lemma literal_decodes h ind N prefix idx value :
  1 <= N <= 8 -> is_byte prefix -> prefix mod 2 ^ N = 0 -> 1 <= idx < 2 ^ 32 -> short value ->
  exists b bs vs, encode_int_view 32 idx N prefix = Ok (b :: bs) /\ encode_str h value = Ok vs /\
    Forall is_byte (b :: bs ++ vs) /\ prefix < b < prefix + 2 ^ N /\
    forall rest d, Forall is_byte rest ->
      decode_literal ind N (((b :: bs) ++ vs) ++ rest) d =
        d' ← push_helper ind idx value d; Ok (length ((b :: bs) ++ vs), d').
Proof.
  intros HN Hp Hpz Hi Hv.
  destruct (encode_int_view_head 32 idx N prefix) as (b & bs & He & Hb & Hr1 & Hr2 & Hd); [lia|lia|done|done|lia|].
  destruct (encode_str_decodes h value Hv) as (vs & Hes & Hvs & _ & Hds).
  exists b, bs, vs. split_and!; try done; [|lia|lia|].
  - change (b :: bs ++ vs) with ((b :: bs) ++ vs). by apply Forall_app.
  - intros rest d Hr. unfold decode_literal. rewrite <- app_assoc.
    rewrite Hd by (by apply Forall_app). cbn [mbind result_bind consumed IntCodec.value].
    rewrite drop_app_length, Hds by done. cbn [mbind result_bind].
    destruct (push_helper ind idx value d); [|done]. cbn [mbind result_bind].
    by rewrite length_app.
Qed.

(** A field with a literal name. *)
Lemma literal_new_decodes h ind name value :
  short name -> short value ->
  exists ns vs, encode_str h name = Ok ns /\ encode_str h value = Ok vs /\ Forall is_byte (ns ++ vs) /\
    forall b rest d, Forall is_byte rest ->
      decode_literal_new ind ((b :: ns ++ vs) ++ rest) d =
        d' ← push_helper_new ind name value d; Ok (length (b :: ns ++ vs), d').
Proof.
  intros Hn Hv.
  destruct (encode_str_decodes h name Hn) as (ns & Hen & Hns & _ & Hdn).
  destruct (encode_str_decodes h value Hv) as (vs & Hev & Hvs & _ & Hdv).
  exists ns, vs. split_and!; try done; [by apply Forall_app|].
  intros b rest d Hr. unfold decode_literal_new.
  replace ((b :: ns ++ vs) ++ rest) with (b :: (ns ++ vs ++ rest)) by (cbn; by rewrite app_assoc).
  rewrite !skipn_cons, skipn_O. rewrite Hdn by (by apply Forall_app). cbn [mbind result_bind].
  rewrite skipn_cons, drop_app_length, Hdv by done. cbn [mbind result_bind].
  destruct (push_helper_new ind name value d); [|done]. cbn [mbind result_bind length].
  by rewrite length_app.
Qed.

(** *** Pushing into the table and to the target *)

Lemma add_inserted_front t' e d log :
  m_deque t' = e :: d -> add_inserted (0, t') log = (t', log ++ [LiteralField (entry_name e) (get_value e)]).
Proof.
  intros Hd. unfold add_inserted. change (size_t (HPACK_STATIC_SIZE + 1 + 0)) with 62.
  rewrite table_lookup_dynamic by lia. unfold at_positon, deque_size. by rewrite Hd.
Qed.

Lemma entry_name_with_value field value : entry_name (with_value field value) = entry_name field.
Proof. by destruct field. Qed.
Lemma get_value_with_value field value : get_value (with_value field value) = value.
Proof. by destruct field. Qed.

Lemma push_indexable t room idx field value :
  sync_ok t room -> 1 <= idx -> table_lookup t idx = Some field -> entry_name field <> ""%string ->
  charge (entry_name field) value <= room ->
  exists t', insert_like field (held_by t idx) value t = Ok (0, t') /\
    sync_ok t' (room - charge (entry_name field) value) /\
    forall log, push_helper true idx value (t, log) = Ok (t', log ++ [LiteralField (entry_name field) value]).
Proof.
  intros Hs Hi Hl Hne Hch.
  destruct (insert_like_fits field (held_by t idx) value t room Hs Hne Hch) as (t' & Hins & Hs' & Hd).
  exists t'. split; [done|]. split; [done|]. intros log. unfold push_helper, table_at.
  destruct (Z.eqb_spec idx 0); [lia|]. rewrite Hl. cbn [mbind result_bind]. rewrite Hins.
  cbn [mbind result_bind]. rewrite (add_inserted_front _ _ _ _ Hd).
  by rewrite entry_name_with_value, get_value_with_value.
Qed.

Lemma push_indexable_new t room name value :
  sync_ok t room -> name <> ""%string -> charge name value <= room ->
  exists t', insert hash_string hash_uint32 H_PACK [] name value t = Ok (0, t') /\
    sync_ok t' (room - charge name value) /\
    forall log, push_helper_new true name value (t, log) = Ok (t', log ++ [LiteralField name value]).
Proof.
  intros Hs Hne Hch.
  destruct (insert_like_fits (LiteralField name "") [] value t room Hs Hne Hch) as (t' & Hins & Hs' & Hd).
  exists t'. split; [done|]. split; [done|]. intros log. unfold push_helper_new.
  rewrite decide_False by done. cbn [insert_like] in Hins. rewrite Hins. cbn [mbind result_bind].
  by rewrite (add_inserted_front _ _ _ _ Hd).
Qed.

(** *** Each representation *)

Section Fields.
Context (h : bool) (name value : string).
Context (Hne : name <> ""%string) (Hn : short name) (Hv : short value).

Lemma encode_indexed_writes st idx field :
  frames_ok st -> 1 <= idx < 2 ^ 32 -> table_lookup (m_table st) idx = Some field ->
  entry_name field = name -> get_value field = value ->
  exists st' bs, encode_indexed m_flush_size idx st = Ok st' /\ writes st bs (m_table st) st' /\
    decodes bs (m_table st) (m_table st) name value.
Proof.
  intros Hf Hi Hl Hen Hgv. unfold encode_indexed.
  destruct (encode_int_view_head 32 idx 7 (prefix_code HPACK_INDEXED_FIELD))
    as (b & bs & -> & Hb & Hr & _ & Hd); [lia|lia|unfold is_byte; cbn; lia|done|lia|].
  cbn [mbind result_bind]. destruct (drain_writes (b :: bs) st Hf) as (st' & -> & Hw).
  exists st', (b :: bs). split; [done|]. split; [done|]. split; [cbn; lia|]. split; [done|].
  intros rest log Hrest. exists (LiteralField name value). split; [|done].
  unfold decode_one. pose proof Hb as Hb0. apply Forall_cons in Hb0 as [Hb0 _].
  change ((b :: bs) ++ rest) with (b :: bs ++ rest). rewrite detect_representation by done.
  cbn in Hr. unfold representation. destruct (Z.leb_spec 128 b); [|lia].
  unfold decode_indexed. change (b :: bs ++ rest) with ((b :: bs) ++ rest). rewrite Hd by done.
  cbn [mbind result_bind IntCodec.value consumed fst snd]. destruct (Z.eqb_spec idx 0); [lia|].
  unfold table_at. rewrite Hl. cbn [mbind result_bind]. unfold add_field. by rewrite Hen, Hgv.
Qed.

Lemma encode_incremental_writes st room idx field :
  frames_ok st -> sync_ok (m_table st) room -> charge name value <= room ->
  1 <= idx < 2 ^ 32 -> table_lookup (m_table st) idx = Some field -> entry_name field = name ->
  exists st' bs t', encode_incremental m_flush_size h idx value st = Ok st' /\ writes st bs t' st' /\
    sync_ok t' (room - charge name value) /\ decodes bs (m_table st) t' name value.
Proof.
  intros Hf Hs Hch Hi Hl Hen. unfold encode_incremental.
  destruct (literal_decodes h true 6 (prefix_code HPACK_LITERAL_WITH_INDEXING) idx value)
    as (b & bs & vs & -> & -> & Hbytes & Hr & Hd); [lia|unfold is_byte; cbn; lia|done|lia|done|].
  cbn [mbind result_bind]. destruct (drain_writes ((b :: bs) ++ vs) st Hf) as (st1 & -> & Hw).
  cbn [mbind result_bind]. destruct Hw as (Hf1 & He1 & Ht1). rewrite !Ht1.
  destruct (push_indexable (m_table st) room idx field value) as (t' & Hins & Hs' & Hp);
    [done|lia|done|congruence|by rewrite Hen|].
  unfold table_at. rewrite Hl. cbn [mbind result_bind]. rewrite Hins. cbn [mbind result_bind].
  eexists _, ((b :: bs) ++ vs), t'. split; [done|]. split; [by eapply writes_table|].
  split; [by rewrite Hen in Hs'|]. split; [cbn; lia|]. split; [done|].
  intros rest log Hrest. exists (LiteralField name value). split; [|done].
  pose proof (proj1 (proj1 (Forall_cons _ _ _) Hbytes)) as Hb0.
  unfold decode_one. change (((b :: bs) ++ vs) ++ rest) with (b :: (bs ++ vs) ++ rest).
  rewrite detect_representation by done. cbn in Hr. unfold representation.
  destruct (Z.leb_spec 128 b), (Z.leb_spec 64 b), (Z.eqb_spec b 64); try lia.
  unfold decode_incremental. change (b :: (bs ++ vs) ++ rest) with (((b :: bs) ++ vs) ++ rest).
  rewrite Hd, Hp by done. cbn [mbind result_bind]. by rewrite Hen.
Qed.

Lemma encode_incremental_new_writes st room :
  frames_ok st -> sync_ok (m_table st) room -> charge name value <= room ->
  exists st' bs t', encode_incremental_new m_flush_size h name value st = Ok st' /\ writes st bs t' st' /\
    sync_ok t' (room - charge name value) /\ decodes bs (m_table st) t' name value.
Proof.
  intros Hf Hs Hch. unfold encode_incremental_new.
  destruct (literal_new_decodes h true name value Hn Hv) as (ns & vs & -> & -> & Hbytes & Hd).
  cbn [mbind result_bind].
  destruct (drain_writes ([prefix_code HPACK_LITERAL_WITH_INDEXING] ++ ns ++ vs) st Hf) as (st1 & -> & Hw).
  cbn [mbind result_bind]. pose proof Hw as (_ & _ & ->).
  destruct (push_indexable_new (m_table st) room name value Hs Hne Hch) as (t' & Hins & Hs' & Hp).
  rewrite Hins. cbn [mbind result_bind].
  eexists _, _, t'. split; [done|]. split; [by eapply writes_table|]. split; [done|].
  split; [cbn; lia|]. split; [apply Forall_app; split; [by apply Forall_singleton; unfold is_byte; cbn; lia|done]|].
  intros rest log Hrest. exists (LiteralField name value). split; [|done].
  unfold decode_one. change (detect _) with (HPACK_LITERAL_WITH_INDEXING, true). cbv iota.
  unfold decode_incremental_new. cbn [prefix_code]. change ([0x40] ++ ns ++ vs) with (0x40 :: ns ++ vs).
  by rewrite Hd, Hp.
Qed.

(** The four representations that leave the table alone. *)
Lemma literal_plain_writes p st idx field :
  p = HPACK_LITERAL_NEVER_INDEXED \/ p = HPACK_LITERAL_WITHOUT_INDEXING ->
  frames_ok st -> 1 <= idx < 2 ^ 32 -> table_lookup (m_table st) idx = Some field -> entry_name field = name ->
  exists st' bs, (bs ← encode_int_view 32 idx 4 (prefix_code p); vs ← encode_str h value;
      drain m_flush_size (bs ++ vs) st) = Ok st' /\
    writes st bs (m_table st) st' /\ decodes bs (m_table st) (m_table st) name value.
Proof.
  intros Hp Hf Hi Hl Hen.
  destruct (literal_decodes h false 4 (prefix_code p) idx value)
    as (b & bs & vs & -> & -> & Hbytes & Hr & Hd);
    [lia|destruct Hp as [-> | ->]; unfold is_byte; cbn; lia|by destruct Hp as [-> | ->]|lia|done|].
  cbn [mbind result_bind]. destruct (drain_writes ((b :: bs) ++ vs) st Hf) as (st1 & -> & Hw).
  exists st1, ((b :: bs) ++ vs). split; [done|]. split; [done|].
  split; [cbn; lia|]. split; [done|]. intros rest log Hrest. exists (with_value field value).
  rewrite entry_name_with_value, get_value_with_value. split; [|done].
  pose proof (proj1 (proj1 (Forall_cons _ _ _) Hbytes)) as Hb0. specialize (Hd rest (m_table st, log) Hrest).
  unfold push_helper, table_at in Hd. rewrite Hl in Hd. destruct (Z.eqb_spec idx 0); [lia|].
  cbn [mbind result_bind] in Hd.
  unfold decode_one. change (((b :: bs) ++ vs) ++ rest) with (b :: (bs ++ vs) ++ rest) in *.
  rewrite detect_representation by done. unfold representation.
  destruct Hp as [-> | ->]; cbn in Hr;
    destruct (Z.leb_spec 128 b), (Z.leb_spec 64 b), (Z.leb_spec 32 b), (Z.leb_spec 16 b), (Z.eqb_spec b 16),
      (Z.eqb_spec b 0); try lia; exact Hd.
Qed.

Lemma literal_new_plain_writes p st :
  p = HPACK_LITERAL_NEVER_INDEXED \/ p = HPACK_LITERAL_WITHOUT_INDEXING -> frames_ok st ->
  exists st' bs, (ns ← encode_str h name; vs ← encode_str h value;
      drain m_flush_size ([prefix_code p] ++ ns ++ vs) st) = Ok st' /\
    writes st bs (m_table st) st' /\ decodes bs (m_table st) (m_table st) name value.
Proof.
  intros Hp Hf.
  destruct (literal_new_decodes h false name value Hn Hv) as (ns & vs & -> & -> & Hbytes & Hd).
  cbn [mbind result_bind]. destruct (drain_writes ([prefix_code p] ++ ns ++ vs) st Hf) as (st1 & -> & Hw).
  eexists _, _. split; [done|]. split; [done|]. split; [cbn; lia|].
  split; [apply Forall_app; split; [apply Forall_singleton; destruct Hp as [-> | ->]; unfold is_byte; cbn; lia|done]|].
  intros rest log Hrest. exists (LiteralField name value). split; [|done].
  unfold decode_one. specialize (Hd (prefix_code p) rest (m_table st, log) Hrest).
  unfold push_helper_new in Hd. rewrite decide_False in Hd by done. cbn [mbind result_bind] in Hd.
  by destruct Hp as [-> | ->].
Qed.

End Fields.

(** *** A field under any policy *)

Lemma charge_nonneg name value : 0 <= charge name value.
Proof. unfold charge, ENTRY_OVERHEAD. pose proof (slen_nonneg name). pose proof (slen_nonneg value). lia. Qed.

(** Writing [bs] keeps the two tables in step and spends at most [cost] octets of room. *)
Definition sends (st : Encoder) (room cost : Z) (name value : string) (st' : Encoder) : Prop :=
  exists bs, writes st bs (m_table st') st' /\ sync_ok (m_table st') (room - cost) /\
    decodes bs (m_table st) (m_table st') name value.

Lemma sends_same st room name value st' bs :
  sync_ok (m_table st) room -> writes st bs (m_table st) st' ->
  decodes bs (m_table st) (m_table st) name value -> sends st room (charge name value) name value st'.
Proof.
  intros Hs Hw Hd. pose proof Hw as (Hf & He & Ht). exists bs. rewrite Ht. split; [done|]. split; [|done].
  eapply sync_ok_weaken; [done|]. pose proof (charge_nonneg name value). lia.
Qed.

Lemma sends_new st room name value st' bs t' :
  writes st bs t' st' -> sync_ok t' (room - charge name value) ->
  decodes bs (m_table st) t' name value -> sends st room (charge name value) name value st'.
Proof. intros (Hf & He & Ht) Hs Hd. exists bs. by rewrite Ht. Qed.

Lemma encode_hpack_field_sends h policy name value st room r :
  frames_ok st -> sync_ok (m_table st) room -> charge name value <= room ->
  name <> ""%string -> short name -> short value ->
  table_search name value (m_table st) = Ok r ->
  exists st', encode_hpack_field m_flush_size h name value policy r st = Ok st' /\
    sends st room (charge name value) name value st'.
Proof.
  intros Hf Hs Hch Hne Hn Hv Hr. pose proof (charge_nonneg name value).
  destruct (table_search_sound name value (m_table st) room Hs ltac:(lia))
    as [E | (idx & full & E & Hidx & field & Hl & Hen & Hgv)]; rewrite Hr in E; injection E as ->.
  - unfold encode_hpack_field. change (is_full_match none) with false. change (found none) with false. cbv iota.
    destruct policy.
    + destruct (encode_incremental_new_writes h name value Hne Hn Hv st room Hf Hs Hch)
        as (st' & bs & t' & -> & Hw & Hs' & Hd). eexists. split; [done|]. by eapply sends_new.
    + destruct (literal_new_plain_writes h name value Hne Hn Hv HPACK_LITERAL_WITHOUT_INDEXING st)
        as (st' & bs & Heq & Hw & Hd); [by right|done|].
      exists st'. split; [exact Heq|]. by eapply sends_same.
    + destruct (literal_new_plain_writes h name value Hne Hn Hv HPACK_LITERAL_NEVER_INDEXED st)
        as (st' & bs & Heq & Hw & Hd); [by left|done|].
      exists st'. split; [exact Heq|]. by eapply sends_same.
  - destruct (SearchResult_fields idx true full) as (Hfo & Hix & _ & Hfm); [lia|].
    unfold encode_hpack_field. rewrite Hfo, Hix, Hfm, (wrap_small 32) by lia. destruct policy.
    + destruct full.
      * destruct (encode_indexed_writes name value st idx field)
          as (st' & bs & -> & Hw & Hd); [done|lia|done|done|by apply Hgv|].
        eexists. split; [done|]. by eapply sends_same.
      * destruct (encode_incremental_writes h name value Hne Hv st room idx field)
          as (st' & bs & t' & -> & Hw & Hs' & Hd); [done|done|done|lia|done|done|].
        eexists. split; [done|]. by eapply sends_new.
    + destruct (literal_plain_writes h name value Hv HPACK_LITERAL_WITHOUT_INDEXING st idx field)
        as (st' & bs & Heq & Hw & Hd); [by right|done|lia|done|done|].
      exists st'. split; [exact Heq|]. by eapply sends_same.
    + destruct (literal_plain_writes h name value Hv HPACK_LITERAL_NEVER_INDEXED st idx field)
        as (st' & bs & Heq & Hw & Hd); [by left|done|lia|done|done|].
      exists st'. split; [exact Heq|]. by eapply sends_same.
Qed.

(** *** Lists of fields *)

Inductive decodes_all : list Z -> HPackTable -> HPackTable -> list (string * string) -> Prop :=
  | decodes_nil t : decodes_all [] t t []
  | decodes_cons bs1 bs2 t t1 t2 name value fields :
      decodes bs1 t t1 name value -> decodes_all bs2 t1 t2 fields ->
      decodes_all (bs1 ++ bs2) t t2 ((name, value) :: fields).

Lemma decodes_all_app bs1 bs2 t t1 t2 fs1 fs2 :
  decodes_all bs1 t t1 fs1 -> decodes_all bs2 t1 t2 fs2 -> decodes_all (bs1 ++ bs2) t t2 (fs1 ++ fs2).
Proof.
  induction 1 as [|b1 b2 t ta tb n v fs Hd Hds IH]; [done|]. intros H2. rewrite <- app_assoc. cbn.
  econstructor; [done|]. by apply IH.
Qed.

Lemma decodes_all_bytes bs t t' fs : decodes_all bs t t' fs -> Forall is_byte bs.
Proof. induction 1 as [|????????(_ & Hb & _)]; [constructor|]. by apply Forall_app. Qed.

Lemma decode_turns_done turns data d : decode_turns turns data (length data) d = Ok (length data, d).
Proof. induction turns as [|turns IH]; cbn [decode_turns]; [done|]. by rewrite Nat.leb_refl. Qed.

Lemma decode_turns_all bs t t' fs :
  decodes_all bs t t' fs -> forall turns pre log, (length bs <= turns)%nat ->
  exists es, decode_turns turns (pre ++ bs) (length pre) (t, log) =
      Ok (length (pre ++ bs), (t', log ++ es)) /\
    (fun e => (entry_name e, get_value e)) <$> es = fs.
Proof.
  induction 1 as [t|bs1 bs2 t t1 t2 name value fs (Hpos & Hb & Hd) Hds IH]; intros turns pre log Ht.
  - exists []. rewrite !app_nil_r, decode_turns_done. done.
  - rewrite length_app in Ht. destruct turns as [|turns]; [lia|]. cbn [decode_turns].
    destruct (Nat.leb_spec (length (pre ++ bs1 ++ bs2)) (length pre)) as [Hle|_].
    { rewrite !length_app in Hle. lia. }
    rewrite drop_app_length.
    destruct (Hd bs2 log (decodes_all_bytes _ _ _ _ Hds)) as (e & -> & Hn & Hv). cbn [mbind result_bind].
    rewrite app_assoc, <- length_app.
    destruct (IH turns (pre ++ bs1) (log ++ [e]) ltac:(lia)) as (es & -> & Hes).
    exists (e :: es). rewrite <- (app_assoc log). cbn. split; [done|]. by rewrite Hn, Hv, Hes.
Qed.

(** The headers a list of entries stands for: a cookie is sent crumb by crumb. *)
Definition cookie_crumbs (value : string) : list string :=
  filter (fun crumb => crumb <> ""%string) (split_cookie "" value).

Definition header_fields (e : HeaderEntry) : list (string * string) :=
  match e with
  | StaticField COOKIE value => (fun crumb => ("cookie"%string, crumb)) <$> cookie_crumbs value
  | _ => [(entry_name e, get_value e)]
  end.

Definition sendable (f : string * string) : Prop := f.1 <> ""%string /\ short f.1 /\ short f.2.

Definition total_charge (fs : list (string * string)) : Z :=
  foldr (fun f acc => charge f.1 f.2 + acc) 0 fs.

Lemma total_charge_app fs1 fs2 : total_charge (fs1 ++ fs2) = total_charge fs1 + total_charge fs2.
Proof. unfold total_charge. induction fs1 as [|f fs1 IH]; cbn [foldr app]; lia. Qed.

Lemma total_charge_one name value : total_charge [(name, value)] = charge name value.
Proof. unfold total_charge. cbn [foldr fst snd]. lia. Qed.

Lemma total_charge_nonneg fs : 0 <= total_charge fs.
Proof.
  unfold total_charge. induction fs as [|f fs IH]; cbn [foldr]; [done|].
  pose proof (charge_nonneg f.1 f.2). lia.
Qed.

Definition sends_all (st : Encoder) (room : Z) (fs : list (string * string)) (st' : Encoder) : Prop :=
  exists bs, writes st bs (m_table st') st' /\ sync_ok (m_table st') (room - total_charge fs) /\
    decodes_all bs (m_table st) (m_table st') fs.

Lemma sends_all_nil st room : frames_ok st -> sync_ok (m_table st) room -> sends_all st room [] st.
Proof.
  intros Hf Hs. exists []. split; [|split; [|constructor]].
  - split; [done|]. by rewrite app_nil_r.
  - eapply sync_ok_weaken; [done|]. cbn. lia.
Qed.

Lemma sends_one st room name value st' :
  sends st room (charge name value) name value st' -> sends_all st room [(name, value)] st'.
Proof.
  intros (bs & Hw & Hs & Hd). exists bs. split; [done|]. split.
  - eapply sync_ok_weaken; [done|]. cbn. lia.
  - rewrite <- (app_nil_r bs). econstructor; [done|constructor].
Qed.

Lemma sends_all_trans st st1 st2 room fs1 fs2 :
  sends_all st room fs1 st1 -> sends_all st1 (room - total_charge fs1) fs2 st2 ->
  sends_all st room (fs1 ++ fs2) st2.
Proof.
  intros (bs1 & (Hf1 & He1 & _) & Hs1 & Hd1) (bs2 & (Hf2 & He2 & _) & Hs2 & Hd2).
  exists (bs1 ++ bs2). split; [|split].
  - split; [done|]. by rewrite He2, He1, app_assoc.
  - eapply sync_ok_weaken; [done|]. rewrite total_charge_app. lia.
  - by eapply decodes_all_app.
Qed.

Lemma sends_all_frames st room fs st' : sends_all st room fs st' -> frames_ok st'.
Proof. by intros (bs & (Hf & _) & _). Qed.
Lemma sends_all_sync st room fs st' :
  sends_all st room fs st' -> sync_ok (m_table st') (room - total_charge fs).
Proof. by intros (bs & _ & Hs & _). Qed.

Section Entries.
Context (auto h : bool).

Lemma search_returns name value t room :
  sync_ok t room -> 0 <= room -> exists r, table_search name value t = Ok r.
Proof.
  intros Hs Hr. destruct (table_search_sound name value t room Hs Hr) as [->|(? & ? & -> & _)]; eauto.
Qed.

Lemma encode_field_sends name value st room :
  frames_ok st -> sync_ok (m_table st) room -> sendable (name, value) -> charge name value <= room ->
  exists st', encode_field m_flush_size auto h name value st = Ok st' /\
    sends_all st room [(name, value)] st'.
Proof.
  intros Hf Hs (Hne & Hn & Hv) Hch. pose proof (charge_nonneg name value).
  destruct (search_returns name value (m_table st) room Hs ltac:(lia)) as [r Hr].
  unfold encode_field. rewrite Hr. cbn [mbind result_bind].
  destruct (encode_hpack_field_sends h (if auto then policy_for name else WITH_INDEXING) name value st room r)
    as (st' & Heq & Hsend); try done.
  exists st'. split; [exact Heq|]. by apply sends_one.
Qed.

Lemma encode_crumbs_sends crumbs st room :
  let fs := (fun crumb => ("cookie"%string, crumb)) <$> filter (fun crumb => crumb <> ""%string) crumbs in
  frames_ok st -> sync_ok (m_table st) room -> Forall sendable fs -> total_charge fs <= room ->
  exists st', encode_crumbs m_flush_size h crumbs st = Ok st' /\ sends_all st room fs st'.
Proof.
  revert st room. induction crumbs as [|crumb crumbs IH]; intros st room fs Hf Hs Hsend Hch; cbn [encode_crumbs].
  { exists st. split; [done|]. by apply sends_all_nil. }
  unfold fs in *. clear fs. destruct (decide (crumb = ""%string)) as [->|Hne].
  { rewrite filter_cons_False in * by (intros Hx; by apply Hx). by apply IH. }
  rewrite filter_cons_True in * by done. rewrite fmap_cons in *.
  apply Forall_cons in Hsend as [(Hn0 & Hn & Hv) Hsend].
  set (fs := (fun crumb => ("cookie"%string, crumb)) <$> filter (fun crumb => crumb <> ""%string) crumbs) in *.
  change (("cookie"%string, crumb) :: fs) with ([("cookie"%string, crumb)] ++ fs) in *.
  rewrite total_charge_app, total_charge_one in Hch.
  pose proof (total_charge_nonneg fs). pose proof (charge_nonneg "cookie" crumb).
  destruct (search_returns "cookie" crumb (m_table st) room Hs ltac:(lia)) as [r Hr].
  rewrite Hr. cbn [mbind result_bind].
  destruct (encode_hpack_field_sends h WITH_INDEXING "cookie" crumb st room r)
    as (st1 & -> & H1%sends_one); [done|done|lia|done..|].
  cbn [mbind result_bind].
  destruct (IH st1 (room - total_charge [("cookie"%string, crumb)])) as (st2 & -> & H2).
  - by eapply sends_all_frames.
  - by eapply sends_all_sync.
  - done.
  - rewrite total_charge_one. fold fs. lia.
  - exists st2. split; [done|]. by eapply sends_all_trans.
Qed.

Lemma encode_entry_sends e st room :
  frames_ok st -> sync_ok (m_table st) room -> Forall sendable (header_fields e) ->
  total_charge (header_fields e) <= room ->
  exists st', encode_entry m_flush_size auto h e st = Ok st' /\ sends_all st room (header_fields e) st'.
Proof.
  intros Hf Hs Hsend Hch.
  assert (forall name value, header_fields e = [(name, value)] ->
    exists st', encode_field m_flush_size auto h name value st = Ok st' /\ sends_all st room [(name, value)] st')
    as Hplain.
  { intros name value Heq. rewrite Heq in *. rewrite Forall_singleton in Hsend.
    apply encode_field_sends; try done.
    by rewrite total_charge_one in Hch. }
  destruct e as [token value|name value]; [|by apply Hplain].
  destruct (decide (token = COOKIE)) as [->|Hc]; [by apply encode_crumbs_sends|].
  assert (header_fields (StaticField token value) = [(token_to_string token, value)]) as Heq by by destruct token.
  rewrite Heq. destruct (Hplain _ _ Heq) as (st' & He & Hsnd). exists st'. split; [|done].
  rewrite <- He. by destruct token.
Qed.

Lemma encode_entries_sends headers st room :
  frames_ok st -> sync_ok (m_table st) room -> Forall sendable (headers ≫= header_fields) ->
  total_charge (headers ≫= header_fields) <= room ->
  exists st', encode_entries m_flush_size auto h headers st = Ok st' /\
    sends_all st room (headers ≫= header_fields) st'.
Proof.
  revert st room. induction headers as [|e headers IH]; intros st room Hf Hs Hsend Hch; cbn [encode_entries].
  { exists st. split; [done|]. by apply sends_all_nil. }
  rewrite bind_cons in *. apply Forall_app in Hsend as [Hs1 Hs2]. rewrite total_charge_app in Hch.
  pose proof (total_charge_nonneg (headers ≫= header_fields)).
  destruct (encode_entry_sends e st room Hf Hs Hs1 ltac:(lia)) as (st1 & -> & H1). cbn [mbind result_bind].
  destruct (IH st1 (room - total_charge (header_fields e))) as (st2 & He2 & H2).
  - by eapply sends_all_frames.
  - by eapply sends_all_sync.
  - done.
  - lia.
  - exists st2. split; [exact He2|]. by eapply sends_all_trans.
Qed.

Lemma encode_decode t headers room log :
  sync_ok t room -> Forall sendable (headers ≫= header_fields) ->
  total_charge (headers ≫= header_fields) <= room ->
  exists enc, hpack_encode m_flush_size auto h t headers = Ok enc /\
    (exists frames last, flushed enc = frames ++ [(last, END_)] /\ (length last < m_flush_size)%nat /\
       Forall (fun c : list Z * HpackFlushReason => c.2 = OVERFLOW /\ length c.1 = m_flush_size) frames) /\
    let wire := concat (fst <$> flushed enc) in
    exists received, hpack_decode wire (t, log) = Ok (length wire, (m_table enc, log ++ received)) /\
      (fun e => (entry_name e, get_value e)) <$> received = headers ≫= header_fields /\
      sync_ok (m_table enc) (room - total_charge (headers ≫= header_fields)).
Proof.
  intros Hs Hsend Hch.
  destruct (encode_entries_sends headers (mkEncoder t [] []) room) as (st & Heq & bs & (Hf & He & _) & Hs' & Hd);
    try done; [split; cbn; [lia|constructor]|].
  unfold hpack_encode. rewrite Heq. cbn [mbind result_bind]. eexists. split; [done|].
  destruct Hf as [Hb Hc]. split; [by eexists _, _|]. cbn [flushed m_table].
  assert (concat (fst <$> (flushed st ++ [(m_buf st, END_)])) = bs) as ->.
  { rewrite fmap_app, concat_app. cbn. rewrite app_nil_r. exact He. }
  destruct (decode_turns_all bs _ _ _ Hd (length bs) [] log ltac:(lia)) as (es & Hdec & Hes).
  exists es. split; [exact Hdec|]. split; [exact Hes|exact Hs'].
Qed.

(** What is flushed are octets. *)
Lemma encode_bytes t headers room enc :
  sync_ok t room -> Forall sendable (headers ≫= header_fields) ->
  total_charge (headers ≫= header_fields) <= room ->
  hpack_encode m_flush_size auto h t headers = Ok enc -> Forall is_byte (concat (fst <$> flushed enc)).
Proof.
  intros Hs Hsend Hch.
  destruct (encode_entries_sends headers (mkEncoder t [] []) room) as (st & Heq & bs & (Hf & He & _) & _ & Hd);
    try done; [split; cbn; [lia|constructor]|].
  unfold hpack_encode. rewrite Heq. cbn [mbind result_bind]. intros [= <-]. cbn [flushed].
  rewrite fmap_app, concat_app. cbn. rewrite app_nil_r. change (Forall is_byte (emitted st)). rewrite He.
  by eapply decodes_all_bytes.
Qed.

End Entries.

End Wire.

(** ** The decoder consumes its input *)

Lemma DecodeString_step data s n :
  Forall is_byte data -> DecodeStringAdaptor data = Ok (s, n) -> (1 <= n <= length data)%nat.
Proof. intros Hb Hd. by apply DecodeStringAdaptor_bounds in Hd as [? _]. Qed.

Lemma DecodeInt_step N data r :
  Forall is_byte data -> DecodeIntAdaptor 32 0 N data = Ok r -> (1 <= consumed r <= length data)%nat.
Proof.
  intros Hb Hd. apply DecodeIntAdaptor_sound in Hd as (v & Hv & _ & Hc); [|lia|done].
  apply rfc_decode_consumed in Hv. lia.
Qed.

Lemma decode_literal_step ind N slice d n d' :
  Forall is_byte slice -> decode_literal ind N slice d = Ok (n, d') -> (1 <= n <= length slice)%nat.
Proof.
  intros Hb (IDX & Hi & ([v k] & Hs & (d1 & _ & [= <- <-])%result_bind_Ok)%result_bind_Ok)%result_bind_Ok.
  apply DecodeInt_step in Hi; [|done]. apply DecodeString_step in Hs; [|by apply Forall_drop].
  rewrite length_drop in Hs. lia.
Qed.

Lemma decode_literal_new_step ind slice d n d' :
  Forall is_byte slice -> decode_literal_new ind slice d = Ok (n, d') -> (1 <= n <= length slice)%nat.
Proof.
  intros Hb ([nm k1] & Hn & ([v k2] & Hs & (d1 & _ & [= <- <-])%result_bind_Ok)%result_bind_Ok)%result_bind_Ok.
  apply DecodeString_step in Hn; [|by apply Forall_drop]. apply DecodeString_step in Hs; [|by apply Forall_drop].
  rewrite length_drop in *. lia.
Qed.

Lemma decode_one_step slice d n d' :
  Forall is_byte slice -> decode_one slice d = Ok (n, d') -> (1 <= n <= length slice)%nat.
Proof.
  intros Hb. unfold decode_one. destruct (detect slice) as [[] is_new].
  - intros (IDX & Hi & Hr)%result_bind_Ok. case_match; [done|].
    apply result_bind_Ok in Hr as (f & _ & [= <- <-]). by eapply DecodeInt_step.
  - destruct is_new; [apply decode_literal_new_step|apply decode_literal_step]; done.
  - intros (NEW & Hi & Hr)%result_bind_Ok. case_match; [done|].
    apply result_bind_Ok in Hr as (t & _ & [= <- <-]). by eapply DecodeInt_step.
  - destruct is_new; [apply decode_literal_new_step|apply decode_literal_step]; done.
  - destruct is_new; [apply decode_literal_new_step|apply decode_literal_step]; done.
Qed.

Lemma decode_turns_consumes turns data offset d n d' :
  Forall is_byte data -> (offset <= length data <= turns + offset)%nat ->
  decode_turns turns data offset d = Ok (n, d') -> n = length data.
Proof.
  intros Hb. revert offset d. induction turns as [|turns IH]; intros offset d Ho; cbn [decode_turns].
  { intros [= <- _]. lia. }
  destruct (Nat.leb_spec (length data) offset) as [Hge|Hlt].
  { apply IH. lia. }
  intros ([k d1] & H1 & H2)%result_bind_Ok. apply decode_one_step in H1; [|by apply Forall_drop].
  rewrite length_drop in H1. apply IH in H2; [done|lia].
Qed.

(** A drain and the literal representations leave the table alone. *)
Lemma drain_table fs bs st st' : drain fs bs st = Ok st' -> m_table st' = m_table st.
Proof.
  revert st. induction bs as [|b bs IH]; intros st; cbn [drain]; [by intros [= ->]|].
  intros (st1 & He & ->%IH)%result_bind_Ok. unfold emit in He. repeat case_match; by simplify_eq.
Qed.

(** ** Properties *)

(** C25: HPACK round trip.  Two ends whose tables are in step and have room: encoding any list
    of headers succeeds, whatever the frame size and policy; the output is cut into full
    frames and a last shorter one; decoding the concatenated frames succeeds, consumes every
    octet, delivers the same headers in the same order (a cookie crumb by crumb) and
    leaves the decoder with exactly the encoder's table, in step for the next block. *)
Theorem hpack_round_trip (flush_size : nat) (auto huffman : bool) t headers room log :
  (0 < flush_size <= BUF_CAPACITY)%nat ->
  sync_ok t room -> Forall sendable (headers ≫= header_fields) ->
  total_charge (headers ≫= header_fields) <= room ->
  exists enc, hpack_encode flush_size auto huffman t headers = Ok enc /\
    (exists frames last, flushed enc = frames ++ [(last, END_)] /\ (length last < flush_size)%nat /\
       Forall (fun c : list Z * HpackFlushReason => c.2 = OVERFLOW /\ length c.1 = flush_size) frames) /\
    let wire := concat (fst <$> flushed enc) in
    exists received, hpack_decode wire (t, log) = Ok (length wire, (m_table enc, log ++ received)) /\
      (fun e => (entry_name e, get_value e)) <$> received = headers ≫= header_fields /\
      sync_ok (m_table enc) (room - total_charge (headers ≫= header_fields)).
Proof. intros Hf. by apply encode_decode. Qed.

(** a size update keeps both ends in step: what the encoder emits makes a decoder with
    the same table perform the same eviction. *)
Theorem table_size_update_round_trip size t bs t' log :
  0 <= size < 2 ^ 32 -> size <= m_max_size t ->
  encode_table_size_update size t = Ok (bs, t') ->
  hpack_decode bs (t, log) = Ok (length bs, (t', log)).
Proof.
  intros Hsz Hle (t1 & Ht & (bs1 & He & [= <- <-])%result_bind_Ok)%result_bind_Ok.
  destruct (encode_int_view_head 32 size 5 (prefix_code HPACK_DYNAMIC_TABLE_SIZE_UPDATE))
    as (b & l & He' & Hb & Hr & _ & Hd); [lia|lia|unfold is_byte; cbn; lia|done|lia|].
  rewrite He in He'. injection He' as ->. specialize (Hd 0%nat [] (Forall_nil_2 _)). rewrite app_nil_r in Hd.
  unfold hpack_decode. cbn [length decode_turns Nat.leb drop]. cbn in Hr.
  pose proof (proj1 (proj1 (Forall_cons _ _ _) Hb)) as Hb0. unfold decode_one.
  rewrite detect_representation by done. unfold representation.
  destruct (Z.leb_spec 128 b), (Z.leb_spec 64 b), (Z.leb_spec 32 b); try lia.
  unfold decode_table_size_update. rewrite Hd. cbn [mbind result_bind IntCodec.value consumed fst snd].
  destruct (Z.ltb_spec (m_max_size t) size); [lia|]. rewrite Ht. cbn [mbind result_bind].
  by rewrite (decode_turns_done (length l) (b :: l)).
Qed.

(** a block the decoder accepts is consumed to its last octet: every representation
    takes at least one octet and never reads past the end. *)
Theorem hpack_decode_consumes data d n d' :
  Forall is_byte data -> hpack_decode data d = Ok (n, d') -> n = length data.
Proof. intros Hb. apply decode_turns_consumes; [done|lia]. Qed.

(** under the automatic policy the headers that carry credentials never enter the
    dynamic table, whatever the table holds. *)
Theorem sensitive_not_indexed flush_size huffman name value st st' :
  name ∈ NEVER_INDEXED_NAMES ->
  encode_field flush_size true huffman name value st = Ok st' -> m_table st' = m_table st.
Proof.
  intros Hin (r & _ & He)%result_bind_Ok.
  assert (policy_for name = NEVER_INDEXED) as Hp.
  { repeat (apply elem_of_cons in Hin as [->|Hin]; [reflexivity|]). by apply elem_of_nil in Hin. }
  rewrite Hp in He. unfold encode_hpack_field in He. destruct (found r).
  - apply result_bind_Ok in He as (bs & _ & (vs & _ & He)%result_bind_Ok). by eapply drain_table.
  - apply result_bind_Ok in He as (bs & _ & (vs & _ & He)%result_bind_Ok). by eapply drain_table.
Qed.

End Hpack.

(** the representation of a field is decided by the leading one bit of its first octet, as
    RFC 7541 section 6 lays it out, and the name is literal exactly when the index is zero. *)
Theorem detect_partition (b : Z) (bs : list Z) :
  is_byte b -> detect (b :: bs) = representation b.
Proof. apply detect_representation. Qed.

Lemma detect_partition_witness : detect [0x40; 1; 2] = (HPACK_LITERAL_WITH_INDEXING, true).
Proof. rewrite (detect_partition 0x40 [1; 2]); [reflexivity|unfold is_byte; lia]. Defined.

Definition demo_headers : list HeaderEntry :=
  [StaticField METHOD "GET"; LiteralField "x-a" "1"; LiteralField "x-a" "1"; LiteralField "x-a" "2";
   StaticField COOKIE "a=b; c=d"; LiteralField "authorization" "secret"].

Lemma hpack_round_trip_witness :
  exists enc, hpack_encode fnv1a id_hash 8 true true (make_table 4096) demo_headers = Ok enc /\
    exists received, hpack_decode fnv1a id_hash (concat (fst <$> flushed enc)) (make_table 4096, []) =
        Ok (length (concat (fst <$> flushed enc)), (m_table enc, received)) /\
      (fun e => (entry_name e, get_value e)) <$> received =
        [(":method", "GET"); ("x-a", "1"); ("x-a", "1"); ("x-a", "2"); ("cookie", "a=b"); ("cookie", "c=d");
         ("authorization", "secret")]%string.
Proof.
  destruct (hpack_round_trip fnv1a id_hash 8 true true (make_table 4096) demo_headers 4096 [])
    as (enc & He & _ & rec & Hd & Hr & _).
  - vm_compute. lia.
  - apply make_table_sync. lia.
  - repeat (apply Forall_cons_2; [split; [done|split; vm_compute; done]|]). apply Forall_nil_2.
  - vm_compute. done.
  - exists enc. split; [exact He|]. exists rec. split; [exact Hd|]. rewrite Hr. reflexivity.
Defined.

Lemma table_size_update_round_trip_witness :
  exists t bs t', demo_table 100 [("a"%string, "1"%string); ("b"%string, "2"%string)] = Ok t /\
    encode_table_size_update fnv1a 40 t = Ok (bs, t') /\
    hpack_decode fnv1a id_hash bs (t, []) = Ok (length bs, (t', [])).
Proof.
  eexists _, _, _. split; [vm_compute; reflexivity|]. split; [vm_compute; reflexivity|].
  apply (table_size_update_round_trip fnv1a id_hash 40); [lia|vm_compute; done|vm_compute; reflexivity].
Defined.

Lemma hpack_decode_consumes_witness :
  match hpack_decode fnv1a id_hash [0x82; 0x40; 1; 97; 1; 98] (make_table 4096, []) with
  | Ok (n, _) => n = length [0x82; 0x40; 1; 97; 1; 98]
  | Err _ => False
  end.
Proof.
  assert (match hpack_decode fnv1a id_hash [0x82; 0x40; 1; 97; 1; 98] (make_table 4096, []) with
          | Ok _ => true | Err _ => false end = true) as Hok by (vm_compute; reflexivity).
  destruct (hpack_decode _ _ _ _) as [[n d]|] eqn:E; [|discriminate Hok].
  refine (hpack_decode_consumes fnv1a id_hash _ _ _ _ _ E). solve_bytes.
Defined.

Lemma sensitive_not_indexed_witness :
  exists st', encode_field fnv1a id_hash 8 true true "authorization" "secret" (mkEncoder (make_table 4096) [] []) = Ok st' /\
    m_table st' = make_table 4096.
Proof.
  eexists. split; [vm_compute; reflexivity|].
  apply (sensitive_not_indexed fnv1a id_hash 8 true "authorization" "secret" (mkEncoder (make_table 4096) [] []));
    [by apply elem_of_cons; left|vm_compute; reflexivity].
Defined.

(** ** What the decoder does not do *)

(** a field sent with incremental indexing that is larger than the table is, in RFC 7541,
    a header that empties the table; here the header itself is lost. *)
Theorem oversize_header_dropped :
  exists t, hpack_decode fnv1a id_hash [0x40; 1; 97; 1; 98] (make_table 10, []) = Ok (5%nat, (t, [])).
Proof. eexists. vm_compute. reflexivity. Qed.

(** the limit a size update is checked against is the current size, not the negotiated
    one: after a reduction to 0 the table cannot be enlarged again. *)
Theorem size_update_only_shrinks :
  hpack_decode fnv1a id_hash [0x20; 0x3F; 0xE1; 0x1F] (make_table 4096, []) = Err TableSizeError /\
  DecodeIntAdaptor 32 0 5 [0x3F; 0xE1; 0x1F] = Ok (mkDecodeIntResult 4096 0 3).
Proof. split; vm_compute; reflexivity. Qed.
