(* ===== verification/Buffering.v ===== *)
(** * Byte buffers between the socket and the protocol

    Models src/include/utils/buffering: [BufferNode] (node.cppm), [NodeReader] and
    [BufferReader] (reader.cppm), [BufferView] (view.cppm), [BufferWriter] (writter.cppm), and the
    read of src/include/io/flow/receiver/sync.cppm that feeds them.

    Nodes are shared: a reader, its views and the writer's tail point to the same storage, so they
    live in a [Heap] and are named by their index.  [m_data] is the part of a node's storage that
    has been stored to; a byte outside of it is uninitialised or out of bounds, and reading it is
    undefined behaviour.  Reference counts, which only decide when a node is freed, are left out,
    as is the single-threaded use of the atomics.

    [Queue] is what the protocol relies on: a queue of bytes with a separate count.  The theorem
    [reader_refines_queue] shows that chains of filled nodes implement it. *)

From Stdlib Require Import ZArith Lia.
From stdpp Require Import base list.
From S2P Require Import Prelude.

Open Scope Z_scope.

(** ** Nodes *)

Record BufferNode := mkNode {
  m_data : list Z;
  m_limit : nat;
  m_written : nat;
}.

Abbreviation Heap := (list BufferNode).

Definition written (h : Heap) (id : nat) : nat :=
  match h !! id with Some n => m_written n | None => O end.

(** [operator[]]. *)
Definition byte_at (h : Heap) (id i : nat) : option Z := n ← h !! id; m_data n !! i.

(** [BufferNode{vector}]: storage, limit and write mark are those of the vector. *)
Definition node_of (bs : list Z) : BufferNode := mkNode bs (length bs) (length bs).

#[local] Arguments node_of : simpl never.

(** ** The queue of bytes *)

Module Queue.

(** [size] is kept apart from the bytes: [grow_view] moves bytes without counting them. *)
Record Reader := mkReader { chain : list Z; size : Z }.

Definition empty_reader : Reader := mkReader [] 0.

Definition is_empty (r : Reader) : bool := size r =? 0.

(** [reader | take(n)]: a sized view, so [min n size] elements are visited, whatever is there. *)
Definition take_view (n : nat) (r : Reader) : result (list Z) :=
  let k := Z.to_nat (Z.min (Z.of_nat n) (size r)) in
  if (k <=? length (chain r))%nat then Ok (take k (chain r)) else Err UndefinedBehaviour.

(** Iterating to the end sentinel. *)
Definition all_view (r : Reader) : result (list Z) := Ok (chain r).

Definition consume (n : nat) (r : Reader) : Reader :=
  mkReader (drop n (chain r)) (size_t (size r - Z.of_nat n)).

Definition grow_view (n : nat) (r : Reader) : list Z * Reader :=
  (take n (chain r), mkReader (drop n (chain r)) (size r)).

Definition push_back (bs : list Z) (r : Reader) : Reader :=
  mkReader (chain r ++ bs) (size_t (size r + Z.of_nat (length bs))).

(** The count agrees with the bytes. *)
Definition exact (r : Reader) : Prop :=
  size r = Z.of_nat (length (chain r)) /\ Z.of_nat (length (chain r)) < 2 ^ 64.

Definition of_bytes (bs : list Z) : Reader := mkReader bs (Z.of_nat (length bs)).

Lemma consume_exact n r : exact r -> (n <= length (chain r))%nat -> exact (consume n r).
Proof.
  intros [Hs Hb] Hn. unfold exact, consume. cbn. rewrite length_drop, wrap_small; lia.
Qed.

Lemma push_exact bs r :
  exact r -> Z.of_nat (length (chain r) + length bs) < 2 ^ 64 -> exact (push_back bs r).
Proof.
  intros [Hs Hb] Hn. unfold exact, push_back. cbn. rewrite length_app, wrap_small; lia.
Qed.

Lemma exact_of_bytes bs : Z.of_nat (length bs) < 2 ^ 64 -> exact (of_bytes bs).
Proof. done. Qed.

Lemma take_view_exact n r : exact r -> take_view n r = Ok (take n (chain r)).
Proof.
  intros [Hs Hb]. unfold take_view. rewrite Hs.
  replace (Z.to_nat (Z.min (Z.of_nat n) (Z.of_nat (length (chain r))))) with (n `min` length (chain r))%nat
    by lia.
  replace (n `min` length (chain r) <=? length (chain r))%nat with true
    by (symmetry; apply Nat.leb_le; lia).
  by rewrite <- take_take, firstn_all.
Qed.

End Queue.

(** ** [BufferReader] *)

Record BufferReader := mkBufferReader {
  m_nodes : list nat;
  m_offset : nat;
  m_size : Z;
}.

Definition new_reader : BufferReader := mkBufferReader [] 0 0.

(** The bytes an [Iterator] meets on its way to the end sentinel: it moves to the next node after
    the increment, so each node is read at least once. *)
Fixpoint iter_bytes (h : Heap) (nodes : list nat) (offset : nat) : list (option Z) :=
  match nodes with
  | [] => []
  | id :: rest =>
      (byte_at h id <$> seq offset (Nat.max 1 (written h id - offset))) ++ iter_bytes h rest 0
  end.

(** Dereferencing each position, in order. *)
Definition deref_all (bs : list (option Z)) : result (list Z) :=
  match mapM id bs with Some bs => Ok bs | None => Err UndefinedBehaviour end.

Definition begin_bytes (h : Heap) (r : BufferReader) : list (option Z) :=
  iter_bytes h (m_nodes r) (m_offset r).

Definition reader_all (h : Heap) (r : BufferReader) : result (list Z) := deref_all (begin_bytes h r).

(** [take_view] of a sized, forward-only range counts down from [min n size] and never looks at
    the sentinel: past the end it dereferences a null node. *)
Definition reader_take (h : Heap) (n : nat) (r : BufferReader) : result (list Z) :=
  let k := Z.to_nat (Z.min (Z.of_nat n) (m_size r)) in
  let bs := begin_bytes h r in
  if (k <=? length bs)%nat then deref_all (take k bs) else Err UndefinedBehaviour.

(** The loop of [consume]; the first component is the chain left, the second its offset. *)
Fixpoint consume_loop (h : Heap) (nodes : list nat) (offset bytes : nat) : list nat * nat :=
  match nodes with
  | [] => ([], offset)
  | id :: rest =>
      if (bytes =? 0)%nat then (nodes, offset)
      else
        let available := (written h id - offset)%nat in
        if (bytes <? available)%nat then (nodes, (offset + bytes)%nat)
        else consume_loop h rest 0 (bytes - available)
  end.

Definition consume (h : Heap) (bytes : nat) (r : BufferReader) : BufferReader :=
  let '(nodes, offset) := consume_loop h (m_nodes r) (m_offset r) bytes in
  mkBufferReader nodes offset (size_t (m_size r - Z.of_nat bytes)).

(** [expand]. *)
Definition expand (bytes : nat) (r : BufferReader) : BufferReader :=
  mkBufferReader (m_nodes r) (m_offset r) (size_t (m_size r + Z.of_nat bytes)).

(** [push_back] of a node pointer: the node is new in the heap. *)
Definition push_back (node : BufferNode) (h : Heap) (r : BufferReader) : Heap * BufferReader :=
  (h ++ [node],
   mkBufferReader (m_nodes r ++ [length h]) (m_offset r) (size_t (m_size r + Z.of_nat (m_written node)))).

(** [splice]: [None] is the failed assertion. *)
Definition splice (other r : BufferReader) : option (BufferReader * BufferReader) :=
  match m_nodes other with
  | [] => Some (other, r)
  | _ =>
      let emptied := mkBufferReader [] 0 0 in
      let size := size_t (m_size r + m_size other) in
      match m_nodes r with
      | [] => Some (emptied, mkBufferReader (m_nodes other) (m_offset other) size)
      | _ =>
          if (m_offset other =? 0)%nat
          then Some (emptied, mkBufferReader (m_nodes r ++ m_nodes other) (m_offset r) size)
          else None
      end
  end.

(** ** [BufferView]: slices of nodes *)

Record NodeView := mkNodeView { v_node : nat; v_start : nat; v_length : nat }.

Record BufferView := mkBufferView { v_slices : list NodeView; v_size : Z }.

Definition new_view : BufferView := mkBufferView [] 0.

Definition view_push_back (s : NodeView) (v : BufferView) : BufferView :=
  mkBufferView (v_slices v ++ [s]) (size_t (v_size v + Z.of_nat (v_length s))).

Definition slice_bytes (h : Heap) (s : NodeView) : list (option Z) :=
  byte_at h (v_node s) <$> seq (v_start s) (Nat.max 1 (v_length s)).

Definition view_all (h : Heap) (v : BufferView) : result (list Z) :=
  deref_all (concat (slice_bytes h <$> v_slices v)).

(** The loop of [grow_view]: the slices handed to the view, the chain left and its offset. *)
Fixpoint grow_loop (h : Heap) (nodes : list nat) (offset length : nat) : list NodeView * (list nat * nat) :=
  match nodes with
  | [] => ([], ([], offset))
  | id :: rest =>
      if (length =? 0)%nat then ([], (nodes, offset))
      else
        let available := (written h id - offset)%nat in
        let to_take := Nat.min available length in
        let slice := mkNodeView id offset to_take in
        if (to_take <? available)%nat then ([slice], (nodes, (offset + to_take)%nat))
        else
          let '(slices, unread) := grow_loop h rest 0 (length - to_take) in
          (slice :: slices, unread)
  end.

(** [grow_view]: [m_size] of the reader is not touched. *)
Definition grow_view (h : Heap) (v : BufferView) (length : nat) (r : BufferReader) : BufferView * BufferReader :=
  let '(slices, (nodes, offset)) := grow_loop h (m_nodes r) (m_offset r) length in
  (foldl (fun v s => view_push_back s v) v slices, mkBufferReader nodes offset (m_size r)).

(** ** [BufferWriter] and a read of the synchronous receiver *)

Record BufferWriter := mkBufferWriter {
  m_min_size : nat;
  m_max_size : nat;
  m_current_size : nat;
  m_view : BufferReader;
}.

Definition new_writer (min_size max_size : nat) : BufferWriter :=
  mkBufferWriter min_size max_size min_size new_reader.

Definition clamp (v lo hi : nat) : nat := if (v <? lo)%nat then lo else if (hi <? v)%nat then hi else v.

Definition set_view (r : BufferReader) (w : BufferWriter) : BufferWriter :=
  mkBufferWriter (m_min_size w) (m_max_size w) (m_current_size w) r.

(** [get_remaining() == 0] of the tail, in [size_t]. *)
Definition is_full (h : Heap) (id : nat) : bool :=
  match h !! id with Some n => (m_limit n =? m_written n)%nat | None => true end.

(** [acquire]: the slot handed out, which is the tail whenever the tail is not full. *)
Definition acquire (h : Heap) (w : BufferWriter) : nat * (Heap * BufferWriter) :=
  let fresh :=
    let '(h', r) := push_back (mkNode [] (m_current_size w) 0) h (m_view w) in
    (length h, (h', set_view r w)) in
  match last (m_nodes (m_view w)) with
  | None => fresh
  | Some tail => if is_full h tail then fresh else (tail, (h, w))
  end.

(** [recv(slot->get_data(), ...)]: the transport stores at the start of the node's storage. *)
Definition recv_into (id : nat) (bs : list Z) (h : Heap) : Heap :=
  alter (fun n => mkNode (bs ++ drop (length bs) (m_data n)) (m_limit n) (m_written n)) id h.

Definition expand_written (id bytes : nat) (h : Heap) : Heap :=
  alter (fun n => mkNode (m_data n) (m_limit n) (m_written n + bytes)%nat) id h.

Definition notify_read (id bytes_read : nat) (h : Heap) (w : BufferWriter) : Heap * BufferWriter :=
  (expand_written id bytes_read h,
   mkBufferWriter (m_min_size w) (m_max_size w)
     (if (bytes_read =? m_current_size w)%nat
      then clamp (m_current_size w * 2) (m_min_size w) (m_max_size w)
      else clamp bytes_read (m_min_size w) (m_max_size w))
     (expand bytes_read (m_view w))).

(** [arm_read] of the synchronous receiver, up to the call of [m_on_read]: [None] is a read that
    would have blocked, [Some bs] one that delivered [bs]. *)
Definition arm_read (bs : option (list Z)) (h : Heap) (w : BufferWriter) : Heap * BufferWriter :=
  let '(slot, (h, w)) := acquire h w in
  match bs with
  | None => (h, w)
  | Some bs => notify_read slot (length bs) (recv_into slot bs h) w
  end.

(** ** Lemmas: chains of filled nodes *)

Definition node_ok (h : Heap) (id : nat) : Prop :=
  exists n, h !! id = Some n /\ (0 < m_written n <= length (m_data n))%nat.

Definition node_bytes (h : Heap) (id : nat) : list Z :=
  match h !! id with Some n => take (m_written n) (m_data n) | None => [] end.

Definition chain_bytes (h : Heap) (nodes : list nat) (offset : nat) : list Z :=
  drop offset (concat (node_bytes h <$> nodes)).

Definition offset_ok (h : Heap) (nodes : list nat) (offset : nat) : Prop :=
  match nodes with [] => offset = O | id :: _ => (offset < written h id)%nat end.

Lemma length_node_bytes h id : node_ok h id -> length (node_bytes h id) = written h id.
Proof. intros (n & Hn & Hw). unfold node_bytes, written. rewrite Hn, length_take. lia. Qed.

Lemma node_ok_written h id : node_ok h id -> (0 < written h id)%nat.
Proof. intros (n & Hn & Hw). unfold written. rewrite Hn. lia. Qed.

Lemma offset_ok_0 h nodes : Forall (node_ok h) nodes -> offset_ok h nodes 0.
Proof. destruct nodes; [done|]. rewrite Forall_cons. intros [H _]. by apply node_ok_written. Qed.

Lemma byte_at_node h id i : node_ok h id -> (i < written h id)%nat -> byte_at h id i = node_bytes h id !! i.
Proof.
  intros (n & Hn & Hw) Hi. unfold byte_at, node_bytes, written in *. rewrite Hn in *. cbn.
  by rewrite lookup_take_lt.
Qed.

Lemma deref_all_Some bs : deref_all (Some <$> bs) = Ok bs.
Proof.
  unfold deref_all. replace (mapM id (Some <$> bs)) with (Some bs); [done|].
  induction bs as [|b bs IH]; [done|]. cbn. by rewrite <- IH.
Qed.

Lemma bytes_from_node h id start len :
  node_ok h id -> (start + len <= written h id)%nat ->
  byte_at h id <$> seq start len = Some <$> take len (drop start (node_bytes h id)).
Proof.
  intros Hok Hl. pose proof (length_node_bytes h id Hok) as Hlen. apply list_eq. intros i.
  rewrite !list_lookup_fmap. destruct (decide (i < len)%nat) as [Hi|Hi].
  - rewrite lookup_seq_lt, lookup_take_lt, lookup_drop by done. cbn.
    rewrite byte_at_node by (done || lia).
    destruct (node_bytes h id !! (start + i)%nat) eqn:E; [done|].
    apply lookup_ge_None in E. lia.
  - rewrite lookup_seq_ge, lookup_take_ge by lia. done.
Qed.

Lemma chain_bytes_cons h id rest offset :
  (offset <= length (node_bytes h id))%nat ->
  chain_bytes h (id :: rest) offset = drop offset (node_bytes h id) ++ chain_bytes h rest 0.
Proof. intros H. unfold chain_bytes. cbn. by rewrite drop_app_le. Qed.

Lemma iter_bytes_chain h nodes offset :
  Forall (node_ok h) nodes -> offset_ok h nodes offset ->
  iter_bytes h nodes offset = Some <$> chain_bytes h nodes offset.
Proof.
  intros Hok. revert offset. induction Hok as [|id rest Hid Hrest IH]; intros offset Ho.
  - unfold chain_bytes. cbn. by rewrite drop_nil.
  - pose proof (length_node_bytes h id Hid) as Hlen. cbn [offset_ok] in Ho. cbn [iter_bytes].
    rewrite chain_bytes_cons by lia. rewrite fmap_app, <- IH by by apply offset_ok_0. f_equal.
    replace (Nat.max 1 (written h id - offset)) with (written h id - offset)%nat by lia.
    rewrite bytes_from_node by (done || lia). by rewrite take_ge by (rewrite length_drop; lia).
Qed.

Lemma consume_loop_chain h nodes offset bytes :
  Forall (node_ok h) nodes -> offset_ok h nodes offset ->
  let '(nodes', offset') := consume_loop h nodes offset bytes in
  Forall (node_ok h) nodes' /\ offset_ok h nodes' offset' /\
  chain_bytes h nodes' offset' = drop bytes (chain_bytes h nodes offset).
Proof.
  intros Hok. revert offset bytes. induction Hok as [|id rest Hid Hrest IH]; intros offset bytes Ho; cbn [consume_loop].
  - unfold chain_bytes. cbn. by rewrite !drop_nil.
  - pose proof (length_node_bytes h id Hid) as Hlen. cbn [offset_ok] in Ho.
    destruct (bytes =? 0)%nat eqn:E0.
    { apply Nat.eqb_eq in E0 as ->. rewrite drop_0. by repeat split; [constructor|]. }
    apply Nat.eqb_neq in E0. destruct (bytes <? written h id - offset)%nat eqn:E.
    + apply Nat.ltb_lt in E. split; [by constructor|]. split; [cbn; lia|].
      unfold chain_bytes. by rewrite drop_drop.
    + apply Nat.ltb_ge in E. specialize (IH 0%nat (bytes - (written h id - offset))%nat
        (offset_ok_0 _ _ Hrest)).
      destruct consume_loop as [nodes' offset']. destruct IH as (H1 & H2 & H3). repeat split; [done..|].
      rewrite H3, chain_bytes_cons by lia. rewrite (drop_app_ge (drop offset _)) by (rewrite length_drop; lia).
      f_equal. rewrite length_drop. lia.
Qed.

Definition slice_ok (h : Heap) (s : NodeView) : Prop :=
  node_ok h (v_node s) /\ (0 < v_length s)%nat /\ (v_start s + v_length s <= written h (v_node s))%nat.

Definition slice_text (h : Heap) (s : NodeView) : list Z :=
  take (v_length s) (drop (v_start s) (node_bytes h (v_node s))).

Lemma slice_bytes_text h s : slice_ok h s -> slice_bytes h s = Some <$> slice_text h s.
Proof.
  intros (Hok & Hl & Hb). unfold slice_bytes, slice_text.
  replace (Nat.max 1 (v_length s)) with (v_length s) by lia. by apply bytes_from_node.
Qed.

Lemma grow_loop_chain h nodes offset n :
  Forall (node_ok h) nodes -> offset_ok h nodes offset ->
  let '(slices, (nodes', offset')) := grow_loop h nodes offset n in
  Forall (slice_ok h) slices /\ Forall (node_ok h) nodes' /\ offset_ok h nodes' offset' /\
  concat (slice_text h <$> slices) = take n (chain_bytes h nodes offset) /\
  chain_bytes h nodes' offset' = drop n (chain_bytes h nodes offset).
Proof.
  intros Hok. revert offset n. induction Hok as [|id rest Hid Hrest IH]; intros offset n Ho; cbn [grow_loop].
  - unfold chain_bytes. cbn. by rewrite !drop_nil, take_nil.
  - pose proof (length_node_bytes h id Hid) as Hlen. cbn [offset_ok] in Ho.
    destruct (n =? 0)%nat eqn:E0.
    { apply Nat.eqb_eq in E0 as ->. cbn. by repeat split; [..|constructor|]. }
    apply Nat.eqb_neq in E0.
    destruct (Nat.min (written h id - offset) n <? written h id - offset)%nat eqn:E.
    + apply Nat.ltb_lt in E. replace (Nat.min (written h id - offset) n) with n by lia.
      repeat split; [constructor; [|done]; repeat split; cbn; done || lia|by constructor|cbn; lia|..].
      * cbn. rewrite app_nil_r. rewrite chain_bytes_cons by lia. unfold slice_text. cbn.
        by rewrite take_app_le by (rewrite length_drop; lia).
      * unfold chain_bytes. by rewrite drop_drop.
    + apply Nat.ltb_ge in E. replace (Nat.min (written h id - offset) n) with (written h id - offset)%nat by lia.
      specialize (IH 0%nat (n - (written h id - offset))%nat (offset_ok_0 _ _ Hrest)).
      destruct (grow_loop h rest 0 _) as [slices [nodes' offset']]. destruct IH as (H1 & H2 & H3 & H4 & H5).
      repeat split; [constructor; [|done]; repeat split; cbn; done || lia|done|done|..];
        rewrite chain_bytes_cons by lia.
      * cbn. rewrite H4. unfold slice_text. cbn.
        rewrite (take_app_ge (drop offset _)) by (rewrite length_drop; lia).
        rewrite take_ge by (rewrite length_drop; lia). rewrite length_drop, Hlen. done.
      * rewrite H5, (drop_app_ge (drop offset _)) by (rewrite length_drop; lia).
        by rewrite length_drop, Hlen.
Qed.

#[local] Arguments chain_bytes : simpl never.

(** ** Refinement: a reader and a view over it implement the queue *)

(** The calls the protocol makes on its reader, and the reads of a view. *)
Inductive op :=
  | Push (bs : list Z)
  | Consume (n : nat)
  | Grow (n : nat)
  | Take (n : nat)
  | All
  | View.

Record Buffers := mkBuffers { b_heap : Heap; b_reader : BufferReader; b_view : BufferView }.

Definition node_step (o : op) (b : Buffers) : result (list Z) * Buffers :=
  match o with
  | Push bs =>
      let '(h, r) := push_back (node_of bs) (b_heap b) (b_reader b) in (Ok [], mkBuffers h r (b_view b))
  | Consume n => (Ok [], mkBuffers (b_heap b) (consume (b_heap b) n (b_reader b)) (b_view b))
  | Grow n =>
      let '(v, r) := grow_view (b_heap b) (b_view b) n (b_reader b) in (Ok [], mkBuffers (b_heap b) r v)
  | Take n => (reader_take (b_heap b) n (b_reader b), b)
  | All => (reader_all (b_heap b) (b_reader b), b)
  | View => (view_all (b_heap b) (b_view b), b)
  end.

Definition queue_step (o : op) (a : Queue.Reader * list Z) : result (list Z) * (Queue.Reader * list Z) :=
  let '(r, body) := a in
  match o with
  | Push bs => (Ok [], (Queue.push_back bs r, body))
  | Consume n => (Ok [], (Queue.consume n r, body))
  | Grow n => let '(taken, r) := Queue.grow_view n r in (Ok [], (r, body ++ taken))
  | Take n => (Queue.take_view n r, a)
  | All => (Queue.all_view r, a)
  | View => (Ok body, a)
  end.

(** The answers of a sequence of calls, and the final state. *)
Fixpoint run_ops {S} (step : op -> S -> result (list Z) * S) (ops : list op) (s : S)
    : list (result (list Z)) * S :=
  match ops with
  | [] => ([], s)
  | o :: ops =>
      let '(answer, s) := step o s in
      let '(answers, s) := run_ops step ops s in
      (answer :: answers, s)
  end.

Record represents (b : Buffers) (a : Queue.Reader * list Z) : Prop := {
  rep_nodes : Forall (node_ok (b_heap b)) (m_nodes (b_reader b));
  rep_offset : offset_ok (b_heap b) (m_nodes (b_reader b)) (m_offset (b_reader b));
  rep_chain : chain_bytes (b_heap b) (m_nodes (b_reader b)) (m_offset (b_reader b)) = Queue.chain a.1;
  rep_size : m_size (b_reader b) = Queue.size a.1;
  rep_slices : Forall (slice_ok (b_heap b)) (v_slices (b_view b));
  rep_body : concat (slice_text (b_heap b) <$> v_slices (b_view b)) = a.2;
}.

Lemma node_ok_app h h' id : node_ok h id -> node_ok (h ++ h') id.
Proof. intros (n & Hn & ?). exists n. by rewrite (lookup_app_l_Some _ _ _ _ Hn). Qed.

Lemma node_bytes_app h h' id : node_ok h id -> node_bytes (h ++ h') id = node_bytes h id.
Proof. intros (n & Hn & ?). unfold node_bytes. by rewrite (lookup_app_l_Some _ _ _ _ Hn), Hn. Qed.

Lemma written_app h h' id : node_ok h id -> written (h ++ h') id = written h id.
Proof. intros (n & Hn & ?). unfold written. by rewrite (lookup_app_l_Some _ _ _ _ Hn), Hn. Qed.

Lemma nodes_bytes_app h h' nodes :
  Forall (node_ok h) nodes -> node_bytes (h ++ h') <$> nodes = node_bytes h <$> nodes.
Proof.
  intros Hok. apply list_fmap_ext. intros i id Hi. apply node_bytes_app.
  by apply (proj1 (Forall_lookup _ _) Hok i).
Qed.

Lemma slices_app h h' slices :
  Forall (slice_ok h) slices ->
  Forall (slice_ok (h ++ h')) slices /\ slice_text (h ++ h') <$> slices = slice_text h <$> slices.
Proof.
  induction 1 as [|s slices (Hok & Hl & Hb) _ [IH1 IH2]]; [done|]. split.
  - constructor; [|done]. repeat split; [by apply node_ok_app|done|]. by rewrite written_app.
  - cbn. rewrite IH2. f_equal. unfold slice_text. by rewrite node_bytes_app.
Qed.

Lemma node_of_ok h bs : bs <> [] -> node_ok (h ++ [node_of bs]) (length h).
Proof.
  intros Hbs. exists (node_of bs). split; [by apply list_lookup_middle|]. unfold node_of. cbn.
  destruct bs; [done|]. cbn. lia.
Qed.

Lemma node_of_bytes h bs : node_bytes (h ++ [node_of bs]) (length h) = bs.
Proof.
  unfold node_bytes, node_of. rewrite lookup_app_r, Nat.sub_diag by done. cbn. by rewrite firstn_all.
Qed.

(** Appending a filled node appends its bytes. *)
Lemma chain_push h nodes offset bs :
  bs <> [] -> Forall (node_ok h) nodes -> offset_ok h nodes offset ->
  let h' := h ++ [node_of bs] in let nodes' := nodes ++ [length h] in
  Forall (node_ok h') nodes' /\ offset_ok h' nodes' offset /\
  chain_bytes h' nodes' offset = chain_bytes h nodes offset ++ bs.
Proof.
  intros Hbs Hok Ho. cbn zeta. split; [|split].
  - apply Forall_app. split.
    + eapply Forall_impl; [done|]. intros id. apply node_ok_app.
    + by apply Forall_singleton, node_of_ok.
  - destruct nodes as [|id nodes]; cbn in *.
    + subst offset. by apply node_ok_written, node_of_ok.
    + apply Forall_cons_1 in Hok as [Hid _]. by rewrite written_app.
  - unfold chain_bytes. rewrite fmap_app, nodes_bytes_app, concat_app by done. cbn.
    rewrite app_nil_r, node_of_bytes. destruct nodes as [|id nodes]; cbn in *.
    + subst offset. done.
    + apply Forall_cons_1 in Hok as [Hid _]. pose proof (length_node_bytes h id Hid).
      by rewrite drop_app_le by (rewrite length_app; lia).
Qed.

Lemma foldl_view_push slices v :
  v_slices (foldl (fun v s => view_push_back s v) v slices) = v_slices v ++ slices.
Proof.
  revert v. induction slices as [|s slices IH]; intros v; cbn; [by rewrite app_nil_r|].
  rewrite IH. cbn. by rewrite <- app_assoc.
Qed.

Lemma view_all_text h v :
  Forall (slice_ok h) (v_slices v) -> view_all h v = Ok (concat (slice_text h <$> v_slices v)).
Proof.
  intros Hok. unfold view_all. rewrite <- deref_all_Some. f_equal.
  induction Hok as [|s slices Hs _ IH]; [done|]. cbn. by rewrite fmap_app, IH, slice_bytes_text.
Qed.

Lemma reader_take_represents b a n :
  represents b a -> reader_take (b_heap b) n (b_reader b) = Queue.take_view n a.1.
Proof.
  intros [Hn Ho Hc Hs _ _]. unfold reader_take, Queue.take_view, begin_bytes.
  rewrite iter_bytes_chain, Hc, Hs, length_fmap by done.
  destruct (_ <=? _)%nat; [|done]. by rewrite <- fmap_take, deref_all_Some.
Qed.

Definition op_ok (o : op) : Prop := match o with Push bs => bs <> [] | _ => True end.

Lemma node_step_refines o b a :
  op_ok o -> represents b a ->
  (node_step o b).1 = (queue_step o a).1 /\ represents (node_step o b).2 (queue_step o a).2.
Proof.
  intros Hop Hrep. destruct a as [r body]. pose proof Hrep as [Hn Ho Hc Hs Hv Hb]. cbn in *.
  destruct o as [bs|n|n|n| |]; cbn.
  - destruct (chain_push _ _ _ _ Hop Hn Ho) as (H1 & H2 & H3). destruct (slices_app _ [node_of bs] _ Hv) as [H4 H5].
    split; [done|]. split; cbn; [done|done|by rewrite H3, Hc|by rewrite Hs|done|by rewrite H5].
  - unfold consume. pose proof (consume_loop_chain _ _ _ n Hn Ho) as H.
    destruct consume_loop as [nodes offset]. destruct H as (H1 & H2 & H3).
    split; [done|]. split; cbn; [done|done|by rewrite H3, Hc|by rewrite Hs|done|done].
  - unfold grow_view. pose proof (grow_loop_chain _ _ _ n Hn Ho) as H.
    destruct grow_loop as [slices [nodes offset]]. destruct H as (H1 & H2 & H3 & H4 & H5).
    split; [done|]. split; cbn; [done|done|by rewrite H5, Hc|done|..]; rewrite foldl_view_push.
    + by apply Forall_app.
    + by rewrite fmap_app, concat_app, Hb, H4, Hc.
  - split; [|done]. by apply (reader_take_represents b (r, body)).
  - split; [|done]. unfold reader_all, begin_bytes. by rewrite iter_bytes_chain, deref_all_Some, Hc.
  - split; [|done]. by rewrite view_all_text, Hb.
Qed.

Lemma new_represents : represents (mkBuffers [] new_reader new_view) (Queue.empty_reader, []).
Proof. split; cbn; done || constructor. Qed.

Lemma run_ops_refines ops b a :
  Forall op_ok ops -> represents b a ->
  (run_ops node_step ops b).1 = (run_ops queue_step ops a).1 /\
  represents (run_ops node_step ops b).2 (run_ops queue_step ops a).2.
Proof.
  intros Hops. revert b a. induction Hops as [|o ops Ho _ IH]; intros b a Hrep; [done|]. cbn [run_ops].
  pose proof (node_step_refines o b a Ho Hrep) as [H1 H2].
  destruct (node_step o b) as [ans b'], (queue_step o a) as [ans' a']. cbn in *.
  pose proof (IH _ _ H2) as [H3 H4].
  destruct (run_ops node_step ops b'), (run_ops queue_step ops a'). cbn in *. by subst.
Qed.

(** ** Theorems *)

(** C17: Whatever calls the protocol makes, a chain of filled nodes with its offset and the views
    cut from it answer exactly as a queue of bytes whose count is kept separately: bytes come out
    in the order they went in, views keep the bytes they were given, and [grow_view] moves bytes
    without changing [size()]. *)
Theorem reader_refines_queue ops :
  Forall op_ok ops ->
  (run_ops node_step ops (mkBuffers [] new_reader new_view)).1 =
  (run_ops queue_step ops (Queue.empty_reader, [])).1.
Proof. intros Hops. by apply run_ops_refines, new_represents. Qed.

Definition demo_ops : list op :=
  [Push [1; 2; 3]; Push [4; 5]; Take 4; Consume 1; Grow 3; View; All; Take 2; Push [6]; Consume 1; All].

Lemma reader_refines_queue_witness :
  Forall op_ok demo_ops /\
  (run_ops node_step demo_ops (mkBuffers [] new_reader new_view)).1 =
    [Ok []; Ok []; Ok [1; 2; 3; 4]; Ok []; Ok []; Ok [2; 3; 4]; Ok [5]; Err UndefinedBehaviour; Ok []; Ok []; Ok [6]].
Proof.
  assert (Hok : Forall op_ok demo_ops) by (repeat (constructor; [done|]); constructor).
  split; [exact Hok|]. rewrite (reader_refines_queue demo_ops Hok). vm_compute. reflexivity.
Defined.

(** *** Reads of the synchronous receiver *)

Definition empty_view (w : BufferWriter) : Prop := m_nodes (m_view w) = [] /\ m_offset (m_view w) = O /\ m_size (m_view w) = 0.

Lemma alter_last (f : BufferNode -> BufferNode) h n : alter f (length h) (h ++ [n]) = h ++ [f n].
Proof. rewrite <- (Nat.add_0_r (length h)) at 1. by rewrite alter_app_r. Qed.

(** A read into an empty chain fills a new node. *)
Lemma arm_read_fresh bs h w :
  empty_view w -> Z.of_nat (length bs) < 2 ^ 64 ->
  exists w', arm_read (Some bs) h w = (h ++ [mkNode bs (m_current_size w) (length bs)], w') /\
    m_view w' = mkBufferReader [length h] 0 (Z.of_nat (length bs)).
Proof.
  intros (Hn & Ho & Hs) Hb. unfold arm_read, acquire, push_back. rewrite Hn, Ho, Hs. cbn.
  unfold notify_read, recv_into, expand_written. rewrite !alter_last. cbn. rewrite drop_nil, app_nil_r.
  eexists. split; [done|]. cbn. unfold expand. cbn. f_equal. change (size_t (0 + Z.of_nat 0)) with 0.
  rewrite wrap_small; lia.
Qed.

(** A read that arrives when everything before it has been consumed delivers its bytes. *)
Theorem fresh_read_delivers bs h w :
  empty_view w -> bs <> [] -> Z.of_nat (length bs) < 2 ^ 64 ->
  let '(h', w') := arm_read (Some bs) h w in
  reader_all h' (m_view w') = Ok bs /\ m_size (m_view w') = Z.of_nat (length bs).
Proof.
  intros He Hbs Hb. destruct (arm_read_fresh bs h w He Hb) as (w' & -> & ->). split; [|done].
  set (h' := h ++ _). assert (Hok : node_ok h' (length h)).
  { exists (mkNode bs (m_current_size w) (length bs)). split; [by apply list_lookup_middle|]. cbn.
    destruct bs; cbn; [done|lia]. }
  unfold reader_all, begin_bytes. cbn [m_nodes m_offset].
  rewrite iter_bytes_chain, deref_all_Some by (by constructor || by apply node_ok_written).
  unfold chain_bytes, node_bytes. cbn. rewrite app_nil_r, drop_0. subst h'.
  rewrite lookup_app_r, Nat.sub_diag by done. cbn. by rewrite firstn_all.
Qed.

(** [split_read w id]: part of the node at the tail is unread and the node is not full, as when a
    frame has arrived in part. *)
Definition split_read (h : Heap) (w : BufferWriter) (id : nat) : Prop :=
  m_nodes (m_view w) = [id] /\ (m_offset (m_view w) < written h id)%nat /\
  exists n, h !! id = Some n /\ m_written n = length (m_data n) /\ (m_written n < m_limit n)%nat.

(** C22: [acquire] hands the unfilled tail out again and the transport stores at its start, while
    [notify_read] extends the tail's write mark: when part of the previous read is still unread,
    the next read overwrites it from the front and counts bytes that were never stored, so
    draining the reader is undefined behaviour, whatever the read delivers. *)
Theorem split_read_undefined h w id bs :
  split_read h w id -> bs <> [] ->
  let '(h', w') := arm_read (Some bs) h w in
  byte_at h' id 0 = head bs /\ reader_all h' (m_view w') = Err UndefinedBehaviour.
Proof.
  intros (Hn & Ho & n & Hid & Hw & Hl) Hbs. unfold arm_read, acquire. rewrite Hn. cbn [last].
  unfold is_full. rewrite Hid. replace (m_limit n =? m_written n)%nat with false by (symmetry; apply Nat.eqb_neq; lia).
  unfold notify_read, recv_into, expand_written. set (h' := alter _ id (alter _ id h)).
  assert (Hid' : h' !! id = Some (mkNode (bs ++ drop (length bs) (m_data n)) (m_limit n) (m_written n + length bs)%nat))
    by (subst h'; by rewrite !list_lookup_alter_eq, Hid).
  split.
  { unfold byte_at. rewrite Hid'. by destruct bs. }
  unfold reader_all, begin_bytes, deref_all. cbn [m_view expand m_nodes m_offset]. rewrite Hn. cbn [iter_bytes].
  rewrite app_nil_r. destruct (mapM _ _) eqn:E; [exfalso|done].
  apply mapM_Some in E. pose proof (Forall2_length _ _ _ E) as HL. rewrite length_fmap, length_seq in HL.
  unfold written in *. rewrite Hid', Hid in *. cbn in *.
  assert (length bs > 0)%nat by (destruct bs; [done|cbn; lia]).
  set (k := (m_written n + length bs - 1 - m_offset (m_view w))%nat).
  destruct (Forall2_lookup_l _ _ _ k None E) as (x & _ & Hx); [|done].
  rewrite list_lookup_fmap, lookup_seq_lt by lia. cbn. unfold byte_at. rewrite Hid'. cbn.
  f_equal. apply lookup_ge_None. rewrite length_app, length_drop. lia.
Qed.

Definition demo_split : Heap * BufferWriter :=
  let '(h, w) := arm_read (Some [1; 2; 3; 4; 5]) [] (new_writer 16 64) in
  (h, set_view (consume h 3 (m_view w)) w).

Lemma split_read_undefined_witness :
  split_read demo_split.1 demo_split.2 0 /\
  (let '(h, w) := arm_read (Some [6; 7]) demo_split.1 demo_split.2 in
   byte_at h 0 0 = Some 6 /\ reader_all h (m_view w) = Err UndefinedBehaviour).
Proof.
  assert (H : split_read demo_split.1 demo_split.2 0).
  { split; [reflexivity|]. split; [cbv; lia|]. eexists. split; [reflexivity|]. split; [reflexivity|cbv; lia]. }
  split; [exact H|]. exact (split_read_undefined demo_split.1 demo_split.2 0 [6; 7] H ltac:(discriminate)).
Defined.

(** The predicted size of the next chunk stays within its bounds. *)
Lemma prediction_bounded reads h w :
  (m_min_size w <= m_current_size w <= m_max_size w)%nat ->
  let w' := (foldl (fun '(h, w) bs => arm_read bs h w) (h, w) reads).2 in
  (m_min_size w' <= m_current_size w' <= m_max_size w')%nat.
Proof.
  revert h w. induction reads as [|bs reads IH]; intros h w Hw; [done|]. cbn [foldl].
  destruct (arm_read bs h w) as [h' w'] eqn:E. apply IH.
  assert (Hset : forall r, (m_min_size (set_view r w) <= m_current_size (set_view r w) <= m_max_size (set_view r w))%nat)
    by done.
  assert (Hacq : forall slot h1 w1, acquire h w = (slot, (h1, w1)) ->
    (m_min_size w1 <= m_current_size w1 <= m_max_size w1)%nat).
  { unfold acquire, push_back. intros slot h1 w1 E1. destruct (last _); [destruct is_full|]; naive_solver. }
  unfold arm_read in E. destruct (acquire h w) as [slot [h1 w1]]. specialize (Hacq _ _ _ eq_refl).
  destruct bs as [bs|]; [|naive_solver]. unfold notify_read in E. injection E as <- <-. cbn.
  unfold clamp. repeat case_match; rewrite ?Nat.ltb_lt, ?Nat.ltb_ge in *; lia.
Qed.
