(* ===== verification/Frame.v ===== *)
(** * HTTP/2 frames

    Models src/include/io/layer/shared/types.cppm ([StreamState], [FrameRole], [Flags],
    [FrameType]), src/include/io/layer/http2/consts.cppm, the exceptions of
    src/include/io/error/http.cppm, the big-endian adaptors of src/include/utils/codec/atom.cppm,
    and src/include/io/layer/http2/frame.cppm: [FrameHeader] with its validation, the adaptors that
    read and write frame headers, [WriteFrameClosureAdapter], which cuts a payload into frames, and
    [FrameBuilder].

    A frame type is an enumeration over [uint8_t], so a value outside the ten named ones can be
    held: [UnknownType].  Ranges are lists of octets. *)

From Stdlib Require Import ZArith Lia.
From stdpp Require Import base list strings.
From S2P Require Import Prelude.

Open Scope Z_scope.

(** ** Shared types *)

Inductive StreamState :=
  | IDLE
  | OPEN
  | HALF_CLOSED_LOCAL
  | HALF_CLOSED_REMOTE
  | CLOSED
  | RESERVED_LOCAL
  | RESERVED_REMOTE.

#[export] Instance StreamState_eq_dec : EqDecision StreamState.
Proof. solve_decision. Defined.

Inductive FrameRole := SENDER | RECEIVER.

Definition END_STREAM : Z := 0x01.
Definition ACK : Z := 0x01.
Definition END_HEADERS : Z := 0x04.
Definition PADDED : Z := 0x08.
Definition PRIORITY_FLAG : Z := 0x20.

Inductive FrameType :=
  | DATA
  | HEADERS
  | PRIORITY
  | RST_STREAM
  | SETTINGS
  | PUSH_PROMISE
  | PING
  | GOAWAY
  | WINDOW_UPDATE
  | CONTINUATION
  | UnknownType (code : Z).

#[export] Instance FrameType_eq_dec : EqDecision FrameType.
Proof. solve_decision. Defined.

(** [std::to_underlying]. *)
Definition type_code (t : FrameType) : Z :=
  match t with
  | DATA => 0 | HEADERS => 1 | PRIORITY => 2 | RST_STREAM => 3 | SETTINGS => 4 | PUSH_PROMISE => 5
  | PING => 6 | GOAWAY => 7 | WINDOW_UPDATE => 8 | CONTINUATION => 9 | UnknownType code => code
  end.

(** [static_cast<FrameType>]. *)
Definition type_of_code (z : Z) : FrameType :=
  if z =? 0 then DATA else if z =? 1 then HEADERS else if z =? 2 then PRIORITY
  else if z =? 3 then RST_STREAM else if z =? 4 then SETTINGS else if z =? 5 then PUSH_PROMISE
  else if z =? 6 then PING else if z =? 7 then GOAWAY else if z =? 8 then WINDOW_UPDATE
  else if z =? 9 then CONTINUATION else UnknownType z.

(** The types a [uint8_t] can hold, each under one name. *)
Definition type_ok (t : FrameType) : Prop :=
  match t with UnknownType code => 10 <= code < 256 | _ => True end.

(** ** Constants *)

Definition HEADER_SIZE : nat := 9.
Definition HTTP2_CONNECTION_PREFACE : list Z :=
  [80; 82; 73; 32; 42; 32; 72; 84; 84; 80; 47; 50; 46; 48; 13; 10; 13; 10; 83; 77; 13; 10; 13; 10].
Definition DEFAULT_INITIAL_WINDOW_SIZE : Z := 65535.
Definition MAX_INITIAL_WINDOW_SIZE : Z := 2147483647.
Definition MAX_CONNECTED_STREAMS : Z := 2147483647.
Definition DEFAULT_HEADER_TABLE_SIZE : Z := 4096.
Definition MIN_FRAME_SIZE : Z := 16384.
Definition MAX_FRAME_SIZE : Z := 16777215.

(** ** Exceptions *)

Inductive Http2ErrorCode :=
  | NO_ERROR_CODE
  | PROTOCOL_ERROR
  | INTERNAL_ERROR
  | FLOW_CONTROL_ERROR
  | SETTINGS_TIMEOUT
  | STREAM_CLOSED
  | FRAME_SIZE_ERROR
  | REFUSED_STREAM
  | CANCEL
  | COMPRESSION_ERROR
  | CONNECT_ERROR
  | ENHANCE_YOUR_CALM
  | INADEQUATE_SECURITY
  | HTTP_1_1_REQUIRED.

#[export] Instance Http2ErrorCode_eq_dec : EqDecision Http2ErrorCode.
Proof. solve_decision. Defined.

Definition error_code (c : Http2ErrorCode) : Z :=
  match c with
  | NO_ERROR_CODE => 0x0 | PROTOCOL_ERROR => 0x1 | INTERNAL_ERROR => 0x2 | FLOW_CONTROL_ERROR => 0x3
  | SETTINGS_TIMEOUT => 0x4 | STREAM_CLOSED => 0x5 | FRAME_SIZE_ERROR => 0x6 | REFUSED_STREAM => 0x7
  | CANCEL => 0x8 | COMPRESSION_ERROR => 0x9 | CONNECT_ERROR => 0xA | ENHANCE_YOUR_CALM => 0xB
  | INADEQUATE_SECURITY => 0xC | HTTP_1_1_REQUIRED => 0xD
  end.

(** Codes nobody assigned become [INTERNAL_ERROR]. *)
Definition get_http2_error_code (code : Z) : Http2ErrorCode :=
  if code =? 0 then NO_ERROR_CODE else if code =? 1 then PROTOCOL_ERROR
  else if code =? 2 then INTERNAL_ERROR else if code =? 3 then FLOW_CONTROL_ERROR
  else if code =? 4 then SETTINGS_TIMEOUT else if code =? 5 then STREAM_CLOSED
  else if code =? 6 then FRAME_SIZE_ERROR else if code =? 7 then REFUSED_STREAM
  else if code =? 8 then CANCEL else if code =? 9 then COMPRESSION_ERROR
  else if code =? 10 then CONNECT_ERROR else if code =? 11 then ENHANCE_YOUR_CALM
  else if code =? 12 then INADEQUATE_SECURITY else if code =? 13 then HTTP_1_1_REQUIRED
  else INTERNAL_ERROR.

(** What the layer can throw; [Other] covers the exceptions of the codecs and undefined behaviour,
    [Terminate] an exception that leaves a [noexcept] function. *)
Inductive exception :=
  | ConnectionError (code : Http2ErrorCode) (last_stream_id : Z)
  | StreamError (stream_id : Z) (code : Http2ErrorCode)
  | BadOptionalAccess
  | Other (e : error)
  | Terminate.

Inductive outcome (A : Type) : Type :=
  | Return (a : A)
  | Throw (e : exception).
Arguments Return {A} a.
Arguments Throw {A} e.

#[export] Instance outcome_ret : MRet outcome := fun A a => Return a.
#[export] Instance outcome_bind : MBind outcome := fun A B f m =>
  match m with Return a => f a | Throw e => Throw e end.

Definition of_result {A} (r : result A) : outcome A :=
  match r with Ok a => Return a | Err e => Throw (Other e) end.

(** [throw ConnectionError(code, msg)] without a stream id. *)
Definition connection_error {A} (code : Http2ErrorCode) : outcome A :=
  Throw (ConnectionError code MAX_CONNECTED_STREAMS).

(** ** Big-endian integers *)

(** The bytes of [BigEndianView] over a [UInt] of [n] bytes. *)
Definition be_bytes (n : nat) (v : Z) : list Z :=
  (fun pos => u8 (Z.shiftr v (8 * Z.of_nat (n - 1 - pos)))) <$> seq 0 n.

Definition WriteBigEndianAdaptor (n : nat) (v : Z) (range : list Z) : list Z := range ++ be_bytes n v.

Definition be_fold (n : nat) (data : list Z) : Z :=
  foldl (fun acc b => wrap (8 * Z.of_nat n) (Z.lor (Z.shiftl acc 8) b)) 0 data.

Definition ReadBigEndianAdaptor (n : nat) (data : list Z) : result Z :=
  let dist := length data in
  if (n <? dist)%nat then Err RuntimeError
  else if (dist =? 0)%nat then Ok 0
  else Ok (be_fold n data).

(** ** [FrameHeader] *)

Record FrameHeader := mkFrameHeader {
  m_length : Z;
  m_type : FrameType;
  m_flags : Z;
  m_stream_id : Z;
}.

(** [set_stream_id]: the reserved bit is cleared. *)
Definition mask_stream_id (id : Z) : Z := Z.land id 0x7FFFFFFF.

Definition make_header (length : Z) (type : FrameType) (flags stream_id : Z) : FrameHeader :=
  mkFrameHeader length type flags (mask_stream_id stream_id).

Definition has_flag (h : FrameHeader) (flag : Z) : bool := negb (Z.land (m_flags h) flag =? 0).
Definition is_end_stream (h : FrameHeader) : bool := has_flag h END_STREAM.
Definition is_padded (h : FrameHeader) : bool := has_flag h PADDED.

(** Flags other than [allowed] are set. *)
Definition other_flags (h : FrameHeader) (allowed : Z) : bool :=
  negb (Z.land (m_flags h) (Z.lnot allowed) =? 0).

Definition on_stream (h : FrameHeader) {A} (code : Http2ErrorCode) : outcome A :=
  Throw (ConnectionError code (m_stream_id h)).

Definition validate_payload_size (h : FrameHeader) (actual_size : Z) : outcome unit :=
  if actual_size =? m_length h then Return tt else on_stream h INTERNAL_ERROR.

Definition validate_padding (h : FrameHeader) (actual_size : Z) : outcome unit :=
  if m_length h <=? actual_size then on_stream h PROTOCOL_ERROR else Return tt.

Definition validate_data (h : FrameHeader) : outcome unit :=
  if m_stream_id h =? 0 then connection_error PROTOCOL_ERROR
  else if other_flags h (Z.lor END_STREAM PADDED) then on_stream h PROTOCOL_ERROR
  else if is_padded h && (m_length h <? 1) then on_stream h FRAME_SIZE_ERROR
  else Return tt.

(** The least length the flags leave room for. *)
Definition min_len (h : FrameHeader) : Z :=
  (if is_padded h then 1 else 0) + (if has_flag h PRIORITY_FLAG then 5 else 0).

Definition validate_headers (h : FrameHeader) : outcome unit :=
  if m_stream_id h =? 0 then connection_error PROTOCOL_ERROR
  else if other_flags h (Z.lor (Z.lor (Z.lor END_STREAM END_HEADERS) PADDED) PRIORITY_FLAG)
  then on_stream h PROTOCOL_ERROR
  else if m_length h <? min_len h then on_stream h FRAME_SIZE_ERROR
  else if is_padded h && (m_length h <? 1) then on_stream h FRAME_SIZE_ERROR
  else Return tt.

Definition validate_priority (h : FrameHeader) : outcome unit :=
  if m_stream_id h =? 0 then connection_error PROTOCOL_ERROR
  else if negb (m_flags h =? 0) then on_stream h PROTOCOL_ERROR
  else if negb (m_length h =? 5) then on_stream h FRAME_SIZE_ERROR
  else Return tt.

Definition validate_rst_stream (h : FrameHeader) : outcome unit :=
  if m_stream_id h =? 0 then connection_error PROTOCOL_ERROR
  else if negb (m_flags h =? 0) then on_stream h PROTOCOL_ERROR
  else if negb (m_length h =? 4) then on_stream h FRAME_SIZE_ERROR
  else Return tt.

Definition validate_settings (h : FrameHeader) : outcome unit :=
  if negb (m_stream_id h =? 0) then connection_error PROTOCOL_ERROR
  else if other_flags h ACK then connection_error PROTOCOL_ERROR
  else if has_flag h ACK then
    if negb (m_length h =? 0) then connection_error FRAME_SIZE_ERROR else Return tt
  else if negb (m_length h mod 6 =? 0) then connection_error FRAME_SIZE_ERROR
  else Return tt.

Definition validate_push_promise (role : FrameRole) (h : FrameHeader) : outcome unit :=
  match role with
  | RECEIVER => connection_error PROTOCOL_ERROR
  | SENDER =>
      if m_stream_id h =? 0 then connection_error PROTOCOL_ERROR
      else if other_flags h (Z.lor END_HEADERS PADDED) then on_stream h PROTOCOL_ERROR
      else Return tt
  end.

Definition validate_ping (h : FrameHeader) : outcome unit :=
  if negb (m_stream_id h =? 0) then connection_error PROTOCOL_ERROR
  else if other_flags h ACK then connection_error PROTOCOL_ERROR
  else if negb (m_length h =? 8) then connection_error FRAME_SIZE_ERROR
  else Return tt.

Definition validate_goaway (h : FrameHeader) : outcome unit :=
  if negb (m_stream_id h =? 0) then connection_error PROTOCOL_ERROR
  else if negb (m_flags h =? 0) then connection_error PROTOCOL_ERROR
  else if m_length h <? 8 then connection_error FRAME_SIZE_ERROR
  else Return tt.

Definition validate_window_update (h : FrameHeader) : outcome unit :=
  let stream_id := if m_stream_id h =? 0 then MAX_CONNECTED_STREAMS else m_stream_id h in
  if negb (m_flags h =? 0) then Throw (ConnectionError PROTOCOL_ERROR stream_id)
  else if negb (m_length h =? 4) then Throw (ConnectionError FRAME_SIZE_ERROR stream_id)
  else Return tt.

Definition validate_continuation (h : FrameHeader) : outcome unit :=
  if m_stream_id h =? 0 then connection_error PROTOCOL_ERROR
  else if other_flags h END_HEADERS then on_stream h PROTOCOL_ERROR
  else Return tt.

Definition validate (role : FrameRole) (h : FrameHeader) : outcome unit :=
  let push := match role with SENDER => bool_decide (m_type h = PUSH_PROMISE) | RECEIVER => false end in
  if push && negb (m_stream_id h mod 2 =? 0) then connection_error INTERNAL_ERROR
  else
  match m_type h with
  | DATA => validate_data h
  | HEADERS => validate_headers h
  | PRIORITY => validate_priority h
  | RST_STREAM => validate_rst_stream h
  | SETTINGS => validate_settings h
  | PUSH_PROMISE => validate_push_promise role h
  | PING => validate_ping h
  | GOAWAY => validate_goaway h
  | WINDOW_UPDATE => validate_window_update h
  | CONTINUATION => validate_continuation h
  | UnknownType _ => Return tt
  end.

(** ** Reading and writing frame headers *)

(** [ReadFrameHeaderAdaptor{max_frame_size}]. *)
Definition ReadFrameHeaderAdaptor (max_frame_size : Z) (range : list Z) : outcome FrameHeader :=
  if (length range <? HEADER_SIZE)%nat then connection_error FRAME_SIZE_ERROR
  else
    len ← of_result (ReadBigEndianAdaptor 4 (take 3 range));
    if max_frame_size <? len then connection_error FRAME_SIZE_ERROR
    else
      type ← of_result (ReadBigEndianAdaptor 1 (take 1 (drop 3 range)));
      flags ← of_result (ReadBigEndianAdaptor 1 (take 1 (drop 4 range)));
      id ← of_result (ReadBigEndianAdaptor 4 (take 4 (drop 5 range)));
      Return (make_header len (type_of_code type) flags (Z.land 0x7FFFFFFF id)).

(** [FrameHeaderClosureAdaptor]: the first three stages are one closure, so [drop(1)] applies to
    the range and the length together; every call site starts from the empty range. *)
Definition FrameHeaderClosureAdaptor (length : Z) (type : FrameType) (flags stream_id : Z) (range : list Z)
    : list Z :=
  WriteBigEndianAdaptor 4 (mask_stream_id stream_id)
    (WriteBigEndianAdaptor 1 flags
      (WriteBigEndianAdaptor 1 (type_code type)
        (drop 1 (WriteBigEndianAdaptor 4 length range)))).

(** ** [WriteFrameClosureAdapter] *)

Record WriteFrameClosureAdapter := mkClosure {
  a_stream_id : Z;
  a_type : FrameType;
  a_flags : Z;
  a_max_frame_size : nat;
  a_end_stream_after_data : bool;
  a_no_data : bool;
}.

Definition total_chunks (total_length slice_size : nat) : nat :=
  if (total_length =? 0)%nat then 1 else (total_length + slice_size - 1) / slice_size.

Definition chunked (data : list Z) (slice_size total : nat) : list (list Z) :=
  (fun idx => take slice_size (drop (idx * slice_size) data)) <$> seq 0 total.

(** Type and flags of the chunk with index [idx] of [total]. *)
Definition chunk_type (a : WriteFrameClosureAdapter) (idx : nat) : FrameType :=
  if bool_decide (a_type a = HEADERS) && negb (idx =? 0)%nat then CONTINUATION else a_type a.

Definition chunk_flags (a : WriteFrameClosureAdapter) (idx total : nat) : Z :=
  let IS_LAST := (idx =? total - 1)%nat in
  if bool_decide (a_type a = HEADERS) then
    if IS_LAST then
      let flags := Z.lor (a_flags a) END_HEADERS in
      if a_no_data a then Z.lor flags END_STREAM else flags
    else a_flags a
  else if bool_decide (a_type a = DATA) && IS_LAST && negb (a_end_stream_after_data a)
  then Z.lor (a_flags a) END_STREAM
  else a_flags a.

Definition frame_chunk (a : WriteFrameClosureAdapter) (total idx : nat) (chunk : list Z) : list Z :=
  FrameHeaderClosureAdaptor (u32 (Z.of_nat (length chunk))) (chunk_type a idx) (chunk_flags a idx total)
    (a_stream_id a) [] ++ chunk.

(** [operator()]: a zero frame size divides by zero unless the payload is empty. *)
Definition write_frames (a : WriteFrameClosureAdapter) (data : list Z) : result (list Z) :=
  let TOTAL_LENGTH := length data in
  let SLICE_SIZE := Nat.min (a_max_frame_size a) TOTAL_LENGTH in
  if negb (TOTAL_LENGTH =? 0)%nat && (SLICE_SIZE =? 0)%nat then Err UndefinedBehaviour
  else
    let TOTAL_CHUNKS := total_chunks TOTAL_LENGTH SLICE_SIZE in
    Ok (concat (imap (frame_chunk a TOTAL_CHUNKS) (chunked data SLICE_SIZE TOTAL_CHUNKS))).

(** [ReadWindowIncrementAdaptor], over the first four bytes of the payload. *)
Definition ReadWindowIncrementAdaptor (range : list Z) : outcome Z :=
  v ← of_result (ReadBigEndianAdaptor 4 (take 4 range));
  let inc := Z.land v 0x7FFFFFFF in
  if inc =? 0 then connection_error PROTOCOL_ERROR else Return inc.

(** ** [FrameBuilder] *)

Record FrameBuilder := mkFrameBuilder {
  fb_type : FrameType;
  fb_flags : Z;
  fb_stream_id : Z;
  fb_payload : list Z;
}.

Definition new_builder : FrameBuilder := mkFrameBuilder DATA 0 0 [].
Definition add_type (type : FrameType) (f : FrameBuilder) : FrameBuilder :=
  mkFrameBuilder type (fb_flags f) (fb_stream_id f) (fb_payload f).
Definition add_flags (flags : Z) (f : FrameBuilder) : FrameBuilder :=
  mkFrameBuilder (fb_type f) flags (fb_stream_id f) (fb_payload f).
Definition add_stream_id (stream_id : Z) (f : FrameBuilder) : FrameBuilder :=
  mkFrameBuilder (fb_type f) (fb_flags f) (mask_stream_id stream_id) (fb_payload f).
Definition add_payload (payload : list Z) (f : FrameBuilder) : FrameBuilder :=
  mkFrameBuilder (fb_type f) (fb_flags f) (fb_stream_id f) (fb_payload f ++ payload).

(** The chain [add_type, add_flags, add_stream_id, add_payload, build] of the call sites. *)
Definition build_frame (type : FrameType) (flags stream_id : Z) (payload : list Z) : FrameBuilder :=
  add_payload payload (add_stream_id stream_id (add_flags flags (add_type type new_builder))).

Definition get_size (f : FrameBuilder) : nat := HEADER_SIZE + length (fb_payload f).

(** [WriteFrameBuilderAdaptor{frame, max_frame_size}]. *)
Definition WriteFrameBuilderAdaptor (f : FrameBuilder) (max_frame_size : nat)
    (end_stream_after_data no_data : bool) (range : list Z) : result (list Z) :=
  framed ← write_frames
    (mkClosure (fb_stream_id f) (fb_type f) (fb_flags f) max_frame_size end_stream_after_data no_data)
    (fb_payload f);
  Ok (range ++ framed).

(** ** Lemmas: big-endian integers *)

Lemma be_bytes_S n v : be_bytes (S n) v = be_bytes n (v / 256) ++ [u8 v].
Proof.
  unfold be_bytes. rewrite seq_S, fmap_app. cbn [fmap list_fmap]. f_equal.
  - apply list_fmap_ext. intros i x Hx. apply lookup_seq in Hx as [-> Hi]. f_equal.
    rewrite Nat.add_0_l. rewrite !Z.shiftr_div_pow2 by lia.
    replace (8 * Z.of_nat (S n - 1 - i)) with (8 + 8 * Z.of_nat (n - 1 - i)) by lia.
    rewrite Z.pow_add_r by lia. by rewrite Z.div_div by lia.
  - do 2 f_equal. replace (S n - 1 - (0 + n))%nat with O by lia. done.
Qed.

Lemma length_be_bytes n v : length (be_bytes n v) = n.
Proof. unfold be_bytes. by rewrite length_fmap, length_seq. Qed.

Lemma be_bytes_bytes n v : Forall is_byte (be_bytes n v).
Proof. apply Forall_fmap, Forall_true. intros. apply u8_byte. Qed.

(** The integer the octets denote. *)
Definition be_value (bs : list Z) : Z := foldl (fun acc b => acc * 256 + b) 0 bs.

Lemma be_value_app bs b : be_value (bs ++ [b]) = be_value bs * 256 + b.
Proof. unfold be_value. by rewrite foldl_app. Qed.

Lemma be_value_range bs : Forall is_byte bs -> 0 <= be_value bs < 2 ^ (8 * Z.of_nat (length bs)).
Proof.
  induction bs as [|b bs IH] using rev_ind; [done|]. intros [Hbs Hb]%Forall_app.
  apply Forall_inv in Hb. specialize (IH Hbs). rewrite be_value_app, length_app. cbn.
  replace (8 * Z.of_nat (length bs + 1)) with (8 * Z.of_nat (length bs) + 8) by lia.
  rewrite Z.pow_add_r by lia. change (2 ^ 8) with 256. unfold is_byte in Hb. nia.
Qed.

Lemma be_value_bytes n v : be_value (be_bytes n v) = v mod 2 ^ (8 * Z.of_nat n).
Proof.
  revert v. induction n as [|n IH]; intros v; [cbn; by rewrite Z.mod_1_r|].
  rewrite be_bytes_S, be_value_app, IH. unfold wrap. change (2 ^ 8) with 256.
  replace (8 * Z.of_nat (S n)) with (8 + 8 * Z.of_nat n) by lia. rewrite Z.pow_add_r by lia.
  change (2 ^ 8) with 256. rewrite Z.rem_mul_r by lia. lia.
Qed.

Lemma be_bytes_value bs : Forall is_byte bs -> be_bytes (length bs) (be_value bs) = bs.
Proof.
  induction bs as [|b bs IH] using rev_ind; [done|]. intros [Hbs Hb]%Forall_app.
  apply Forall_inv in Hb. rewrite length_app. cbn [length]. rewrite Nat.add_1_r, be_bytes_S, be_value_app.
  unfold is_byte in Hb. rewrite Z.div_add_l, (Z.div_small b), Z.add_0_r, IH by (done || lia). do 2 f_equal.
  unfold wrap. change (2 ^ 8) with 256. by rewrite Z.add_comm, Z.mod_add, Z.mod_small by lia.
Qed.

Lemma be_fold_value n bs : Forall is_byte bs -> (length bs <= n)%nat -> be_fold n bs = be_value bs.
Proof.
  unfold be_fold, be_value. induction bs as [|b bs IH] using rev_ind; [done|]. intros [Hbs Hb]%Forall_app Hl.
  rewrite length_app in Hl. cbn in Hl. rewrite !foldl_app. cbn. rewrite IH by (done || lia).
  apply Forall_inv in Hb. pose proof (be_value_range bs Hbs) as Hr. fold (be_value bs).
  rewrite Z.shiftl_mul_pow2, lor_low_add by (done || lia). change (2 ^ 8) with 256.
  apply wrap_small. unfold is_byte in Hb.
  assert (2 ^ (8 * Z.of_nat (length bs)) * 256 <= 2 ^ (8 * Z.of_nat n)).
  { change 256 with (2 ^ 8). rewrite <- Z.pow_add_r by lia. apply Z.pow_le_mono_r; lia. }
  nia.
Qed.

Lemma read_be_value n bs :
  Forall is_byte bs -> (length bs <= n)%nat -> ReadBigEndianAdaptor n bs = Ok (be_value bs).
Proof.
  intros Hb Hl. unfold ReadBigEndianAdaptor. replace (n <? length bs)%nat with false by (symmetry; apply Nat.ltb_ge; lia).
  destruct (length bs =? 0)%nat eqn:E.
  - apply Nat.eqb_eq, length_zero_iff_nil in E. by subst.
  - by rewrite be_fold_value.
Qed.

Lemma read_be_written n m v :
  (m <= n)%nat -> 0 <= v < 2 ^ (8 * Z.of_nat m) -> ReadBigEndianAdaptor n (be_bytes m v) = Ok v.
Proof.
  intros Hm Hv. rewrite read_be_value by (apply be_bytes_bytes || by rewrite length_be_bytes).
  by rewrite be_value_bytes, Z.mod_small.
Qed.

Lemma read_be_one b : is_byte b -> ReadBigEndianAdaptor 1 [b] = Ok b.
Proof.
  intros Hb. by rewrite read_be_value; [|apply Forall_singleton|].
Qed.

Lemma be_fold_range n bs : 0 <= be_fold n bs < 2 ^ (8 * Z.of_nat n).
Proof.
  unfold be_fold. destruct bs as [|b bs _] using rev_ind; [cbn; split; [done|apply Z.pow_pos_nonneg; lia]|].
  rewrite foldl_app. cbn. apply wrap_range. lia.
Qed.

Lemma read_be_range n bs v : ReadBigEndianAdaptor n bs = Ok v -> 0 <= v < 2 ^ (8 * Z.of_nat n).
Proof.
  unfold ReadBigEndianAdaptor. repeat case_match; intros [= <-]; [|apply be_fold_range].
  split; [done|apply Z.pow_pos_nonneg; lia].
Qed.

(** ** Lemmas: frame headers *)

Lemma type_of_type_code t : type_ok t -> type_of_code (type_code t) = t.
Proof.
  destruct t as [| | | | | | | | | |code]; try done. cbn. intros Hc. unfold type_of_code.
  repeat (case_match; [lia|]). done.
Qed.

Lemma type_code_of_code z : 0 <= z < 256 -> type_code (type_of_code z) = z.
Proof. intros Hz. unfold type_of_code. repeat (case_match; [cbn; lia|]). done. Qed.

Lemma type_code_byte t : type_ok t -> is_byte (type_code t).
Proof. unfold is_byte. destruct t; cbn; lia. Qed.

Lemma mask_stream_id_eq id : mask_stream_id id = id mod 2 ^ 31.
Proof. apply (Z.land_ones id 31). lia. Qed.

Lemma mask_stream_id_idem id : mask_stream_id (Z.land 0x7FFFFFFF id) = mask_stream_id id.
Proof.
  rewrite Z.land_comm. fold (mask_stream_id id). rewrite !mask_stream_id_eq. by rewrite Z.mod_mod.
Qed.

Lemma mask_stream_id_range id : 0 <= mask_stream_id id < 2 ^ 31.
Proof. rewrite mask_stream_id_eq. apply Z.mod_pos_bound. lia. Qed.

(** The nine octets of a header. *)
Lemma header_bytes length type flags stream_id :
  is_byte flags -> type_ok type ->
  FrameHeaderClosureAdaptor length type flags stream_id [] =
  be_bytes 3 length ++ [type_code type] ++ [flags] ++ be_bytes 4 (mask_stream_id stream_id).
Proof.
  intros Hf Ht. pose proof (type_code_byte _ Ht).
  unfold FrameHeaderClosureAdaptor, WriteBigEndianAdaptor. rewrite <- !app_assoc. cbn [app].
  assert (H1 : forall v, is_byte v -> be_bytes 1 v = [v]).
  { intros v Hv. unfold be_bytes. cbn. rewrite Z.shiftr_0_r. by rewrite u8_small. }
  rewrite !H1 by done. done.
Qed.

Lemma length_frame_header length type flags stream_id :
  List.length (FrameHeaderClosureAdaptor length type flags stream_id []) = HEADER_SIZE.
Proof.
  unfold FrameHeaderClosureAdaptor, WriteBigEndianAdaptor. cbn [app].
  rewrite !length_app, length_drop, !length_be_bytes. done.
Qed.

Lemma read_written_header max length type flags stream_id rest :
  0 <= length <= max -> length < 2 ^ 24 -> is_byte flags -> type_ok type ->
  ReadFrameHeaderAdaptor max (take HEADER_SIZE (FrameHeaderClosureAdaptor length type flags stream_id [] ++ rest)) =
  Return (make_header length type flags stream_id).
Proof.
  intros Hl Hl2 Hf Ht. rewrite take_app_le, take_ge by (rewrite length_frame_header; lia).
  pose proof (length_frame_header length type flags stream_id) as Hlen. rewrite header_bytes in * by done.
  unfold ReadFrameHeaderAdaptor. rewrite Hlen. cbn [Nat.ltb Nat.leb HEADER_SIZE].
  rewrite take_app_length' by by rewrite length_be_bytes. rewrite !drop_app, length_be_bytes.
  rewrite (read_be_written 4 3) by lia. cbn [of_result mbind outcome_bind].
  replace (max <? length) with false by lia.
  change (drop 3 (be_bytes 3 length)) with (@nil Z). change (drop 4 (be_bytes 3 length)) with (@nil Z).
  change (drop 5 (be_bytes 3 length)) with (@nil Z). cbn [Datatypes.length Nat.sub drop app take].
  pose proof (type_code_byte _ Ht) as Htb.
  rewrite !read_be_one by done. cbn [of_result mbind outcome_bind].
  rewrite drop_0, take_ge by (by rewrite length_be_bytes). rewrite (read_be_written 4 4).
  2-3: pose proof (mask_stream_id_range stream_id); lia.
  cbn [of_result mbind outcome_bind]. rewrite type_of_type_code by done. unfold make_header. do 2 f_equal.
  rewrite mask_stream_id_idem, !mask_stream_id_eq. by rewrite Z.mod_mod.
Qed.

(** ** Lemmas: flags *)

(** Each flag is one bit. *)
Lemma has_flag_bit h n : 0 <= n -> has_flag h (2 ^ n) = Z.testbit (m_flags h) n.
Proof. intros Hn. unfold has_flag. rewrite land_pow2_testbit by done. by rewrite negb_involutive. Qed.

Lemma chunk_flag_end_headers a idx total :
  Z.testbit (a_flags a) 2 = false ->
  Z.testbit (chunk_flags a idx total) 2 = bool_decide (a_type a = HEADERS) && (idx =? total - 1)%nat.
Proof.
  intros Hf. unfold chunk_flags.
  repeat case_bool_decide; try congruence;
    destruct (idx =? total - 1)%nat, (a_no_data a), (a_end_stream_after_data a); cbn [andb orb negb];
    by rewrite ?Z.lor_spec, ?Hf.
Qed.

Lemma chunk_flag_end_stream a idx total :
  Z.testbit (a_flags a) 0 = false ->
  Z.testbit (chunk_flags a idx total) 0 =
  (idx =? total - 1)%nat &&
  (bool_decide (a_type a = HEADERS) && a_no_data a ||
   bool_decide (a_type a = DATA) && negb (a_end_stream_after_data a)).
Proof.
  intros Hf. unfold chunk_flags.
  repeat case_bool_decide; try congruence;
    destruct (idx =? total - 1)%nat, (a_no_data a), (a_end_stream_after_data a); cbn [andb orb negb];
    by rewrite ?Z.lor_spec, ?Hf.
Qed.

Lemma lor_byte a b : is_byte a -> is_byte b -> is_byte (Z.lor a b).
Proof.
  unfold is_byte. intros Ha Hb. change 256 with (2 ^ 8) in *.
  assert (H : Z.lor a b = Z.lor a b mod 2 ^ 8).
  { rewrite <- Z.land_ones, Z.land_lor_distr_l, !Z.land_ones by lia. by rewrite !Z.mod_small. }
  rewrite H. apply Z.mod_pos_bound. lia.
Qed.

Lemma chunk_flags_byte a idx total : is_byte (a_flags a) -> is_byte (chunk_flags a idx total).
Proof.
  intros H. unfold chunk_flags.
  repeat case_match; repeat apply lor_byte; try done; unfold is_byte, END_HEADERS, END_STREAM; lia.
Qed.

(** ** Lemmas: reading a sequence of frames *)

(** The reference reader: header, payload of the declared length, and so on. *)
Fixpoint parse_frames (fuel : nat) (max : Z) (bytes : list Z) : option (list (FrameHeader * list Z)) :=
  match bytes, fuel with
  | [], _ => Some []
  | _, O => None
  | _, S fuel =>
      match ReadFrameHeaderAdaptor max (take HEADER_SIZE bytes) with
      | Throw _ => None
      | Return h =>
          let rest := drop HEADER_SIZE bytes in
          let n := Z.to_nat (m_length h) in
          if (length rest <? n)%nat then None
          else frames ← parse_frames fuel max (drop n rest); Some ((h, take n rest) :: frames)
      end
  end.

Definition wire (f : FrameHeader * list Z) : list Z :=
  FrameHeaderClosureAdaptor (m_length f.1) (m_type f.1) (m_flags f.1) (m_stream_id f.1) [] ++ f.2.

Record frame_ok (max : Z) (f : FrameHeader * list Z) : Prop := {
  fo_length : m_length f.1 = Z.of_nat (length f.2);
  fo_max : m_length f.1 <= max < 2 ^ 24;
  fo_type : type_ok (m_type f.1);
  fo_flags : is_byte (m_flags f.1);
  fo_stream : 0 <= m_stream_id f.1 < 2 ^ 31;
}.

Lemma wire_length f : length (wire f) = (HEADER_SIZE + length f.2)%nat.
Proof. unfold wire. by rewrite length_app, length_frame_header. Qed.

Lemma parse_wire fuel max frames :
  Forall (frame_ok max) frames -> (length frames <= fuel)%nat ->
  parse_frames fuel max (concat (wire <$> frames)) = Some frames.
Proof.
  intros Hok. revert fuel. induction Hok as [|f frames Hf _ IH]; intros fuel Hfuel; [by destruct fuel|].
  cbn in Hfuel. destruct fuel as [|fuel]; [lia|]. destruct Hf as [Hl Hm Ht Hfl Hs].
  cbn [fmap list_fmap concat]. destruct f as [h p]. cbn [fst snd] in *.
  set (rest := concat (wire <$> frames)). cbn [parse_frames].
  destruct (wire (h, p) ++ rest) as [|b bs] eqn:E.
  { apply (f_equal length) in E. rewrite length_app, wire_length in E. cbn in E. lia. }
  rewrite <- E. clear b bs E. unfold wire. cbn [fst snd]. rewrite <- app_assoc.
  rewrite read_written_header by (done || lia). cbn [m_length make_header].
  rewrite drop_app_length' by (by rewrite length_frame_header). rewrite Hl, Nat2Z.id.
  replace (length (p ++ rest) <? length p)%nat with false
    by (symmetry; apply Nat.ltb_ge; rewrite length_app; lia).
  rewrite drop_app_length, take_app_length. unfold rest. rewrite IH by lia. cbn. do 3 f_equal.
  unfold make_header. rewrite mask_stream_id_eq, Z.mod_small by done. destruct h; cbn in *. by subst.
Qed.

(** ** Lemmas: chunks *)

Lemma chunked_S data s t :
  chunked data s (S t) = chunked data s t ++ [take s (drop (t * s) data)].
Proof. unfold chunked. by rewrite seq_S, fmap_app. Qed.

Lemma concat_chunked data s t : concat (chunked data s t) = take (t * s) data.
Proof.
  induction t as [|t IH]; [done|]. rewrite chunked_S, concat_app, IH. cbn. rewrite app_nil_r.
  rewrite take_take_drop. f_equal. lia.
Qed.

Lemma length_chunked data s t : length (chunked data s t) = t.
Proof. unfold chunked. by rewrite length_fmap, length_seq. Qed.

Lemma chunked_bound data s t : Forall (fun c => (length c <= s)%nat) (chunked data s t).
Proof. apply Forall_fmap, Forall_true. intros i. cbn. rewrite length_take. lia. Qed.

Lemma total_chunks_covers n s : (0 < s)%nat \/ n = 0%nat -> (n <= total_chunks n s * s)%nat.
Proof.
  intros Hs. unfold total_chunks. destruct (n =? 0)%nat eqn:E; [apply Nat.eqb_eq in E; lia|].
  apply Nat.eqb_neq in E. destruct Hs as [Hs|]; [|lia].
  pose proof (Nat.div_mod_eq (n + s - 1) s). pose proof (Nat.mod_upper_bound (n + s - 1) s). nia.
Qed.

(** The frames the adaptor writes. *)
Definition frames_of (a : WriteFrameClosureAdapter) (data : list Z) : list (FrameHeader * list Z) :=
  let s := Nat.min (a_max_frame_size a) (length data) in
  let t := total_chunks (length data) s in
  imap (fun i c => (make_header (u32 (Z.of_nat (length c))) (chunk_type a i) (chunk_flags a i t) (a_stream_id a), c))
    (chunked data s t).

Lemma imap_id {A} (l : list A) : imap (fun _ x => x) l = l.
Proof. induction l as [|x l IH]; [done|]. cbn. by rewrite IH at 1. Qed.

Lemma imap_app_wire (f : nat -> list Z -> FrameHeader * list Z) (g : nat -> list Z -> list Z) l :
  (forall i c, g i c = wire (f i c)) -> imap g l = wire <$> imap f l.
Proof. intros H. rewrite fmap_imap. apply imap_ext. intros i c _. apply H. Qed.

Lemma write_frames_wire a data :
  (0 < a_max_frame_size a)%nat ->
  write_frames a data = Ok (concat (wire <$> frames_of a data)).
Proof.
  intros Hm. unfold write_frames, frames_of.
  replace (negb (length data =? 0)%nat && (Nat.min (a_max_frame_size a) (length data) =? 0)%nat) with false.
  2: { destruct (length data) eqn:E; [done|]. cbn [Nat.eqb negb andb]. symmetry. apply Nat.eqb_neq. lia. }
  do 2 f_equal. apply imap_app_wire. intros i c. unfold frame_chunk, wire, make_header. cbn.
  unfold FrameHeaderClosureAdaptor. rewrite !mask_stream_id_eq. by rewrite Z.mod_mod.
Qed.

Lemma frames_of_payloads a data :
  (0 < a_max_frame_size a)%nat -> concat ((frames_of a data).*2) = data.
Proof.
  intros Hm. unfold frames_of. rewrite fmap_imap.
  rewrite (imap_ext _ (fun _ c => c)) by done. rewrite imap_id, concat_chunked.
  apply take_ge. apply total_chunks_covers. destruct data; [by right|left; cbn; lia].
Qed.

Lemma chunk_type_ok a i : type_ok (a_type a) -> type_ok (chunk_type a i).
Proof. unfold chunk_type. by destruct (_ && _). Qed.

Lemma frames_of_ok a data :
  (0 < a_max_frame_size a)%nat -> Z.of_nat (a_max_frame_size a) <= MAX_FRAME_SIZE ->
  type_ok (a_type a) -> is_byte (a_flags a) ->
  Forall (frame_ok (Z.of_nat (a_max_frame_size a))) (frames_of a data).
Proof.
  intros Hm HM Ht Hf. unfold MAX_FRAME_SIZE in HM. apply Forall_lookup. intros i f Hi. unfold frames_of in Hi.
  rewrite list_lookup_imap in Hi. apply fmap_Some in Hi as (c & Hc & ->).
  pose proof (proj1 (Forall_lookup _ _) (chunked_bound data _ _) i c Hc) as Hlen. cbn in Hlen.
  assert (Hu : u32 (Z.of_nat (length c)) = Z.of_nat (length c)) by (apply wrap_small; lia).
  split; cbn; rewrite ?Hu; [done|lia|by apply chunk_type_ok|by apply chunk_flags_byte|apply mask_stream_id_range].
Qed.

(** ** Theorems *)

(** The frames of a payload, told without the code: contents, bounds, types and flags. *)
Record framing (a : WriteFrameClosureAdapter) (data : list Z) (frames : list (FrameHeader * list Z)) : Prop := {
  fr_payload : concat (frames.*2) = data;
  fr_count : length frames = Nat.max 1 ((length data + a_max_frame_size a - 1) / a_max_frame_size a);
  fr_bound : Forall (fun f => (length f.2 <= a_max_frame_size a)%nat) frames;
  fr_stream : Forall (fun f => m_stream_id f.1 = a_stream_id a mod 2 ^ 31) frames;
  fr_type : forall i f, frames !! i = Some f ->
    m_type f.1 = match a_type a with
                 | HEADERS => if (i =? 0)%nat then HEADERS else CONTINUATION
                 | t => t
                 end;
  fr_end_headers : forall i f, frames !! i = Some f -> Z.testbit (a_flags a) 2 = false ->
    Z.testbit (m_flags f.1) 2 = true <-> a_type a = HEADERS /\ S i = length frames;
  fr_end_stream : forall i f, frames !! i = Some f -> Z.testbit (a_flags a) 0 = false ->
    Z.testbit (m_flags f.1) 0 = true <->
    S i = length frames /\
    (a_type a = HEADERS /\ a_no_data a = true \/ a_type a = DATA /\ a_end_stream_after_data a = false);
}.

Lemma total_chunks_count n m :
  (0 < m)%nat -> total_chunks n (Nat.min m n) = Nat.max 1 ((n + m - 1) / m).
Proof.
  intros Hm. unfold total_chunks. destruct (n =? 0)%nat eqn:E.
  { apply Nat.eqb_eq in E as ->. rewrite Nat.div_small by lia. lia. }
  apply Nat.eqb_neq in E. destruct (decide (n <= m)%nat).
  - rewrite Nat.min_r by lia. replace ((n + n - 1) / n)%nat with 1%nat.
    2: { apply (Nat.div_unique _ _ 1 (n - 1)); lia. }
    replace ((n + m - 1) / m)%nat with 1%nat; [lia|]. apply (Nat.div_unique _ _ 1 (n - 1)); lia.
  - rewrite Nat.min_l by lia. assert (1 <= (n + m - 1) / m)%nat; [|lia]. apply Nat.div_le_lower_bound; lia.
Qed.

Lemma frames_of_framing a data : (0 < a_max_frame_size a)%nat -> framing a data (frames_of a data).
Proof.
  intros Hm.
  assert (Hn : length (frames_of a data) = total_chunks (length data) (Nat.min (a_max_frame_size a) (length data)))
    by (unfold frames_of; by rewrite length_imap, length_chunked).
  assert (Hat : forall i f, frames_of a data !! i = Some f ->
    exists c, f = (make_header (u32 (Z.of_nat (length c))) (chunk_type a i)
                    (chunk_flags a i (length (frames_of a data))) (a_stream_id a), c) /\
    (length c <= a_max_frame_size a)%nat).
  { intros i f Hi. rewrite Hn. unfold frames_of in Hi. rewrite list_lookup_imap in Hi.
    apply fmap_Some in Hi as (c & Hc & ->). exists c. split; [done|].
    pose proof (proj1 (Forall_lookup _ _) (chunked_bound data _ _) i c Hc). cbn in *. lia. }
  split.
  - by apply frames_of_payloads.
  - by rewrite Hn, total_chunks_count.
  - apply Forall_lookup. intros i f Hi. destruct (Hat _ _ Hi) as (c & -> & Hc). done.
  - apply Forall_lookup. intros i f Hi. destruct (Hat _ _ Hi) as (c & -> & Hc). cbn. apply mask_stream_id_eq.
  - intros i f Hi. destruct (Hat _ _ Hi) as (c & -> & Hc). cbn. unfold chunk_type.
    destruct (a_type a); try done. by destruct (i =? 0)%nat.
  - intros i f Hi Hf. destruct (Hat _ _ Hi) as (c & -> & Hc). cbn [fst m_flags make_header]. rewrite chunk_flag_end_headers by done.
    apply lookup_lt_Some in Hi. rewrite andb_true_iff, bool_decide_eq_true, Nat.eqb_eq. intuition lia.
  - intros i f Hi Hf. destruct (Hat _ _ Hi) as (c & -> & Hc). cbn [fst m_flags make_header]. rewrite chunk_flag_end_stream by done.
    apply lookup_lt_Some in Hi.
    rewrite andb_true_iff, orb_true_iff, !andb_true_iff, !bool_decide_eq_true, negb_true_iff, Nat.eqb_eq.
    intuition lia.
Qed.

(** C16: Cutting a payload into frames loses nothing and is what RFC 9113 asks: reading the octets
    frame by frame gives frames whose payloads join to the payload, none larger than the limit,
    as few as possible but at least one, all on the stream; a header block starts with HEADERS and
    goes on with CONTINUATION; exactly the last frame of a header block ends it; and exactly the
    last frame carries END_STREAM, when the caller asked for that. *)
Theorem framing_round_trip a data :
  (0 < a_max_frame_size a)%nat -> Z.of_nat (a_max_frame_size a) <= MAX_FRAME_SIZE ->
  type_ok (a_type a) -> is_byte (a_flags a) ->
  exists bytes frames,
    write_frames a data = Ok bytes /\
    parse_frames (length bytes) (Z.of_nat (a_max_frame_size a)) bytes = Some frames /\
    framing a data frames.
Proof.
  intros Hm HM Ht Hf. exists (concat (wire <$> frames_of a data)), (frames_of a data).
  split; [by apply write_frames_wire|]. split; [|by apply frames_of_framing].
  apply parse_wire; [by apply frames_of_ok|].
  induction (frames_of a data) as [|f fs IH]; [done|]. cbn [fmap list_fmap concat length].
  rewrite length_app, wire_length. unfold HEADER_SIZE. cbn in IH. lia.
Qed.

Lemma framing_round_trip_witness :
  let a := mkClosure 3 HEADERS 0 4 false true in
  exists bytes frames,
    write_frames a [1; 2; 3; 4; 5; 6; 7; 8; 9] = Ok bytes /\
    parse_frames (length bytes) 4 bytes = Some frames /\ framing a [1; 2; 3; 4; 5; 6; 7; 8; 9] frames.
Proof.
  apply (framing_round_trip (mkClosure 3 HEADERS 0 4 false true) [1; 2; 3; 4; 5; 6; 7; 8; 9]);
    [cbn; lia|cbn; unfold MAX_FRAME_SIZE; lia|exact I|cbn; unfold is_byte; lia].
Defined.

(** A list of octets known one by one. *)
Ltac forall_bytes := decompose_Forall_hyps; repeat (apply Forall_cons_2; [assumption|]); apply Forall_nil_2.

(** Reading a frame header is total on nine octets, keeps the limit, and forgets nothing but the
    reserved bit: writing the header back gives the octets with that bit cleared. *)
Theorem read_header_sound max o1 o2 o3 t f i1 i2 i3 i4 :
  Forall is_byte [o1; o2; o3; t; f; i1; i2; i3; i4] ->
  match ReadFrameHeaderAdaptor max [o1; o2; o3; t; f; i1; i2; i3; i4] with
  | Return h =>
      m_length h <= max /\
      FrameHeaderClosureAdaptor (m_length h) (m_type h) (m_flags h) (m_stream_id h) [] =
        [o1; o2; o3; t; f; i1 mod 128; i2; i3; i4]
  | Throw e => e = ConnectionError FRAME_SIZE_ERROR MAX_CONNECTED_STREAMS /\ max < be_value [o1; o2; o3]
  end.
Proof.
  intros Hb. unfold ReadFrameHeaderAdaptor. cbn [length Nat.ltb Nat.leb HEADER_SIZE take drop].
  rewrite (read_be_value 4 [o1; o2; o3]) by (forall_bytes || cbn; lia).
  cbn [of_result mbind outcome_bind]. destruct (max <? be_value [o1; o2; o3]) eqn:E; [split; [done|lia]|].
  rewrite !read_be_one by by decompose_Forall_hyps.
  rewrite (read_be_value 4 [i1; i2; i3; i4]) by (forall_bytes || cbn; lia).
  cbn [of_result mbind outcome_bind]. split; [apply Z.ltb_ge in E; exact E|]. cbn [m_length m_type m_flags m_stream_id make_header].
  decompose_Forall_hyps. rewrite header_bytes.
  2: done.
  2: { unfold type_of_code, is_byte in *. repeat case_match; try done. cbn. lia. }
  rewrite type_code_of_code by (unfold is_byte in *; lia).
  assert (Hlen : be_bytes 3 (be_value [o1; o2; o3]) = [o1; o2; o3]) by (apply be_bytes_value; forall_bytes).
  rewrite Hlen. cbn [app]. do 5 f_equal. rewrite mask_stream_id_idem, mask_stream_id_eq, mask_stream_id_eq, Z.mod_mod by lia.
  assert (Hi : be_value [i1; i2; i3; i4] mod 2 ^ 31 = be_value [i1 mod 128; i2; i3; i4]).
  { unfold be_value, is_byte in *. cbn [foldl]. change (2 ^ 31) with (128 * 16777216). mlia. }
  rewrite Hi. apply (be_bytes_value [i1 mod 128; i2; i3; i4]). apply Forall_cons_2; [unfold is_byte; mlia|forall_bytes].
Qed.

(** Every frame of a body, and every frame of a header block that is not also the end of the stream,
    passes the layer's own validation. *)
Theorem framed_validate a data role :
  a_type a = DATA \/ a_type a = HEADERS /\ a_no_data a = false ->
  a_flags a = 0 -> a_stream_id a mod 2 ^ 31 <> 0 ->
  Forall (fun f => validate role f.1 = Return tt) (frames_of a data).
Proof.
  intros Ht Hf Hs. apply Forall_lookup. intros i f Hi. unfold frames_of in Hi.
  rewrite list_lookup_imap in Hi. apply fmap_Some in Hi as (c & Hc & ->). clear Hc. cbn [fst].
  unfold validate, make_header. cbn [m_type m_stream_id].
  rewrite <- mask_stream_id_eq in Hs. set (id := mask_stream_id (a_stream_id a)) in *.
  unfold chunk_type, chunk_flags. rewrite Hf.
  destruct Ht as [Ht|[Ht Hn]]; rewrite Ht, ?Hn; repeat case_bool_decide; try congruence; cbn [andb negb].
  all: destruct (i =? 0)%nat; cbn [negb]; rewrite ?bool_decide_false by done; cbn [andb negb];
    unfold validate_data, validate_headers, validate_continuation; cbn [m_stream_id];
    apply Z.eqb_neq in Hs; rewrite Hs.
  all: destruct role; destruct (i =? _)%nat; try destruct (negb (a_end_stream_after_data a)); cbn;
    rewrite ?andb_false_r; try done.
  all: unfold min_len, is_padded, has_flag; cbn; rewrite ?(proj2 (Z.ltb_ge _ 0)); try done; apply wrap_range; lia.
Qed.

(** A header block of several frames that also ends the stream carries END_STREAM on its last
    CONTINUATION, where RFC 9113 section 6.10 has no such flag: the layer's own validation rejects
    the frame. *)
Theorem end_stream_on_continuation :
  exists h p, frames_of (mkClosure 1 HEADERS 0 2 false true) [7; 8; 9] !! 1%nat = Some (h, p) /\
    m_type h = CONTINUATION /\ is_end_stream h = true /\ validate RECEIVER h = Throw (ConnectionError PROTOCOL_ERROR 1).
Proof. do 2 eexists. repeat split; vm_compute; reflexivity. Qed.
