(* ===== verification/Settings.v ===== *)
(** * HTTP/2 settings

    Models src/include/io/layer/http2/settings.cppm: [Settings] with [apply] and [apply_all], and the
    adaptors that read and write a SETTINGS payload; and of src/include/io/layer/shared/ping.cppm the
    part of [PingTracker] that frames reach.  The round-trip statistics of the tracker, which are
    computed in floating point and read by nobody, are left out; times are numbers of ticks. *)

From Stdlib Require Import ZArith Lia.
From stdpp Require Import base list gmap.
From S2P Require Import Prelude Frame.

Open Scope Z_scope.

(** ** Ping tracker *)

Module Ping.

(** [m_inflight] maps the key of a payload to the time it was sent. *)
Record PingTracker := mkPingTracker {
  m_inflight : gmap Z Z;
  m_last_activity : Z;
  m_timed_out : bool;
}.

Record Config := mkConfig { m_keepalive_interval : Z; m_ping_timeout : Z; m_max_inflight : nat }.

Definition new_tracker (now : Z) : PingTracker := mkPingTracker ∅ now false.

(** [memcpy] of eight bytes out of a vector. *)
Definition payload_key (payload : list Z) : result Z :=
  if (length payload <? 8)%nat then Err UndefinedBehaviour else Ok (be_value (rev (take 8 payload))).

(** [memcpy] of eight bytes into a vector, which [random_payload] leaves empty. *)
Definition random_payload (random_value : list Z) : result (list Z) :=
  let payload_bytes : list Z := [] in
  if (length payload_bytes <? 8)%nat then Err UndefinedBehaviour else Ok random_value.

Definition note_activity (now : Z) (p : PingTracker) : PingTracker :=
  mkPingTracker (m_inflight p) now (m_timed_out p).

Definition make_ping (cfg : Config) (random_value : list Z) (now : Z) (p : PingTracker)
    : result (option (list Z) * PingTracker) :=
  if (m_max_inflight cfg <=? size (m_inflight p))%nat then Ok (None, p)
  else
    payload ← random_payload random_value;
    key ← payload_key payload;
    let inflight := match m_inflight p !! key with
                    | Some _ => m_inflight p
                    | None => <[key := now]> (m_inflight p)
                    end in
    Ok (Some payload, mkPingTracker inflight (m_last_activity p) (m_timed_out p)).

Definition on_ack (payload : list Z) (now : Z) (p : PingTracker) : result (bool * PingTracker) :=
  key ← payload_key payload;
  match m_inflight p !! key with
  | None => Ok (false, p)
  | Some _ => Ok (true, mkPingTracker (delete key (m_inflight p)) now (m_timed_out p))
  end.

Inductive Action := SEND_PING (payload : list Z) | SEND_GOAWAY.

Definition check_keepalive (cfg : Config) (random_value : list Z) (now : Z) (p : PingTracker)
    : result (option Action * PingTracker) :=
  if existsb (fun '(_, sent_at) => m_ping_timeout cfg <=? now - sent_at) (map_to_list (m_inflight p))
  then Ok (Some SEND_GOAWAY, mkPingTracker (m_inflight p) (m_last_activity p) true)
  else if (m_keepalive_interval cfg <=? now - m_last_activity p) && (size (m_inflight p) =? 0)%nat then
    '(payload, p) ← make_ping cfg random_value now p;
    match payload with Some payload => Ok (Some (SEND_PING payload), p) | None => Ok (None, p) end
  else Ok (None, p).

(** Pinging is undefined from the start: the payload is copied into an empty vector. *)
Theorem make_ping_undefined cfg random_value now :
  (0 < m_max_inflight cfg)%nat ->
  make_ping cfg random_value now (new_tracker now) = Err UndefinedBehaviour.
Proof.
  intros H. unfold make_ping, new_tracker. cbn [m_inflight]. rewrite map_size_empty.
  replace (m_max_inflight cfg <=? 0)%nat with false by (symmetry; apply Nat.leb_gt; lia). done.
Qed.

End Ping.

(** ** [Settings] *)

Inductive SettingsState := UNACKNOWLEDGED | ACKNOWLEDGED | IMPLEMENTED.

#[export] Instance SettingsState_eq_dec : EqDecision SettingsState.
Proof. solve_decision. Defined.

Record Settings := mkSettings {
  m_header_table_size : Z;
  m_enable_push : bool;
  m_max_concurrent_streams : Z;
  m_initial_window_size : Z;
  m_max_frame_size : Z;
  m_max_header_list_size : Z;
  m_state : SettingsState;
  m_last_stream_id : Z;
  m_ping_tracker : Ping.PingTracker;
  m_delta_window_on_settings : Z;
  m_vendor_settings : list (Z * Z);
}.

Definition UINT32_MAX : Z := 4294967295.

(** The default constructor; the ping tracker reads the clock. *)
Definition default_settings (now : Z) : Settings :=
  mkSettings DEFAULT_HEADER_TABLE_SIZE true 100 DEFAULT_INITIAL_WINDOW_SIZE MIN_FRAME_SIZE UINT32_MAX
    UNACKNOWLEDGED MAX_CONNECTED_STREAMS (Ping.new_tracker now) 0 [].

Definition with_six (table : Z) (push : bool) (streams window frame lists : Z) (vendor : list (Z * Z)) (s : Settings)
    : Settings :=
  mkSettings table push streams window frame lists (m_state s) (m_last_stream_id s) (m_ping_tracker s)
    (m_delta_window_on_settings s) vendor.

Definition set_last_stream_id (stream_id : Z) (s : Settings) : Settings :=
  mkSettings (m_header_table_size s) (m_enable_push s) (m_max_concurrent_streams s) (m_initial_window_size s)
    (m_max_frame_size s) (m_max_header_list_size s) (m_state s) stream_id (m_ping_tracker s)
    (m_delta_window_on_settings s) (m_vendor_settings s).

Definition set_delta_window_on_settings (delta : Z) (s : Settings) : Settings :=
  mkSettings (m_header_table_size s) (m_enable_push s) (m_max_concurrent_streams s) (m_initial_window_size s)
    (m_max_frame_size s) (m_max_header_list_size s) (m_state s) (m_last_stream_id s) (m_ping_tracker s)
    delta (m_vendor_settings s).

Definition set_state (state : SettingsState) (s : Settings) : Settings :=
  mkSettings (m_header_table_size s) (m_enable_push s) (m_max_concurrent_streams s) (m_initial_window_size s)
    (m_max_frame_size s) (m_max_header_list_size s) state (m_last_stream_id s) (m_ping_tracker s)
    (m_delta_window_on_settings s) (m_vendor_settings s).

(** What [get_ping_tracker()] lets the caller change. *)
Definition set_ping_tracker (p : Ping.PingTracker) (s : Settings) : Settings :=
  mkSettings (m_header_table_size s) (m_enable_push s) (m_max_concurrent_streams s) (m_initial_window_size s)
    (m_max_frame_size s) (m_max_header_list_size s) (m_state s) (m_last_stream_id s) p
    (m_delta_window_on_settings s) (m_vendor_settings s).

Definition add_vendor (setting_id value : Z) (s : Settings) : Settings :=
  with_six (m_header_table_size s) (m_enable_push s) (m_max_concurrent_streams s) (m_initial_window_size s)
    (m_max_frame_size s) (m_max_header_list_size s) (m_vendor_settings s ++ [(setting_id, value)]) s.

Definition add_local_setting_override := add_vendor.

Definition apply (setting_id value : Z) (s : Settings) : outcome Settings :=
  let '(table, push, streams) := (m_header_table_size s, m_enable_push s, m_max_concurrent_streams s) in
  let '(window, frame, lists) := (m_initial_window_size s, m_max_frame_size s, m_max_header_list_size s) in
  let vendor := m_vendor_settings s in
  if setting_id =? 0x1 then Return (with_six value push streams window frame lists vendor s)
  else if setting_id =? 0x2 then
    if 1 <? value then connection_error PROTOCOL_ERROR
    else Return (with_six table (value =? 1) streams window frame lists vendor s)
  else if setting_id =? 0x3 then Return (with_six table push value window frame lists vendor s)
  else if setting_id =? 0x4 then
    if MAX_INITIAL_WINDOW_SIZE <? value then connection_error FLOW_CONTROL_ERROR
    else Return (with_six table push streams value frame lists vendor s)
  else if setting_id =? 0x5 then
    if (value <? MIN_FRAME_SIZE) || (MAX_FRAME_SIZE <? value) then connection_error PROTOCOL_ERROR
    else Return (with_six table push streams window value lists vendor s)
  else if setting_id =? 0x6 then Return (with_six table push streams window frame value vendor s)
  else Return (add_vendor setting_id value s).

Definition apply_all (other s : Settings) : Settings :=
  with_six (m_header_table_size other) (m_enable_push other) (m_max_concurrent_streams other)
    (m_initial_window_size other) (m_max_frame_size other) (m_max_header_list_size other)
    (m_vendor_settings other) s.

Definition next_stream_id (s : Settings) : Z * Settings :=
  let id := u32 (m_last_stream_id s + 2) in (id, set_last_stream_id id s).

Definition is_finished (s : Settings) : bool := bool_decide (m_state s = IMPLEMENTED).
Definition is_acknowledged (s : Settings) : bool := bool_decide (m_state s = ACKNOWLEDGED).

Definition generate_ack : FrameBuilder :=
  add_stream_id 0 (add_flags ACK (add_type SETTINGS new_builder)).

(** ** The SETTINGS payload *)

(** [views::chunk(6)], the filter that drops a last partial chunk, and the fold of [apply]. *)
Fixpoint read_settings (data : list Z) (acc : Settings) : outcome Settings :=
  match data with
  | i1 :: i2 :: v1 :: v2 :: v3 :: v4 :: data =>
      setting_id ← of_result (ReadBigEndianAdaptor 2 [i1; i2]);
      value ← of_result (ReadBigEndianAdaptor 4 [v1; v2; v3; v4]);
      acc ← apply setting_id value acc;
      read_settings data acc
  | _ => Return acc
  end.

Definition ReadSettingsAdaptor (now : Z) (data : list Z) : outcome Settings :=
  read_settings data (default_settings now).

(** [emit]. *)
Definition emit (setting_id value : Z) : list Z :=
  WriteBigEndianAdaptor 4 value (WriteBigEndianAdaptor 2 setting_id []).

Definition WriteSettingsAdaptor (s : Settings) (range : list Z) : list Z :=
  range ++
  (if negb (m_header_table_size s =? DEFAULT_HEADER_TABLE_SIZE) then emit 0x1 (m_header_table_size s) else []) ++
  (if negb (m_enable_push s) then emit 0x2 0 else []) ++
  (if negb (m_max_concurrent_streams s =? UINT32_MAX) then emit 0x3 (m_max_concurrent_streams s) else []) ++
  (if negb (m_initial_window_size s =? DEFAULT_INITIAL_WINDOW_SIZE) then emit 0x4 (m_initial_window_size s) else []) ++
  (if MIN_FRAME_SIZE <=? m_max_frame_size s then emit 0x5 (m_max_frame_size s) else []) ++
  (if negb (m_max_header_list_size s =? UINT32_MAX) then emit 0x6 (m_max_header_list_size s) else []) ++
  concat ((fun '(setting_id, value) => emit setting_id value) <$> m_vendor_settings s).

(** ** The invariant of a settings object *)

Definition u32_ok (v : Z) : Prop := 0 <= v < 2 ^ 32.

Record settings_ok (s : Settings) : Prop := {
  so_table : u32_ok (m_header_table_size s);
  so_streams : u32_ok (m_max_concurrent_streams s);
  so_window : 0 <= m_initial_window_size s <= MAX_INITIAL_WINDOW_SIZE;
  so_frame : MIN_FRAME_SIZE <= m_max_frame_size s <= MAX_FRAME_SIZE;
  so_list : u32_ok (m_max_header_list_size s);
  so_last : u32_ok (m_last_stream_id s);
  so_vendor : Forall (fun '(setting_id, value) => 0 <= setting_id < 2 ^ 16 /\ ~ 1 <= setting_id <= 6 /\ u32_ok value)
                (m_vendor_settings s);
}.

Lemma default_ok now : settings_ok (default_settings now).
Proof. split; cbn; try done; unfold u32_ok, UINT32_MAX, DEFAULT_INITIAL_WINDOW_SIZE, MAX_INITIAL_WINDOW_SIZE; lia. Qed.

Lemma apply_ok setting_id value s s' :
  0 <= setting_id < 2 ^ 16 -> u32_ok value -> settings_ok s ->
  apply setting_id value s = Return s' -> settings_ok s'.
Proof.
  intros Hi Hv [] H. unfold apply in H.
  unfold connection_error in H. repeat case_match; simplify_eq;
    split; cbn; try done;
    rewrite ?Z.ltb_ge, ?orb_false_iff in *; unfold MAX_INITIAL_WINDOW_SIZE, u32_ok in *; try lia.
  apply Forall_app. split; [done|]. apply Forall_singleton. lia.
Qed.

Lemma read_be_bytes n bs :
  Forall is_byte bs -> (length bs <= n)%nat ->
  ReadBigEndianAdaptor n bs = Ok (be_value bs) /\ 0 <= be_value bs < 2 ^ (8 * Z.of_nat (length bs)).
Proof. intros Hb Hl. split; [by apply read_be_value|by apply be_value_range]. Qed.

(** Induction on the whole entries of a payload. *)
Lemma chunk6_ind (P : list Z -> Prop) :
  (forall data, (length data < 6)%nat -> P data) ->
  (forall i1 i2 v1 v2 v3 v4 data, P data -> P (i1 :: i2 :: v1 :: v2 :: v3 :: v4 :: data)) ->
  forall data, P data.
Proof.
  intros Hs Hc data. remember (length data) as n eqn:Hn. revert data Hn.
  induction n as [n IH] using lt_wf_ind. intros data ->.
  do 6 (destruct data as [|? data]; [apply Hs; cbn; lia|]). apply Hc. apply (IH (length data)); [cbn; lia|done].
Qed.

Lemma read_settings_short data acc : (length data < 6)%nat -> read_settings data acc = Return acc.
Proof. intros H. do 6 (destruct data as [|? data]; [done|]). cbn in H. lia. Qed.

Lemma read_settings_ok data acc s :
  Forall is_byte data -> settings_ok acc -> read_settings data acc = Return s -> settings_ok s.
Proof.
  revert acc. induction data as [data Hd|i1 i2 v1 v2 v3 v4 data IH] using chunk6_ind; intros acc Hb Ha H.
  { rewrite read_settings_short in H by done. by simplify_eq. }
  do 2 apply Forall_cons_1 in Hb as [? Hb]. do 4 apply Forall_cons_1 in Hb as [? Hb].
  destruct (read_be_bytes 2 [i1; i2]) as [E1 R1]; [forall_bytes|cbn; lia|].
  destruct (read_be_bytes 4 [v1; v2; v3; v4]) as [E2 R2]; [forall_bytes|cbn; lia|].
  cbn [read_settings] in H. rewrite E1, E2 in H. cbn [of_result mbind outcome_bind] in H.
  destruct (apply _ _ acc) eqn:E; cbn in H; [|done]. apply IH in H; [done..|]. by apply apply_ok in E.
Qed.

(** ** Lemmas: reading what was written *)

Lemma emit_read id v data acc :
  0 <= id < 2 ^ 16 -> u32_ok v ->
  read_settings (emit id v ++ data) acc = s ← apply id v acc; read_settings data s.
Proof.
  intros Hi Hv. unfold emit, WriteBigEndianAdaptor. cbn [app].
  pose proof (read_be_written 2 2 id ltac:(lia) Hi) as H2. pose proof (read_be_written 4 4 v ltac:(lia) Hv) as H4.
  unfold be_bytes in *. cbn [fmap list_fmap seq app] in *. cbn [read_settings]. by rewrite H2, H4.
Qed.

(** An entry that is written only under a condition; when it is not, the receiver's value must
    already be the one it would have set. *)
Lemma emit_cond_read (b : bool) id v data acc :
  0 <= id < 2 ^ 16 -> u32_ok v -> (b = false -> apply id v acc = Return acc) ->
  read_settings ((if b then emit id v else []) ++ data) acc = s ← apply id v acc; read_settings data s.
Proof. intros Hi Hv Hb. destruct b; [by apply emit_read|]. by rewrite Hb. Qed.

Definition vendor_ok (e : Z * Z) : Prop :=
  let '(setting_id, value) := e in 0 <= setting_id < 2 ^ 16 /\ ~ 1 <= setting_id <= 6 /\ u32_ok value.

Lemma vendor_read vs acc :
  Forall vendor_ok vs ->
  read_settings (concat ((fun '(setting_id, value) => emit setting_id value) <$> vs)) acc =
  Return (foldl (fun s '(setting_id, value) => add_vendor setting_id value s) acc vs).
Proof.
  intros Hv. revert acc. induction Hv as [|[i v] vs (Hi & Hn & Hv) _ IH]; intros acc; [done|].
  cbn [fmap list_fmap concat foldl]. rewrite emit_read by done. unfold apply.
  rewrite !(proj2 (Z.eqb_neq i _)) by lia. cbn. apply IH.
Qed.

Lemma add_vendors acc vs :
  foldl (fun s '(setting_id, value) => add_vendor setting_id value s) acc vs =
  with_six (m_header_table_size acc) (m_enable_push acc) (m_max_concurrent_streams acc)
    (m_initial_window_size acc) (m_max_frame_size acc) (m_max_header_list_size acc)
    (m_vendor_settings acc ++ vs) acc.
Proof.
  revert acc. induction vs as [|[i v] vs IH]; intros acc; cbn [foldl].
  - rewrite app_nil_r. by destruct acc.
  - rewrite IH. unfold add_vendor, with_six. cbn. by rewrite <- app_assoc.
Qed.

(** A receiver reads from a SETTINGS payload exactly the values the sender holds, the extension
    settings included and in order.  The exception is the largest 32-bit number of streams: it is
    taken for the default and left out, but the reader's default is 100. *)
Theorem settings_round_trip s now :
  settings_ok s ->
  ReadSettingsAdaptor now (WriteSettingsAdaptor s []) =
  Return (apply_all
    (if m_max_concurrent_streams s =? UINT32_MAX
     then with_six (m_header_table_size s) (m_enable_push s) 100 (m_initial_window_size s) (m_max_frame_size s)
            (m_max_header_list_size s) (m_vendor_settings s) s
     else s) (default_settings now)).
Proof.
  intros [Ht Hs Hw Hf Hl _ Hv]. unfold ReadSettingsAdaptor, WriteSettingsAdaptor. cbn [app].
  unfold MAX_INITIAL_WINDOW_SIZE, MIN_FRAME_SIZE, MAX_FRAME_SIZE in *.
  rewrite emit_cond_read; [|done|done|].
  2: { intros E%negb_false_iff%Z.eqb_eq. by rewrite E. }
  cbn [apply Z.eqb Pos.eqb mbind outcome_bind]. set (a1 := with_six _ _ _ _ _ _ _ _).
  assert (H2 : forall data, read_settings ((if negb (m_enable_push s) then emit 2 0 else []) ++ data) a1 =
    read_settings data (with_six (m_header_table_size s) (m_enable_push s) 100 DEFAULT_INITIAL_WINDOW_SIZE
      MIN_FRAME_SIZE UINT32_MAX [] (default_settings now))).
  { intros data. destruct (m_enable_push s); cbn [negb]; [done|].
    rewrite emit_read by done. done. }
  rewrite H2. set (a2 := with_six _ _ _ _ _ _ _ _).
  assert (H3 : forall data,
    read_settings ((if negb (m_max_concurrent_streams s =? UINT32_MAX) then emit 3 (m_max_concurrent_streams s) else []) ++ data) a2 =
    read_settings data (with_six (m_header_table_size s) (m_enable_push s)
      (if m_max_concurrent_streams s =? UINT32_MAX then 100 else m_max_concurrent_streams s)
      DEFAULT_INITIAL_WINDOW_SIZE MIN_FRAME_SIZE UINT32_MAX [] (default_settings now))).
  { intros data. destruct (m_max_concurrent_streams s =? UINT32_MAX); cbn [negb]; [done|].
    rewrite emit_read by done. done. }
  rewrite H3. set (a3 := with_six _ _ _ _ _ _ _ _).
  rewrite emit_cond_read; [|done|unfold u32_ok; lia|].
  2: { intros E%negb_false_iff%Z.eqb_eq. by rewrite E. }
  unfold apply at 1. cbn [Z.eqb Pos.eqb]. unfold MAX_INITIAL_WINDOW_SIZE. rewrite (proj2 (Z.ltb_ge _ _)) by lia.
  cbn [mbind outcome_bind]. unfold MIN_FRAME_SIZE. rewrite (proj2 (Z.leb_le _ _)) by lia.
  rewrite emit_read by (unfold u32_ok; lia). unfold apply at 1. cbn [Z.eqb Pos.eqb].
  unfold MIN_FRAME_SIZE, MAX_FRAME_SIZE. rewrite !(proj2 (Z.ltb_ge _ _)) by lia. cbn [orb mbind outcome_bind].
  rewrite emit_cond_read; [|done|done|].
  2: { intros E%negb_false_iff%Z.eqb_eq. by rewrite E. }
  unfold apply at 1. cbn [Z.eqb Pos.eqb mbind outcome_bind]. rewrite vendor_read, add_vendors.
  2: { eapply Forall_impl; [exact Hv|]. by intros []. }
  unfold apply_all, with_six. cbn. by destruct (m_max_concurrent_streams s =? UINT32_MAX).
Qed.

Definition demo_settings : Settings :=
  with_six 8192 false 50 100000 32768 65536 [(8, 1); (77, 5)] (default_settings 0).

Lemma settings_round_trip_witness :
  settings_ok demo_settings /\
  ReadSettingsAdaptor 0 (WriteSettingsAdaptor demo_settings []) = Return (apply_all demo_settings (default_settings 0)).
Proof.
  assert (H : settings_ok demo_settings).
  { split; cbn; unfold u32_ok, MAX_INITIAL_WINDOW_SIZE, MIN_FRAME_SIZE, MAX_FRAME_SIZE, MAX_CONNECTED_STREAMS; try lia.
    repeat (apply Forall_cons_2; [lia|]). apply Forall_nil_2. }
  split; [exact H|]. exact (settings_round_trip demo_settings 0 H).
Defined.

(** *** The payload as RFC 9113 reads it *)

(** Section 6.5.1: entries of an identifier in two octets and a value in four; what is left over at the
    end is not an entry. *)
Fixpoint parameters (data : list Z) : list (Z * Z) :=
  match data with
  | i1 :: i2 :: v1 :: v2 :: v3 :: v4 :: data =>
      (256 * i1 + i2, 256 * (256 * (256 * v1 + v2) + v3) + v4) :: parameters data
  | _ => []
  end.

(** Section 6.5.2: the error that an entry is to be answered with. *)
Definition offence (p : Z * Z) : option Http2ErrorCode :=
  let '(setting_id, value) := p in
  if decide (setting_id = 2 /\ ~ 0 <= value <= 1) then Some PROTOCOL_ERROR             (* ENABLE_PUSH *)
  else if decide (setting_id = 4 /\ 2 ^ 31 - 1 < value) then Some FLOW_CONTROL_ERROR   (* INITIAL_WINDOW_SIZE *)
  else if decide (setting_id = 5 /\ ~ 2 ^ 14 <= value <= 2 ^ 24 - 1) then Some PROTOCOL_ERROR  (* MAX_FRAME_SIZE *)
  else None.

(** The last value of a setting, or what it was before. *)
Definition setting (setting_id before : Z) (ps : list (Z * Z)) : Z :=
  foldl (fun v p => if p.1 =? setting_id then p.2 else v) before ps.

Definition is_vendor (p : Z * Z) : Prop := ~ 1 <= p.1 <= 6.

(** [s] is [acc] with the entries [ps] applied in order. *)
Record applied (ps : list (Z * Z)) (acc s : Settings) : Prop := {
  ap_table : m_header_table_size s = setting 1 (m_header_table_size acc) ps;
  ap_push : Z.b2z (m_enable_push s) = setting 2 (Z.b2z (m_enable_push acc)) ps;
  ap_streams : m_max_concurrent_streams s = setting 3 (m_max_concurrent_streams acc) ps;
  ap_window : m_initial_window_size s = setting 4 (m_initial_window_size acc) ps;
  ap_frame : m_max_frame_size s = setting 5 (m_max_frame_size acc) ps;
  ap_lists : m_max_header_list_size s = setting 6 (m_max_header_list_size acc) ps;
  ap_vendor : m_vendor_settings s = m_vendor_settings acc ++ filter is_vendor ps;
  ap_state : m_state s = m_state acc;
}.

Lemma apply_spec setting_id value acc :
  0 <= setting_id < 2 ^ 16 -> u32_ok value ->
  match offence (setting_id, value) with
  | Some code => apply setting_id value acc = connection_error code
  | None => exists s, apply setting_id value acc = Return s /\ applied [(setting_id, value)] acc s
  end.
Proof.
  intros Hi Hv. unfold offence, apply. unfold u32_ok in Hv.
  assert (MAX_INITIAL_WINDOW_SIZE = 2 ^ 31 - 1) as -> by done. assert (MIN_FRAME_SIZE = 2 ^ 14) as -> by done.
  assert (MAX_FRAME_SIZE = 2 ^ 24 - 1) as -> by done.
  destruct (Z.eqb_spec setting_id 1) as [->|H1]; [|destruct (Z.eqb_spec setting_id 2) as [->|H2];
    [|destruct (Z.eqb_spec setting_id 3) as [->|H3]; [|destruct (Z.eqb_spec setting_id 4) as [->|H4];
    [|destruct (Z.eqb_spec setting_id 5) as [->|H5]; [|destruct (Z.eqb_spec setting_id 6) as [->|H6]]]]]];
    repeat case_decide; try lia.
  - eexists. split; [done|]. split; cbn; rewrite ?app_nil_r; done.
  - by replace (1 <? value) with true by lia.
  - replace (1 <? value) with false by lia. eexists. split; [done|]. split; cbn; rewrite ?app_nil_r; try done.
    assert (value = 0 \/ value = 1) as [-> | ->] by lia; done.
  - eexists. split; [done|]. split; cbn; rewrite ?app_nil_r; done.
  - by replace (2 ^ 31 - 1 <? value) with true by lia.
  - replace (2 ^ 31 - 1 <? value) with false by lia. eexists. split; [done|]. split; cbn; rewrite ?app_nil_r; done.
  - by replace ((value <? 2 ^ 14) || (2 ^ 24 - 1 <? value)) with true by lia.
  - replace ((value <? 2 ^ 14) || (2 ^ 24 - 1 <? value)) with false by lia.
    eexists. split; [done|]. split; cbn; rewrite ?app_nil_r; done.
  - eexists. split; [done|]. split; cbn; rewrite ?app_nil_r; done.
  - eexists. split; [done|]. split; try (cbn; by rewrite ?(proj2 (Z.eqb_neq _ _)) by done).
    rewrite filter_cons_True by (unfold is_vendor; cbn; lia). done.
Qed.

Lemma applied_cons p ps acc acc' s : applied [p] acc acc' -> applied ps acc' s -> applied (p :: ps) acc s.
Proof.
  intros [A1 A2 A3 A4 A5 A6 A7 A8] [B1 B2 B3 B4 B5 B6 B7 B8]. unfold setting in *. cbn [foldl] in *.
  split; unfold setting; cbn [foldl]; try congruence.
  rewrite B7, A7, <- app_assoc. f_equal. by rewrite <- filter_app.
Qed.

(** C18: Decoding a SETTINGS payload does what RFC 9113 sections 6.5.1 and 6.5.2 say, for any octets.  If
    an entry offends (ENABLE_PUSH is not 0 or 1, INITIAL_WINDOW_SIZE is above 2^31-1, MAX_FRAME_SIZE is
    outside 2^14 .. 2^24-1), the answer is a connection error with the code that the first such entry
    calls for; otherwise each setting has its last value in the payload or its default, the unknown ones
    are kept in order, and the settings are in their ranges. *)
Theorem decoded_settings_ok now data :
  Forall is_byte data ->
  match omap offence (parameters data) with
  | code :: _ => ReadSettingsAdaptor now data = Throw (ConnectionError code MAX_CONNECTED_STREAMS)
  | [] => exists s, ReadSettingsAdaptor now data = Return s /\
      applied (parameters data) (default_settings now) s /\ settings_ok s
  end.
Proof.
  unfold ReadSettingsAdaptor. assert (Hd : settings_ok (default_settings now)) by apply default_ok.
  revert Hd. generalize (default_settings now) as acc.
  induction data as [data Hd|i1 i2 v1 v2 v3 v4 data IH] using chunk6_ind; intros acc Ha Hb.
  { assert (parameters data = []) as -> by (do 6 (destruct data as [|? data]; [done|]); cbn in Hd; lia).
    cbn. exists acc. rewrite read_settings_short by done. split; [done|]. split; [|done]. split; cbn; by rewrite ?app_nil_r. }
  do 2 apply Forall_cons_1 in Hb as [? Hb]. do 4 apply Forall_cons_1 in Hb as [? Hb].
  destruct (read_be_bytes 2 [i1; i2]) as [E1 R1]; [forall_bytes|cbn; lia|].
  destruct (read_be_bytes 4 [v1; v2; v3; v4]) as [E2 R2]; [forall_bytes|cbn; lia|].
  cbn [read_settings parameters]. rewrite E1, E2. cbn [of_result mbind outcome_bind].
  assert (be_value [i1; i2] = 256 * i1 + i2) as V1 by (cbn; lia).
  assert (be_value [v1; v2; v3; v4] = 256 * (256 * (256 * v1 + v2) + v3) + v4) as V2 by (cbn; lia).
  rewrite V1, V2 in *. pose proof (apply_spec _ _ acc R1 R2) as Hap. cbn [omap list_omap].
  destruct (offence _) as [code|]; [by rewrite Hap|]. destruct Hap as (acc' & E & Hap). rewrite E. cbn [mbind outcome_bind].
  specialize (IH acc' (apply_ok _ _ _ _ R1 R2 Ha E) Hb). destruct (omap offence (parameters data)); [|exact IH].
  destruct IH as (s & Es & Has & Hs). exists s. split; [done|]. split; [by eapply applied_cons|done].
Qed.

(** A window that is too large comes before a frame size that is too small. *)
Lemma decoded_settings_ok_witness :
  ReadSettingsAdaptor 0 [0; 4; 128; 0; 0; 0; 0; 5; 0; 0; 0; 1; 9] =
    Throw (ConnectionError FLOW_CONTROL_ERROR MAX_CONNECTED_STREAMS) /\
  (exists s, ReadSettingsAdaptor 0 [0; 4; 0; 0; 1; 0; 0; 8; 0; 0; 0; 1; 0; 4; 0; 0; 2; 0] = Return s /\
    m_initial_window_size s = 512 /\ m_vendor_settings s = [(8, 1)]).
Proof.
  split; [apply (decoded_settings_ok 0 [0; 4; 128; 0; 0; 0; 0; 5; 0; 0; 0; 1; 9]); solve_bytes|].
  destruct (decoded_settings_ok 0 [0; 4; 0; 0; 1; 0; 0; 8; 0; 0; 0; 1; 0; 4; 0; 0; 2; 0]) as (s & E & Ha & _); [solve_bytes|].
  exists s. split; [exact E|]. split; [exact (ap_window _ _ _ Ha)|exact (ap_vendor _ _ _ Ha)].
Defined.

(** A SETTINGS frame that does not mention the number of streams leaves the peer at 100, where RFC
    9113 has no limit. *)
Theorem unlimited_streams_read_as_100 now :
  exists s, ReadSettingsAdaptor now
      (WriteSettingsAdaptor (with_six 4096 true UINT32_MAX 65535 16384 UINT32_MAX [] (default_settings now)) []) = Return s /\
    m_max_concurrent_streams s = 100.
Proof. eexists. split; [vm_compute; reflexivity|reflexivity]. Qed.
