(* ===== verification/StreamState.v ===== *)
(** * The states of a stream

    Models [StreamStateMachine] of src/include/io/layer/http2/helper.cppm.  Every handler throws
    before it stores a state, so a transition is a function to the next state or an exception.

    [figure2] is the state diagram of RFC 9113 section 5.1; [advance_refines_figure2] compares the
    two. *)

From Stdlib Require Import ZArith Lia.
From stdpp Require Import base list.
From S2P Require Import Prelude Frame.

Open Scope Z_scope.

Record StreamStateMachine := mkMachine { m_id : Z; m_state : StreamState }.

Definition new_machine (stream_id : Z) : StreamStateMachine := mkMachine stream_id IDLE.

Section Machine.
Context (m_id : Z).

Definition is_type (t t' : FrameType) : bool := bool_decide (t = t').

Definition handle_idle (TYPE : FrameType) (end_stream is_local : bool) : outcome StreamState :=
  if is_type TYPE HEADERS then
    if end_stream then Return (if is_local then HALF_CLOSED_LOCAL else HALF_CLOSED_REMOTE)
    else Return OPEN
  else if is_type TYPE PUSH_PROMISE then Return (if is_local then RESERVED_LOCAL else RESERVED_REMOTE)
  else Throw (ConnectionError PROTOCOL_ERROR m_id).

Definition handle_open (end_stream is_local : bool) : outcome StreamState :=
  if end_stream then Return (if is_local then HALF_CLOSED_LOCAL else HALF_CLOSED_REMOTE)
  else Return OPEN.

Definition handle_half_closed_local (TYPE : FrameType) (end_stream is_local : bool) : outcome StreamState :=
  if is_local then
    if is_type TYPE DATA || is_type TYPE HEADERS then Throw (StreamError m_id STREAM_CLOSED)
    else Return HALF_CLOSED_LOCAL
  else if end_stream then Return CLOSED
  else Return HALF_CLOSED_LOCAL.

Definition handle_half_closed_remote (TYPE : FrameType) (end_stream is_local : bool) : outcome StreamState :=
  if negb is_local then
    if is_type TYPE DATA || is_type TYPE HEADERS then Throw (StreamError m_id STREAM_CLOSED)
    else Return HALF_CLOSED_REMOTE
  else if end_stream then Return CLOSED
  else Return HALF_CLOSED_REMOTE.

Definition handle_reserved_local (TYPE : FrameType) (is_local : bool) : outcome StreamState :=
  if is_local && is_type TYPE HEADERS then Return HALF_CLOSED_REMOTE
  else if negb is_local && (is_type TYPE WINDOW_UPDATE || is_type TYPE RST_STREAM) then Return RESERVED_LOCAL
  else Throw (ConnectionError PROTOCOL_ERROR m_id).

Definition handle_reserved_remote (TYPE : FrameType) (is_local : bool) : outcome StreamState :=
  if negb is_local && is_type TYPE HEADERS then Return HALF_CLOSED_LOCAL
  else if is_local && (is_type TYPE WINDOW_UPDATE || is_type TYPE RST_STREAM) then Return RESERVED_REMOTE
  else Throw (ConnectionError PROTOCOL_ERROR m_id).

Definition handle_closed (TYPE : FrameType) (is_local : bool) : outcome StreamState :=
  if negb is_local && (is_type TYPE WINDOW_UPDATE || is_type TYPE RST_STREAM) then Return CLOSED
  else if negb is_local && (is_type TYPE DATA || is_type TYPE HEADERS)
  then Throw (ConnectionError STREAM_CLOSED m_id)
  else Throw (ConnectionError PROTOCOL_ERROR m_id).

Definition require_not_idle (state : StreamState) : outcome unit :=
  if bool_decide (state = IDLE) then Throw (ConnectionError PROTOCOL_ERROR m_id) else Return tt.

(** [advance], from the state it finds to the one it stores. *)
Definition advance_from (state : StreamState) (TYPE : FrameType) (FLAGS : Z) (is_local : bool) : outcome StreamState :=
  let end_stream := negb (Z.land FLAGS END_STREAM =? 0) in
  if is_type TYPE PRIORITY then Return state
  else if is_type TYPE RST_STREAM then _ ← require_not_idle state; Return CLOSED
  else
  match state with
  | IDLE => handle_idle TYPE end_stream is_local
  | OPEN => handle_open end_stream is_local
  | HALF_CLOSED_LOCAL => handle_half_closed_local TYPE end_stream is_local
  | HALF_CLOSED_REMOTE => handle_half_closed_remote TYPE end_stream is_local
  | RESERVED_LOCAL => handle_reserved_local TYPE is_local
  | RESERVED_REMOTE => handle_reserved_remote TYPE is_local
  | CLOSED => handle_closed TYPE is_local
  end.

End Machine.

Definition advance (TYPE : FrameType) (FLAGS : Z) (is_local : bool) (m : StreamStateMachine) : outcome StreamStateMachine :=
  state ← advance_from (m_id m) (m_state m) TYPE FLAGS is_local;
  Return (mkMachine (m_id m) state).

Definition can_send_data (m : StreamStateMachine) : bool :=
  bool_decide (m_state m = OPEN) || bool_decide (m_state m = HALF_CLOSED_REMOTE).
Definition can_receive_data (m : StreamStateMachine) : bool :=
  bool_decide (m_state m = OPEN) || bool_decide (m_state m = HALF_CLOSED_LOCAL).
Definition is_closed (m : StreamStateMachine) : bool := bool_decide (m_state m = CLOSED).

(** ** The diagram of RFC 9113 *)

Definition ends_stream (FLAGS : Z) : bool := negb (Z.land FLAGS END_STREAM =? 0).

(** [figure2 is_local type es s s']: an edge of the diagram; [is_local] is send, the others receive.
    HEADERS that end a stream take the HEADERS edge and the END_STREAM edge. *)
Inductive figure2 : bool -> FrameType -> bool -> StreamState -> StreamState -> Prop :=
  | F_send_headers es :
      figure2 true HEADERS es IDLE (if es then HALF_CLOSED_LOCAL else OPEN)
  | F_recv_headers es :
      figure2 false HEADERS es IDLE (if es then HALF_CLOSED_REMOTE else OPEN)
  | F_send_promise es : figure2 true PUSH_PROMISE es IDLE RESERVED_LOCAL
  | F_recv_promise es : figure2 false PUSH_PROMISE es IDLE RESERVED_REMOTE
  | F_send_pushed es : figure2 true HEADERS es RESERVED_LOCAL (if es then CLOSED else HALF_CLOSED_REMOTE)
  | F_recv_pushed es : figure2 false HEADERS es RESERVED_REMOTE (if es then CLOSED else HALF_CLOSED_LOCAL)
  | F_send_end t : t = DATA \/ t = HEADERS -> figure2 true t true OPEN HALF_CLOSED_LOCAL
  | F_recv_end t : t = DATA \/ t = HEADERS -> figure2 false t true OPEN HALF_CLOSED_REMOTE
  | F_recv_end_half t : t = DATA \/ t = HEADERS -> figure2 false t true HALF_CLOSED_LOCAL CLOSED
  | F_send_end_half t : t = DATA \/ t = HEADERS -> figure2 true t true HALF_CLOSED_REMOTE CLOSED
  | F_reset l es s : s <> IDLE -> figure2 l RST_STREAM es s CLOSED.

(** The flag that ends a stream is defined for DATA and HEADERS only (section 6). *)
Definition defined_end (TYPE : FrameType) (FLAGS : Z) : Prop :=
  ends_stream FLAGS = true -> TYPE = DATA \/ TYPE = HEADERS.

Definition reserved (s : StreamState) : Prop := s = RESERVED_LOCAL \/ s = RESERVED_REMOTE.

Ltac machine :=
  unfold advance_from, handle_idle, handle_open, handle_half_closed_local, handle_half_closed_remote,
    handle_reserved_local, handle_reserved_remote, handle_closed, require_not_idle, is_type in *.

(** C12: On frames whose END_STREAM bit means something, and away from a pushed response that ends at
    once, the machine follows the diagram of RFC 9113: a frame it accepts either takes an edge of
    the diagram or leaves the state alone where the diagram has no edge for it, and a frame it
    rejects has none. *)
Theorem advance_refines_figure2 id s TYPE FLAGS is_local :
  defined_end TYPE FLAGS -> ~ (reserved s /\ ends_stream FLAGS = true) ->
  match advance_from id s TYPE FLAGS is_local with
  | Return s' =>
      figure2 is_local TYPE (ends_stream FLAGS) s s' \/
      s' = s /\ forall s2, ~ figure2 is_local TYPE (ends_stream FLAGS) s s2
  | Throw e =>
      (forall s2, ~ figure2 is_local TYPE (ends_stream FLAGS) s s2) /\
      (e = StreamError id STREAM_CLOSED \/ exists code, e = ConnectionError code id)
  end.
Proof.
  intros Hd Hr. machine. fold (ends_stream FLAGS). unfold defined_end in Hd.
  destruct (ends_stream FLAGS) eqn:Ee.
  - destruct (Hd eq_refl) as [-> | ->]; destruct s, is_local; cbn;
      try (exfalso; apply Hr; split; [|done]; by (left + right));
      try (left; by constructor; auto);
      try (left; by apply (F_send_headers true));
      try (left; by apply (F_recv_headers true));
      try (right; split; [done|]; intros s2 H; inversion H; done);
      try (split; [intros s2 H; inversion H; done|]; eauto).
  - clear Hd Hr. destruct TYPE, s, is_local; cbn;
      try (left; by constructor);
      try (left; by apply (F_send_headers false));
      try (left; by apply (F_recv_headers false));
      try (left; by apply (F_send_pushed false));
      try (left; by apply (F_recv_pushed false));
      try (right; split; [done|]; intros s2 H; inversion H; done);
      try (split; [intros s2 H; inversion H; done|]; eauto).
Qed.

Lemma advance_refines_figure2_witness :
  defined_end HEADERS 0x5 /\ advance_from 1 IDLE HEADERS 0x5 false = Return HALF_CLOSED_REMOTE /\
  (figure2 false HEADERS (ends_stream 0x5) IDLE HALF_CLOSED_REMOTE \/
   HALF_CLOSED_REMOTE = IDLE /\ forall s2, ~ figure2 false HEADERS (ends_stream 0x5) IDLE s2).
Proof.
  assert (Hd : defined_end HEADERS 0x5) by (intros _; by right).
  split; [exact Hd|]. split; [reflexivity|].
  refine (advance_refines_figure2 1 IDLE HEADERS 0x5 false Hd _). intros [[|] _]; discriminate.
Defined.

(** ** Sequences of frames *)

Record Event := mkEvent { ev_type : FrameType; ev_flags : Z; ev_local : bool }.

Definition step (id : Z) (s : StreamState) (e : Event) : outcome StreamState :=
  advance_from id s (ev_type e) (ev_flags e) (ev_local e).

(** Frames sent and received, until one is rejected. *)
Fixpoint run (id : Z) (s : StreamState) (es : list Event) : outcome StreamState :=
  match es with
  | [] => Return s
  | e :: es => s ← step id s e; run id s es
  end.

Lemma run_events_app id s es1 es2 : run id s (es1 ++ es2) = s' ← run id s es1; run id s' es2.
Proof.
  revert s. induction es1 as [|e es1 IH]; intros s; [done|]. cbn. destruct (step id s e); cbn; [apply IH|done].
Qed.

(** A property that every accepted frame preserves holds after every accepted sequence. *)
Lemma run_invariant (P : StreamState -> Prop) id :
  (forall s e s', P s -> step id s e = Return s' -> P s') ->
  forall es s s', P s -> run id s es = Return s' -> P s'.
Proof.
  intros Hp. induction es as [|e es IH]; intros s s' Hs H; cbn in H; [by simplify_eq|].
  destruct (step id s e) as [s1|] eqn:E; [|done]. cbn in H. eauto.
Qed.

Lemma closed_step id e s' : step id CLOSED e = Return s' -> s' = CLOSED.
Proof. unfold step. machine. destruct e as [t f l]. destruct t, l; cbn; intros H; by inversion H. Qed.

(** Nothing brings a closed stream back. *)
Theorem closed_is_final id es s' : run id CLOSED es = Return s' -> s' = CLOSED.
Proof. apply (run_invariant (fun s => s = CLOSED)); [|done]. intros s e s1 -> H. by apply closed_step in H. Qed.

(** The peer has finished its message. *)
Definition remote_finished (s : StreamState) : Prop := s = HALF_CLOSED_REMOTE \/ s = CLOSED.

Lemma remote_finished_step id s e s' : remote_finished s -> step id s e = Return s' -> remote_finished s'.
Proof.
  unfold remote_finished, step. machine. destruct e as [t f l].
  intros [-> | ->] H; destruct t, l; cbn in H; repeat case_match; inversion H; auto.
Qed.

(** A stream that nobody pushed is never reserved. *)
Definition unreserved (s : StreamState) : Prop := ~ reserved s.

Lemma unreserved_step id s e s' :
  ev_type e <> PUSH_PROMISE -> unreserved s -> step id s e = Return s' -> unreserved s'.
Proof.
  unfold unreserved, reserved, step. machine. destruct e as [t f l]. cbn [ev_type ev_flags ev_local].
  intros Hp Hs H. destruct s, l, t; cbn in H; repeat case_match; inversion H; subst; naive_solver.
Qed.

Lemma unreserved_run id es s s' :
  Forall (fun e => ev_type e <> PUSH_PROMISE) es -> unreserved s -> run id s es = Return s' -> unreserved s'.
Proof.
  intros Hp. revert s. induction Hp as [|e es He _ IH]; intros s Hs H; cbn in H; [by simplify_eq|].
  destruct (step id s e) as [s1|] eqn:E; [|done]. cbn in H. eapply IH; [|done]. by eapply unreserved_step.
Qed.

Lemma receive_end_finishes id s e s' :
  unreserved s -> ev_local e = false -> (ev_type e = DATA \/ ev_type e = HEADERS) ->
  ends_stream (ev_flags e) = true -> step id s e = Return s' -> remote_finished s'.
Proof.
  unfold unreserved, reserved, remote_finished, step, ends_stream. machine.
  intros Hs Hl Ht He H. rewrite Hl, He in H.
  destruct Ht as [Ht|Ht]; rewrite Ht in H; destruct s; cbn in H; simplify_eq; naive_solver.
Qed.

(** C21: A message ends once.  On a stream that was not pushed, after the peer's DATA or HEADERS with
    END_STREAM has been accepted, no later DATA or HEADERS of the peer is, whatever frames come in
    between in either direction: it is answered with STREAM_CLOSED. *)
Theorem message_ends_once id before last between again s :
  Forall (fun e => ev_type e <> PUSH_PROMISE) before ->
  ev_local last = false -> (ev_type last = DATA \/ ev_type last = HEADERS) ->
  ends_stream (ev_flags last) = true ->
  ev_local again = false -> (ev_type again = DATA \/ ev_type again = HEADERS) ->
  run id IDLE (before ++ last :: between) = Return s ->
  run id IDLE (before ++ last :: between ++ [again]) =
  Throw (if bool_decide (s = CLOSED) then ConnectionError STREAM_CLOSED id else StreamError id STREAM_CLOSED).
Proof.
  intros Hb Hl1 Ht1 He Hl2 Ht2 Hr. change (last :: between ++ [again]) with ((last :: between) ++ [again]).
  rewrite app_assoc, run_events_app, Hr. cbn [mbind outcome_bind run].
  assert (Hs : remote_finished s).
  { rewrite run_events_app in Hr. destruct (run id IDLE before) as [s0|] eqn:E0; cbn in Hr; [|done].
    destruct (step id s0 last) as [s1|] eqn:E1; cbn in Hr; [|done].
    eapply (run_invariant remote_finished id (remote_finished_step id)); [|exact Hr].
    apply (receive_end_finishes id s0 last); [|done..]. eapply unreserved_run; [done| |done]. by intros [|]. }
  unfold step. machine. rewrite Hl2. destruct Hs as [-> | ->]; destruct Ht2 as [-> | ->]; done.
Qed.

Definition demo_before : list Event := [mkEvent HEADERS END_HEADERS false].
Definition demo_last : Event := mkEvent DATA END_STREAM false.
Definition demo_between : list Event := [mkEvent WINDOW_UPDATE 0 false; mkEvent HEADERS (Z.lor END_HEADERS END_STREAM) true].
Definition demo_again : Event := mkEvent DATA 0 false.

Lemma message_ends_once_witness :
  run 1 IDLE (demo_before ++ demo_last :: demo_between ++ [demo_again]) = Throw (ConnectionError STREAM_CLOSED 1).
Proof.
  refine (message_ends_once 1 demo_before demo_last demo_between demo_again CLOSED _ eq_refl (or_introl eq_refl)
    eq_refl eq_refl (or_introl eq_refl) eq_refl).
  apply Forall_cons_2; [discriminate|apply Forall_nil_2].
Defined.

(** A pushed response whose HEADERS end the stream stays half-closed, and DATA is accepted after
    the end. *)
Theorem pushed_end_stream_ignored id :
  run id IDLE [mkEvent PUSH_PROMISE END_HEADERS false; mkEvent HEADERS (Z.lor END_HEADERS END_STREAM) false;
               mkEvent DATA 0 false] = Return HALF_CLOSED_LOCAL.
Proof. reflexivity. Qed.

(** The END_STREAM bit is read on every frame type: a WINDOW_UPDATE with that undefined bit set ends
    the peer's message. *)
Theorem undefined_flag_ends_stream id :
  run id IDLE [mkEvent HEADERS END_HEADERS false; mkEvent WINDOW_UPDATE 0x1 false] = Return HALF_CLOSED_REMOTE /\
  run id IDLE [mkEvent HEADERS END_HEADERS false; mkEvent CONTINUATION 0x1 false] = Return HALF_CLOSED_REMOTE.
Proof. split; reflexivity. Qed.
