(* ===== verification/Message.v ===== *)
(** * Requests and responses

    Models [HttpRequest] and its writer (src/include/io/layer/http2/req.cppm), [HttpResponse] and
    its writer (res.cppm), and the [noexcept] wrapper [add_header] of
    src/include/interfaces/io/request.cppm and response.cppm.

    Both classes keep an array of slots for the headers a token names, a hash map for the others, and
    a body; [Message] is that state.  The keys of the hash map are views of the caller's strings; the
    model holds the strings.  The order in which the map is iterated is the parameter [hash_order].
    The array has [STATIC_SLOTS] slots, fewer than there are tokens, and its subscript is unchecked. *)

From Stdlib Require Import ZArith Lia.
From stdpp Require Import base list gmap strings.
From S2P Require Import Prelude HttpTypes HeaderTable Hpack Frame.

Open Scope Z_scope.

Record Message := mkMessage {
  msg_stream_id : Z;
  m_static_headers : list (option HeaderEntry);
  m_headers : gmap string string;
  m_body : list Z;
}.

Definition STATIC_SLOTS : nat := Z.to_nat (token_code WWW_AUTHENTICATE + 1).
Definition slot (token : Token) : nat := Z.to_nat (token_code token).

Definition new_message (stream_id : Z) : Message := mkMessage stream_id (replicate STATIC_SLOTS None) ∅ [].

Definition set_stream_id (stream_id : Z) (m : Message) : Message :=
  mkMessage stream_id (m_static_headers m) (m_headers m) (m_body m).

Definition COOKIE_SEPARATOR : string := "; ".
Definition VALUE_SEPARATOR : string := ", ".

(** [m_static_headers[token] = ...]. *)
Definition store_slot (token : Token) (value : string) (m : Message) : outcome Message :=
  if (slot token <? STATIC_SLOTS)%nat
  then Return (mkMessage (msg_stream_id m) (<[slot token := Some (StaticField token value)]> (m_static_headers m))
                 (m_headers m) (m_body m))
  else Throw (Other UndefinedBehaviour).

Definition store_name (name value : string) (m : Message) : Message :=
  mkMessage (msg_stream_id m) (m_static_headers m) (<[name := value]> (m_headers m)) (m_body m).

(** The token overload of [set_header], the same in both classes. *)
Definition set_header_token (token : Token) (value : string) (m : Message) : outcome Message :=
  if decide (token = NONE) then Throw (Other InvalidArgument) else store_slot token value m.

(** The cookie branch of the name overload. *)
Definition set_cookie (value : string) (m : Message) : outcome Message :=
  match default None (m_static_headers m !! slot COOKIE) with
  | None => store_slot COOKIE value m
  | Some field =>
      if decide (value = ""%string) then Return m
      else store_slot COOKIE (get_value field +:+ COOKIE_SEPARATOR +:+ value) m
  end.

Definition set_known (token : Token) (value : string) (m : Message) : outcome Message :=
  if decide (token = COOKIE) then set_cookie value m else set_header_token token value m.

(** The name overload of [HttpRequest::set_header]. *)
Definition request_set_header (name value : string) (m : Message) : outcome Message :=
  if decide (name = ""%string) then Throw (Other InvalidArgument)
  else
  match tokenize name with
  | None =>
      match m_headers m !! name with
      | Some existing =>
          if decide (value = ""%string) then Return m
          else Return (store_name name (existing +:+ VALUE_SEPARATOR +:+ value) m)
      | None => Return (store_name name value m)
      end
  | Some token => set_known token value m
  end.

(** The name overload of [HttpResponse::set_header]: an unknown name with a value only ever extends
    a field that is already there, and one without a value ends at [token_opt.value()]. *)
Definition response_set_header (name value : string) (m : Message) : outcome Message :=
  if decide (name = ""%string) then Throw (Other InvalidArgument)
  else
  match tokenize name with
  | None =>
      if decide (value = ""%string) then Throw BadOptionalAccess
      else
      match m_headers m !! name with
      | Some existing => Return (store_name name (existing +:+ VALUE_SEPARATOR +:+ value) m)
      | None => Return m
      end
  | Some token => set_known token value m
  end.

(** Which of the two classes a message is. *)
Inductive MessageKind := REQUEST | RESPONSE.

Definition set_header (kind : MessageKind) (name value : string) (m : Message) : outcome Message :=
  match kind with REQUEST => request_set_header name value m | RESPONSE => response_set_header name value m end.

(** [add_header] is [noexcept]: an exception of [set_header] terminates the program. *)
Definition no_except {A} (o : outcome A) : outcome A :=
  match o with
  | Return a => Return a
  | Throw (Other UndefinedBehaviour) => Throw (Other UndefinedBehaviour)
  | Throw _ => Throw Terminate
  end.

(** The overload a decoded field selects. *)
Definition add_header (kind : MessageKind) (e : HeaderEntry) (m : Message) : outcome Message :=
  no_except match e with
            | StaticField token value => set_header_token token value m
            | LiteralField name value => set_header kind name value m
            end.

Fixpoint add_headers (kind : MessageKind) (log : list HeaderEntry) (m : Message) : outcome Message :=
  match log with
  | [] => Return m
  | e :: log => m ← add_header kind e m; add_headers kind log m
  end.

Definition remove_slot (token : Token) (m : Message) : outcome Message :=
  if (slot token <? STATIC_SLOTS)%nat
  then Return (mkMessage (msg_stream_id m) (<[slot token := None]> (m_static_headers m)) (m_headers m) (m_body m))
  else Throw (Other UndefinedBehaviour).

Definition remove_header (name : string) (m : Message) : outcome Message :=
  match tokenize name with
  | Some token => remove_slot token m
  | None => Return (mkMessage (msg_stream_id m) (m_static_headers m) (delete name (m_headers m)) (m_body m))
  end.

Definition find_slot (token : Token) (m : Message) : outcome string :=
  match m_static_headers m !! slot token with
  | Some (Some field) => Return (get_value field)
  | Some None => Return ""%string
  | None => Throw (Other UndefinedBehaviour)
  end.

Definition find_header (name : string) (m : Message) : outcome string :=
  match tokenize name with
  | Some token => find_slot token m
  | None => Return (default ""%string (m_headers m !! name))
  end.

(** [set_body] adds a node: it extends the body. *)
Definition set_body (body : list Z) (m : Message) : Message :=
  mkMessage (msg_stream_id m) (m_static_headers m) (m_headers m) (m_body m ++ body).

Definition set_status (code : string) (m : Message) : outcome Message := set_header_token STATUS code m.

Section Writers.
Context (hash_string : string -> Z) (hash_uint32 : Z -> Z).
Context (hash_order : gmap string string -> list (string * string)).

Definition get_headers (m : Message) : list HeaderEntry :=
  omap id (m_static_headers m) ++ ((fun '(name, value) => LiteralField name value) <$> hash_order (m_headers m)).

(** [get_size]: the estimate of the octets the writer will produce. *)
Definition get_size (max_frame_payload : Z) (m : Message) : Z :=
  let header_block := foldl (fun acc e => size_t (acc + field_size e)) 0 (get_headers m) in
  let num_header_frames :=
    if header_block =? 0 then 1 else size_t (header_block + max_frame_payload - 1) / max_frame_payload in
  let BODY_SIZE := Z.of_nat (length (m_body m)) in
  let total := size_t (num_header_frames * 9 + header_block) in
  if 0 <? BODY_SIZE
  then size_t (total + (size_t (BODY_SIZE + max_frame_payload - 1) / max_frame_payload * 9 + BODY_SIZE))
  else size_t (total + 9).

(** The flush callback of the writers. *)
Definition header_frame (stream_id : Z) (idx : nat) (chunk : list Z * HpackFlushReason) : list Z :=
  FrameHeaderClosureAdaptor (u32 (Z.of_nat (length chunk.1)))
    (if (idx =? 0)%nat then HEADERS else CONTINUATION)
    (match chunk.2 with END_ => END_HEADERS | OVERFLOW => 0 end) stream_id [] ++ chunk.1.

Definition body_frames (max_frame_size : nat) (flags : Z) (m : Message) : result (list Z) :=
  if (length (m_body m) =? 0)%nat then
    WriteFrameBuilderAdaptor (build_frame DATA (Z.lor flags END_STREAM) (msg_stream_id m) [])
      max_frame_size false false []
  else write_frames (mkClosure (msg_stream_id m) DATA flags max_frame_size false false) (m_body m).

(** [WriteHttpRequestAdaptor] and [WriteHttpResponseAdaptor], which agree: what they append to the
    output, and the encoding table they leave. *)
Definition write_message (table : HPackTable) (max_frame_size : nat) (flags : Z) (m : Message)
    : result (list Z * HPackTable) :=
  enc ← hpack_encode hash_string hash_uint32 max_frame_size true true table (get_headers m);
  body ← body_frames max_frame_size flags m;
  Ok (concat (imap (header_frame (msg_stream_id m)) (flushed enc)) ++ body, m_table enc).

(** The output is a [BufferNode] of [get_size] octets, whose [push_back] does not check. *)
Definition write_node (table : HPackTable) (max_frame_size : nat) (m : Message) : result (list Z * HPackTable) :=
  '(bytes, table) ← write_message table max_frame_size 0 m;
  if Z.of_nat (length bytes) <=? get_size (Z.of_nat max_frame_size) m
  then Ok (bytes, table) else Err UndefinedBehaviour.

End Writers.

(** ** Lemmas: what the writers put on the wire *)

Lemma Forall_init_last {A} (P : A -> Prop) (l : list A) x i y :
  Forall P l -> (l ++ [x]) !! i = Some y -> (S i < length (l ++ [x]))%nat -> P y.
Proof.
  intros Hl Hi Hlt. rewrite length_app in Hlt. cbn in Hlt.
  rewrite lookup_app_l in Hi by lia. by eapply Forall_lookup_1 in Hi.
Qed.

Lemma frames_fuel (frames : list (FrameHeader * list Z)) :
  (length frames <= length (concat (wire <$> frames)))%nat.
Proof.
  induction frames as [|f fs IH]; [done|]. cbn [fmap list_fmap concat length].
  rewrite length_app, wire_length. unfold HEADER_SIZE. cbn in IH. lia.
Qed.

Lemma imap_pure {A B} (f : A -> B) (l : list A) : imap (fun _ x => f x) l = f <$> l.
Proof. induction l as [|x l IH]; [done|]. cbn. f_equal. exact IH. Qed.

(** The frame a flushed chunk becomes. *)
Definition block_frame (stream_id : Z) (idx : nat) (chunk : list Z * HpackFlushReason) : FrameHeader * list Z :=
  (make_header (Z.of_nat (length chunk.1)) (if (idx =? 0)%nat then HEADERS else CONTINUATION)
     (match chunk.2 with END_ => END_HEADERS | OVERFLOW => 0 end) stream_id, chunk.1).

Lemma mask_twice stream_id : mask_stream_id (mask_stream_id stream_id) = mask_stream_id stream_id.
Proof. rewrite !mask_stream_id_eq. by rewrite Z.mod_mod. Qed.

Lemma header_frame_wire stream_id idx chunk :
  Z.of_nat (length chunk.1) < 2 ^ 32 -> header_frame stream_id idx chunk = wire (block_frame stream_id idx chunk).
Proof.
  intros Hl. unfold header_frame, wire, block_frame, make_header. cbn [fst snd m_length m_type m_flags m_stream_id].
  rewrite wrap_small by lia. unfold FrameHeaderClosureAdaptor. by rewrite mask_twice.
Qed.

Lemma block_frame_ok stream_id idx chunk max :
  Z.of_nat (length chunk.1) <= max < 2 ^ 24 -> frame_ok max (block_frame stream_id idx chunk).
Proof.
  intros Hl. split; cbn; [done|lia|by destruct (idx =? 0)%nat|by destruct chunk.2|].
  apply mask_stream_id_range.
Qed.

(** The closure of a body: the same frames in both branches of the writer. *)
Definition body_closure (max_frame_size : nat) (m : Message) : WriteFrameClosureAdapter :=
  mkClosure (mask_stream_id (msg_stream_id m)) DATA (if (length (m_body m) =? 0)%nat then END_STREAM else 0)
    max_frame_size false false.

Lemma frames_of_mask id t fl n e d data :
  frames_of (mkClosure (mask_stream_id id) t fl n e d) data = frames_of (mkClosure id t fl n e d) data.
Proof.
  unfold frames_of, chunk_type, chunk_flags. cbn [a_stream_id a_type a_flags a_max_frame_size a_end_stream_after_data a_no_data].
  apply imap_ext. intros i c _. f_equal. unfold make_header. by rewrite mask_twice.
Qed.

Lemma body_frames_wire max_frame_size m :
  (0 < max_frame_size)%nat ->
  body_frames max_frame_size 0 m = Ok (concat (wire <$> frames_of (body_closure max_frame_size m) (m_body m))).
Proof.
  intros Hm. unfold body_frames, body_closure. destruct (length (m_body m) =? 0)%nat eqn:E.
  - apply Nat.eqb_eq, length_zero_iff_nil in E. rewrite E. unfold WriteFrameBuilderAdaptor.
    rewrite write_frames_wire by done. done.
  - rewrite write_frames_wire by done. by rewrite frames_of_mask.
Qed.

(** The chunks of the encoder: full ones, then a shorter one that ends the block. *)
Definition chunks_ok (n : nat) (chunks : list (list Z * HpackFlushReason)) : Prop :=
  exists frames last, chunks = frames ++ [(last, END_)] /\ (length last < n)%nat /\
    Forall (fun c : list Z * HpackFlushReason => c.2 = OVERFLOW /\ length c.1 = n) frames.

Lemma chunks_bound n chunks i c : chunks_ok n chunks -> chunks !! i = Some c -> (length c.1 <= n)%nat.
Proof.
  intros (frames & last & -> & Hl & Hf) Hc. destruct (decide (S i < length (frames ++ [(last, END_)]))%nat).
  - pose proof (Forall_init_last _ _ _ _ _ Hf Hc l) as [_ H]. lia.
  - pose proof (lookup_lt_Some _ _ _ Hc). rewrite length_app in *. cbn in *.
    rewrite lookup_app_r in Hc by lia. replace (i - length frames)%nat with 0%nat in Hc by lia.
    injection Hc as <-. cbn. lia.
Qed.

Lemma chunks_reason n chunks i c :
  chunks_ok n chunks -> chunks !! i = Some c -> c.2 = if (S i =? length chunks)%nat then END_ else OVERFLOW.
Proof.
  intros (frames & last & -> & Hl & Hf) Hc. destruct (Nat.eqb_spec (S i) (length (frames ++ [(last, END_)]))) as [He|He].
  - rewrite length_app in He. cbn in He. rewrite lookup_app_r in Hc by lia.
    replace (i - length frames)%nat with 0%nat in Hc by lia. by injection Hc as <-.
  - pose proof (lookup_lt_Some _ _ _ Hc).
    by pose proof (Forall_init_last _ _ _ _ _ Hf Hc ltac:(lia)) as [-> _].
Qed.

(** What a sequence of frames is as a message: one header block, then one body. *)
Record message_frames (stream_id : Z) (hs ds : list (FrameHeader * list Z)) : Prop := {
  mf_block : hs <> [];
  mf_data : ds <> [];
  mf_headers : forall i f, hs !! i = Some f ->
    m_type f.1 = (if (i =? 0)%nat then HEADERS else CONTINUATION) /\
    m_flags f.1 = (if (S i =? length hs)%nat then END_HEADERS else 0) /\ m_stream_id f.1 = stream_id;
  mf_body : forall i f, ds !! i = Some f ->
    m_type f.1 = DATA /\
    m_flags f.1 = (if (S i =? length ds)%nat then END_STREAM else 0) /\ m_stream_id f.1 = stream_id;
}.

Lemma block_frames_shape n stream_id chunks i f :
  chunks_ok n chunks -> imap (block_frame stream_id) chunks !! i = Some f ->
  m_type f.1 = (if (i =? 0)%nat then HEADERS else CONTINUATION) /\
  m_flags f.1 = (if (S i =? length (imap (block_frame stream_id) chunks))%nat then END_HEADERS else 0) /\
  m_stream_id f.1 = mask_stream_id stream_id.
Proof.
  intros Hc Hf. rewrite list_lookup_imap in Hf. apply fmap_Some in Hf as (c & Hi & ->).
  rewrite length_imap. unfold block_frame. cbn [fst snd make_header m_type m_flags m_stream_id]. rewrite (chunks_reason _ _ _ _ Hc Hi). by destruct (S i =? length chunks)%nat.
Qed.

Lemma length_frames_of a data :
  length (frames_of a data) = total_chunks (length data) (Nat.min (a_max_frame_size a) (length data)).
Proof. unfold frames_of. by rewrite length_imap, length_chunked. Qed.

Lemma body_frames_shape n m i f :
  (0 < n)%nat -> frames_of (body_closure n m) (m_body m) !! i = Some f ->
  m_type f.1 = DATA /\
  m_flags f.1 = (if (S i =? length (frames_of (body_closure n m) (m_body m)))%nat then END_STREAM else 0) /\
  m_stream_id f.1 = mask_stream_id (msg_stream_id m).
Proof.
  intros Hn Hf. rewrite length_frames_of. pose proof (lookup_lt_Some _ _ _ Hf) as Hlt. rewrite length_frames_of in Hlt.
  unfold frames_of in Hf. rewrite list_lookup_imap in Hf. apply fmap_Some in Hf as (c & _ & ->).
  set (t := total_chunks _ _) in *. unfold chunk_type, chunk_flags, body_closure.
  cbn [a_stream_id a_type a_flags a_max_frame_size a_end_stream_after_data a_no_data fst make_header m_type m_flags m_stream_id].
  split; [done|]. split; [|apply mask_twice]. rewrite bool_decide_false by done.
  rewrite bool_decide_true by done. cbn [andb negb]. rewrite andb_true_r.
  destruct (Nat.eqb_spec i (t - 1)), (Nat.eqb_spec (S i) t); try lia.
  - by destruct (length (m_body m) =? 0)%nat.
  - destruct (Nat.eqb_spec (length (m_body m)) 0) as [E|]; [|done]. subst t. rewrite E in *. cbn in *. lia.
Qed.

(** ** Lemmas: rebuilding a message from its fields *)

(** Messages the fields of which survive the trip: a slot holds a field of its own token, spelled so
    that [tokenize] finds it again; a cookie is one crumb; other names spell no token. *)
Record message_ok (m : Message) : Prop := {
  mo_slots : length (m_static_headers m) = STATIC_SLOTS;
  mo_slot : forall i e, m_static_headers m !! i = Some (Some e) ->
    exists token value, e = StaticField token value /\ slot token = i /\
      tokenize (token_to_string token) = Some token /\ (token = COOKIE -> cookie_crumbs value = [value]);
  mo_names : forall name value, m_headers m !! name = Some value ->
    name <> ""%string /\ forall token, token_to_string token <> name;
}.

(** A field as the receiver logs it: either overload may have been called. *)
Definition same_field (e : HeaderEntry) (f : string * string) : Prop := (entry_name e, get_value e) = f.

Lemma tokenize_spelled name : (forall token, token_to_string token <> name) -> tokenize name = None.
Proof. intros Hn. destruct (tokenize name) as [t|] eqn:E; [|done]. by apply tokenize_inverts, Hn in E. Qed.

Lemma add_known kind e token value m :
  same_field e (token_to_string token, value) -> tokenize (token_to_string token) = Some token ->
  m_static_headers m !! slot token = Some None -> (slot token < STATIC_SLOTS)%nat ->
  add_header kind e m = store_slot token value m.
Proof.
  intros [= Hn Hv] Ht Hs Hlt.
  assert (token <> NONE) as Hne by (intros ->; discriminate Ht).
  assert (Hne' : token_to_string token <> ""%string) by (intros E; apply Hne, token_to_string_inj; by rewrite E).
  assert (no_except (store_slot token value m) = store_slot token value m) as Hx.
  { unfold store_slot. by destruct (slot token <? STATIC_SLOTS)%nat eqn:E; [|apply Nat.ltb_ge in E; lia]. }
  destruct e as [t v|n v]; cbn in Hn, Hv; subst v.
  - apply token_to_string_inj in Hn as ->. unfold add_header. unfold set_header_token. by rewrite decide_False.
  - subst n. unfold add_header. rewrite <- Hx. f_equal. destruct kind; cbn [set_header];
      unfold request_set_header, response_set_header; rewrite decide_False, Ht by done; unfold set_known, set_cookie;
      destruct (decide (token = COOKIE)) as [->|]; rewrite ?Hs; cbn [default]; try done;
      unfold set_header_token; by rewrite decide_False.
Qed.

Lemma add_unknown e name value m :
  same_field e (name, value) -> name <> ""%string -> (forall token, token_to_string token <> name) ->
  m_headers m !! name = None -> add_header REQUEST e m = Return (store_name name value m).
Proof.
  intros [= Hn Hv] Hne Ht Hm. destruct e as [t v|n v]; cbn in Hn, Hv; subst; [by destruct (Ht t)|].
  unfold add_header, set_header. unfold request_set_header. by rewrite decide_False, tokenize_spelled, Hm.
Qed.

Lemma add_headers_app kind l1 l2 m :
  add_headers kind (l1 ++ l2) m = (m ← add_headers kind l1 m; add_headers kind l2 m).
Proof.
  revert m. induction l1 as [|e l1 IH]; intros m; [done|]. cbn [add_headers app]. destruct (add_header kind e m); [|done].
  apply IH.
Qed.

Lemma header_fields_known token value :
  (token = COOKIE -> cookie_crumbs value = [value]) ->
  header_fields (StaticField token value) = [(token_to_string token, value)].
Proof. intros Hc. destruct (decide (token = COOKIE)) as [->|]; [cbn; by rewrite Hc|by destruct token]. Qed.

(** The slots, one after the other: those before position [length pre] are filled. *)
Lemma rebuild_slots kind l pre id hdrs body received :
  (forall i e, l !! i = Some (Some e) -> exists token value, e = StaticField token value /\
     slot token = (length pre + i)%nat /\ tokenize (token_to_string token) = Some token /\
     (token = COOKIE -> cookie_crumbs value = [value])) ->
  (length pre + length l = STATIC_SLOTS)%nat ->
  Forall2 same_field received (omap (fun e => e) l ≫= header_fields) ->
  add_headers kind received (mkMessage id (pre ++ replicate (length l) None) hdrs body) =
    Return (mkMessage id (pre ++ l) hdrs body).
Proof.
  revert pre received. induction l as [|[e|] l IH]; intros pre received Hl Hlen Hrec.
  - cbn in Hrec. by apply Forall2_nil_inv_r in Hrec as ->.
  - destruct (Hl 0%nat e eq_refl) as (token & value & -> & Hs & Ht & Hc). rewrite Nat.add_0_r in Hs.
    cbn [omap list_omap] in Hrec. rewrite bind_cons, header_fields_known in Hrec by done.
    apply Forall2_cons_inv_r in Hrec as (e & received' & He & Hrec & ->).
    cbn [length] in Hlen. cbn [add_headers length replicate].
    rewrite (add_known _ _ token value) by (done || (cbn [m_static_headers]; rewrite Hs; by rewrite list_lookup_middle) || lia).
    unfold store_slot. replace (slot token <? STATIC_SLOTS)%nat with true by (symmetry; apply Nat.ltb_lt; lia).
    cbn [mbind outcome_bind msg_stream_id m_static_headers m_headers m_body].
    rewrite Hs, insert_app_r_alt, Nat.sub_diag by lia. cbn [insert list_insert].
    specialize (IH (pre ++ [Some (StaticField token value)]) received').
    rewrite <- !app_assoc in IH. apply IH; [|rewrite length_app; cbn; lia|done].
    intros i e' Hi. destruct (Hl (S i) e' Hi) as (t' & v' & -> & Hs' & ?). exists t', v'. split; [done|]. split; [|done].
    rewrite Hs', length_app. cbn. lia.
  - cbn [omap list_omap] in Hrec. cbn [length replicate] in *.
    specialize (IH (pre ++ [None]) received). rewrite <- !app_assoc in IH. apply IH; [|rewrite length_app; cbn; lia|done].
    intros i e' Hi. destruct (Hl (S i) e' Hi) as (t' & v' & -> & Hs' & ?). exists t', v'. split; [done|]. split; [|done].
    rewrite Hs', length_app. cbn. lia.
Qed.

Lemma rebuild_names kvs received m :
  NoDup (kvs.*1) -> Forall2 same_field received kvs ->
  (forall name value, (name, value) ∈ kvs ->
     name <> ""%string /\ (forall token, token_to_string token <> name) /\ m_headers m !! name = None) ->
  add_headers REQUEST received m =
    Return (mkMessage (msg_stream_id m) (m_static_headers m) (list_to_map kvs ∪ m_headers m) (m_body m)).
Proof.
  intros Hnd Hrec. revert m. induction Hrec as [|e [name value] received kvs He Hrec IH]; intros m Hok.
  - cbn. rewrite (left_id_L ∅ (∪)). by destruct m.
  - cbn [fmap list_fmap fst] in Hnd. apply NoDup_cons in Hnd as [Hnin Hnd].
    destruct (Hok name value) as (Hne & Ht & Hm); [left|]. cbn [add_headers].
    rewrite (add_unknown e name value) by done. cbn [mbind outcome_bind].
    rewrite IH; [|done|].
    + unfold store_name. cbn [msg_stream_id m_static_headers m_headers m_body list_to_map foldr].
      do 2 f_equal. cbn. rewrite <- insert_union_r, insert_union_l by (by apply not_elem_of_list_to_map). done.
    + intros n v Hin. destruct (Hok n v) as (? & ? & ?); [by right|]. split_and!; [done..|].
      unfold store_name. cbn [m_headers]. rewrite lookup_insert_ne; [done|].
      intros ->. apply Hnin. apply list_elem_of_fmap. by exists (n, v).
Qed.

Lemma same_fields_forall2 received fs :
  (fun e => (entry_name e, get_value e)) <$> received = fs -> Forall2 same_field received fs.
Proof. intros <-. induction received as [|e received IH]; constructor; [done|exact IH]. Qed.

Section RoundTrip.
Context (hash_string : string -> Z) (hash_uint32 : Z -> Z).
Context (hash_order : gmap string string -> list (string * string)).
Hypothesis hash_order_perm : forall m, hash_order m ≡ₚ map_to_list m.

#[local] Abbreviation fields m := (get_headers hash_order m ≫= header_fields).

Lemma fields_split m :
  message_ok m -> fields m = (omap (fun e => e) (m_static_headers m) ≫= header_fields) ++ hash_order (m_headers m).
Proof.
  intros Hm. unfold get_headers. rewrite bind_app. f_equal.
  induction (hash_order (m_headers m)) as [|[n v] l IH]; [done|]. cbn [fmap list_fmap]. by rewrite bind_cons, IH.
Qed.

Lemma rebuild kind m received :
  message_ok m -> kind = REQUEST \/ m_headers m = ∅ -> Forall2 same_field received (fields m) ->
  add_headers kind received (new_message (msg_stream_id m)) =
    Return (mkMessage (msg_stream_id m) (m_static_headers m) (m_headers m) []).
Proof.
  intros Hm Hk Hrec. rewrite fields_split in Hrec by done.
  apply Forall2_app_inv_r in Hrec as (r1 & r2 & H1 & H2 & ->). rewrite add_headers_app.
  unfold new_message. pose proof (rebuild_slots kind (m_static_headers m) [] (msg_stream_id m) ∅ [] r1) as Hr1.
  cbn [app length Nat.add] in Hr1. rewrite (mo_slots _ Hm) in Hr1. rewrite Hr1; [|apply (mo_slot _ Hm)|done|done].
  clear Hr1. cbn [mbind outcome_bind]. set (m1 := mkMessage _ _ _ _).
  assert (m_headers m = ∅ -> r2 = []) as Hemp.
  { intros E. pose proof (hash_order_perm (m_headers m)) as Hp. rewrite E, map_to_list_empty in Hp.
    apply Permutation_nil_r in Hp. rewrite E, Hp in H2. by apply Forall2_nil_inv_r in H2. }
  destruct Hk as [-> | Hk]; [|by rewrite (Hemp Hk), Hk].
  rewrite (rebuild_names (hash_order (m_headers m)) r2 m1).
  - subst m1. cbn [msg_stream_id m_static_headers m_headers m_body]. rewrite (right_id_L ∅ (∪)). do 2 f_equal.
    rewrite (list_to_map_proper _ (map_to_list (m_headers m))); [apply list_to_map_to_list|..|apply hash_order_perm].
    rewrite (hash_order_perm (m_headers m)). apply NoDup_fst_map_to_list.
  - rewrite (hash_order_perm (m_headers m)). apply NoDup_fst_map_to_list.
  - done.
  - intros name value Hin. rewrite (hash_order_perm (m_headers m)) in Hin. apply elem_of_map_to_list in Hin.
    destruct (mo_names _ Hm _ _ Hin). subst m1. by split_and!.
Qed.

(** The writers, in the terms of [message_frames]. *)
Lemma write_message_frames n t room m :
  (0 < n <= BUF_CAPACITY)%nat -> sync_ok hash_string hash_uint32 t room ->
  Forall sendable (fields m) -> total_charge (fields m) <= room ->
  exists hs ds t' received,
    write_message hash_string hash_uint32 hash_order t n 0 m = Ok (concat (wire <$> (hs ++ ds)), t') /\
    Forall (frame_ok (Z.of_nat n)) (hs ++ ds) /\ message_frames (mask_stream_id (msg_stream_id m)) hs ds /\
    concat (ds.*2) = m_body m /\
    hpack_decode hash_string hash_uint32 (concat (hs.*2)) (t, []) = Ok (length (concat (hs.*2)), (t', received)) /\
    Forall2 same_field received (fields m) /\ sync_ok hash_string hash_uint32 t' (room - total_charge (fields m)) /\
    Forall is_byte (concat (hs.*2)).
Proof.
  intros Hn Hs Hsend Hch. assert (Z.of_nat BUF_CAPACITY = 16384) as HB by reflexivity.
  destruct (encode_decode hash_string hash_uint32 n Hn true true t (get_headers hash_order m) room [])
    as (enc & He & Hchunks & received & Hdec & Hrec & Hsync); try done.
  fold (chunks_ok n (flushed enc)) in Hchunks.
  assert (Hlen : forall i c, flushed enc !! i = Some c -> Z.of_nat (length c.1) <= Z.of_nat n)
    by (intros i c Hc; pose proof (chunks_bound _ _ _ _ Hchunks Hc); lia).
  set (hs := imap (block_frame (msg_stream_id m)) (flushed enc)).
  set (ds := frames_of (body_closure n m) (m_body m)). exists hs, ds, (m_table enc), received.
  assert (hs.*2 = fst <$> flushed enc) as Hpay.
  { subst hs. rewrite fmap_imap. apply (imap_pure fst). }
  rewrite Hpay. split; [|split; [|split; [|split; [|by eauto 8 using same_fields_forall2, encode_bytes]]]].
  - unfold write_message. rewrite He. cbn [mbind result_bind]. rewrite body_frames_wire by lia.
    cbn [mbind result_bind]. rewrite fmap_app, concat_app. do 4 f_equal. subst hs. rewrite fmap_imap.
    apply imap_ext. intros i c Hc. apply header_frame_wire. specialize (Hlen i c Hc). lia.
  - apply Forall_app. split.
    + apply Forall_lookup. intros i f Hi. subst hs. rewrite list_lookup_imap in Hi.
      apply fmap_Some in Hi as (c & Hc & ->). apply block_frame_ok. specialize (Hlen i c Hc). lia.
    + apply (frames_of_ok (body_closure n m)); cbn; [lia|unfold MAX_FRAME_SIZE; lia|done|by destruct (length (m_body m) =? 0)%nat].
  - split.
    + destruct Hchunks as (fs & last & E & _). subst hs. rewrite E. intros Hx%(f_equal length).
      rewrite length_imap, length_app in Hx. cbn in Hx. lia.
    + intros Hx%(f_equal length). subst ds. rewrite length_frames_of in Hx. cbn in Hx.
      rewrite total_chunks_count in Hx by lia. lia.
    + intros i f. apply (block_frames_shape n); done.
    + intros i f Hf. apply (body_frames_shape n m i f); [lia|done].
  - apply frames_of_payloads. cbn. lia.
Qed.

(** ** Theorems *)

(** C9: A message survives the wire.  The HPACK tables of the two ends are in step and have room for the
    fields of the message, each of which can be sent; the message is well formed ([message_ok]), and is a
    request, or a response without header names of its own (those of a response are not written).  Then
    the writer succeeds; reading its octets frame by frame gives one header block, HEADERS first and
    CONTINUATION after, with END_HEADERS on its last frame only, and one body of DATA frames, with
    END_STREAM on its last frame only, all on the message's stream and within the frame size; the data
    payloads join to the body; the fragments of the header block join to a block the receiver's decoder
    accepts to its last octet, which leaves both tables equal, and in step for the next message; and
    adding the decoded fields to a fresh message rebuilds the sender's slots, names and body exactly. *)
Theorem message_round_trip kind n t room m :
  (0 < n <= BUF_CAPACITY)%nat -> sync_ok hash_string hash_uint32 t room -> message_ok m ->
  kind = REQUEST \/ m_headers m = ∅ ->
  0 <= msg_stream_id m < 2 ^ 31 -> Forall sendable (fields m) -> total_charge (fields m) <= room ->
  exists bytes t' hs ds received,
    write_message hash_string hash_uint32 hash_order t n 0 m = Ok (bytes, t') /\
    parse_frames (length bytes) (Z.of_nat n) bytes = Some (hs ++ ds) /\
    message_frames (msg_stream_id m) hs ds /\ concat (ds.*2) = m_body m /\
    hpack_decode hash_string hash_uint32 (concat (hs.*2)) (t, []) = Ok (length (concat (hs.*2)), (t', received)) /\
    sync_ok hash_string hash_uint32 t' (room - total_charge (fields m)) /\
    (received' ← add_headers kind received (new_message (msg_stream_id m)); Return (set_body (concat (ds.*2)) received')) = Return m.
Proof.
  intros Hn Hs Hm Hk Hid Hsend Hch.
  destruct (write_message_frames n t room m) as (hs & ds & t' & received & Hw & Hok & Hmf & Hb & Hd & Hr & Hs' & _); try done.
  rewrite mask_stream_id_eq, Z.mod_small in Hmf by done.
  eexists _, t', hs, ds, received. split; [exact Hw|]. split; [|split; [done|split; [done|split; [done|split; [done|]]]]].
  - apply parse_wire; [done|apply frames_fuel].
  - rewrite (rebuild kind m received) by done. rewrite Hb. by destruct m.
Qed.

End RoundTrip.

(** A request with pseudo headers, a cookie, two names of its own and a body. *)
Definition demo_request : Message :=
  mkMessage 3
    (<[slot METHOD := Some (StaticField METHOD "GET")]>
      (<[slot PATH := Some (StaticField PATH "/tables/7")]>
        (<[slot COOKIE := Some (StaticField COOKIE "id=7")]> (replicate STATIC_SLOTS None))))
    (<["x-tenant" := "a"]> (<["x-trace" := "0123456789"]> ∅))%string [104; 101; 108; 108; 111].

Lemma demo_request_ok : message_ok demo_request.
Proof.
  split; [reflexivity| |].
  - intros i e. unfold demo_request, m_static_headers.
    rewrite !list_lookup_insert. repeat case_decide; subst; intros Hi;
      [injection Hi as <-; eexists _, _; (split; [reflexivity|]); (split; [lia|]); done..|].
    apply lookup_replicate in Hi. naive_solver.
  - intros name value. unfold demo_request, m_headers. rewrite !lookup_insert, lookup_empty.
    repeat case_decide; subst; try done; intros _; (split; [done|]); refine (token_forall _ _);
      vm_compute; reflexivity.
Qed.

Lemma message_round_trip_witness :
  exists bytes t' hs ds received,
    write_message fnv1a id_hash map_to_list (make_table 4096) 8 0 demo_request = Ok (bytes, t') /\
    parse_frames (length bytes) 8 bytes = Some (hs ++ ds) /\ concat (ds.*2) = [104; 101; 108; 108; 111] /\
    hpack_decode fnv1a id_hash (concat (hs.*2)) (make_table 4096, []) = Ok (length (concat (hs.*2)), (t', received)) /\
    (received' ← add_headers REQUEST received (new_message 3); Return (set_body (concat (ds.*2)) received')) =
      Return demo_request.
Proof.
  destruct (message_round_trip fnv1a id_hash map_to_list (fun m => reflexivity _) REQUEST 8 (make_table 4096) 4096
    demo_request) as (bytes & t' & hs & ds & received & H1 & H2 & _ & H4 & H5 & _ & H7).
  - split; [lia|vm_compute; lia].
  - apply make_table_sync. lia.
  - apply demo_request_ok.
  - by left.
  - cbn. lia.
  - apply (bool_decide_unpack _). vm_compute. exact I.
  - vm_compute. done.
  - exists bytes, t', hs, ds, received. exact (conj H1 (conj H2 (conj H4 (conj H5 H7)))).
Defined.

(** The array of slots ends before the last tokens: a field with one of their names, well formed and
    sent by any peer, is stored outside the array. *)
Theorem static_slot_out_of_bounds kind token value m :
  tokenize (token_to_string token) = Some token -> token_code WWW_AUTHENTICATE < token_code token ->
  add_header kind (LiteralField (token_to_string token) value) m = Throw (Other UndefinedBehaviour).
Proof.
  intros Ht Hc. assert (token <> NONE /\ token <> COOKIE) as [Hn Hk] by (split; intros ->; vm_compute in Hc; done).
  assert (token_to_string token <> ""%string) by (intros E; by rewrite E in Ht).
  assert (store_slot token value m = Throw (Other UndefinedBehaviour)) as Hs.
  { unfold store_slot. destruct (Nat.ltb_spec (slot token) STATIC_SLOTS) as [Hlt|]; [|done].
    unfold slot, STATIC_SLOTS in Hlt. lia. }
  unfold add_header. destruct kind; cbn [set_header]; unfold request_set_header, response_set_header;
    rewrite decide_False, Ht by done; unfold set_known, set_header_token; by rewrite !decide_False, Hs.
Qed.

Lemma static_slot_out_of_bounds_witness :
  add_header REQUEST (LiteralField "origin" "https://a") (new_message 1) = Throw (Other UndefinedBehaviour).
Proof. apply (static_slot_out_of_bounds REQUEST ORIGIN); [reflexivity|vm_compute; reflexivity]. Defined.

(** A response drops a field with a name of its own, and one without a value ends the program. *)
Theorem response_drops_names name value m :
  name <> ""%string -> tokenize name = None -> m_headers m !! name = None ->
  add_header RESPONSE (LiteralField name value) m =
    if decide (value = ""%string) then Throw Terminate else Return m.
Proof.
  intros Hn Ht Hm. unfold add_header, set_header, response_set_header. rewrite decide_False, Ht by done.
  destruct (decide (value = ""%string)); [done|]. by rewrite Hm.
Qed.

Lemma response_drops_names_witness :
  add_header RESPONSE (LiteralField "x-request-id" "7") (new_message 1) = Return (new_message 1) /\
  add_header RESPONSE (LiteralField "x-request-id" "") (new_message 1) = Throw Terminate.
Proof.
  split; rewrite (response_drops_names "x-request-id"); (reflexivity || discriminate || done).
Defined.

(** A cookie of [n] different crumbs of 255 octets, which Huffman coding would not shorten. *)
Definition crumb (i : Z) : string := string_of_bytes (128 + i :: replicate 254 200).

Fixpoint crumbs (n : nat) : string :=
  match n with
  | O => crumb 0
  | S n' => crumb (Z.of_nat n) +:+ COOKIE_SEPARATOR +:+ crumbs n'
  end.

Definition crumbled (n : nat) : Message :=
  mkMessage 1 (<[slot COOKIE := Some (StaticField COOKIE (crumbs n))]> (replicate STATIC_SLOTS None)) ∅ [].

Lemma write_node_overflows n t m :
  match write_message fnv1a id_hash map_to_list t n 0 m with
  | Ok (bytes, _) => get_size map_to_list (Z.of_nat n) m <? Z.of_nat (length bytes)
  | Err _ => false
  end = true ->
  exists bytes t',
    write_message fnv1a id_hash map_to_list t n 0 m = Ok (bytes, t') /\
    get_size map_to_list (Z.of_nat n) m < Z.of_nat (length bytes) /\
    write_node fnv1a id_hash map_to_list t n m = Err UndefinedBehaviour.
Proof.
  unfold write_node. destruct (write_message _ _ _ _ _ _ _) as [[bytes t']|e]; [|done]. intros H%Z.ltb_lt.
  exists bytes, t'. split; [done|]. split; [done|]. cbn [mbind result_bind].
  by rewrite (proj2 (Z.leb_gt _ _)) by done.
Qed.

(** The estimate charges a cookie as one field, but it is sent crumb by crumb: the crumbs of this
    cookie fill the writer's node before the message is complete, and the unchecked [push_back]
    leaves it. *)
Theorem cookie_crumbs_overflow :
  exists bytes t,
    write_message fnv1a id_hash map_to_list (make_table 4096) 16384 0 (crumbled 12) = Ok (bytes, t) /\
    get_size map_to_list (Z.of_nat 16384) (crumbled 12) < Z.of_nat (length bytes) /\
    write_node fnv1a id_hash map_to_list (make_table 4096) 16384 (crumbled 12) = Err UndefinedBehaviour.
Proof. apply (write_node_overflows 16384 (make_table 4096) (crumbled 12)). vm_cast_no_check (eq_refl true). Qed.
