(* ===== verification/Steps.v ===== *)
(** * State and exceptions

    The monad in which Stream.v and Session.v write member functions: a C++ exception keeps what was
    stored before it, so a step returns its state whatever its outcome.  [keeps R m] says that [m]
    moves the state along the preorder [R], on every path, the exceptional ones included; the lemmas
    of the hint database [steps] follow the structure of a step. *)

From stdpp Require Import base tactics.
From S2P Require Import Prelude Frame.

Definition step (S A : Type) : Type := S -> S * outcome A.

#[export] Instance step_ret S : MRet (step S) := fun A a s => (s, Return a).
#[export] Instance step_bind S : MBind (step S) := fun A B f m s =>
  match m s with (s, Return a) => f a s | (s, Throw e) => (s, Throw e) end.

Definition lift {S A} (o : outcome A) : step S A := fun s => (s, o).
Definition gets {S A} (f : S -> A) : step S A := fun s => (s, Return (f s)).
Definition modify {S} (f : S -> S) : step S unit := fun s => (f s, Return tt).
Definition raise {S A} (e : exception) : step S A := fun s => (s, Throw e).
Definition when {S} (b : bool) (m : step S unit) : step S unit := if b then m else mret tt.

(** Running a step whose first part returns. *)
Lemma bind_eq {S A B} (m : step S A) (f : A -> step S B) s s' a :
  m s = (s', Return a) -> (m ≫= f) s = f a s'.
Proof. intros H. unfold mbind, step_bind. by rewrite H. Qed.

Lemma bind_gets {S A B} (f : S -> A) (k : A -> step S B) s : (gets f ≫= k) s = k (f s) s.
Proof. done. Qed.

Lemma bind_modify {S B} (f : S -> S) (k : unit -> step S B) s : (modify f ≫= k) s = k tt (f s).
Proof. done. Qed.

Lemma bind_lift {S A B} (a : A) (k : A -> step S B) s : (lift (Return a) ≫= k) s = k a s.
Proof. done. Qed.

Lemma bind_ret {S A B} (a : A) (k : A -> step S B) s : (mret a ≫= k) s = k a s.
Proof. done. Qed.

Lemma bind_throw {S A B} (m : step S A) (f : A -> step S B) s s' e :
  m s = (s', Throw e) -> (m ≫= f) s = (s', Throw e).
Proof. intros H. unfold mbind, step_bind. by rewrite H. Qed.

Lemma bind_inverse {S A B} (m : step S A) (f : A -> step S B) s s' b :
  (m ≫= f) s = (s', Return b) -> exists s1 a, m s = (s1, Return a) /\ f a s1 = (s', Return b).
Proof. unfold mbind, step_bind. destruct (m s) as [s1 [a|e]]; [|done]. intros H. by exists s1, a. Qed.

Definition keeps {S A} (R : S -> S -> Prop) (m : step S A) : Prop := forall s, R s (m s).1.

Section Keeps.
Context {S : Type} (R : S -> S -> Prop) `{!PreOrder R}.

Lemma keeps_ret {A} (a : A) : keeps R (mret a : step S A).
Proof. intros s. cbn. reflexivity. Qed.

Lemma keeps_lift {A} (o : outcome A) : keeps R (lift o : step S A).
Proof. intros s. cbn. reflexivity. Qed.

Lemma keeps_gets {A} (f : S -> A) : keeps R (gets f).
Proof. intros s. cbn. reflexivity. Qed.

Lemma keeps_raise {A} (e : exception) : keeps R (raise e : step S A).
Proof. intros s. cbn. reflexivity. Qed.

Lemma keeps_modify f : (forall s, R s (f s)) -> keeps R (modify f).
Proof. intros H s. apply H. Qed.

Lemma keeps_bind {A B} (m : step S A) (f : A -> step S B) :
  keeps R m -> (forall a, keeps R (f a)) -> keeps R (m ≫= f).
Proof.
  intros Hm Hf s. unfold mbind, step_bind. specialize (Hm s). destruct (m s) as [s1 [a|e]]; [|done].
  cbn in Hm. etransitivity; [done|]. apply Hf.
Qed.

Lemma keeps_when b (m : step S unit) : keeps R m -> keeps R (when b m).
Proof. destruct b; [done|]. intros _. apply keeps_ret. Qed.

Lemma keeps_if {A} (b : bool) (m1 m2 : step S A) : keeps R m1 -> keeps R m2 -> keeps R (if b then m1 else m2).
Proof. by destruct b. Qed.

(** A value read from the state is known to be one. *)
Lemma keeps_gets_bind {A B} (f : S -> A) (k : A -> step S B) :
  (forall s, R s (k (f s) s).1) -> keeps R (gets f ≫= k).
Proof. intros H s. apply H. Qed.

Lemma keeps_run {A} (m : step S A) s : keeps R m -> R s (m s).1.
Proof. intros H. apply H. Qed.

End Keeps.

Create HintDb steps discriminated.
#[export] Hint Resolve keeps_ret keeps_lift keeps_gets keeps_raise keeps_bind keeps_when keeps_if : steps.

(** Follow the structure of a step; what is left are the stores. *)
Ltac keep :=
  repeat first
    [ progress intros
    | apply keeps_ret; [apply _]
    | apply keeps_lift; [apply _]
    | apply keeps_gets; [apply _]
    | apply keeps_raise; [apply _]
    | solve [eauto with steps]
    | apply keeps_bind; [apply _| |]
    | apply keeps_when; [apply _|]
    | apply keeps_if
    | case_match ].

(** Run the first steps of a computation. *)
Ltac run_step := unfold mbind, mret, step_bind, step_ret, lift, gets, modify, raise in *; cbn in *.
