(* ===== verification/Stream.v ===== *)
(** * The streams of a connection

    Models src/include/io/layer/http2/stream.cppm: [Stream<false>], which serves stream 0
    ([Connection]), and [Stream<true>], which serves a request ([Stream]), with the flow-control
    windows, [handle_settings], [handle_header] and the two [receive] functions; the codec a stream
    owns is the [Hpack] class of src/include/io/codec/hpack/hpack.cppm.

    Member functions are steps of Steps.v, which say in which order they store and throw.  The bytes come from a reader in the
    abstract form of Buffering.v ([Queue]), which the chain of nodes refines.  The extension registry
    is empty but for [has_extensions], which decides whether unknown frames are copied: hooks that
    change messages are not modelled. *)

From Stdlib Require Import ZArith Lia.
From stdpp Require Import base list gmap strings.
From S2P Require Import Prelude HttpTypes HeaderTable Hpack Buffering Frame Settings StreamState Message Steps.

Open Scope Z_scope.

(** A two's complement [int32_t]. *)
Definition i32 (z : Z) : Z := let v := u32 z in if v <? 2 ^ 31 then v else v - 2 ^ 32.

(** ** Windows *)

(** The value [update_send_window] stores: the sum is unsigned. *)
Definition raised_window (stream_id increment window : Z) : outcome Z :=
  if increment <=? 0 then Throw (ConnectionError PROTOCOL_ERROR stream_id)
  else if MAX_INITIAL_WINDOW_SIZE <? u32 (window + increment) then Throw (StreamError stream_id FLOW_CONTROL_ERROR)
  else Return (i32 (window + increment)).

(** The value [consume_window] stores, and what it throws after storing it. *)
Definition debited_window (stream_id size window : Z) (is_sender : bool) : Z * outcome unit :=
  if is_sender then
    if window <? size then (window, Throw (StreamError stream_id INTERNAL_ERROR)) else (window - size, Return tt)
  else if window - size <? - 2 ^ 31 then (window, Throw (Other UndefinedBehaviour))
  else (window - size, if window - size <? 0 then Throw (StreamError stream_id FLOW_CONTROL_ERROR) else Return tt).

(** ** The connection *)

Record Connection := mkConnection {
  c_send_window : Z;
  c_recv_window : Z;
  m_connection_error_code : Http2ErrorCode;
}.

Definition new_connection (remote : Settings) : Connection :=
  mkConnection (i32 (m_initial_window_size remote)) (i32 (m_initial_window_size remote)) NO_ERROR_CODE.

Definition set_connection_error_code (error_code : Http2ErrorCode) (c : Connection) : Connection :=
  mkConnection (c_send_window c) (c_recv_window c) error_code.

(** What the streams of a session share. *)
Record Shared := mkShared {
  local_settings : Settings;
  remote_settings : Settings;
  decoding_table : HPackTable;
  encoding_table : HPackTable;
  connection_stream : Connection;
  reader : Queue.Reader;
}.

Definition with_local (s : Settings) (w : Shared) : Shared :=
  mkShared s (remote_settings w) (decoding_table w) (encoding_table w) (connection_stream w) (reader w).
Definition with_remote (s : Settings) (w : Shared) : Shared :=
  mkShared (local_settings w) s (decoding_table w) (encoding_table w) (connection_stream w) (reader w).
Definition with_decoding (t : HPackTable) (w : Shared) : Shared :=
  mkShared (local_settings w) (remote_settings w) t (encoding_table w) (connection_stream w) (reader w).
Definition with_encoding (t : HPackTable) (w : Shared) : Shared :=
  mkShared (local_settings w) (remote_settings w) (decoding_table w) t (connection_stream w) (reader w).
Definition with_connection (c : Connection) (w : Shared) : Shared :=
  mkShared (local_settings w) (remote_settings w) (decoding_table w) (encoding_table w) c (reader w).
Definition with_reader (r : Queue.Reader) (w : Shared) : Shared :=
  mkShared (local_settings w) (remote_settings w) (decoding_table w) (encoding_table w) (connection_stream w) r.

(** [reader | take(n)], [reader] to its end, [reader.grow_view] and [reader.consume]. *)
Definition take_bytes (n : nat) : step Shared (list Z) :=
  r ← gets reader; lift (of_result (Queue.take_view n r)).
Definition all_bytes_left : step Shared (list Z) :=
  r ← gets reader; lift (of_result (Queue.all_view r)).
Definition grow_bytes (n : nat) : step Shared (list Z) := fun w =>
  let '(bs, r) := Queue.grow_view n (reader w) in (with_reader r w, Return bs).
Definition consume_bytes (n : nat) : step Shared unit :=
  modify (fun w => with_reader (Queue.consume n (reader w)) w).

Definition frame_bytes (h : FrameHeader) : nat := Z.to_nat (m_length h).

Definition set_send_window (v : Z) : step Shared unit :=
  modify (fun w => with_connection (mkConnection v (c_recv_window (connection_stream w))
    (m_connection_error_code (connection_stream w))) w).

Definition set_recv_window (v : Z) : step Shared unit :=
  modify (fun w => with_connection (mkConnection (c_send_window (connection_stream w)) v
    (m_connection_error_code (connection_stream w))) w).

(** [Stream<false>::update_send_window] and [consume_window]. *)
Definition connection_update_send_window (increment : Z) : step Shared unit :=
  c ← gets connection_stream;
  v ← lift (raised_window 0 increment (c_send_window c));
  set_send_window v.

Definition connection_consume_window (size : Z) (is_sender : bool) : step Shared unit :=
  c ← gets connection_stream;
  let '(v, o) := debited_window 0 size (if is_sender then c_send_window c else c_recv_window c) is_sender in
  _ ← (if is_sender then set_send_window v else set_recv_window v);
  lift o.

Section Receive.
Context (hash_string : string -> Z) (hash_uint32 : Z -> Z).
Context (has_extensions : bool) (now : Z).

(** [on_frame_complete] gets a copy of the payload of a frame the layer does not know. *)
Definition ignore_frame (h : FrameHeader) : step Shared unit :=
  when (has_extensions && (0 <? m_length h)) (_ ← grow_bytes (frame_bytes h); mret tt).

Definition handle_settings (h : FrameHeader) : step Shared (option FrameBuilder) :=
  if has_flag h ACK then
    _ ← modify (fun w => with_local (Settings.set_state ACKNOWLEDGED (local_settings w)) w);
    mret None
  else
    remote ← gets remote_settings;
    if is_finished remote then lift (connection_error PROTOCOL_ERROR)
    else
      let old_window := m_initial_window_size remote in
      bs ← all_bytes_left;
      settings ← lift (ReadSettingsAdaptor now bs);
      _ ← modify (fun w => with_remote (apply_all settings (remote_settings w)) w);
      remote ← gets remote_settings;
      let new_window := m_initial_window_size remote in
      _ ← when (negb (old_window =? new_window))
            (let delta := i32 new_window - i32 old_window in
             _ ← connection_update_send_window (u32 delta);
             modify (fun w => with_remote (set_delta_window_on_settings delta (remote_settings w)) w));
      _ ← modify (fun w => with_remote (Settings.set_state ACKNOWLEDGED (remote_settings w)) w);
      mret (Some generate_ack).

Definition ping_ack (h : FrameHeader) : step Shared (option FrameBuilder) :=
  remote ← gets remote_settings;
  if has_flag h ACK then
    payload ← take_bytes 8;
    '(_, tracker) ← lift (of_result (Ping.on_ack payload now (m_ping_tracker remote)));
    _ ← modify (fun w => with_remote (set_ping_tracker tracker (remote_settings w)) w);
    mret None
  else
    _ ← modify (fun w => with_remote (set_ping_tracker (Ping.note_activity now (m_ping_tracker remote)) (remote_settings w)) w);
    payload ← take_bytes 8;
    mret (Some (build_frame PING ACK 0 payload)).

(** The payload of a GOAWAY: the last stream, then the code. *)
Definition goaway_payload (stream_id : Z) (code : Http2ErrorCode) : list Z :=
  WriteBigEndianAdaptor 4 (error_code code) (WriteBigEndianAdaptor 4 stream_id []).

Definition goaway_reply (h : FrameHeader) : step Shared (option FrameBuilder) :=
  _ ← modify (fun w => with_remote (set_last_stream_id (m_stream_id h) (remote_settings w)) w);
  c ← gets connection_stream;
  mret (Some (build_frame GOAWAY 0 0 (goaway_payload (m_stream_id h) (m_connection_error_code c)))).

(** [Stream<false>::receive]. *)
Definition connection_receive (h : FrameHeader) : step Shared (option FrameBuilder) :=
  response ← match m_type h with
             | WINDOW_UPDATE =>
                 bs ← take_bytes 4;
                 increment ← lift (ReadWindowIncrementAdaptor bs);
                 _ ← connection_update_send_window increment;
                 mret None
             | GOAWAY => goaway_reply h
             | PING => ping_ack h
             | SETTINGS => handle_settings h
             | PRIORITY | DATA | HEADERS | PUSH_PROMISE | CONTINUATION | RST_STREAM =>
                 lift (connection_error PROTOCOL_ERROR)
             | UnknownType _ => _ ← ignore_frame h; mret None
             end;
  _ ← consume_bytes (frame_bytes h);
  mret response.

(** ** A request *)

Record Stream := mkStream {
  m_state_machine : StreamStateMachine;
  m_send_window : Z;
  m_recv_window : Z;
  m_request : Message;
  m_response : Message;
  m_header_block : option (list Z);
  m_trailer_block : option (list Z);
  m_expecting_continuation : bool;
  m_remote_done : bool;
  m_primary_headers_done : bool;
}.

(** The constructor, for a stream the client initiated, which is the default all callers use. *)
Definition make_stream (stream_id : Z) (remote : Settings) : outcome Stream :=
  if (0 <? stream_id) && (stream_id mod 2 =? 0) then connection_error PROTOCOL_ERROR
  else
    let window := i32 (m_initial_window_size remote) in
    Return (mkStream (new_machine stream_id) window window (new_message stream_id) (new_message stream_id)
              (Some []) None false false false).

Definition get_stream_id (s : Stream) : Z := m_id (m_state_machine s).

Definition with_machine (m : StreamStateMachine) (s : Stream) : Stream :=
  mkStream m (m_send_window s) (m_recv_window s) (m_request s) (m_response s) (m_header_block s) (m_trailer_block s)
    (m_expecting_continuation s) (m_remote_done s) (m_primary_headers_done s).
Definition with_windows (send recv : Z) (s : Stream) : Stream :=
  mkStream (m_state_machine s) send recv (m_request s) (m_response s) (m_header_block s) (m_trailer_block s)
    (m_expecting_continuation s) (m_remote_done s) (m_primary_headers_done s).
Definition with_request (m : Message) (s : Stream) : Stream :=
  mkStream (m_state_machine s) (m_send_window s) (m_recv_window s) m (m_response s) (m_header_block s)
    (m_trailer_block s) (m_expecting_continuation s) (m_remote_done s) (m_primary_headers_done s).
Definition with_response (m : Message) (s : Stream) : Stream :=
  mkStream (m_state_machine s) (m_send_window s) (m_recv_window s) (m_request s) m (m_header_block s)
    (m_trailer_block s) (m_expecting_continuation s) (m_remote_done s) (m_primary_headers_done s).
Definition with_blocks (header trailer : option (list Z)) (s : Stream) : Stream :=
  mkStream (m_state_machine s) (m_send_window s) (m_recv_window s) (m_request s) (m_response s) header trailer
    (m_expecting_continuation s) (m_remote_done s) (m_primary_headers_done s).
Definition set_expecting_continuation (b : bool) (s : Stream) : Stream :=
  mkStream (m_state_machine s) (m_send_window s) (m_recv_window s) (m_request s) (m_response s) (m_header_block s)
    (m_trailer_block s) b (m_remote_done s) (m_primary_headers_done s).
Definition set_remote_done (b : bool) (s : Stream) : Stream :=
  mkStream (m_state_machine s) (m_send_window s) (m_recv_window s) (m_request s) (m_response s) (m_header_block s)
    (m_trailer_block s) (m_expecting_continuation s) b (m_primary_headers_done s).
Definition mark_primary_headers_done (s : Stream) : Stream :=
  mkStream (m_state_machine s) (m_send_window s) (m_recv_window s) (m_request s) (m_response s) (m_header_block s)
    (m_trailer_block s) (m_expecting_continuation s) (m_remote_done s) true.

Definition clear_header_block (s : Stream) : Stream := with_blocks None (m_trailer_block s) s.
Definition clear_trailer_block (s : Stream) : Stream := with_blocks (m_header_block s) None s.

(** A stream at work: what it shares, and itself. *)
Definition Scope : Type := Shared * Stream.

Definition on_shared {A} (m : step Shared A) : step Scope A := fun '(w, s) =>
  let '(w, o) := m w in ((w, s), o).
Definition self : step Scope Stream := gets snd.
Definition update (f : Stream -> Stream) : step Scope unit := modify (fun '(w, s) => (w, f s)).

(** [cleanup_resources]; the receive buffer it also clears is never filled. *)
Definition cleanup_resources : Stream -> Stream := set_expecting_continuation false.

(** [get_header_block_for_write]: what the block holds already. *)
Definition get_header_block_for_write : step Scope (list Z) :=
  s ← self;
  if m_primary_headers_done s then
    match m_trailer_block s with
    | Some view => mret view
    | None => _ ← update (fun s => with_blocks (m_header_block s) (Some []) s); mret []
    end
  else
    match m_header_block s with
    | Some view => mret view
    | None => lift (connection_error PROTOCOL_ERROR)
    end.

Definition set_block (view : list Z) (s : Stream) : Stream :=
  if m_primary_headers_done s then with_blocks (m_header_block s) (Some view) s
  else with_blocks (Some view) (m_trailer_block s) s.

Definition update_send_window (increment : Z) : step Scope unit :=
  s ← self;
  v ← lift (raised_window (get_stream_id s) increment (m_send_window s));
  _ ← update (fun s => with_windows v (m_recv_window s) s);
  on_shared (connection_update_send_window increment).

Definition consume_window (size : Z) (is_sender : bool) : step Scope unit :=
  _ ← on_shared (connection_consume_window size is_sender);
  s ← self;
  let '(v, o) := debited_window (get_stream_id s) size (if is_sender then m_send_window s else m_recv_window s) is_sender in
  _ ← update (fun s => if is_sender then with_windows v (m_recv_window s) s else with_windows (m_send_window s) v s);
  lift o.

Definition can_send_data_of_size (size : Z) (s : Stream) : bool :=
  can_send_data (m_state_machine s) && (size <=? m_send_window s).

Definition needs_recv_window_update (remote : Settings) (s : Stream) : bool :=
  u32 (m_recv_window s) <? m_initial_window_size remote / 2.

Definition recv_window_increment (remote : Settings) (s : Stream) : Z :=
  u32 (m_initial_window_size remote - m_recv_window s).

(** *** Header blocks *)

(** [hpack_decode], keeping what a failed block did before it failed. *)
Fixpoint decode_run (turns : nat) (data : list Z) (offset : nat) (d : Decoder) : Decoder * result nat :=
  match turns with
  | O => (d, Ok offset)
  | S turns =>
      if (length data <=? offset)%nat then decode_run turns data offset d
      else
        match decode_one hash_string hash_uint32 (drop offset data) d with
        | Ok (n, d) => decode_run turns data (offset + n) d
        | Err e => (d, Err e)
        end
  end.

(** Decode [view] into the message [target], [Hpack::decode] and [decode_into]: the target it leaves
    and how the decoding ended. *)
Definition decode_message (kind : MessageKind) (view : list Z) (target : Message)
    : step Shared (Message * result nat) := fun w =>
  let '((t, log), r) := decode_run (length view) view 0 (decoding_table w, []) in
  (with_decoding t w, target ← add_headers kind log target; Return (target, r)).

(** The two [catch] clauses of [handle_header]: the other exceptions of the codec pass. *)
Definition as_compression_error (clear : Stream -> Stream) (m : step Scope unit) : step Scope unit := fun s =>
  match m s with
  | (s, Throw (ConnectionError _ _)) | (s, Throw (StreamError _ _)) | (s, Throw (Other OutOfRange)) =>
      let s := (s.1, clear s.2) in (s, Throw (StreamError (get_stream_id s.2) COMPRESSION_ERROR))
  | r => r
  end.

(** The codec writes into the response of a client's stream and the request of a server's. *)
Definition decode_primary (view : list Z) : step Scope unit :=
  s ← self;
  let is_server := get_stream_id s mod 2 =? 0 in
  '(target, r) ← on_shared
     (if is_server then decode_message REQUEST view (m_request s) else decode_message RESPONSE view (m_response s));
  _ ← update (if is_server then with_request target else with_response target);
  consumed ← lift (of_result r);
  when (consumed <? length view)%nat (raise (StreamError (get_stream_id s) COMPRESSION_ERROR)).

Definition decode_trailers (view : list Z) : step Scope unit :=
  s ← self;
  '(_, r) ← on_shared (decode_message REQUEST view (new_message (get_stream_id s)));
  consumed ← lift (of_result r);
  when (consumed <? length view)%nat (raise (StreamError (get_stream_id s) COMPRESSION_ERROR)).

Definition handle_header (view : list Z) : step Scope unit :=
  s ← self;
  if m_primary_headers_done s then
    when (negb (length view =? 0)%nat)
      (_ ← as_compression_error clear_trailer_block (decode_trailers view);
       update clear_trailer_block)
  else
    when (negb (length view =? 0)%nat)
      (_ ← as_compression_error clear_header_block (decode_primary view);
       update (fun s => mark_primary_headers_done (clear_header_block s))).

(** *** Frames *)

Definition receive_data (h : FrameHeader) : step Scope unit :=
  s ← self;
  when (0 <? m_length h)
    (_ ← consume_window (i32 (m_length h)) false;
     bs ← on_shared (grow_bytes (frame_bytes h));
     _ ← update (fun s => with_request (set_body bs (m_request s)) s);
     when (negb (Z.of_nat (length bs) =? m_length h)) (raise (ConnectionError INTERNAL_ERROR (get_stream_id s)))).

Definition receive_block (h : FrameHeader) : step Scope unit :=
  view ← get_header_block_for_write;
  s ← self;
  view ← (if 0 <? m_length h then
            bs ← on_shared (grow_bytes (frame_bytes h));
            let view := view ++ bs in
            _ ← update (set_block view);
            _ ← when (negb (Z.of_nat (length view) =? m_length h))
                  (raise (ConnectionError INTERNAL_ERROR (get_stream_id s)));
            mret view
          else mret view);
  if has_flag h END_HEADERS then
    _ ← update (set_expecting_continuation false);
    handle_header view
  else update (set_expecting_continuation true).

(** [Stream<true>::receive]. *)
Definition receive (h : FrameHeader) : step Scope unit :=
  s ← self;
  if m_expecting_continuation s && negb (bool_decide (m_type h = CONTINUATION))
  then raise (ConnectionError PROTOCOL_ERROR (get_stream_id s))
  else
    machine ← lift (advance (m_type h) (m_flags h) false (m_state_machine s));
    _ ← update (with_machine machine);
    _ ← match m_type h with
        | DATA => receive_data h
        | HEADERS | PUSH_PROMISE | CONTINUATION => receive_block h
        | WINDOW_UPDATE =>
            bs ← on_shared (take_bytes 4);
            increment ← lift (ReadWindowIncrementAdaptor bs);
            update_send_window increment
        | RST_STREAM =>
            bs ← on_shared (take_bytes 4);
            error_code ← lift (of_result (ReadBigEndianAdaptor 4 bs));
            _ ← update cleanup_resources;
            raise (StreamError (get_stream_id s) (get_http2_error_code error_code))
        | PRIORITY | SETTINGS | PING | GOAWAY => lift (connection_error PROTOCOL_ERROR)
        | UnknownType _ => on_shared (ignore_frame h)
        end;
    _ ← on_shared (consume_bytes (frame_bytes h));
    s ← self;
    _ ← when (bool_decide (StreamState.m_state (m_state_machine s) = HALF_CLOSED_REMOTE)) (update (set_remote_done true));
    when (is_closed (m_state_machine s)) (update cleanup_resources).

(** [advance_send], which passes [is_local = false]. *)
Definition advance_send (TYPE : FrameType) (FLAGS : Z) : step Scope unit :=
  s ← self;
  machine ← lift (advance TYPE FLAGS false (m_state_machine s));
  _ ← update (with_machine machine);
  when (is_closed machine) (update cleanup_resources).

End Receive.

#[local] Arguments raised_window : simpl never.
#[local] Arguments debited_window : simpl never.
#[local] Arguments i32 : simpl never.

(** ** Lemmas: integers and windows *)

Lemma i32_small z : - 2 ^ 31 <= z < 2 ^ 31 -> i32 z = z.
Proof. intros H. unfold i32, wrap. destruct (Z.ltb_spec (z mod 2 ^ 32) (2 ^ 31)); mlia. Qed.

Lemma i32_range z : - 2 ^ 31 <= i32 z < 2 ^ 31.
Proof.
  unfold i32. pose proof (wrap_range 32 z ltac:(lia)). destruct (Z.ltb_spec (u32 z) (2 ^ 31)); lia.
Qed.

(** A send window. *)
Definition window_ok (v : Z) : Prop := 0 <= v <= MAX_INITIAL_WINDOW_SIZE.

Lemma raised_window_ok stream_id increment window v :
  raised_window stream_id increment window = Return v -> window_ok v.
Proof.
  unfold raised_window. destruct (increment <=? 0); [done|].
  destruct (Z.ltb_spec MAX_INITIAL_WINDOW_SIZE (u32 (window + increment))); [done|]. intros [= <-].
  pose proof (wrap_range 32 (window + increment) ltac:(lia)). unfold window_ok, MAX_INITIAL_WINDOW_SIZE in *. unfold i32.
  destruct (Z.ltb_spec (u32 (window + increment)) (2 ^ 31)); lia.
Qed.

Lemma raised_window_eq stream_id increment window :
  0 < increment -> 0 <= window -> window + increment <= MAX_INITIAL_WINDOW_SIZE ->
  raised_window stream_id increment window = Return (window + increment).
Proof.
  intros Hi Hw Hs. unfold raised_window, MAX_INITIAL_WINDOW_SIZE in *.
  destruct (Z.leb_spec increment 0); [lia|]. rewrite wrap_small by lia.
  destruct (Z.ltb_spec 2147483647 (window + increment)); [lia|]. by rewrite i32_small by lia.
Qed.

Lemma debited_window_recv stream_id size window v o :
  0 <= size -> - 2 ^ 31 <= window < 2 ^ 31 -> debited_window stream_id size window false = (v, o) ->
  - 2 ^ 31 <= v <= window.
Proof.
  unfold debited_window. intros Hs Hw. destruct (Z.ltb_spec (window - size) (- 2 ^ 31)); intros [= <- <-]; lia.
Qed.

Lemma debited_window_send stream_id size window v o :
  0 <= size -> window_ok window -> debited_window stream_id size window true = (v, o) -> window_ok v.
Proof.
  unfold debited_window, window_ok. intros Hs Hw. destruct (Z.ltb_spec window size); intros [= <- <-]; lia.
Qed.

(** ** The invariant of the shared state *)

Record shared_ok (w : Shared) : Prop := {
  sh_bytes : Forall is_byte (Queue.chain (reader w));
  sh_local : settings_ok (local_settings w);
  sh_remote : settings_ok (remote_settings w);
  sh_send : window_ok (c_send_window (connection_stream w));
  sh_recv : - 2 ^ 31 <= c_recv_window (connection_stream w) < 2 ^ 31;
}.

(** How a step moves the shared state: the invariant is kept, bytes only leave the reader at its
    front, and the receive window never grows. *)
Record evolves (w w' : Shared) : Prop := {
  ev_ok : shared_ok w -> shared_ok w';
  ev_reader : Queue.chain (reader w') `suffix_of` Queue.chain (reader w);
  ev_recv : shared_ok w -> c_recv_window (connection_stream w') <= c_recv_window (connection_stream w);
}.

#[export] Instance evolves_preorder : PreOrder evolves.
Proof.
  split; [by split|]. intros w1 w2 w3 [] []. split; [by auto|by etransitivity|].
  intros Hok. specialize (ev_recv0 Hok). specialize (ev_recv1 (ev_ok0 Hok)). lia.
Qed.

(** The frame headers a session holds. *)
Record header_ok (h : FrameHeader) : Prop := {
  ho_id : 0 <= Frame.m_stream_id h < 2 ^ 31;
  ho_length : 0 <= m_length h < 2 ^ 24;
}.

(** A store that leaves the reader and the receive window alone. *)
Lemma evolves_store w w' :
  reader w' = reader w -> c_recv_window (connection_stream w') = c_recv_window (connection_stream w) ->
  (shared_ok w -> settings_ok (local_settings w')) -> (shared_ok w -> settings_ok (remote_settings w')) ->
  (shared_ok w -> window_ok (c_send_window (connection_stream w'))) -> evolves w w'.
Proof.
  intros Hr Hc Hl Hm Hs. split; rewrite ?Hr, ?Hc; [|done|done].
  intros Hok. pose proof Hok as []. split; rewrite ?Hr, ?Hc; auto.
Qed.

Lemma set_state_ok st s : settings_ok s -> settings_ok (Settings.set_state st s).
Proof. by intros []. Qed.
Lemma set_ping_ok p s : settings_ok s -> settings_ok (set_ping_tracker p s).
Proof. by intros []. Qed.
Lemma set_delta_ok d s : settings_ok s -> settings_ok (set_delta_window_on_settings d s).
Proof. by intros []. Qed.
Lemma set_last_ok i s : u32_ok i -> settings_ok s -> settings_ok (set_last_stream_id i s).
Proof. by intros Hi []. Qed.

#[export] Hint Resolve set_state_ok set_ping_ok set_delta_ok set_last_ok sh_local sh_remote sh_send : steps.

Ltac store := apply evolves_store; cbn; by eauto with steps.

Lemma keeps_take n : keeps evolves (take_bytes n).
Proof. unfold take_bytes. keep. Qed.

Lemma evolves_reader w r :
  Queue.chain r `suffix_of` Queue.chain (reader w) -> evolves w (with_reader r w).
Proof.
  intros [l Hl]. split; [|by exists l|done]. intros []. split; try done. cbn in *.
  rewrite Hl in sh_bytes0. by apply Forall_app in sh_bytes0 as [_ ?].
Qed.

Lemma drop_suffix {A} n (l : list A) : drop n l `suffix_of` l.
Proof. exists (take n l). by rewrite take_drop. Qed.

Lemma keeps_grow n : keeps evolves (grow_bytes n).
Proof. intros w. apply evolves_reader. apply drop_suffix. Qed.

Lemma keeps_consume n : keeps evolves (consume_bytes n).
Proof. apply keeps_modify. intros w. apply evolves_reader. apply drop_suffix. Qed.

#[export] Hint Resolve keeps_take keeps_grow keeps_consume : steps.

Lemma keeps_connection_raise increment : keeps evolves (connection_update_send_window increment).
Proof.
  intros w. unfold connection_update_send_window, set_send_window. run_step.
  destruct (raised_window _ _ _) as [v|e] eqn:E; cbn; [|reflexivity].
  apply raised_window_ok in E. store.
Qed.

Lemma keeps_connection_debit size is_sender :
  0 <= size -> keeps evolves (connection_consume_window size is_sender).
Proof.
  intros Hs w. unfold connection_consume_window. run_step.
  destruct (debited_window _ _ _ _) as [v o] eqn:E. destruct is_sender; cbn.
  - apply evolves_store; cbn; eauto with steps. intros Hok. by eapply debited_window_send; [|apply sh_send|].
  - split; [|done|].
    + intros Hok. pose proof Hok as []. apply debited_window_recv in E; [|done..]. split; cbn; try done. lia.
    + intros Hok. apply debited_window_recv in E; [|done|apply Hok]. cbn. lia.
Qed.

#[export] Hint Resolve keeps_connection_raise keeps_connection_debit : steps.

Lemma keeps_ignore ext h : keeps evolves (ignore_frame ext h).
Proof. unfold ignore_frame. keep. Qed.

Lemma keeps_ping now h : keeps evolves (ping_ack now h).
Proof. unfold ping_ack. keep; apply keeps_modify; intros w; store. Qed.

Lemma keeps_goaway h : header_ok h -> keeps evolves (goaway_reply h).
Proof.
  intros [Hi _]. unfold goaway_reply. keep. apply keeps_modify. intros w.
  assert (u32_ok (Frame.m_stream_id h)) by (unfold u32_ok; lia). store.
Qed.

#[export] Hint Resolve keeps_ignore keeps_ping keeps_goaway : steps.

Lemma read_settings_adaptor_ok now data s :
  Forall is_byte data -> ReadSettingsAdaptor now data = Return s -> settings_ok s.
Proof. intros Hb. apply read_settings_ok; [done|apply default_ok]. Qed.

Lemma apply_all_ok other s : settings_ok other -> settings_ok s -> settings_ok (apply_all other s).
Proof. by intros [] []. Qed.

Lemma keeps_settings now h : keeps evolves (handle_settings now h).
Proof.
  unfold handle_settings. apply keeps_if.
  { keep. apply keeps_modify. intros w. store. }
  apply keeps_gets_bind. intros w. destruct (is_finished (remote_settings w)); [reflexivity|].
  match goal with |- evolves w ((all_bytes_left ≫= ?k) w).1 =>
    change ((all_bytes_left ≫= k) w) with (k (Queue.chain (reader w)) w) end. cbv beta.
  destruct (ReadSettingsAdaptor now (Queue.chain (reader w))) as [s|e] eqn:E; [|reflexivity].
  match goal with |- evolves w ((lift (Return s) ≫= ?k) w).1 =>
    change ((lift (Return s) ≫= k) w) with (k s w) end. cbv beta.
  match goal with |- evolves w ((modify ?f ≫= ?k) w).1 =>
    change ((modify f ≫= k) w) with (k tt (f w)) end. cbv beta.
  etransitivity.
  - apply (evolves_store w (with_remote (apply_all s (remote_settings w)) w)); cbn; eauto with steps.
    intros Hok. apply apply_all_ok; [|apply Hok]. eapply read_settings_adaptor_ok; [|done]. apply Hok.
  - generalize (with_remote (apply_all s (remote_settings w)) w). intros w1. revert w1.
    generalize (m_initial_window_size (remote_settings w)). clear. intros old_window.
    match goal with |- forall w1, evolves w1 ((gets _ ≫= ?k) w1).1 =>
      change (keeps evolves (gets remote_settings ≫= k)) end.
    keep; apply keeps_modify; clear; intros w; store.
Qed.

#[export] Hint Resolve keeps_settings : steps.

Lemma keeps_connection_receive ext now h :
  header_ok h -> keeps evolves (connection_receive ext now h).
Proof. intros Hh. unfold connection_receive. keep. Qed.

#[export] Hint Resolve keeps_connection_receive : steps.

(** ** The invariant of a stream *)

Record stream_ok (s : Stream) : Prop := {
  st_send : window_ok (m_send_window s);
  st_recv : - 2 ^ 31 <= m_recv_window s < 2 ^ 31;
}.

(** How a step moves a stream and what it shares: neither receive window grows, the stream keeps its
    id, and bytes are only added to the body of the request. *)
Record advances (a b : Scope) : Prop := {
  ad_shared : evolves a.1 b.1;
  ad_ok : shared_ok a.1 -> stream_ok a.2 -> stream_ok b.2;
  ad_recv : shared_ok a.1 -> stream_ok a.2 -> m_recv_window b.2 <= m_recv_window a.2;
  ad_id : get_stream_id b.2 = get_stream_id a.2;
}.

#[export] Instance advances_preorder : PreOrder advances.
Proof.
  split; [intros a; split; (reflexivity || done)|]. intros a b c [] []. split.
  - by etransitivity.
  - intros Ha Hs. apply ad_ok1; [by apply ad_shared0|auto].
  - intros Ha Hs. specialize (ad_recv0 Ha Hs). specialize (ad_recv1 (ev_ok _ _ ad_shared0 Ha) (ad_ok0 Ha Hs)). lia.
  - congruence.
Qed.

Lemma keeps_on_shared {A} (m : step Shared A) : keeps evolves m -> keeps advances (on_shared m).
Proof.
  intros Hm [w s]. unfold on_shared. specialize (Hm w). destruct (m w) as [w' o]. by split.
Qed.

Lemma keeps_self : keeps advances self.
Proof. unfold self. keep. Qed.

(** A store that leaves the windows and the id alone. *)
Lemma keeps_update f :
  (forall s, m_send_window (f s) = m_send_window s /\ m_recv_window (f s) = m_recv_window s /\
     get_stream_id (f s) = get_stream_id s) -> keeps advances (update f).
Proof.
  intros Hf. apply keeps_modify. intros [w s]. destruct (Hf s) as (H1 & H2 & H3).
  split; cbn; [reflexivity| | |done]; intros _ []; [split|]; rewrite ?H1, ?H2; done.
Qed.

Ltac plain_update := apply keeps_update; intros ?; repeat case_match; done.

#[export] Hint Resolve keeps_on_shared keeps_self : steps.
#[export] Hint Extern 5 (keeps advances (update _)) => plain_update : steps.

Lemma keeps_get_block : keeps advances get_header_block_for_write.
Proof. unfold get_header_block_for_write. keep. Qed.

(** A store of windows. *)
Lemma advances_windows w s send recv :
  (shared_ok w -> stream_ok s -> window_ok send /\ - 2 ^ 31 <= recv <= m_recv_window s) ->
  advances (w, s) (w, with_windows send recv s).
Proof.
  intros H. split; cbn; [reflexivity| | |done].
  - intros Hw Hs. destruct (H Hw Hs). split; cbn; [done|]. destruct Hs. lia.
  - intros Hw Hs. destruct (H Hw Hs). lia.
Qed.

Lemma keeps_raise_window increment : keeps advances (update_send_window increment).
Proof.
  unfold update_send_window. apply keeps_gets_bind. intros [w s]. cbn [snd].
  destruct (raised_window (get_stream_id s) increment (m_send_window s)) as [v|e] eqn:E; [|reflexivity].
  apply raised_window_ok in E. transitivity (w, with_windows v (m_recv_window s) s).
  - apply advances_windows. intros _ []. split; [done|lia].
  - apply (keeps_on_shared _ (keeps_connection_raise increment)).
Qed.

Lemma keeps_debit size is_sender : 0 <= size -> keeps advances (consume_window size is_sender).
Proof.
  intros Hs. unfold consume_window. apply keeps_bind; [apply _|by eauto with steps|]. intros _.
  apply keeps_gets_bind. intros [w s]. cbn [snd].
  destruct (debited_window _ _ _ _) as [v o] eqn:E. run_step. destruct is_sender; cbn.
  - apply advances_windows. intros _ []. split; [by eapply debited_window_send|lia].
  - apply advances_windows. intros _ []. apply debited_window_recv in E; [|done..]. split; [done|lia].
Qed.

#[export] Hint Resolve keeps_get_block keeps_raise_window keeps_debit : steps.

Section Keeps.
Context (hash_string : string -> Z) (hash_uint32 : Z -> Z).

Lemma keeps_decode kind view target : keeps evolves (decode_message hash_string hash_uint32 kind view target).
Proof.
  intros w. unfold decode_message. destruct (decode_run _ _ _ _ _ _) as [[t log] r]. cbn. store.
Qed.

Lemma keeps_compression clear m :
  (forall s, m_send_window (clear s) = m_send_window s /\ m_recv_window (clear s) = m_recv_window s /\
     get_stream_id (clear s) = get_stream_id s) ->
  keeps advances m -> keeps advances (as_compression_error clear m).
Proof.
  intros Hc Hm s. specialize (Hm s). unfold as_compression_error. destruct (m s) as [[w1 s1] o].
  assert (advances (w1, s1) (w1, clear s1)) as Hclear by (apply (keeps_update clear Hc (w1, s1))).
  destruct o as [|[| | |[]|]]; cbn in *; try done; by etransitivity.
Qed.

#[local] Hint Resolve keeps_decode : steps.

Lemma keeps_primary view : keeps advances (decode_primary hash_string hash_uint32 view).
Proof. unfold decode_primary. keep. Qed.

Lemma keeps_trailers view : keeps advances (decode_trailers hash_string hash_uint32 view).
Proof. unfold decode_trailers. keep. Qed.

#[local] Hint Resolve keeps_primary keeps_trailers : steps.

Lemma keeps_handle_header view : keeps advances (handle_header hash_string hash_uint32 view).
Proof. unfold handle_header. keep; apply keeps_compression; auto with steps. Qed.

#[local] Hint Resolve keeps_handle_header : steps.

Lemma header_length h : header_ok h -> 0 <= i32 (m_length h).
Proof. intros [_ Hl]. rewrite i32_small by lia. lia. Qed.

#[local] Hint Resolve header_length : steps.

Lemma keeps_data h : header_ok h -> keeps advances (receive_data h).
Proof. intros Hh. unfold receive_data. keep. Qed.

Lemma keeps_set_block view : keeps advances (update (set_block view)).
Proof. apply keeps_update. intros s. unfold set_block. by destruct (m_primary_headers_done s). Qed.

#[local] Hint Resolve keeps_data keeps_set_block : steps.

Lemma keeps_block h : keeps advances (receive_block hash_string hash_uint32 h).
Proof. unfold receive_block. keep. Qed.

#[local] Hint Resolve keeps_block : steps.

Lemma keeps_machine m TYPE FLAGS l s :
  advance TYPE FLAGS l (m_state_machine s) = Return m ->
  forall w, advances (w, s) (w, with_machine m s).
Proof.
  unfold advance. destruct (advance_from _ _ _ _ _); [|done]. intros [= <-] w.
  split; cbn; [reflexivity|by intros _ []|done|done].
Qed.

(** [self] bound to the stream it returns. *)
Lemma keeps_self_bind {A} (k : Stream -> step Scope A) :
  (forall w s, advances (w, s) (k s (w, s)).1) -> keeps advances (self ≫= k).
Proof. intros H. apply keeps_gets_bind. intros [w s]. apply H. Qed.

Lemma keeps_transition TYPE FLAGS l (k : StreamStateMachine -> step Scope unit) w s :
  (forall m, keeps advances (k m)) ->
  advances (w, s) ((machine ← lift (advance TYPE FLAGS l (m_state_machine s));
                    _ ← update (with_machine machine); k machine) (w, s)).1.
Proof.
  intros Hk. destruct (advance TYPE FLAGS l (m_state_machine s)) as [m|e] eqn:E; [|reflexivity].
  etransitivity; [by apply (keeps_machine m TYPE FLAGS l s E w)|]. apply Hk.
Qed.

Lemma keeps_receive ext h : header_ok h -> keeps advances (receive hash_string hash_uint32 ext h).
Proof.
  intros Hh. unfold receive. apply keeps_self_bind. intros w s. destruct (_ && _); [reflexivity|].
  apply keeps_transition. intros m. keep.
Qed.

Lemma keeps_advance_send TYPE FLAGS : keeps advances (advance_send TYPE FLAGS).
Proof.
  unfold advance_send. apply keeps_self_bind. intros w s. apply keeps_transition. intros m. keep.
Qed.

End Keeps.

#[export] Hint Resolve keeps_receive keeps_advance_send : steps.
