(* ===== verification/Session.v ===== *)
(** * HTTP/2 sessions

    Models src/include/io/layer/http2/session.cppm ([Session]), handshake.cppm ([Handshake], the
    [is_valid_preface] check and [send_handshake]) and flow.cppm ([ServerFlow], [ClientFlow]) over the
    streams of Stream.v.

    The map of streams keeps a null entry, a tombstone, for a stream that was closed.  What the
    session hands out is a log of events: the nodes it submits, its calls of the close callback and
    the requests it dispatches.  The handler is a parameter; the [send] functions it receives are
    numbered in the order of the dispatches ([callbacks]), with their [called] flags, and may be called
    during the dispatch or at any later time ([late_send]).  A request the handler changes after its
    response was sent is not modelled: the code has destroyed it.

    A read is a [Read]: the octets it delivers, and what they meet when part of an earlier read is still
    unread.  As the writer and the receiver do it, they then overwrite that part ([overwrite]); the
    invariants below hold for such reads too. *)

From Stdlib Require Import ZArith Lia.
From stdpp Require Import base list gmap strings sorting.
From S2P Require Import Prelude HttpTypes HeaderTable Hpack Buffering Frame Settings StreamState Message Steps Stream.

Open Scope Z_scope.

(** ** State *)

Inductive Event :=
  | Submit (bytes : list Z)
  | CloseTransport
  | Dispatch (stream_id : Z) (request response : Message).

Record Session := mkSession {
  m_last_client_stream_id : Z;
  m_shared : Shared;
  m_streams : gmap Z (option Stream);
  m_safe_header : option FrameHeader;
  m_callbacks : list (Z * bool);
  m_events : list Event;
}.

(** A handler's visible behaviour: the messages it leaves, whether it calls [send] before it returns,
    and whether it throws, after that. *)
Record Handled := mkHandled { h_request : Message; h_response : Message; h_sends : bool; h_throws : bool }.

Definition new_session (now : Z) : Session :=
  mkSession 1
    (mkShared (default_settings now) (default_settings now) (make_table DEFAULT_MAX_TABLE_SIZE)
       (make_table DEFAULT_MAX_TABLE_SIZE) (new_connection (default_settings now)) Queue.empty_reader)
    ∅ None [] [].

Definition with_last_client (id : Z) (s : Session) : Session :=
  mkSession id (m_shared s) (m_streams s) (m_safe_header s) (m_callbacks s) (m_events s).
Definition with_shared (w : Shared) (s : Session) : Session :=
  mkSession (m_last_client_stream_id s) w (m_streams s) (m_safe_header s) (m_callbacks s) (m_events s).
Definition with_streams (streams : gmap Z (option Stream)) (s : Session) : Session :=
  mkSession (m_last_client_stream_id s) (m_shared s) streams (m_safe_header s) (m_callbacks s) (m_events s).
Definition with_header (h : option FrameHeader) (s : Session) : Session :=
  mkSession (m_last_client_stream_id s) (m_shared s) (m_streams s) h (m_callbacks s) (m_events s).
Definition with_callbacks (l : list (Z * bool)) (s : Session) : Session :=
  mkSession (m_last_client_stream_id s) (m_shared s) (m_streams s) (m_safe_header s) l (m_events s).
Definition emit_event (e : Event) (s : Session) : Session :=
  mkSession (m_last_client_stream_id s) (m_shared s) (m_streams s) (m_safe_header s) (m_callbacks s) (m_events s ++ [e]).

Definition put_stream (stream_id : Z) (st : Stream) (s : Session) : Session :=
  with_streams (<[stream_id := Some st]> (m_streams s)) s.

(** One read of the receiver: the [octets] it delivers, and what they meet at the tail of the chain
    when part of an earlier read is still unread.  The receiver stores at the start of the slot that
    [acquire] returns, which is a new node only if the chain is empty or its last node has no room
    left ([tail_full]).  Otherwise the slot is the node that holds the unread octets: they are
    overwritten, the write mark grows past what was ever stored ([Buffering.split_read_undefined]),
    and the reader holds [memory], of which nothing is known. *)
Record Read := mkRead { octets : list Z; tail_full : bool; memory : list Z }.

(** A read of [bytes] into a chain that is empty, or whose last node has room. *)
Definition fresh (bytes : list Z) : Read := mkRead bytes false [].

Definition overwrite (r : Read) (q : Queue.Reader) : Queue.Reader :=
  Queue.mkReader (resize (length (Queue.chain q) + length (octets r)) 0 (memory r))
    (size_t (Queue.size q + Z.of_nat (length (octets r)))).

(** What the reader holds after a read. *)
Definition arrived (r : Read) (q : Queue.Reader) : Queue.Reader :=
  if bool_decide (Queue.chain q = []) || tail_full r then Queue.push_back (octets r) q else overwrite r q.

Definition arrive (r : Read) (s : Session) : Session :=
  with_shared (with_reader (arrived r (reader (m_shared s))) (m_shared s)) s.

Definition shared {A} (m : step Shared A) : step Session A := fun s =>
  let '(w, o) := m (m_shared s) in (with_shared w s, o).

(** [*m_streams.at(stream_id)]: a missing entry throws, a null one is dereferenced. *)
Definition stream_at (stream_id : Z) : step Session Stream := fun s =>
  (s, match m_streams s !! stream_id with
      | Some (Some st) => Return st
      | Some None => Throw (Other UndefinedBehaviour)
      | None => Throw (Other OutOfRange)
      end).

(** Run a member function of a stream that is in the map. *)
Definition run_stream {A} (stream_id : Z) (st : Stream) (m : step Scope A) : step Session A := fun s =>
  let '((w, st), o) := m (m_shared s, st) in (put_stream stream_id st (with_shared w s), o).

Definition on_stream {A} (stream_id : Z) (m : step Scope A) : step Session A :=
  st ← stream_at stream_id; run_stream stream_id st m.

Definition max_frame_size (s : Session) : nat := Z.to_nat (m_max_frame_size (local_settings (m_shared s))).

(** ** Sending *)

Definition send_node (bytes : list Z) : step Session unit := modify (emit_event (Submit bytes)).

(** [send_frame]: a node of the size of one frame. *)
Definition send_frame (f : FrameBuilder) : step Session unit :=
  n ← gets max_frame_size;
  bytes ← lift (of_result (WriteFrameBuilderAdaptor f n false false []));
  if (length bytes <=? Frame.get_size f)%nat then send_node bytes else raise (Other UndefinedBehaviour).

Definition send_goaway (code : Http2ErrorCode) (stream_id : Z) : step Session unit :=
  send_frame (build_frame GOAWAY 0 0 (goaway_payload stream_id code)).

Definition close (code : Http2ErrorCode) (stream_id : Z) : step Session unit :=
  _ ← send_goaway code stream_id;
  _ ← modify (with_header None);
  _ ← modify (fun s => with_streams (filter (fun '(id, _) => id <= stream_id) (m_streams s)) s);
  modify (emit_event CloseTransport).

(** A stream is idle only when it was never used: tombstones stay. *)
Definition is_idle (s : Session) : bool := bool_decide (m_streams s = ∅).

(** ** The map of streams *)

Definition mark_stream_closed (stream_id : Z) : step Session unit :=
  if stream_id =? 0 then lift (connection_error PROTOCOL_ERROR)
  else
    s ← gets id;
    match m_streams s !! stream_id with
    | Some _ => modify (fun s => with_streams (<[stream_id := None]> (m_streams s)) s)
    | None => raise (ConnectionError PROTOCOL_ERROR (m_last_stream_id (remote_settings (m_shared s))))
    end.

Definition get_or_create_stream (stream_id : Z) : step Session unit :=
  if stream_id =? 0 then lift (connection_error PROTOCOL_ERROR)
  else
    s ← gets id;
    match m_streams s !! stream_id with
    | Some None => raise (ConnectionError PROTOCOL_ERROR (m_last_stream_id (remote_settings (m_shared s))))
    | Some (Some _) => mret tt
    | None =>
        st ← lift (make_stream stream_id (remote_settings (m_shared s)));
        modify (put_stream stream_id st)
    end.

Definition next_client_stream : step Session Z :=
  _ ← modify (fun s => with_last_client (u32 (m_last_client_stream_id s + 2)) s);
  stream_id ← gets m_last_client_stream_id;
  _ ← get_or_create_stream stream_id;
  mret stream_id.

Section Session.
Context (hash_string : string -> Z) (hash_uint32 : Z -> Z).
Context (hash_order : gmap string string -> list (string * string)).
Context (has_extensions : bool).
Context (m_dispatch : Message -> Message -> Handled).

(** Encode with the session's table into a node of the estimated size. *)
Definition encode_message (m : Message) : step Session (list Z) :=
  s ← gets id;
  '(bytes, table) ← lift (of_result (write_node hash_string hash_uint32 hash_order (encoding_table (m_shared s))
                                       (max_frame_size s) m));
  _ ← modify (fun s => with_shared (with_encoding table (m_shared s)) s);
  mret bytes.

(** [Session::send]: the id the request gets. *)
Definition send (request : Message) : step Session Z :=
  stream_id ← next_client_stream;
  bytes ← encode_message (set_stream_id stream_id request);
  _ ← on_stream stream_id (advance_send HEADERS END_STREAM);
  _ ← send_node bytes;
  mret stream_id.

Definition send_response (stream_id : Z) : step Session unit :=
  st ← stream_at stream_id;
  bytes ← encode_message (m_response st);
  _ ← send_node bytes;
  mark_stream_closed stream_id.

(** The [send] function number [k]: the second call does nothing. *)
Definition send_callback (k : nat) : step Session unit :=
  s ← gets id;
  match m_callbacks s !! k with
  | None | Some (_, true) => mret tt
  | Some (stream_id, false) =>
      _ ← modify (with_callbacks (<[k := (stream_id, true)]> (m_callbacks s)));
      send_response stream_id
  end.

Definition STATUS_NOT_FOUND : string := "404".
Definition STATUS_INTERNAL_SERVER_ERROR : string := "500".

Definition set_stream_status (stream_id : Z) (code : string) : step Session unit :=
  st ← stream_at stream_id;
  res ← lift (set_status code (m_response st));
  modify (put_stream stream_id (with_response res st)).

(** The call of the handler. *)
Definition dispatch (stream_id : Z) (k : nat) : step Session unit :=
  st ← stream_at stream_id;
  _ ← modify (emit_event (Dispatch stream_id (m_request st) (m_response st)));
  let r := m_dispatch (m_request st) (m_response st) in
  _ ← modify (put_stream stream_id (with_request (h_request r) (with_response (h_response r) st)));
  _ ← when (h_sends r) (send_callback k);
  when (h_throws r) (raise (Other RuntimeError)).

(** An exception the [catch (const std::exception&)] of [response] catches. *)
Definition caught (e : exception) : bool :=
  match e with Other UndefinedBehaviour | Terminate => false | _ => true end.

Definition downgrade (stream_id : Z) (m : step Session unit) : step Session unit := fun s =>
  match m s with
  | (s, Throw e) =>
      if caught e then
        (_ ← set_stream_status stream_id STATUS_INTERNAL_SERVER_ERROR; send_response stream_id) s
      else (s, Throw e)
  | r => r
  end.

Definition response (stream_id : Z) : step Session unit :=
  _ ← set_stream_status stream_id STATUS_NOT_FOUND;
  k ← gets (fun s => length (m_callbacks s));
  _ ← modify (fun s => with_callbacks (m_callbacks s ++ [(stream_id, false)]) s);
  downgrade stream_id (dispatch stream_id k).

(** ** Receiving *)

Definition receive_header : step Session (option FrameHeader) :=
  s ← gets id;
  if Queue.size (reader (m_shared s)) <? Z.of_nat HEADER_SIZE then mret None
  else
    bs ← shared (take_bytes HEADER_SIZE);
    h ← lift (ReadFrameHeaderAdaptor (m_max_frame_size (local_settings (m_shared s))) bs);
    _ ← shared (consume_bytes HEADER_SIZE);
    mret (Some h).

(** The loop over all streams, in the order of their ids. *)
Fixpoint update_windows (ids : list Z) (delta : Z) : step Session unit :=
  match ids with
  | [] => mret tt
  | id :: ids => _ ← on_stream id (update_send_window delta); update_windows ids delta
  end.

Definition stream_ids (s : Session) : list Z := merge_sort Z.le ((map_to_list (m_streams s)).*1).

(** The settings the peer sent take effect with the next header. *)
Definition implement_settings : step Session unit :=
  s ← gets id;
  let remote := remote_settings (m_shared s) in
  when (is_acknowledged remote)
    (let delta := m_delta_window_on_settings remote in
     _ ← when (0 <? delta)
           (_ ← update_windows (stream_ids s) delta;
            shared (modify (fun w => with_remote (set_delta_window_on_settings 0 (remote_settings w)) w)));
     shared (modify (fun w => with_remote (Settings.set_state IMPLEMENTED (remote_settings w)) w))).

(** A header is there: the one a call before left, or a new one. *)
Definition fetch_header : step Session bool :=
  s ← gets id;
  match m_safe_header s with
  | Some _ => mret true
  | None =>
      header_opt ← receive_header;
      match header_opt with
      | None => mret false
      | Some header =>
          s ← gets id;
          let last := m_last_stream_id (remote_settings (m_shared s)) in
          if last <? Frame.m_stream_id header then raise (ConnectionError PROTOCOL_ERROR last)
          else
            _ ← implement_settings;
            _ ← modify (with_header (Some header));
            mret true
      end
  end.

Definition receive_frame (now : Z) (header : FrameHeader) : step Session unit :=
  let stream_id := Frame.m_stream_id header in
  if stream_id =? 0 then
    frm ← shared (connection_receive has_extensions now header);
    match frm with Some f => send_frame f | None => mret tt end
  else
    _ ← get_or_create_stream stream_id;
    _ ← on_stream stream_id (Stream.receive hash_string hash_uint32 has_extensions header);
    st ← stream_at stream_id;
    when (m_remote_done st) (response stream_id).

(** The body of the [try] block. *)
Definition receive_body (now : Z) : step Session unit :=
  ready ← fetch_header;
  match ready with
  | false => mret tt
  | true =>
      s ← gets id;
      match m_safe_header s with
      | None => mret tt
      | Some header =>
          if Queue.size (reader (m_shared s)) <? m_length header then mret tt
          else
            _ ← modify (with_header None);
            receive_frame now header
      end
  end.

(** [Session::receive]: what a [catch] block throws leaves the function. *)
Definition receive (now : Z) : step Session unit := fun s =>
  match receive_body now s with
  | (s, Throw (ConnectionError code last_stream_id)) => close code last_stream_id s
  | (s, Throw (StreamError stream_id code)) =>
      (_ ← send_frame (build_frame RST_STREAM 0 stream_id (be_bytes 4 (error_code code)));
       mark_stream_closed stream_id) s
  | r => r
  end.

End Session.

(** ** Handshake and flows *)

Inductive HandshakeState := AWAITING_PREFACE | PREFACE_RECEIVED | PREFACE_ERROR | COMPLETED.

#[export] Instance HandshakeState_eq_dec : EqDecision HandshakeState.
Proof. solve_decision. Defined.

Record Flow := mkFlow {
  m_session : Session;
  m_sent_settings : bool;
  m_handshake_completed : bool;
  m_closed : bool;
}.

Definition new_flow (now : Z) : Flow := mkFlow (new_session now) false false false.

Definition on_session {A} (m : step Session A) : step Flow A := fun f =>
  let '(s, o) := m (m_session f) in
  (mkFlow s (m_sent_settings f) (m_handshake_completed f) (m_closed f), o).

Definition set_sent_settings (f : Flow) : Flow := mkFlow (m_session f) true (m_handshake_completed f) (m_closed f).
Definition set_completed (f : Flow) : Flow := mkFlow (m_session f) (m_sent_settings f) true (m_closed f).
Definition set_closed (f : Flow) : Flow := mkFlow (m_session f) (m_sent_settings f) (m_handshake_completed f) true.

(** [send_handshake]: a client's frame follows the preface in the same node. *)
Definition send_handshake (IsServer : bool) : step Flow unit :=
  f ← gets id;
  if m_sent_settings f then mret tt
  else
    let local := local_settings (m_shared (m_session f)) in
    let frame := build_frame SETTINGS 0 0 (WriteSettingsAdaptor local []) in
    let preface := if IsServer then [] else HTTP2_CONNECTION_PREFACE in
    bytes ← lift (of_result (WriteFrameBuilderAdaptor frame (Z.to_nat (m_max_frame_size local)) false false preface));
    _ ← (if (length bytes <=? length preface + Frame.get_size frame)%nat then on_session (send_node bytes)
         else raise (Other UndefinedBehaviour));
    modify set_sent_settings.

Definition is_valid_preface : step Session HandshakeState :=
  s ← gets id;
  let n := length HTTP2_CONNECTION_PREFACE in
  if Queue.size (reader (m_shared s)) <? Z.of_nat n then mret AWAITING_PREFACE
  else
    bs ← shared (take_bytes n);
    if bool_decide (bs = HTTP2_CONNECTION_PREFACE) then
      _ ← shared (consume_bytes n);
      mret COMPLETED
    else mret PREFACE_ERROR.

(** [ServerFlow::close]. *)
Definition flow_close (code : Http2ErrorCode) : step Flow unit :=
  f ← gets id;
  if m_closed f then mret tt
  else _ ← modify set_closed; on_session (close code 0).

Section Flows.
Context (hash_string : string -> Z) (hash_uint32 : Z -> Z).
Context (hash_order : gmap string string -> list (string * string)).
Context (has_extensions : bool).
Context (m_dispatch : Message -> Message -> Handled).

#[local] Abbreviation session_receive := (receive hash_string hash_uint32 hash_order has_extensions m_dispatch).

(** A read that has bytes left is dispatched to the session, once. *)
Definition dispatch_to_session (now : Z) : step Flow unit :=
  f ← gets id;
  when (negb (Queue.is_empty (reader (m_shared (m_session f))))) (on_session (session_receive now)).

(** [ServerFlow::on_read], with the read that led to the call. *)
Definition server_on_read (now : Z) (r : Read) : step Flow unit :=
  _ ← on_session (modify (arrive r));
  f ← gets id;
  if m_handshake_completed f then dispatch_to_session now
  else
    _ ← send_handshake true;
    result ← on_session is_valid_preface;
    match result with
    | COMPLETED => _ ← modify set_completed; dispatch_to_session now
    | PREFACE_ERROR => flow_close PROTOCOL_ERROR
    | _ => mret tt
    end.

(** [ClientFlow::on_connect], the callback it returns, and [sender]. *)
Definition client_on_connect : step Flow unit := send_handshake false.

Definition client_on_read (now : Z) (r : Read) : step Flow unit :=
  _ ← on_session (modify (arrive r));
  dispatch_to_session now.

Definition sender (request : Message) : step Flow Z :=
  on_session (send hash_string hash_uint32 hash_order request).

End Flows.

#[local] Arguments Queue.take_view : simpl never.
#[local] Arguments ReadFrameHeaderAdaptor : simpl never.

(** ** The invariant of a session *)

(** The octets of a read, and those of the memory it may uncover, are octets. *)
Definition read_ok (r : Read) : Prop := Forall is_byte (octets r) /\ Forall is_byte (memory r).

Record session_ok (s : Session) : Prop := {
  se_shared : shared_ok (m_shared s);
  se_stream : forall id st, m_streams s !! id = Some (Some st) -> get_stream_id st = id /\ stream_ok st;
  se_odd : forall id, is_Some (m_streams s !! id) -> 0 < id /\ id mod 2 = 1;
  se_header : forall h, m_safe_header s = Some h -> header_ok h;
  se_client : 0 <= m_last_client_stream_id s < 2 ^ 32;
}.

Definition tombstone (s : Session) (id : Z) : Prop := m_streams s !! id = Some None.

(** What happened between two states is [log]: until the session is closed, a closed stream stays
    closed and is not dispatched. *)
Definition respects_tombstones (s s' : Session) (log : list Event) : Prop :=
  CloseTransport ∉ log ->
  forall id, tombstone s id -> tombstone s' id /\ forall req res, Dispatch id req res ∉ log.

Record moved (s s' : Session) : Prop := {
  mv_ok : session_ok s';
  mv_recv : c_recv_window (connection_stream (m_shared s')) <= c_recv_window (connection_stream (m_shared s));
  mv_log : exists log, m_events s' = m_events s ++ log /\ respects_tombstones s s' log;
  mv_called : forall k id, m_callbacks s !! k = Some (id, true) -> m_callbacks s' !! k = Some (id, true);
}.

(** How the operations move a session. *)
Definition follows (s s' : Session) : Prop := session_ok s -> moved s s'.

#[export] Instance follows_preorder : PreOrder follows.
Proof.
  split.
  - intros s Hs. split; [done|lia| |done]. exists []. rewrite app_nil_r. split; [done|].
    intros _ id Hid. split; [done|]. intros req res Hin. by apply elem_of_nil in Hin.
  - intros a b c Hab Hbc Ha. destruct (Hab Ha) as [Hb H1 (l1 & E1 & T1) C1].
    destruct (Hbc Hb) as [Hc H2 (l2 & E2 & T2) C2]. split; [done|lia| |by auto].
    exists (l1 ++ l2). rewrite E2, E1, app_assoc. split; [done|]. intros Hn id Hid.
    rewrite not_elem_of_app in Hn. destruct Hn as [Hn1 Hn2].
    destruct (T1 Hn1 id Hid) as [Hid' D1]. destruct (T2 Hn2 id Hid') as [Hid'' D2]. split; [done|].
    intros req res [H|H]%elem_of_app; [by eapply D1|by eapply D2].
Qed.

(** A store that appends no event. *)
Lemma follows_store s s' :
  (session_ok s -> session_ok s') ->
  c_recv_window (connection_stream (m_shared s')) = c_recv_window (connection_stream (m_shared s)) ->
  m_events s' = m_events s -> (forall id, tombstone s id -> tombstone s' id) ->
  (forall k id, m_callbacks s !! k = Some (id, true) -> m_callbacks s' !! k = Some (id, true)) ->
  follows s s'.
Proof.
  intros Hok Hr He Ht Hc Hs. split; [by auto|lia| |done]. exists []. rewrite app_nil_r. split; [done|].
  intros _ id Hid. split; [by auto|]. intros req res Hin. by apply elem_of_nil in Hin.
Qed.

Lemma keeps_shared {A} (m : step Shared A) : keeps evolves m -> keeps follows (shared m).
Proof.
  intros Hm s Hs. unfold shared. specialize (Hm (m_shared s)). destruct (m (m_shared s)) as [w o].
  destruct Hm as [H1 H2 H3]. destruct Hs as [Hw Hst Hodd Hh Hcl]. split; cbn; [|by auto| |done].
  - split; cbn; auto.
  - exists []. rewrite app_nil_r. split; [done|]. intros _ id Hid. split; [done|].
    intros req res Hin. by apply elem_of_nil in Hin.
Qed.

(** A stream that is in the map may be replaced by one with its id. *)
Lemma put_ok id st st' s :
  m_streams s !! id = Some (Some st) -> (session_ok s -> get_stream_id st' = id /\ stream_ok st') ->
  session_ok s -> session_ok (put_stream id st' s).
Proof.
  intros Hst Hok' Hok. specialize (Hok' Hok). destruct Hok as [Hw Hs Hodd Hh Hcl]. split; cbn; try done.
  - intros i x. rewrite lookup_insert_Some. intros [[<- [= <-]]|[_ Hx]]; [done|by apply Hs].
  - intros i Hi. destruct (decide (i = id)) as [->|]; [apply Hodd; by rewrite Hst|].
    rewrite lookup_insert_ne in Hi by done. by apply Hodd.
Qed.

Lemma put_tombstone id st st' s i :
  m_streams s !! id = Some (Some st) -> tombstone s i -> tombstone (put_stream id st' s) i.
Proof.
  unfold tombstone. intros Hst Hi. cbn. rewrite lookup_insert_ne; [done|]. intros ->. by rewrite Hst in Hi.
Qed.

Lemma follows_put id st st' s :
  m_streams s !! id = Some (Some st) -> (session_ok s -> get_stream_id st' = id /\ stream_ok st') ->
  follows s (put_stream id st' s).
Proof.
  intros Hst Hok'. apply follows_store; try done; [by eapply put_ok|]. intros i Hi. by eapply put_tombstone.
Qed.

(** [stream_at] bound to the stream it returns. *)
Lemma keeps_at_bind {A} id (k : Stream -> step Session A) :
  (forall s st, m_streams s !! id = Some (Some st) -> follows s (k st s).1) -> keeps follows (stream_at id ≫= k).
Proof.
  intros H s. run_step. destruct (m_streams s !! id) as [[st|]|] eqn:E; cbn; [by apply H|reflexivity|reflexivity].
Qed.

Lemma keeps_stream_at id : keeps follows (stream_at id).
Proof. intros s. cbn. reflexivity. Qed.

Lemma keeps_on_stream {A} id (m : step Scope A) : keeps advances m -> keeps follows (on_stream id m).
Proof.
  intros Hm. apply keeps_at_bind. intros s st Hst Hs. unfold run_stream. specialize (Hm (m_shared s, st)).
  destruct (m (m_shared s, st)) as [[w st'] o]. cbn in *. destruct Hm as [H1 H2 H3 H4]. cbn in *.
  pose proof (se_shared _ Hs) as Hw. destruct (se_stream _ Hs _ _ Hst) as [Hid Hso].
  pose proof (ev_ok _ _ H1 Hw) as Hw'.
  assert (session_ok (with_shared w s)) as Hs1 by (destruct Hs; split; cbn; auto).
  split; cbn; [|by apply H1| |done].
  - apply (put_ok id st); [done| |done]. intros _. split; [congruence|by auto].
  - exists []. rewrite app_nil_r. split; [done|]. intros _ i Hi. split; [by eapply put_tombstone|].
    intros req res Hin. by apply elem_of_nil in Hin.
Qed.

#[export] Hint Resolve keeps_shared keeps_stream_at keeps_on_stream : steps.

(** An event that is no dispatch of a tombstone. *)
Lemma follows_event e s :
  (forall id req res, e = Dispatch id req res -> ~ tombstone s id) -> follows s (emit_event e s).
Proof.
  intros He Hs. split; cbn; [by destruct Hs|lia| |done]. exists [e]. split; [done|]. intros _ id Hid. split; [done|].
  intros req res Hin%list_elem_of_singleton. by eapply He.
Qed.

Lemma keeps_send_node bytes : keeps follows (send_node bytes).
Proof. apply keeps_modify. intros s. by apply follows_event. Qed.

#[export] Hint Resolve keeps_send_node : steps.

Lemma keeps_send_frame f : keeps follows (send_frame f).
Proof. unfold send_frame. keep. Qed.

Lemma keeps_goaway_frame code id : keeps follows (send_goaway code id).
Proof. apply keeps_send_frame. Qed.

#[export] Hint Resolve keeps_send_frame keeps_goaway_frame : steps.

(** The end of [close]: the streams it forgets come with the event that announces it. *)
Lemma follows_close id s :
  follows s (emit_event CloseTransport
    (with_streams (filter (fun '(i, _) => i <= id) (m_streams s)) (with_header None s))).
Proof.
  intros Hs. split; cbn; [|lia| |done].
  - destruct Hs as [Hw Hst Hodd Hh Hcl]. split; cbn; try done.
    + intros i st [Hi _]%map_lookup_filter_Some. by apply Hst.
    + intros i [x [Hi _]%map_lookup_filter_Some]. apply Hodd. by rewrite Hi.
  - exists [CloseTransport]. split; [done|]. intros Hn. destruct Hn. by left.
Qed.

Lemma keeps_close code id : keeps follows (close code id).
Proof.
  unfold close. apply keeps_bind; [apply _|apply keeps_goaway_frame|]. intros _ s. apply (follows_close id s).
Qed.

Lemma keeps_mark id : keeps follows (mark_stream_closed id).
Proof.
  unfold mark_stream_closed. apply keeps_if; [keep|]. apply keeps_gets_bind. intros s. cbn.
  destruct (m_streams s !! id) as [x|] eqn:E; [|reflexivity]. cbn. apply follows_store; cbn; try done.
  - intros [Hw Hst Hodd Hh Hcl]. split; cbn; try done.
    + intros i st. rewrite lookup_insert_Some. intros [[_ [=]]|[_ Hi]]. by apply Hst.
    + intros i Hi. destruct (decide (i = id)) as [->|]; [apply Hodd; by rewrite E|].
      rewrite lookup_insert_ne in Hi by done. by apply Hodd.
  - intros i Hi. unfold tombstone. cbn. destruct (decide (i = id)) as [->|]; [by rewrite lookup_insert_eq|].
    by rewrite lookup_insert_ne.
Qed.

#[export] Hint Resolve keeps_close keeps_mark : steps.

Lemma make_stream_ok id remote st :
  0 < id -> settings_ok remote -> make_stream id remote = Return st ->
  get_stream_id st = id /\ stream_ok st /\ id mod 2 = 1.
Proof.
  intros Hid [_ _ Hw _ _ _ _]. unfold make_stream. destruct (Z.ltb_spec 0 id); [|lia]. cbn.
  destruct (Z.eqb_spec (id mod 2) 0); [done|]. intros [= <-]. split; [done|]. split; [|mlia].
  unfold MAX_INITIAL_WINDOW_SIZE in *. split; cbn; rewrite i32_small by lia; unfold window_ok, MAX_INITIAL_WINDOW_SIZE; lia.
Qed.

Lemma keeps_get_or_create id : 0 <= id -> keeps follows (get_or_create_stream id).
Proof.
  intros Hid. unfold get_or_create_stream. destruct (Z.eqb_spec id 0) as [|Hn]; [keep|].
  apply keeps_gets_bind. intros s. cbn. destruct (m_streams s !! id) as [[st|]|] eqn:E; [reflexivity..|].
  run_step. destruct (make_stream id _) as [st|e] eqn:Em; cbn; [|reflexivity].
  apply follows_store; cbn; try done.
  - intros Hs. destruct (make_stream_ok id _ st ltac:(lia) (sh_remote _ (se_shared _ Hs)) Em) as (Hi & Hok & Ho).
    destruct Hs as [Hw Hst Hodd Hh Hcl]. split; cbn; try done.
    + intros i x. rewrite lookup_insert_Some. intros [[<- [= <-]]|[_ Hx]]; [done|by apply Hst].
    + intros i Hi'. destruct (decide (i = id)) as [->|]; [lia|]. rewrite lookup_insert_ne in Hi' by done. by apply Hodd.
  - intros i Hi. unfold tombstone in *. cbn. rewrite lookup_insert_ne; [done|]. intros ->. by rewrite E in Hi.
Qed.

Lemma keeps_next_client : keeps follows next_client_stream.
Proof.
  unfold next_client_stream. apply keeps_bind; [apply _| |].
  - apply keeps_modify. intros s. apply follows_store; try done. intros []. split; cbn; try done.
    apply wrap_range. lia.
  - intros _. apply keeps_gets_bind. intros s Hs. pose proof (se_client _ Hs) as Hc. revert Hs.
    apply (keeps_run follows _ s). apply keeps_bind; [apply _|apply keeps_get_or_create; lia|keep].
Qed.

Section Keeps.
Context (hash_string : string -> Z) (hash_uint32 : Z -> Z).
Context (hash_order : gmap string string -> list (string * string)).
Context (has_extensions : bool).
Context (m_dispatch : Message -> Message -> Handled).

#[local] Abbreviation encode_message' := (encode_message hash_string hash_uint32 hash_order).
#[local] Abbreviation send_response' := (send_response hash_string hash_uint32 hash_order).

Lemma keeps_encode m : keeps follows (encode_message' m).
Proof.
  unfold encode_message. keep. apply keeps_modify. intros x. apply follows_store; try done.
  intros [[] Hst Hodd Hh Hcl]. by split.
Qed.

#[local] Hint Resolve keeps_encode keeps_next_client : steps.

Lemma keeps_send request : keeps follows (send hash_string hash_uint32 hash_order request).
Proof. unfold send. keep. Qed.

Lemma keeps_send_response id : keeps follows (send_response' id).
Proof. unfold send_response. keep. Qed.

#[local] Hint Resolve keeps_send_response : steps.

Lemma keeps_callback k : keeps follows (send_callback hash_string hash_uint32 hash_order k).
Proof.
  unfold send_callback. apply keeps_gets_bind. intros s. cbn.
  destruct (m_callbacks s !! k) as [[id []]|] eqn:E; [reflexivity| |reflexivity].
  etransitivity; [|apply keeps_send_response]. cbn. apply follows_store; cbn; try done; [by intros []|].
  intros j i Hj. destruct (decide (j = k)) as [->|]; [by rewrite E in Hj|]. by rewrite list_lookup_insert_ne.
Qed.

Lemma keeps_status id code : keeps follows (set_stream_status id code).
Proof.
  unfold set_stream_status. apply keeps_at_bind. intros s st Hst. run_step.
  destruct (set_status code (m_response st)) as [res|e]; cbn; [|reflexivity].
  apply (follows_put id st); [done|]. intros Hs. destruct (se_stream _ Hs _ _ Hst) as [? []]. by split.
Qed.

#[local] Hint Resolve keeps_callback keeps_status : steps.

(** What follows the event of a dispatch. *)
Lemma dispatch_follows id k s st :
  m_streams s !! id = Some (Some st) ->
  follows (emit_event (Dispatch id (m_request st) (m_response st)) s)
    (dispatch hash_string hash_uint32 hash_order m_dispatch id k s).1.
Proof.
  intros Hst. unfold dispatch. rewrite (bind_eq _ _ s s st) by (unfold stream_at; by rewrite Hst).
  rewrite bind_modify. cbv zeta. set (s1 := emit_event _ s). rewrite bind_modify.
  set (r := m_dispatch (m_request st) (m_response st)).
  transitivity (put_stream id (with_request (h_request r) (with_response (h_response r) st)) s1).
  { apply (follows_put id st); [done|].
    intros Hs. destruct (se_stream _ Hs id st Hst) as [? []]. by split. }
  apply keeps_run. keep.
Qed.

Lemma keeps_dispatch id k : keeps follows (dispatch hash_string hash_uint32 hash_order m_dispatch id k).
Proof.
  intros s. destruct (m_streams s !! id) as [[st|]|] eqn:E.
  - etransitivity; [|by apply dispatch_follows].
    apply follows_event. intros i req res [= <- _ _] Ht. unfold tombstone in Ht. by rewrite E in Ht.
  - unfold dispatch. rewrite (bind_throw _ _ s s (Other UndefinedBehaviour)); [reflexivity|].
    unfold stream_at. by rewrite E.
  - unfold dispatch. rewrite (bind_throw _ _ s s (Other OutOfRange)); [reflexivity|].
    unfold stream_at. by rewrite E.
Qed.

#[local] Hint Resolve keeps_dispatch : steps.

Lemma downgrade_follows id m s0 s :
  follows s0 (m s).1 -> follows s0 (downgrade hash_string hash_uint32 hash_order id m s).1.
Proof.
  intros Hm. unfold downgrade. destruct (m s) as [s1 [a|e]]; [done|].
  destruct (caught e); [|done]. etransitivity; [done|]. apply keeps_run. keep.
Qed.

Lemma keeps_downgrade id m :
  keeps follows m -> keeps follows (downgrade hash_string hash_uint32 hash_order id m).
Proof. intros Hm s. apply downgrade_follows, Hm. Qed.

Lemma keeps_response id : keeps follows (response hash_string hash_uint32 hash_order m_dispatch id).
Proof.
  unfold response. keep; [|by apply keeps_downgrade, keeps_dispatch].
  apply keeps_modify. intros x. apply follows_store; try done; [by intros []|].
  intros j i Hj. cbn. by apply lookup_app_l_Some.
Qed.

#[local] Hint Resolve keeps_response : steps.

Lemma read_header_ok max bs h : max < 2 ^ 24 -> ReadFrameHeaderAdaptor max bs = Return h -> header_ok h.
Proof.
  intros Hmax. unfold ReadFrameHeaderAdaptor. case_match; [done|].
  destruct (ReadBigEndianAdaptor 4 (take 3 bs)) as [len|] eqn:El; [|done]. apply read_be_range in El.
  cbn [of_result mbind outcome_bind]. destruct (Z.ltb_spec max len); [done|].
  destruct (ReadBigEndianAdaptor 1 (take 1 (drop 3 bs))) as [type|]; [|done].
  destruct (ReadBigEndianAdaptor 1 (take 1 (drop 4 bs))) as [flags|]; [|done].
  destruct (ReadBigEndianAdaptor 4 (take 4 (drop 5 bs))) as [id|]; [|done].
  intros [= <-]. split; cbn; [apply mask_stream_id_range|lia].
Qed.

(** A header that is received satisfies its bounds, and leaves the session where it may go. *)
Lemma receive_header_follows s :
  follows s (receive_header s).1 /\
  forall h, session_ok s -> (receive_header s).2 = Return (Some h) -> header_ok h.
Proof.
  split; [apply (keeps_run follows receive_header s); unfold receive_header; keep|].
  intros h Hs. unfold receive_header. run_step. destruct (_ <? _); [done|].
  destruct (shared (take_bytes HEADER_SIZE) s) as [s1 [bs|]]; cbn; [|done].
  destruct (ReadFrameHeaderAdaptor _ bs) as [h'|] eqn:E; cbn; [|done]. intros [= <-].
  eapply read_header_ok; [|exact E]. destruct (sh_local _ (se_shared _ Hs)). unfold MAX_FRAME_SIZE in *. lia.
Qed.

Lemma keeps_update_windows ids delta : keeps follows (update_windows ids delta).
Proof. induction ids as [|id ids IH]; cbn [update_windows]; keep. Qed.

Lemma keeps_remote f :
  (forall s, settings_ok s -> settings_ok (f s)) ->
  keeps follows (shared (modify (fun w => with_remote (f (remote_settings w)) w))).
Proof. intros Hf. apply keeps_shared, keeps_modify. intros w. apply evolves_store; cbn; eauto with steps. Qed.

Lemma keeps_implement : keeps follows implement_settings.
Proof.
  unfold implement_settings. keep; [apply keeps_update_windows|..]; apply keeps_remote; intros x []; by split.
Qed.

#[local] Hint Resolve keeps_implement : steps.

Lemma keeps_header h : header_ok h -> keeps follows (modify (with_header (Some h))).
Proof.
  intros Hh. apply keeps_modify. intros s. apply follows_store; try done. intros []. split; cbn; try done.
  by intros ? [= <-].
Qed.

Lemma keeps_no_header : keeps follows (modify (with_header None)).
Proof. apply keeps_modify. intros s. apply follows_store; try done. intros []. by split. Qed.

#[local] Hint Resolve keeps_header keeps_no_header : steps.

(** A step that returns values known to satisfy [P]. *)
Lemma keeps_bind_known {A B} (P : A -> Prop) (m : step Session A) (f : A -> step Session B) s :
  follows s (m s).1 /\ (forall a, session_ok s -> (m s).2 = Return a -> P a) ->
  (forall a, P a -> keeps follows (f a)) -> follows s ((m ≫= f) s).1.
Proof.
  intros [Hm HP] Hf Hs. unfold mbind, step_bind. specialize (Hm Hs). destruct (m s) as [s1 [a|e]]; [|done].
  cbn in *. assert (follows s s1) as Hs1 by (intros _; exact Hm). apply (transitivity Hs1 (Hf a (HP a Hs eq_refl) s1) Hs).
Qed.

Lemma keeps_fetch : keeps follows fetch_header.
Proof.
  unfold fetch_header. apply keeps_gets_bind. intros s. cbn. destruct (m_safe_header s); [reflexivity|].
  apply (keeps_bind_known (fun o => forall h, o = Some h -> header_ok h)).
  - destruct (receive_header_follows s) as [Hf Hh]. split; [done|]. intros o Hs Ho h ->. by apply Hh.
  - intros [h|] Hh; [|keep]. specialize (Hh h eq_refl). keep.
Qed.

#[local] Hint Resolve keeps_fetch keeps_get_or_create : steps.

Lemma keeps_frame now h :
  header_ok h -> keeps follows (receive_frame hash_string hash_uint32 hash_order has_extensions m_dispatch now h).
Proof.
  intros Hh. pose proof (ho_id _ Hh) as [Hid _]. unfold receive_frame. keep.
Qed.

Lemma keeps_body now :
  keeps follows (receive_body hash_string hash_uint32 hash_order has_extensions m_dispatch now).
Proof.
  unfold receive_body. apply keeps_bind; [apply _|apply keeps_fetch|]. intros []; [|keep].
  apply keeps_gets_bind. intros s. cbn. destruct (m_safe_header s) as [h|] eqn:E; [|reflexivity].
  destruct (_ <? _); [reflexivity|]. intros Hs. pose proof (se_header _ Hs h E) as Hh. revert Hs.
  apply (keeps_run follows _ s). apply keeps_bind; [apply _|apply keeps_no_header|]. intros _. by apply keeps_frame.
Qed.

(** The [catch] blocks only add to what the body did. *)
Lemma receive_follows now s0 s :
  follows s0 (receive_body hash_string hash_uint32 hash_order has_extensions m_dispatch now s).1 ->
  follows s0 (receive hash_string hash_uint32 hash_order has_extensions m_dispatch now s).1.
Proof.
  intros H. unfold receive. destruct (receive_body _ _ _ _ _ now s) as [s1 o].
  cbn in H. destruct o as [[]|[code id|id code| | |]]; cbn; try exact H.
  - etransitivity; [exact H|]. apply keeps_close.
  - etransitivity; [exact H|]. apply (keeps_run follows _ s1). keep.
Qed.

Lemma keeps_session_receive now :
  keeps follows (receive hash_string hash_uint32 hash_order has_extensions m_dispatch now).
Proof. intros s. apply receive_follows, keeps_body. Qed.

#[local] Hint Resolve keeps_session_receive : steps.

Lemma resize_bytes n l : Forall is_byte l -> Forall is_byte (resize n 0 l).
Proof. intros Hl. by apply Forall_resize. Qed.

Lemma arrived_bytes r q :
  read_ok r -> Forall is_byte (Queue.chain q) -> Forall is_byte (Queue.chain (arrived r q)).
Proof.
  intros [Ho Hm] Hq. unfold arrived. destruct (_ || _); cbn; [by apply Forall_app|by apply resize_bytes].
Qed.

Lemma keeps_arrive r : read_ok r -> keeps follows (modify (arrive r)).
Proof.
  intros Hb. apply keeps_modify. intros s. apply follows_store; try done. intros [[] Hst Hodd Hh Hcl].
  split; cbn; try done. split; cbn; try done. by apply arrived_bytes.
Qed.
End Keeps.

(** ** Runs *)

(** What can happen to a flow: a read, a call of a [send] function, a request of the client, the
    start of a client, an orderly close. *)
Inductive Operation :=
  | OnRead (IsServer : bool) (now : Z) (r : Read)
  | CallSend (k : nat)
  | Sender (request : Message)
  | OnConnect
  | Close (code : Http2ErrorCode).

Definition op_ok (op : Operation) : Prop :=
  match op with OnRead _ _ r => read_ok r | _ => True end.

#[export] Instance op_ok_dec op : Decision (op_ok op).
Proof. unfold op_ok, read_ok, is_byte. destruct op; apply _. Defined.

Section Runs.
Context (hash_string : string -> Z) (hash_uint32 : Z -> Z).
Context (hash_order : gmap string string -> list (string * string)).
Context (has_extensions : bool).
Context (m_dispatch : Message -> Message -> Handled).

Definition operate (op : Operation) : step Flow unit :=
  match op with
  | OnRead true now r => server_on_read hash_string hash_uint32 hash_order has_extensions m_dispatch now r
  | OnRead false now r => client_on_read hash_string hash_uint32 hash_order has_extensions m_dispatch now r
  | CallSend k => on_session (send_callback hash_string hash_uint32 hash_order k)
  | Sender request => _ ← sender hash_string hash_uint32 hash_order request; mret tt
  | OnConnect => client_on_connect
  | Close code => flow_close code
  end.

(** The state after a sequence of operations; the caller survives what they throw. *)
Definition run (ops : list Operation) (f : Flow) : Flow := foldl (fun f op => (operate op f).1) f ops.

(** How a flow moves: its session does, and its flags are only ever set. *)
Record flows (f f' : Flow) : Prop := {
  fl_session : follows (m_session f) (m_session f');
  fl_sent : m_sent_settings f = true -> m_sent_settings f' = true;
  fl_completed : m_handshake_completed f = true -> m_handshake_completed f' = true;
  fl_closed : m_closed f = true -> m_closed f' = true;
}.

#[export] Instance flows_preorder : PreOrder flows.
Proof.
  split; [by split|]. intros a b c [] []. split; [by etransitivity|auto..].
Qed.

Lemma keeps_on_session {A} (m : step Session A) : keeps follows m -> keeps flows (on_session m).
Proof. intros Hm f. unfold on_session. specialize (Hm (m_session f)). destruct (m (m_session f)). by split. Qed.

Lemma keeps_flag f : (forall x, flows x (f x)) -> keeps flows (modify f).
Proof. apply keeps_modify. Qed.

#[local] Hint Resolve keeps_on_session keeps_session_receive keeps_callback keeps_send : steps.

Lemma keeps_handshake b : keeps flows (send_handshake b).
Proof.
  unfold send_handshake. apply keeps_gets_bind. intros f. cbn. destruct (m_sent_settings f); [reflexivity|].
  apply keeps_run. keep. apply keeps_flag. by split.
Qed.

Lemma keeps_preface : keeps follows is_valid_preface.
Proof. unfold is_valid_preface. keep. Qed.

Lemma keeps_flow_close code : keeps flows (flow_close code).
Proof.
  unfold flow_close. apply keeps_gets_bind. intros f. cbn. destruct (m_closed f); [reflexivity|].
  apply keeps_run. keep. apply keeps_flag. by split.
Qed.

#[local] Hint Resolve keeps_handshake keeps_preface keeps_flow_close : steps.

Lemma keeps_dispatch_to_session now :
  keeps flows (dispatch_to_session hash_string hash_uint32 hash_order has_extensions m_dispatch now).
Proof. unfold dispatch_to_session. keep. Qed.

#[local] Hint Resolve keeps_dispatch_to_session : steps.

Lemma keeps_operate op : op_ok op -> keeps flows (operate op).
Proof.
  intros Hop. destruct op as [[] now r| | | |]; cbn in Hop; cbn [operate].
  - unfold server_on_read. keep; [by apply keeps_on_session, keeps_arrive|]. apply keeps_flag. by split.
  - unfold client_on_read. keep. by apply keeps_on_session, keeps_arrive.
  - keep.
  - unfold sender. keep.
  - unfold client_on_connect. keep.
  - keep.
Qed.

Lemma run_flows ops f : Forall op_ok ops -> flows f (run ops f).
Proof.
  intros H. revert f. induction H as [|op ops Hop _ IH]; intros f; [reflexivity|]. cbn.
  etransitivity; [by apply (keeps_operate op Hop f)|]. apply IH.
Qed.

Lemma run_app ops1 ops2 f : run (ops1 ++ ops2) f = run ops2 (run ops1 f).
Proof. apply foldl_app. Qed.

Lemma new_flow_ok now : session_ok (m_session (new_flow now)).
Proof.
  split; cbn; try done.
  by intros id [x Hx].
Qed.

(** ** Theorems *)

(** C5: Whatever the peer sends, in whatever pieces, and whatever the handler and the program do, a
    session stays well formed: its settings are in the ranges of RFC 9113 section 6.5.2, the send
    window of the connection and of every stream is between 0 and 2^31-1, receive windows never leave
    [int32_t], every stream sits in the map under its own id, which is odd, and the header that
    waits for its payload has a stream id of 31 bits and a length of 24. *)
Theorem session_invariant now ops :
  Forall op_ok ops -> session_ok (m_session (run ops (new_flow now))).
Proof. intros Hops. apply (fl_session _ _ (run_flows ops (new_flow now) Hops)), new_flow_ok. Qed.

(** C15: As long as the session is not closed, a stream that was closed stays closed: no sequence of
    reads, calls and requests opens it again or dispatches a request on it again. *)
Theorem closed_streams_stay_closed now ops1 ops2 :
  Forall op_ok (ops1 ++ ops2) ->
  let s1 := m_session (run ops1 (new_flow now)) in
  let s2 := m_session (run (ops1 ++ ops2) (new_flow now)) in
  exists log, m_events s2 = m_events s1 ++ log /\
    (CloseTransport ∉ log -> forall id, tombstone s1 id ->
       tombstone s2 id /\ forall req res, Dispatch id req res ∉ log).
Proof.
  intros [H1 H2]%Forall_app. cbv zeta. rewrite run_app.
  pose proof (fl_session _ _ (run_flows ops1 (new_flow now) H1) (new_flow_ok now)) as [Hok _ _ _].
  destruct (fl_session _ _ (run_flows ops2 _ H2) Hok) as [_ _ Hlog _]. exact Hlog.
Qed.

(** C23: The receive window of a connection only ever shrinks from its 65535 octets: nothing that
    happens to a flow gives credit back, because no WINDOW_UPDATE is ever sent. *)
Theorem receive_window_never_grows now ops1 ops2 :
  Forall op_ok (ops1 ++ ops2) ->
  let window f := c_recv_window (connection_stream (m_shared (m_session f))) in
  window (run (ops1 ++ ops2) (new_flow now)) <= window (run ops1 (new_flow now)) <= DEFAULT_INITIAL_WINDOW_SIZE.
Proof.
  intros [H1 H2]%Forall_app. cbv zeta. rewrite run_app.
  pose proof (fl_session _ _ (run_flows ops1 (new_flow now) H1) (new_flow_ok now)) as [Hok H _ _].
  destruct (fl_session _ _ (run_flows ops2 _ H2) Hok) as [_ H' _ _]. split; [exact H'|exact H].
Qed.

End Runs.

(** ** A concrete connection *)

Definition frame_of (type : FrameType) (flags stream_id : Z) (payload : list Z) : FrameHeader * list Z :=
  (mkFrameHeader (Z.of_nat (length payload)) type flags stream_id, payload).

(** A handler that answers at once and leaves the response as it finds it. *)
Definition plain_handler (req res : Message) : Handled := mkHandled req res true false.

(** One that keeps its [send] function for later. *)
Definition slow_handler (req res : Message) : Handled := mkHandled req res false false.

(** [GET] in one HEADERS frame that ends the stream. *)
Definition get_request (stream_id : Z) : list Z := wire (frame_of HEADERS (Z.lor END_HEADERS END_STREAM) stream_id [0x82]).

Definition demo_reads : list Operation :=
  [OnRead true 0 (fresh HTTP2_CONNECTION_PREFACE); OnRead true 0 (fresh (wire (frame_of SETTINGS 0 0 [])));
   OnRead true 0 (fresh (get_request 1))].
Definition demo_later : list Operation := [OnRead true 0 (fresh (wire (frame_of PING 0 0 [1; 2; 3; 4; 5; 6; 7; 8])))].

#[local] Abbreviation demo_run := (run fnv1a id_hash map_to_list false plain_handler).

Lemma demo_ok : Forall op_ok (demo_reads ++ demo_later).
Proof. apply (bool_decide_unpack _). vm_compute. exact I. Qed.

Definition is_close (e : Event) : bool := match e with CloseTransport => true | _ => false end.

Lemma not_closed log : existsb is_close log = false -> CloseTransport ∉ log.
Proof.
  intros H Hin. assert (existsb is_close log = true) as H'; [|by rewrite H in H'].
  apply existsb_exists. exists CloseTransport. split; [by apply list_elem_of_In|done].
Qed.

Lemma session_invariant_witness : session_ok (m_session (demo_run demo_reads (new_flow 0))).
Proof. apply session_invariant. exact (proj1 (proj1 (Forall_app _ _ _) demo_ok)). Defined.

Lemma closed_streams_stay_closed_witness :
  tombstone (m_session (demo_run (demo_reads ++ demo_later) (new_flow 0))) 1.
Proof.
  destruct (closed_streams_stay_closed fnv1a id_hash map_to_list false plain_handler 0 demo_reads demo_later demo_ok)
    as (log & Hlog & H).
  apply H; [|reflexivity]. apply not_closed.
  assert (existsb is_close (m_events (m_session (demo_run (demo_reads ++ demo_later) (new_flow 0)))) = false) as E
    by (vm_compute; reflexivity).
  rewrite Hlog, existsb_app in E. by apply orb_false_iff in E as [_ ?].
Defined.

Lemma receive_window_never_grows_witness :
  let window f := c_recv_window (connection_stream (m_shared (m_session f))) in
  window (demo_run (demo_reads ++ demo_later) (new_flow 0)) <= window (demo_run demo_reads (new_flow 0)) <=
    DEFAULT_INITIAL_WINDOW_SIZE.
Proof. apply receive_window_never_grows. exact demo_ok. Defined.
