(* ===== verification/Delivery.v ===== *)
(** * Requests on the wire

    What a session does with the frames of a request, one frame per read, and with the frames that
    break it: the functional properties of Session.v.  [reads] feeds frames to a session as the
    transport does, one call of [receive] per read. *)

From Stdlib Require Import ZArith Lia.
From stdpp Require Import base list gmap strings.
From S2P Require Import Prelude HttpTypes HeaderTable Hpack Buffering Frame Settings StreamState Message Steps Stream Session.

Open Scope Z_scope.

#[local] Arguments Queue.take_view : simpl never.
#[local] Arguments Queue.consume : simpl never.
#[local] Arguments ReadFrameHeaderAdaptor : simpl never.
#[local] Arguments new_message : simpl never.
#[local] Arguments i32 : simpl never.
#[local] Arguments wrap : simpl never.

(** ** Reading a frame *)

(** The session with exactly [bytes] in its reader. *)
Definition loaded (bytes : list Z) (s : Session) : Session :=
  with_shared (with_reader (Queue.of_bytes bytes) (m_shared s)) s.

(** Between two reads: nothing is left of the last one. *)
Record between_reads (s : Session) : Prop := {
  br_reader : reader (m_shared s) = Queue.empty_reader;
  br_header : m_safe_header s = None;
}.

(** What [implement_settings] leaves when no window has to be raised. *)
Definition settle (s : Session) : Session :=
  if is_acknowledged (remote_settings (m_shared s))
  then with_shared (with_remote (Settings.set_state IMPLEMENTED (remote_settings (m_shared s))) (m_shared s)) s
  else s.

Definition no_delta (s : Session) : Prop :=
  is_acknowledged (remote_settings (m_shared s)) = true ->
  m_delta_window_on_settings (remote_settings (m_shared s)) <= 0.

Lemma implement_settles s : no_delta s -> implement_settings s = (settle s, Return tt).
Proof.
  intros Hd. unfold implement_settings, settle, no_delta in *. run_step.
  destruct (is_acknowledged (remote_settings (m_shared s))); [|done]. cbn.
  destruct (Z.ltb_spec 0 (m_delta_window_on_settings (remote_settings (m_shared s)))); [|done]. specialize (Hd eq_refl). lia.
Qed.

Lemma arrive_loaded bytes s :
  between_reads s -> Z.of_nat (length bytes) < 2 ^ 64 -> arrive (fresh bytes) s = loaded bytes s.
Proof.
  intros [Hr _] Hb. unfold arrive, loaded. do 2 f_equal. rewrite Hr. unfold arrived. cbn. unfold Queue.push_back, Queue.of_bytes.
  cbn. f_equal. apply wrap_small. lia.
Qed.

Lemma consume_front front back :
  Z.of_nat (length (front ++ back)) < 2 ^ 64 ->
  Queue.consume (length front) (Queue.of_bytes (front ++ back)) = Queue.of_bytes back.
Proof.
  intros Hb. unfold Queue.consume, Queue.of_bytes. cbn. rewrite drop_app_length. f_equal.
  rewrite length_app in *. rewrite wrap_small by lia. lia.
Qed.

Lemma take_front front back :
  Z.of_nat (length (front ++ back)) < 2 ^ 64 ->
  Queue.take_view (length front) (Queue.of_bytes (front ++ back)) = Ok front.
Proof.
  intros Hb. rewrite Queue.take_view_exact by done. cbn. by rewrite take_app_length.
Qed.

(** The nine octets in front of a payload. *)
Definition header_octets (h : FrameHeader) : list Z :=
  FrameHeaderClosureAdaptor (m_length h) (m_type h) (m_flags h) (Frame.m_stream_id h) [].

#[local] Arguments header_octets : simpl never.

(** ** What does not dispatch *)

(** Between two states no request was dispatched. *)
Definition quiet (s s' : Session) : Prop :=
  exists log, m_events s' = m_events s ++ log /\ forall id req res, Dispatch id req res ∉ log.

#[export] Instance quiet_preorder : PreOrder quiet.
Proof.
  split.
  - intros s. exists []. rewrite app_nil_r. split; [done|]. intros id req res H. by apply elem_of_nil in H.
  - intros a b c (l1 & E1 & H1) (l2 & E2 & H2). exists (l1 ++ l2). split; [by rewrite E2, E1, app_assoc|].
    intros id req res [H|H]%elem_of_app; [by eapply H1|by eapply H2].
Qed.

Lemma quiet_same s s' : m_events s' = m_events s -> quiet s s'.
Proof.
  intros E. exists []. rewrite app_nil_r. split; [done|]. intros id req res H. by apply elem_of_nil in H.
Qed.

Lemma quiet_event e s : (forall id req res, e <> Dispatch id req res) -> quiet s (emit_event e s).
Proof.
  intros He. exists [e]. split; [done|]. intros id req res H%list_elem_of_singleton. by eapply He.
Qed.

Section Quiet.
Context (hash_string : string -> Z) (hash_uint32 : Z -> Z).
Context (hash_order : gmap string string -> list (string * string)).
Context (has_extensions : bool).
Context (m_dispatch : Message -> Message -> Handled).

Lemma keeps_quiet_modify f : (forall s, m_events (f s) = m_events s) -> keeps quiet (modify f).
Proof. intros H s. apply quiet_same, H. Qed.

Lemma keeps_quiet_stream_at id : keeps quiet (stream_at id).
Proof. intros s. by apply quiet_same. Qed.

Lemma keeps_quiet_on_stream {A} id (m : step Scope A) : keeps quiet (on_stream id m).
Proof.
  unfold on_stream. apply keeps_bind; [apply _|apply keeps_quiet_stream_at|]. intros st s. unfold run_stream.
  destruct (m _) as [[w st'] o]. by apply quiet_same.
Qed.

Lemma keeps_quiet_send_node bytes : keeps quiet (send_node bytes).
Proof. intros s. by apply quiet_event. Qed.

#[local] Hint Resolve keeps_quiet_stream_at keeps_quiet_on_stream keeps_quiet_send_node : steps.
#[local] Hint Extern 2 (keeps quiet (modify _)) => (apply keeps_quiet_modify; reflexivity) : steps.

Lemma keeps_quiet_send_frame f : keeps quiet (send_frame f).
Proof. unfold send_frame. keep. Qed.

Lemma keeps_quiet_closed id : keeps quiet (mark_stream_closed id).
Proof. unfold mark_stream_closed. keep. Qed.

#[local] Hint Resolve keeps_quiet_send_frame keeps_quiet_closed : steps.

Lemma keeps_quiet_close code id : keeps quiet (close code id).
Proof.
  unfold close, send_goaway. keep. intros s. by apply quiet_event.
Qed.

Lemma keeps_quiet_send_response id : keeps quiet (send_response hash_string hash_uint32 hash_order id).
Proof. unfold send_response, encode_message. keep. Qed.

#[local] Hint Resolve keeps_quiet_close keeps_quiet_send_response : steps.

Lemma keeps_quiet_callback k : keeps quiet (send_callback hash_string hash_uint32 hash_order k).
Proof. unfold send_callback. keep. Qed.

Lemma keeps_quiet_status id code : keeps quiet (set_stream_status id code).
Proof. unfold set_stream_status. keep. Qed.

#[local] Hint Resolve keeps_quiet_callback keeps_quiet_status : steps.

(** The handler is called once: nothing after the call dispatches. *)
Lemma dispatch_quiet id k s st :
  m_streams s !! id = Some (Some st) ->
  quiet (emit_event (Dispatch id (m_request st) (m_response st)) s)
    (dispatch hash_string hash_uint32 hash_order m_dispatch id k s).1.
Proof.
  intros Hst. unfold dispatch. rewrite (bind_eq _ _ s s st) by (unfold stream_at; by rewrite Hst).
  rewrite bind_modify. cbv zeta. apply (keeps_run quiet). keep.
Qed.

Lemma downgrade_quiet id m s0 s :
  quiet s0 (m s).1 -> quiet s0 (downgrade hash_string hash_uint32 hash_order id m s).1.
Proof.
  intros Hm. unfold downgrade. destruct (m s) as [s1 [a|e]]; [done|].
  destruct (caught e); [|done]. etransitivity; [done|]. apply (keeps_run quiet). keep.
Qed.

Lemma receive_quiet now s0 s :
  quiet s0 (receive_body hash_string hash_uint32 hash_order has_extensions m_dispatch now s).1 ->
  quiet s0 (receive hash_string hash_uint32 hash_order has_extensions m_dispatch now s).1.
Proof.
  intros H. unfold receive. destruct (receive_body _ _ _ _ _ now s) as [s1 o].
  cbn in H. destruct o as [[]|[code id|id code| | |]]; cbn; try exact H.
  - etransitivity; [exact H|]. apply keeps_quiet_close.
  - etransitivity; [exact H|]. apply (keeps_run quiet _ s1). keep.
Qed.

End Quiet.

Section Reads.
Context (hash_string : string -> Z) (hash_uint32 : Z -> Z).
Context (hash_order : gmap string string -> list (string * string)).
Context (has_extensions : bool).
Context (m_dispatch : Message -> Message -> Handled).

#[local] Abbreviation s_receive := (receive hash_string hash_uint32 hash_order has_extensions m_dispatch).
#[local] Abbreviation s_body := (receive_body hash_string hash_uint32 hash_order has_extensions m_dispatch).
#[local] Abbreviation s_frame := (receive_frame hash_string hash_uint32 hash_order has_extensions m_dispatch).

Lemma header_read s h payload :
  frame_ok (m_max_frame_size (local_settings (m_shared s))) (h, payload) ->
  receive_header (loaded (header_octets h ++ payload) s) = (loaded payload s, Return (Some h)).
Proof.
  intros [Hl Hm Ht Hf Hi]. cbn [fst snd] in *.
  assert (length (header_octets h) = HEADER_SIZE) as Hh by apply length_frame_header.
  assert (Z.of_nat (length (header_octets h ++ payload)) < 2 ^ 64) as Hb
    by (rewrite length_app, Hh; unfold HEADER_SIZE; lia).
  unfold receive_header. rewrite bind_gets.
  replace (Queue.size _ <? _) with false.
  2: { symmetry. apply Z.ltb_ge. unfold loaded, id. cbn [m_shared with_shared reader with_reader Queue.of_bytes Queue.size]. rewrite length_app, Hh. lia. }
  assert (shared (take_bytes HEADER_SIZE) (loaded (header_octets h ++ payload) s) =
    (loaded (header_octets h ++ payload) s, Return (header_octets h))) as E.
  { unfold shared, take_bytes, loaded. run_step. rewrite <- Hh, take_front by done. done. }
  rewrite (bind_eq _ _ _ _ _ E). clear E.
  assert (ReadFrameHeaderAdaptor (m_max_frame_size (local_settings (m_shared s))) (header_octets h) = Return h) as E.
  { pose proof (read_written_header (m_max_frame_size (local_settings (m_shared s))) (m_length h) (m_type h) (m_flags h)
      (Frame.m_stream_id h) [] ltac:(lia) ltac:(lia) Hf Ht) as E.
    rewrite app_nil_r, take_ge in E by (by rewrite <- Hh). unfold header_octets. rewrite E. f_equal.
    unfold make_header. rewrite mask_stream_id_eq, Z.mod_small by done. by destruct h. }
  assert (lift (ReadFrameHeaderAdaptor (m_max_frame_size (local_settings (m_shared (loaded (header_octets h ++ payload) s))))
    (header_octets h)) (loaded (header_octets h ++ payload) s) = (loaded (header_octets h ++ payload) s, Return h)) as E2
    by (unfold lift, loaded; cbn; by rewrite E).
  rewrite (bind_eq _ _ _ _ _ E2). clear E E2. unfold shared, loaded, consume_bytes. run_step. rewrite <- Hh.
  by rewrite consume_front.
Qed.

(** One read with one frame reaches [receive_frame] with the payload in the reader. *)
Lemma frame_read now s f :
  between_reads s -> no_delta s -> frame_ok (m_max_frame_size (local_settings (m_shared s))) f ->
  Frame.m_stream_id f.1 <= m_last_stream_id (remote_settings (m_shared s)) ->
  s_body now (arrive (fresh (wire f)) s) = s_frame now f.1 (loaded f.2 (settle s)).
Proof.
  intros Hb Hd Hf Hlast. destruct f as [h payload]. pose proof Hf as [Hl Hm _ _ _]. cbn [fst snd] in *.
  rewrite arrive_loaded; [|done|rewrite wire_length; cbn; unfold HEADER_SIZE; lia].
  change (wire (h, payload)) with (header_octets h ++ payload).
  assert (fetch_header (loaded (header_octets h ++ payload) s) = (with_header (Some h) (loaded payload (settle s)), Return true)) as E.
  { unfold fetch_header. rewrite bind_gets. cbn [m_safe_header loaded with_shared id].
    rewrite (br_header _ Hb). rewrite (bind_eq _ _ _ _ _ (header_read s h payload Hf)).
    rewrite bind_gets. cbn [id]. cbv zeta.
    replace (_ <? _) with false by (symmetry; apply Z.ltb_ge; exact Hlast).
    assert (implement_settings (loaded payload s) = (settle (loaded payload s), Return tt)) as E
      by (apply implement_settles; exact Hd).
    rewrite (bind_eq _ _ _ _ _ E). unfold settle. cbn.
    by destruct (is_acknowledged (remote_settings (m_shared s))). }
  unfold receive_body. rewrite (bind_eq _ _ _ _ _ E). rewrite bind_gets.
  cbn [id with_header m_safe_header m_shared loaded with_shared with_reader reader Queue.size Queue.of_bytes].
  replace (_ <? _) with false by (symmetry; apply Z.ltb_ge; lia).
  rewrite bind_modify. f_equal. unfold loaded, with_header. cbn. destruct Hb as [_ Hn].
  unfold settle, with_shared. destruct (is_acknowledged _); cbn; by rewrite Hn.
Qed.

(** ** The frames of a request *)

Lemma decode_run_decode turns data offset d :
  match decode_run hash_string hash_uint32 turns data offset d with
  | (d', Ok n) => decode_turns hash_string hash_uint32 turns data offset d = Ok (n, d')
  | (_, Err e) => decode_turns hash_string hash_uint32 turns data offset d = Err e
  end.
Proof.
  revert offset d. induction turns as [|turns IH]; intros offset d; cbn [decode_run decode_turns]; [done|].
  destruct (length data <=? offset)%nat; [apply IH|].
  destruct (decode_one hash_string hash_uint32 (drop offset data) d) as [[n d']|e]; [apply IH|done].
Qed.

Lemma decode_run_ok data d n d' :
  hpack_decode hash_string hash_uint32 data d = Ok (n, d') ->
  decode_run hash_string hash_uint32 (length data) data 0 d = (d', Ok n).
Proof.
  unfold hpack_decode. intros H. pose proof (decode_run_decode (length data) data 0 d) as E. rewrite H in E.
  destruct (decode_run _ _ _ _ _ _) as [d2 [n2|e]]; [|done]. by injection E as <- <-.
Qed.

(** The reader after a frame whose payload was moved out with [grow_view]. *)
Lemma reader_drained (payload : list Z) :
  Z.of_nat (length payload) < 2 ^ 64 ->
  Queue.consume (length payload) (Queue.mkReader [] (Z.of_nat (length payload))) = Queue.empty_reader.
Proof.
  intros Hb. unfold Queue.consume. cbn. rewrite drop_nil, Z.sub_diag. done.
Qed.

Lemma grow_all (payload : list Z) :
  Queue.grow_view (length payload) (Queue.of_bytes payload) =
    (payload, Queue.mkReader [] (Z.of_nat (length payload))).
Proof. unfold Queue.grow_view. cbn. by rewrite firstn_all, drop_all. Qed.

Lemma frame_bytes_length h (payload : list Z) : m_length h = Z.of_nat (length payload) -> frame_bytes h = length payload.
Proof. intros H. unfold frame_bytes. by rewrite H, Nat2Z.id. Qed.

(** A stream nothing was received on, and the one whose header block was decoded. *)
Definition fresh_stream (id window : Z) : Stream :=
  mkStream (new_machine id) window window (new_message id) (new_message id) (Some []) None false false false.
Definition open_stream (id send recv : Z) (req res : Message) : Stream :=
  mkStream (mkMachine id OPEN) send recv req res None None false false true.

#[local] Abbreviation st_receive := (Stream.receive hash_string hash_uint32 has_extensions).

Lemma bind_update {A} (f : Stream -> Stream) (k : unit -> step Scope A) w s :
  (update f ≫= k) (w, s) = k tt (w, f s).
Proof. done. Qed.

Lemma bind_self {A} (k : Stream -> step Scope A) w s : (self ≫= k) (w, s) = k s (w, s).
Proof. done. Qed.

Lemma primary_decoded w s block t' log res :
  get_stream_id s mod 2 = 1 ->
  hpack_decode hash_string hash_uint32 block (decoding_table w, []) = Ok (length block, (t', log)) ->
  add_headers RESPONSE log (m_response s) = Return res ->
  decode_primary hash_string hash_uint32 block (w, s) = ((with_decoding t' w, with_response res s), Return tt).
Proof.
  intros Hodd Hdec Hadd. unfold decode_primary. rewrite bind_self. cbv zeta. rewrite Hodd. cbn [Z.eqb].
  rewrite (bind_eq _ _ _ (with_decoding t' w, s) (res, Ok (length block))).
  - rewrite bind_update. cbn [of_result]. rewrite bind_lift, Nat.ltb_irrefl. done.
  - unfold on_shared, decode_message. by rewrite (decode_run_ok _ _ _ _ Hdec), Hadd.
Qed.

Lemma headers_received w id window h block t' log res :
  id mod 2 = 1 -> m_type h = HEADERS -> m_flags h = END_HEADERS -> m_length h = Z.of_nat (length block) ->
  0 < m_length h < 2 ^ 24 -> reader w = Queue.of_bytes block ->
  hpack_decode hash_string hash_uint32 block (decoding_table w, []) = Ok (length block, (t', log)) ->
  add_headers RESPONSE log (new_message id) = Return res ->
  st_receive h (w, fresh_stream id window) =
    ((with_reader Queue.empty_reader (with_decoding t' w), open_stream id window window (new_message id) res), Return tt).
Proof.
  intros Hodd Ht Hf Hl Hpos Hr Hdec Hadd. unfold Stream.receive. rewrite bind_self.
  cbn [fresh_stream m_expecting_continuation andb]. rewrite Ht, Hf.
  change (advance HEADERS END_HEADERS false _) with (Return (mkMachine id OPEN)). rewrite bind_lift, bind_update.
  set (st1 := with_machine (mkMachine id OPEN) (fresh_stream id window)).
  set (w1 := with_reader (Queue.mkReader [] (Z.of_nat (length block))) w).
  assert (receive_block hash_string hash_uint32 h (w, st1) =
    ((with_decoding t' w1, open_stream id window window (new_message id) res), Return tt)) as E.
  { unfold receive_block. rewrite (bind_eq _ _ _ (w, st1) []) by done. rewrite bind_self.
    replace (0 <? m_length h) with true by lia. cbn [snd app].
    rewrite (bind_eq _ _ _ (w1, set_block block st1) block).
    2: { rewrite (bind_eq _ _ _ (w1, st1) block).
         - cbn [app]. rewrite bind_update. rewrite Hl, Z.eqb_refl. done.
         - unfold on_shared, grow_bytes. by rewrite Hr, (frame_bytes_length _ _ Hl), grow_all. }
    unfold has_flag. rewrite Hf. change (negb (Z.land END_HEADERS END_HEADERS =? 0)) with true. cbv iota.
    rewrite bind_update. unfold handle_header. rewrite bind_self.
    cbn [st1 set_expecting_continuation set_block with_machine fresh_stream m_primary_headers_done with_blocks].
    replace (length block =? 0)%nat with false by (symmetry; apply Nat.eqb_neq; lia). cbn [negb when].
    rewrite (bind_eq _ _ _ (with_decoding t' w1, with_response res (set_expecting_continuation false (set_block block st1))) tt).
    - done.
    - unfold as_compression_error. rewrite (primary_decoded w1 _ block t' log res); done. }
  rewrite (bind_eq _ _ _ _ _ E).
  rewrite (bind_eq _ _ _ (with_reader Queue.empty_reader (with_decoding t' w), open_stream id window window (new_message id) res) tt).
  - done.
  - unfold on_shared, consume_bytes. run_step. rewrite (frame_bytes_length _ _ Hl), reader_drained by lia. done.
Qed.

(** The connection after [size] octets were received. *)
Definition debited (size : Z) (c : Connection) : Connection :=
  mkConnection (c_send_window c) (c_recv_window c - size) (m_connection_error_code c).

Lemma connection_debited size w :
  0 <= size <= c_recv_window (connection_stream w) -> c_recv_window (connection_stream w) < 2 ^ 31 ->
  connection_consume_window size false w = (with_connection (debited size (connection_stream w)) w, Return tt).
Proof.
  intros Hs Hc. unfold connection_consume_window. rewrite bind_gets. unfold debited_window.
  destruct (Z.ltb_spec (c_recv_window (connection_stream w) - size) (- 2 ^ 31)); [lia|].
  destruct (Z.ltb_spec (c_recv_window (connection_stream w) - size) 0); [lia|]. done.
Qed.

Lemma window_debited size w s :
  0 <= size <= c_recv_window (connection_stream w) -> c_recv_window (connection_stream w) < 2 ^ 31 ->
  size <= m_recv_window s < 2 ^ 31 ->
  consume_window size false (w, s) =
    ((with_connection (debited size (connection_stream w)) w, with_windows (m_send_window s) (m_recv_window s - size) s),
      Return tt).
Proof.
  intros Hs Hc Hr. unfold consume_window.
  rewrite (bind_eq _ _ _ (with_connection (debited size (connection_stream w)) w, s) tt).
  2: { unfold on_shared. by rewrite connection_debited. }
  rewrite bind_self. unfold debited_window.
  destruct (Z.ltb_spec (m_recv_window s - size) (- 2 ^ 31)); [lia|].
  destruct (Z.ltb_spec (m_recv_window s - size) 0); [lia|]. done.
Qed.

(** An open stream after a DATA frame. *)
Definition data_stream (id send recv : Z) (req res : Message) (last : bool) : Stream :=
  mkStream (mkMachine id (if last then HALF_CLOSED_REMOTE else OPEN)) send recv req res None None false last true.

Lemma data_received w id send recv req res h (payload : list Z) (last : bool) :
  m_type h = DATA -> m_flags h = (if last then END_STREAM else 0) -> m_length h = Z.of_nat (length payload) ->
  m_length h < 2 ^ 24 -> m_length h <= c_recv_window (connection_stream w) < 2 ^ 31 -> m_length h <= recv < 2 ^ 31 ->
  reader w = Queue.of_bytes payload ->
  st_receive h (w, open_stream id send recv req res) =
    ((with_reader Queue.empty_reader (with_connection (debited (m_length h) (connection_stream w)) w),
      data_stream id send (recv - m_length h) (set_body payload req) res last), Return tt).
Proof.
  intros Ht Hf Hl Hb Hc Hw Hr. unfold Stream.receive. rewrite bind_self.
  cbn [open_stream m_expecting_continuation andb m_state_machine]. rewrite Ht, Hf.
  set (st := if last then HALF_CLOSED_REMOTE else OPEN).
  replace (advance DATA (if last then END_STREAM else 0) false (mkMachine id OPEN)) with (Return (mkMachine id st))
    by (by destruct last). rewrite bind_lift, bind_update.
  set (s1 := with_machine (mkMachine id st) (open_stream id send recv req res)).
  set (w1 := with_connection (debited (m_length h) (connection_stream w)) w).
  set (s2 := mkStream (mkMachine id st) send (recv - m_length h) (set_body payload req) res None None false false true).
  assert (receive_data h (w, s1) = ((with_reader (Queue.mkReader [] (Z.of_nat (length payload))) w1, s2), Return tt)) as E.
  { unfold receive_data. rewrite bind_self. destruct (Z.ltb_spec 0 (m_length h)) as [Hpos|Hz]; cbn [when].
    - rewrite i32_small by lia. rewrite (bind_eq _ _ _ _ _ (window_debited (m_length h) w s1 ltac:(lia) ltac:(lia) Hw)).
      fold w1. rewrite (bind_eq _ _ _ (with_reader (Queue.mkReader [] (Z.of_nat (length payload))) w1, with_windows send (recv - m_length h) s1) payload).
      + rewrite bind_update, Hl, Z.eqb_refl. subst s2. by rewrite <- Hl.
      + unfold on_shared, grow_bytes. change (reader w1) with (reader w).
        by rewrite Hr, (frame_bytes_length _ _ Hl), grow_all.
    - assert (payload = []) as -> by (destruct payload; [done|cbn in Hl; lia]). cbn in Hl. run_step.
      subst s1 s2 w1. unfold debited. rewrite Hl, !Z.sub_0_r. unfold with_machine, open_stream, set_body. cbn.
      rewrite app_nil_r. destruct w, connection_stream, req. cbn in Hr. by subst. }
  rewrite (bind_eq _ _ _ _ _ E). clear E.
  rewrite (bind_eq _ _ _ (with_reader Queue.empty_reader w1, s2) tt).
  - rewrite bind_self. subst s2 st. by destruct last.
  - unfold on_shared, consume_bytes. run_step. by rewrite (frame_bytes_length _ _ Hl), reader_drained by lia.
Qed.

(** ** A session in the middle of a request *)

(** One read per frame. *)
Definition reads (now : Z) (frames : list (FrameHeader * list Z)) (s : Session) : Session :=
  foldl (fun s f => (s_receive now (arrive (fresh (wire f)) s)).1) s frames.

(** The session can take frames of up to [n] octets on stream [id]. *)
Record takes (n id : Z) (s : Session) : Prop := {
  ta_between : between_reads s;
  ta_delta : no_delta s;
  ta_frame : m_max_frame_size (local_settings (m_shared s)) = n;
  ta_id : 0 < id <= m_last_stream_id (remote_settings (m_shared s));
}.

(** The headers of stream [id] are decoded; [window] is the receive window of the connection. *)
Record collects (n id send recv window : Z) (req res : Message) (t : HPackTable) (events : list Event) (s : Session)
    : Prop := {
  co_takes : takes n id s;
  co_stream : m_streams s !! id = Some (Some (open_stream id send recv req res));
  co_window : c_recv_window (connection_stream (m_shared s)) = window;
  co_table : decoding_table (m_shared s) = t;
  co_events : m_events s = events;
}.

Lemma settle_delta s : no_delta s -> no_delta (settle s).
Proof. intros H. unfold settle. by destruct (is_acknowledged _) eqn:E. Qed.

Lemma receive_returns now s s' : s_body now s = (s', Return tt) -> s_receive now s = (s', Return tt).
Proof. intros H. unfold receive. by rewrite H. Qed.

Lemma headers_read now n id s h block t' log res :
  takes n id s -> m_streams s !! id = None -> id mod 2 = 1 -> frame_ok n (h, block) ->
  m_type h = HEADERS -> m_flags h = END_HEADERS -> Frame.m_stream_id h = id -> block <> [] ->
  hpack_decode hash_string hash_uint32 block (decoding_table (m_shared s), []) = Ok (length block, (t', log)) ->
  add_headers RESPONSE log (new_message id) = Return res ->
  let window := i32 (m_initial_window_size (remote_settings (m_shared s))) in
  exists s', s_receive now (arrive (fresh (wire (h, block))) s) = (s', Return tt) /\
    collects n id window window (c_recv_window (connection_stream (m_shared s))) (new_message id) res t' (m_events s) s'.
Proof.
  intros [Hb Hd Hn Hid] Hnone Hodd Hf Ht Hfl Hi Hne Hdec Hadd window. subst n. pose proof Hf as [Hl Hm _ _ _].
  cbn [fst snd] in *.
  assert (0 < m_length h < 2 ^ 24) by (destruct block; [done|]; cbn in *; lia).
  set (s0 := settle s). set (w2 := with_reader Queue.empty_reader (with_decoding t' (m_shared s0))).
  set (st := open_stream id window window (new_message id) res).
  exists (put_stream id st (with_shared w2 (put_stream id (fresh_stream id window) (loaded block s0)))). split.
  - apply receive_returns. rewrite frame_read by (done || (cbn [fst]; lia)). cbn [fst snd]. fold s0.
    unfold receive_frame. cbv zeta. rewrite Hi. replace (id =? 0) with false by lia.
    rewrite (bind_eq _ _ _ (put_stream id (fresh_stream id window) (loaded block s0)) tt).
    2: { unfold get_or_create_stream. replace (id =? 0) with false by lia. rewrite bind_gets. cbn [Datatypes.id].
         replace (m_streams (loaded block s0) !! id) with (@None (option Stream))
           by (symmetry; subst s0; unfold settle; destruct (is_acknowledged _); exact Hnone).
         unfold make_stream. replace (0 <? id) with true by lia. rewrite Hodd. cbn [andb Z.eqb]. cbv zeta.
         rewrite bind_lift. subst window s0. unfold settle. by destruct (is_acknowledged _). }
    set (s1 := put_stream id (fresh_stream id window) (loaded block s0)).
    assert (m_streams s1 !! id = Some (Some (fresh_stream id window))) as Hs1 by (apply lookup_insert_eq).
    rewrite (bind_eq _ _ _ (put_stream id st (with_shared w2 s1)) tt).
    2: { unfold on_stream. rewrite (bind_eq _ _ _ s1 (fresh_stream id window)) by (unfold stream_at; by rewrite Hs1).
         unfold run_stream. rewrite (headers_received _ id window h block t' log res); try done.
         subst s0. cbn. unfold settle. by destruct (is_acknowledged _). }
    rewrite (bind_eq _ _ _ (put_stream id st (with_shared w2 s1)) st).
    2: { unfold stream_at. cbn [m_streams put_stream with_streams]. by rewrite lookup_insert_eq. }
    done.
  - split; cbn.
    + split; cbn; [split; cbn; [done|]|..]; subst w2 s0; unfold settle, no_delta in *;
        destruct (is_acknowledged (remote_settings (m_shared s))) eqn:E; cbn; try done; try apply Hb.
      by rewrite E.
    + apply lookup_insert_eq.
    + subst w2 s0. unfold settle. by destruct (is_acknowledged _).
    + done.
    + subst w2 s0. unfold settle. by destruct (is_acknowledged _).
Qed.

(** The session after a DATA frame, before the response. *)
Definition after_data (id send recv : Z) (req res : Message) (h : FrameHeader) (payload : list Z) (last : bool)
    (s : Session) : Session :=
  let w := m_shared (settle s) in
  put_stream id (data_stream id send (recv - m_length h) (set_body payload req) res last)
    (with_shared (with_reader Queue.empty_reader (with_connection (debited (m_length h) (connection_stream w)) w)) (settle s)).

Lemma settle_streams s : m_streams (settle s) = m_streams s.
Proof. unfold settle. by destruct (is_acknowledged _). Qed.
Lemma settle_connection s : connection_stream (m_shared (settle s)) = connection_stream (m_shared s).
Proof. unfold settle. by destruct (is_acknowledged _). Qed.

Lemma data_frame now n id send recv window req res t events s h (payload : list Z) (last : bool) :
  collects n id send recv window req res t events s -> frame_ok n (h, payload) ->
  m_type h = DATA -> m_flags h = (if last then END_STREAM else 0) -> Frame.m_stream_id h = id ->
  m_length h <= window < 2 ^ 31 -> m_length h <= recv < 2 ^ 31 ->
  s_body now (arrive (fresh (wire (h, payload))) s) =
    when last (response hash_string hash_uint32 hash_order m_dispatch id)
      (after_data id send recv req res h payload last s).
Proof.
  intros [[Hb Hd Hn Hid] Hst Hw Ht He] Hf Hty Hfl Hi Hwin Hrecv. subst n. pose proof Hf as [Hl Hm _ _ _].
  cbn [fst snd] in *. rewrite frame_read by (done || (cbn [fst]; lia)). cbn [fst snd].
  set (s0 := settle s). unfold receive_frame. cbv zeta. rewrite Hi. replace (id =? 0) with false by lia.
  assert (m_streams (loaded payload s0) !! id = Some (Some (open_stream id send recv req res))) as Hs0
    by (cbn; subst s0; by rewrite settle_streams).
  rewrite (bind_eq _ _ _ (loaded payload s0) tt).
  2: { unfold get_or_create_stream. replace (id =? 0) with false by lia. rewrite bind_gets. cbn [Datatypes.id].
       by rewrite Hs0. }
  rewrite (bind_eq _ _ _ (after_data id send recv req res h payload last s) tt).
  2: { unfold on_stream. rewrite (bind_eq _ _ _ (loaded payload s0) (open_stream id send recv req res))
         by (unfold stream_at; by rewrite Hs0).
       unfold run_stream. rewrite (data_received _ id send recv req res h payload last); try done; [lia|].
       cbn. subst s0. rewrite settle_connection. lia. }
  rewrite (bind_eq _ _ _ (after_data id send recv req res h payload last s)
    (data_stream id send (recv - m_length h) (set_body payload req) res last)).
  - by destruct last.
  - unfold stream_at, after_data. cbn [m_streams put_stream with_streams]. by rewrite lookup_insert_eq.
Qed.

Lemma after_data_takes id send recv req res h payload last n s :
  takes n id s -> takes n id (after_data id send recv req res h payload last s).
Proof.
  intros [[Hr Hh] Hd Hn Hid]. unfold after_data, settle, no_delta in *.
  destruct (is_acknowledged (remote_settings (m_shared s))) eqn:E; split; cbn; try done.
  unfold no_delta. cbn. by rewrite E.
Qed.

Lemma data_read now n id send recv window req res t events s h payload :
  collects n id send recv window req res t events s -> frame_ok n (h, payload) ->
  m_type h = DATA -> m_flags h = 0 -> Frame.m_stream_id h = id ->
  m_length h <= window < 2 ^ 31 -> m_length h <= recv < 2 ^ 31 ->
  exists s', s_receive now (arrive (fresh (wire (h, payload))) s) = (s', Return tt) /\
    collects n id send (recv - m_length h) (window - m_length h) (set_body payload req) res t events s'.
Proof.
  intros Hco Hf Hty Hfl Hi Hw Hr. exists (after_data id send recv req res h payload false s). split.
  - apply receive_returns. by erewrite (data_frame _ _ _ _ _ _ _ _ _ _ _ _ _ false).
  - pose proof Hco as [Hta Hst Hwin Ht He]. split; [by apply after_data_takes|apply lookup_insert_eq|..];
      unfold after_data; cbn; rewrite ?settle_connection, ?Hwin; try done;
      unfold settle; by destruct (is_acknowledged _).
Qed.

(** The status every response starts with. *)
Definition not_found (res : Message) : Message :=
  mkMessage (msg_stream_id res) (<[slot STATUS := Some (StaticField STATUS STATUS_NOT_FOUND)]> (m_static_headers res))
    (m_headers res) (m_body res).

Lemma set_not_found res : set_status STATUS_NOT_FOUND res = Return (not_found res).
Proof. reflexivity. Qed.

(** [response] dispatches, and whatever it does after that is logged after the dispatch. *)
Lemma response_dispatches id s st :
  session_ok s -> m_streams s !! id = Some (Some st) ->
  exists s1, m_events s1 = m_events s ++ [Dispatch id (m_request st) (not_found (m_response st))] /\ session_ok s1 /\
    quiet s1 (response hash_string hash_uint32 hash_order m_dispatch id s).1.
Proof.
  intros Hs Hst. unfold response.
  set (s2 := put_stream id (with_response (not_found (m_response st)) st) s).
  rewrite (bind_eq _ _ s s2 tt).
  2: { unfold set_stream_status. rewrite (bind_eq _ _ s s st) by (unfold stream_at; by rewrite Hst). done. }
  rewrite bind_gets, bind_modify. set (s3 := with_callbacks _ s2).
  assert (m_streams s3 !! id = Some (Some (with_response (not_found (m_response st)) st))) as Hst3
    by apply lookup_insert_eq.
  set (s1 := emit_event (Dispatch id (m_request st) (not_found (m_response st))) s3).
  assert (follows s s3) as H3.
  { apply follows_store; try done.
    - intros _. assert (session_ok s2) as []; [|by split].
      apply (put_ok id st); [done| |done]. intros Hok. destruct (se_stream _ Hok _ _ Hst) as [? []]. by split.
    - intros i Hi. by apply (put_tombstone id st).
    - intros k i Hk. cbn. by apply lookup_app_l_Some. }
  assert (follows s3 s1) as H1.
  { apply follows_event. intros i req res [= <- _ _] Ht. unfold tombstone in Ht. by rewrite Hst3 in Ht. }
  exists s1. split; [done|]. split; [by apply H1, H3|]. apply downgrade_quiet, (dispatch_quiet _ _ _ _ id _ s3 _ Hst3).
Qed.

Lemma after_data_ok id send recv req res h payload last s :
  session_ok s -> m_streams s !! id = Some (Some (open_stream id send recv req res)) ->
  0 <= m_length h <= c_recv_window (connection_stream (m_shared s)) -> m_length h <= recv ->
  session_ok (after_data id send recv req res h payload last s).
Proof.
  intros Hs Hst Hw Hr. assert (session_ok (settle s)) as Hs0.
  { unfold settle. destruct (is_acknowledged _); [|done]. destruct Hs as [[Hb Hl [] Hsd Hrv] Hstr Hodd Hh Hcl].
    by split. }
  destruct (se_stream _ Hs _ _ Hst) as [_ [H1 H2]]. cbn in H1, H2.
  apply (put_ok id (open_stream id send recv req res)).
  - cbn. by rewrite settle_streams.
  - intros _. split; [done|]. split; cbn; [done|lia].
  - destruct Hs0 as [[Hb Hl Hrm Hsd Hrv] Hstr Hodd Hh Hcl]. split; cbn; try done. split; cbn; try done.
    rewrite settle_connection in *. lia.
Qed.

Lemma last_read now n id send recv window req res t events s h payload :
  session_ok s -> collects n id send recv window req res t events s -> frame_ok n (h, payload) ->
  m_type h = DATA -> m_flags h = END_STREAM -> Frame.m_stream_id h = id ->
  m_length h <= window < 2 ^ 31 -> m_length h <= recv < 2 ^ 31 ->
  exists log, m_events (s_receive now (arrive (fresh (wire (h, payload))) s)).1 =
    events ++ Dispatch id (set_body payload req) (not_found res) :: log /\
    forall i q r, Dispatch i q r ∉ log.
Proof.
  intros Hok Hco Hf Hty Hfl Hi Hw Hr. pose proof (fo_length _ _ Hf) as Hl. cbn in Hl.
  set (s0 := after_data id send recv req res h payload true s).
  assert (session_ok s0) as Hok0.
  { apply after_data_ok; [done|apply Hco|rewrite (co_window _ _ _ _ _ _ _ _ _ _ Hco); lia|lia]. }
  destruct (response_dispatches id s0 (data_stream id send (recv - m_length h) (set_body payload req) res true) Hok0)
    as (s1 & He & Hok1 & Hfo); [by apply lookup_insert_eq|].
  assert (quiet s1 (s_receive now (arrive (fresh (wire (h, payload))) s)).1) as (log & -> & Hq).
  { apply receive_quiet. by erewrite (data_frame _ _ _ _ _ _ _ _ _ _ _ _ _ true). }
  exists log. split; [|done]. rewrite He, <- app_assoc. cbn. do 2 f_equal.
  unfold settle. destruct (is_acknowledged _); apply Hco.
Qed.

(** All DATA frames but the last. *)
Lemma data_reads now n id send recv window req res t events s ds :
  collects n id send recv window req res t events s -> Forall (frame_ok n) ds ->
  Forall (fun f => m_type f.1 = DATA /\ m_flags f.1 = 0 /\ Frame.m_stream_id f.1 = id) ds ->
  let size := Z.of_nat (length (concat (ds.*2))) in
  size <= window < 2 ^ 31 -> size <= recv < 2 ^ 31 ->
  collects n id send (recv - size) (window - size) (set_body (concat (ds.*2)) req) res t events (reads now ds s).
Proof.
  intros Hco Hok. revert recv window req s Hco.
  induction Hok as [|[h payload] ds Hf _ IH]; intros recv window req s Hco Hsh size Hw Hr.
  - cbn in *. subst size. rewrite !Z.sub_0_r. unfold set_body. rewrite app_nil_r. by destruct req.
  - subst size. apply Forall_cons in Hsh as [(Hty & Hfl & Hi) Hsh]. cbn [fst snd] in *. pose proof (fo_length _ _ Hf) as Hl.
    cbn [fst snd] in Hl. cbn [fmap list_fmap concat snd] in *. rewrite length_app in *.
    destruct (data_read now n id send recv window req res t events s h payload) as (s' & Hs' & Hco'); try done; try lia.
    cbn [reads foldl]. rewrite Hs'. cbn [fst].
    specialize (IH _ _ _ _ Hco' Hsh). cbv zeta in IH.
    set (k := length (concat ds.*2)) in *.
    replace (recv - Z.of_nat (length payload + k)) with (recv - m_length h - Z.of_nat k) by lia.
    replace (window - Z.of_nat (length payload + k)) with (window - m_length h - Z.of_nat k) by lia.
    replace (set_body (payload ++ concat ds.*2) req) with (set_body (concat ds.*2) (set_body payload req))
      by (unfold set_body; cbn; by rewrite app_assoc).
    apply IH; lia.
Qed.

Lemma wire_bytes n f : frame_ok n f -> Forall is_byte f.2 -> Forall is_byte (wire f).
Proof.
  intros [_ _ Ht Hf _] Hp. unfold wire. rewrite header_bytes by done. repeat (apply Forall_app; split); try done.
  - apply be_bytes_bytes.
  - by apply Forall_singleton, type_code_byte.
  - by apply Forall_singleton.
  - apply be_bytes_bytes.
Qed.

Lemma reads_ok now n fs s :
  Forall (frame_ok n) fs -> Forall is_byte (concat (fs.*2)) -> session_ok s -> session_ok (reads now fs s).
Proof.
  intros Hf. revert s. induction Hf as [|f fs Hf _ IH]; intros s Hb Hs; [done|].
  cbn [fmap list_fmap concat] in Hb. apply Forall_app in Hb as [Hb1 Hb2]. cbn [reads foldl]. apply IH; [done|].
  apply (keeps_session_receive hash_string hash_uint32 hash_order has_extensions m_dispatch).
  apply (keeps_arrive (fresh _) (conj (wire_bytes _ _ Hf Hb1) (Forall_nil_2 _))). exact Hs.
Qed.

Lemma reads_app now fs1 fs2 s : reads now (fs1 ++ fs2) s = reads now fs2 (reads now fs1 s).
Proof. apply foldl_app. Qed.

(** ** Theorems *)

(** C14: A request that arrives one whole frame per read is dispatched exactly when its last frame is
    read.  The session is between two reads, with no setting of the peer waiting to raise a window, and
    the stream id is a new odd one it accepts; the header block comes in one HEADERS frame without
    END_STREAM, the session's table decodes it to fields the response takes, and one DATA frame or more
    carry a body that fits the receive windows of connection and stream.  Then, up to the last frame,
    the session submits nothing and dispatches nothing; the last frame makes it dispatch, once, the
    stream, before anything else, with a request whose body is the concatenation of the payloads and a
    response that holds the decoded fields and the status 404. *)
Theorem request_is_dispatched now n id s hs ds t' log res :
  session_ok s -> takes n id s -> m_streams s !! id = None -> id mod 2 = 1 ->
  message_frames id hs ds -> Forall (frame_ok n) (hs ++ ds) -> Forall is_byte (concat ((hs ++ ds).*2)) ->
  length hs = 1%nat -> concat (hs.*2) <> [] ->
  hpack_decode hash_string hash_uint32 (concat (hs.*2)) (decoding_table (m_shared s), []) =
    Ok (length (concat (hs.*2)), (t', log)) ->
  add_headers RESPONSE log (new_message id) = Return res ->
  Z.of_nat (length (concat (ds.*2))) <= c_recv_window (connection_stream (m_shared s)) ->
  Z.of_nat (length (concat (ds.*2))) <= m_initial_window_size (remote_settings (m_shared s)) ->
  exists ds' last rest, ds = ds' ++ [last] /\
    m_events (reads now (hs ++ ds') s) = m_events s /\
    m_events (reads now (hs ++ ds) s) =
      m_events s ++ Dispatch id (set_body (concat (ds.*2)) (new_message id)) (not_found res) :: rest /\
    forall i q r, Dispatch i q r ∉ rest.
Proof.
  intros Hok Hta Hnone Hodd [_ Hne Hhs Hds] Hf Hb Hlen Hblock Hdec Hadd Hw Hi.
  destruct hs as [|[h block] [|]]; try done. clear Hlen. cbn [fmap list_fmap concat snd app] in *. rewrite app_nil_r in *.
  destruct (Hhs 0%nat _ eq_refl) as (Hty & Hfl & Hid). cbn in Hty, Hfl, Hid.
  destruct (headers_read now n id s h block t' log res) as (s1 & Hr1 & Hco); try done.
  { by apply Forall_cons in Hf as [? _]. }
  pose proof (se_shared _ Hok) as [_ _ [_ _ Hwin _ _ _ _] _ Hrecv]. unfold MAX_INITIAL_WINDOW_SIZE in Hwin.
  rewrite i32_small in Hco by lia.
  destruct ds as [|last ds' _] using rev_ind; [done|]. clear Hne. rewrite fmap_app, concat_app in *.
  cbn [fmap list_fmap concat] in *. rewrite app_nil_r in *. rewrite length_app in *.
  rewrite app_comm_cons in *.
  apply Forall_app in Hf as [Hf1 Hf2]. apply Forall_inv in Hf2. pose proof Hf1 as [_ Hf3]%Forall_cons.
  destruct (Hds (length ds') last) as (Hty2 & Hfl2 & Hid2); [by rewrite lookup_app_r, Nat.sub_diag by lia|].
  cbn [length] in *. rewrite Nat.add_1_r, Nat.eqb_refl in Hfl2.
  assert (collects n id (m_initial_window_size (remote_settings (m_shared s)))
    (m_initial_window_size (remote_settings (m_shared s)) - Z.of_nat (length (concat ds'.*2)))
    (c_recv_window (connection_stream (m_shared s)) - Z.of_nat (length (concat ds'.*2)))
    (set_body (concat ds'.*2) (new_message id)) res t' (m_events s) (reads now ds' s1)) as Hco'.
  { apply data_reads; try done; try lia. apply Forall_lookup. intros i f Hx.
    destruct (Hds i f) as (? & Hz & ?); [by apply lookup_app_l_Some|]. pose proof (lookup_lt_Some _ _ _ Hx).
    destruct (Nat.eqb_spec (S i) (length ds' + 1)) as [|]; [lia|done]. }
  assert (reads now ((h, block) :: ds') s = reads now ds' s1) as Er by (cbn [reads foldl]; by rewrite Hr1).
  assert (session_ok (reads now ds' s1)) as Hok'.
  { rewrite <- Er. apply (reads_ok _ n); [done| |done]. cbn [fmap list_fmap concat snd]. rewrite app_assoc in Hb.
    by apply Forall_app in Hb as [? _]. }
  destruct last as [lh lp]. pose proof (fo_length _ _ Hf2) as Hll. cbn [fst snd] in *.
  destruct (last_read now n id _ _ _ _ _ _ _ _ lh lp Hok' Hco') as (rest & Hrest); try done; try lia.
  exists ds', (lh, lp), rest. split; [done|]. rewrite reads_app, Er. split; [apply Hco'|].
  destruct Hrest as [Hrest Hq]. split; [|done]. cbn [reads foldl]. rewrite Hrest. reflexivity.
Qed.

(** ** From client to server *)

Lemma on_stream_quiet {A} id (m : step Scope A) s : m_events (on_stream id m s).1 = m_events s.
Proof.
  unfold on_stream, stream_at, mbind, step_bind. destruct (m_streams s !! id) as [[st|]|]; [|done..].
  unfold run_stream. by destruct (m (m_shared s, st)) as [[w st'] o].
Qed.

(** What a client's [send] submits, when it returns. *)
Lemma send_submits request client client' id :
  send hash_string hash_uint32 hash_order request client = (client', Return id) ->
  exists bytes t', m_events client' = m_events client ++ [Submit bytes] /\
    write_message hash_string hash_uint32 hash_order (encoding_table (m_shared client)) (max_frame_size client) 0
      (set_stream_id id request) = Ok (bytes, t').
Proof.
  unfold send. intros (s1 & i & H1 & (s2 & bytes & H2 & (s3 & [] & H3 & (s4 & [] & H4 & H5)%bind_inverse)%bind_inverse)%bind_inverse)%bind_inverse.
  injection H5 as <- <-. injection H4 as <-.
  assert (m_events s1 = m_events client /\ m_shared s1 = m_shared client) as [E1 E2].
  { unfold next_client_stream in H1. rewrite bind_modify, bind_gets in H1.
    apply bind_inverse in H1 as (x & [] & H1 & [= <- _]). unfold get_or_create_stream in H1.
    destruct (_ =? 0) in H1; [done|]. rewrite bind_gets in H1. cbn [Datatypes.id] in H1.
    destruct (_ !! _) as [[]|] in H1; [by injection H1 as <-|done|].
    apply bind_inverse in H1 as (y & st & H1 & H1'). unfold lift in H1. injection H1 as <- _. by injection H1' as <-. }
  unfold encode_message in H2. rewrite bind_gets in H2. cbn [Datatypes.id] in H2.
  apply bind_inverse in H2 as (x & [bytes' table] & H2 & H2'). rewrite bind_modify in H2'. injection H2' as <- <-.
  unfold lift in H2. injection H2 as <- H2.
  destruct (write_node _ _ _ _ _ _) as [[b t]|] eqn:Ew in H2; [|done]. injection H2 as -> ->.
  exists bytes', table. split.
  - cbn. f_equal. rewrite <- E1. pose proof (on_stream_quiet i (advance_send HEADERS END_STREAM)
      (with_shared (with_encoding table (m_shared s1)) s1)) as Eq. by rewrite H3 in Eq.
  - unfold write_node in Ew. apply result_bind_Ok in Ew as ([b t] & Ew & Hle). rewrite <- E2.
    replace (max_frame_size client) with (max_frame_size s1) by (unfold max_frame_size; by rewrite E2).
    destruct (_ <=? _) in Hle; [|done]. by injection Hle as -> ->.
Qed.

(** C2: End to end: what a client sends is what a server dispatches.  The request has no header names of
    its own (all its fields have slots) and fields that can be sent; the server's decoding table equals
    the client's encoding table, which has room for the fields; the server is between two reads, takes
    frames of the client's size, and has not seen the stream id, which is odd and below 2^31; and the
    body fits its receive windows.  When [send] returns, the client has submitted octets that read
    back, frame by frame, as one header block and one body on the stream it assigned; and if the block
    takes one frame, a server that reads these frames, one per read, dispatches with the last of them,
    once, and not before: the body arrives as it was sent, and the header fields as they were sent -
    but in the response, because the codec of a client's stream is bound to the response, while the
    request the handler sees has none. *)
Theorem request_end_to_end now n id request client client' server room :
  (forall m, hash_order m ≡ₚ map_to_list m) ->
  send hash_string hash_uint32 hash_order request client = (client', Return id) ->
  max_frame_size client = n -> (0 < n <= BUF_CAPACITY)%nat ->
  sync_ok hash_string hash_uint32 (encoding_table (m_shared client)) room ->
  message_ok request -> m_headers request = ∅ -> Forall is_byte (m_body request) ->
  Forall sendable (get_headers hash_order request ≫= header_fields) ->
  total_charge (get_headers hash_order request ≫= header_fields) <= room ->
  session_ok server -> takes (Z.of_nat n) id server -> id < 2 ^ 31 -> id mod 2 = 1 ->
  m_streams server !! id = None -> decoding_table (m_shared server) = encoding_table (m_shared client) ->
  Z.of_nat (length (m_body request)) <= c_recv_window (connection_stream (m_shared server)) ->
  Z.of_nat (length (m_body request)) <= m_initial_window_size (remote_settings (m_shared server)) ->
  exists bytes hs ds, m_events client' = m_events client ++ [Submit bytes] /\
    parse_frames (length bytes) (Z.of_nat n) bytes = Some (hs ++ ds) /\ message_frames id hs ds /\
    (length hs = 1%nat -> concat (hs.*2) <> [] ->
     exists ds' last rest, ds = ds' ++ [last] /\
       m_events (reads now (hs ++ ds') server) = m_events server /\
       m_events (reads now (hs ++ ds) server) = m_events server ++
         Dispatch id (set_body (m_body request) (new_message id))
           (not_found (mkMessage id (m_static_headers request) ∅ [])) :: rest /\
       forall i q r, Dispatch i q r ∉ rest).
Proof.
  intros Hperm Hsend Hn Hcap Hsync Hm Hnames Hbytes Hsd Hch Hok Hta Hid Hodd Hnone Htab Hw Hi.
  destruct (send_submits _ _ _ _ Hsend) as (bytes & t' & Hev & Hwrite). rewrite Hn in Hwrite.
  set (m := set_stream_id id request) in *. assert (message_ok m) as Hm' by (destruct Hm; by split).
  destruct (write_message_frames hash_string hash_uint32 hash_order n (encoding_table (m_shared client)) room m)
    as (hs & ds & t2 & received & Hw2 & Hf & Hmf & Hbody & Hdec & Hrec & _ & Hblock); try done.
  rewrite Hwrite in Hw2. injection Hw2 as -> ->.
  change (msg_stream_id m) with id in Hmf. pose proof (ta_id _ _ _ Hta).
  rewrite mask_stream_id_eq, Z.mod_small in Hmf by lia.
  exists (concat (wire <$> (hs ++ ds))), hs, ds. split; [done|]. split; [apply parse_wire; [done|apply frames_fuel]|].
  split; [done|]. intros Hone Hne. rewrite <- Htab in Hdec.
  pose proof (rebuild hash_order Hperm RESPONSE m received Hm' (or_intror Hnames) Hrec) as Hadd.
  destruct (request_is_dispatched now (Z.of_nat n) id server hs ds t2 received
    (mkMessage id (m_static_headers request) ∅ [])) as (ds' & last & rest & H1 & H2 & H3); try done.
  - rewrite fmap_app, concat_app. apply Forall_app. split; [done|]. by rewrite Hbody.
  - etransitivity; [exact Hadd|]. change (m_headers m) with (m_headers request). by rewrite Hnames.
  - rewrite Hbody. exact Hw.
  - rewrite Hbody. exact Hi.
  - exists ds', last, rest. split; [done|]. split; [done|]. rewrite Hbody in H3. exact H3.
Qed.

End Reads.

(** ** A concrete delivery *)

(** A server after the handshake and the client's SETTINGS, and a client after its handshake. *)
Definition demo_server : Session :=
  m_session (run fnv1a id_hash map_to_list false plain_handler
    [OnRead true 0 (fresh HTTP2_CONNECTION_PREFACE); OnRead true 0 (fresh (wire (frame_of SETTINGS 0 0 [])))] (new_flow 0)).

Definition demo_client : Session := m_session (client_on_connect (new_flow 0)).1.

Lemma demo_server_ok : session_ok demo_server.
Proof.
  eapply fl_session; [|apply (new_flow_ok 0)]. apply run_flows. apply (bool_decide_unpack _). vm_compute. exact I.
Qed.

Lemma demo_server_takes : takes 16384 3 demo_server.
Proof. split; [split; vm_compute; reflexivity|vm_compute; done|vm_compute; reflexivity|split; vm_compute; done]. Qed.

Definition demo_headers_frame : FrameHeader * list Z := frame_of HEADERS END_HEADERS 3 [0x82].
Definition demo_data_frames : list (FrameHeader * list Z) :=
  [frame_of DATA 0 3 [104; 101; 108]; frame_of DATA 0 3 []; frame_of DATA END_STREAM 3 [108; 111]].

Lemma request_is_dispatched_witness :
  exists rest,
    m_events (reads fnv1a id_hash map_to_list false plain_handler 0 (demo_headers_frame :: demo_data_frames) demo_server) =
      m_events demo_server ++
        Dispatch 3 (set_body [104; 101; 108; 108; 111] (new_message 3))
          (not_found (mkMessage 3 (<[slot METHOD := Some (StaticField METHOD "GET")]> (replicate STATIC_SLOTS None)) ∅ []))
        :: rest.
Proof.
  destruct (request_is_dispatched fnv1a id_hash map_to_list false plain_handler 0 16384 3 demo_server
    [demo_headers_frame] demo_data_frames (make_table 4096) [LiteralField ":method" "GET"]
    (mkMessage 3 (<[slot METHOD := Some (StaticField METHOD "GET")]> (replicate STATIC_SLOTS None)) ∅ []))
    as (ds' & last & rest & _ & _ & H & _).
  - exact demo_server_ok.
  - exact demo_server_takes.
  - vm_compute. reflexivity.
  - reflexivity.
  - split; [done|done|..]; intros i f Hi.
    + destruct i; [|done]. injection Hi as <-. done.
    + do 3 (destruct i as [|i]; [injection Hi as <-; done|]). done.
  - repeat (apply Forall_cons_2; [by split; cbn; unfold is_byte|]). apply Forall_nil_2.
  - repeat (apply Forall_cons_2; [unfold is_byte; lia|]). apply Forall_nil_2.
  - reflexivity.
  - done.
  - vm_compute. reflexivity.
  - vm_compute. reflexivity.
  - vm_compute. done.
  - vm_compute. done.
  - exists rest. exact H.
Defined.

(** A request whose fields all have slots. *)
Definition demo_get : Message :=
  mkMessage 0
    (<[slot METHOD := Some (StaticField METHOD "GET")]>
      (<[slot PATH := Some (StaticField PATH "/tables/7")]> (replicate STATIC_SLOTS None))) ∅ [104; 101; 108; 108; 111].

Lemma demo_get_ok : message_ok demo_get.
Proof.
  split; [reflexivity| |done].
  intros i e. unfold demo_get, m_static_headers. rewrite !list_lookup_insert. repeat case_decide; subst; intros Hi;
    [injection Hi as <-; eexists _, _; (split; [reflexivity|]); (split; [lia|]); done..|].
  apply lookup_replicate in Hi. naive_solver.
Qed.

Definition demo_sent : Session * outcome Z := send fnv1a id_hash map_to_list demo_get demo_client.

Lemma demo_send : send fnv1a id_hash map_to_list demo_get demo_client = (demo_sent.1, Return 3).
Proof.
  unfold demo_sent. assert ((send fnv1a id_hash map_to_list demo_get demo_client).2 = Return 3) as <-
    by (vm_compute; reflexivity).
  apply surjective_pairing.
Qed.

(** The request is one HEADERS frame, then DATA. *)
Definition one_block (events : list Event) : bool :=
  match last events with
  | Some (Submit bytes) =>
      match parse_frames (length bytes) 16384 bytes with
      | Some ((h, block) :: _) => (m_flags h =? END_HEADERS) && negb (length block =? 0)%nat
      | _ => false
      end
  | _ => false
  end.

Lemma one_block_frames events id bytes hs ds :
  one_block (events ++ [Submit bytes]) = true -> parse_frames (length bytes) 16384 bytes = Some (hs ++ ds) ->
  message_frames id hs ds -> length hs = 1%nat /\ concat (hs.*2) <> [].
Proof.
  unfold one_block. rewrite last_snoc. intros H Hp [Hne _ Hhs _]. rewrite Hp in H.
  destruct hs as [|[h block] hs]; [done|]. cbn [app] in H. apply andb_true_iff in H as [Hf Hb].
  destruct (Hhs 0%nat _ eq_refl) as (_ & Hfl & _). cbn [fst] in Hfl. apply Z.eqb_eq in Hf.
  destruct hs as [|f hs]; [|cbn in Hfl; rewrite Hfl in Hf; done]. split; [done|]. cbn.
  apply negb_true_iff, Nat.eqb_neq in Hb. by destruct block.
Qed.

Lemma request_end_to_end_witness :
  exists frames rest,
    m_events (reads fnv1a id_hash map_to_list false plain_handler 0 frames demo_server) = m_events demo_server ++
      Dispatch 3 (set_body [104; 101; 108; 108; 111] (new_message 3))
        (not_found (mkMessage 3 (m_static_headers demo_get) ∅ [])) :: rest.
Proof.
  destruct (request_end_to_end fnv1a id_hash map_to_list false plain_handler 0 16384 3 demo_get demo_client demo_sent.1
    demo_server 4096 (fun m => reflexivity _) demo_send) as (bytes & hs & ds & Hev & Hp & Hmf & H).
  - vm_compute. reflexivity.
  - split; [apply Nat.ltb_lt|apply Nat.leb_le]; vm_compute; reflexivity.
  - apply make_table_sync. lia.
  - exact demo_get_ok.
  - reflexivity.
  - repeat (apply Forall_cons_2; [unfold is_byte; lia|]). apply Forall_nil_2.
  - apply (bool_decide_unpack _). vm_compute. exact I.
  - vm_compute. done.
  - exact demo_server_ok.
  - exact demo_server_takes.
  - lia.
  - reflexivity.
  - vm_compute. reflexivity.
  - vm_compute. reflexivity.
  - vm_compute. done.
  - vm_compute. done.
  - assert (one_block (m_events demo_sent.1) = true) as Hone by (vm_compute; reflexivity).
    rewrite Hev in Hone. destruct (one_block_frames _ _ _ _ _ Hone Hp Hmf) as [H1 H2].
    destruct (H H1 H2) as (ds' & last & rest & _ & _ & Hend & _). exists (hs ++ ds), rest. exact Hend.
Defined.
