(* ===== verification/Connections.v ===== *)
(** * The life of a connection

    How a connection starts, what ends it and what breaks it: the handshake of a server, whose
    preface has to come in one read ([handshake_outcome]), the lock-out after GOAWAY, the exhausted receive
    window, header blocks in several frames, and closed executions of the cases in which the session
    does not do what its comments say. *)

From Stdlib Require Import ZArith Lia.
From stdpp Require Import base list gmap strings.
From S2P Require Import Prelude HttpTypes HeaderTable Hpack Buffering Frame Settings StreamState Message Steps Stream Session Delivery.

Open Scope Z_scope.

#[local] Arguments Queue.take_view : simpl never.
#[local] Arguments Queue.consume : simpl never.
#[local] Arguments new_message : simpl never.
#[local] Arguments wrap : simpl never.

(** The octets of the GOAWAY and RST_STREAM frames a session sends. *)
Definition goaway_wire (last_stream_id : Z) (code : Http2ErrorCode) : list Z :=
  wire (frame_of GOAWAY 0 0 (goaway_payload last_stream_id code)).
Definition reset_wire (stream_id : Z) (code : Http2ErrorCode) : list Z :=
  wire (frame_of RST_STREAM 0 stream_id (be_bytes 4 (error_code code))).

Section Connections.
Context (hash_string : string -> Z) (hash_uint32 : Z -> Z).
Context (hash_order : gmap string string -> list (string * string)).
Context (has_extensions : bool).
Context (m_dispatch : Message -> Message -> Handled).

#[local] Abbreviation s_receive := (receive hash_string hash_uint32 hash_order has_extensions m_dispatch).
#[local] Abbreviation s_body := (receive_body hash_string hash_uint32 hash_order has_extensions m_dispatch).
#[local] Abbreviation s_frame := (receive_frame hash_string hash_uint32 hash_order has_extensions m_dispatch).
#[local] Abbreviation st_receive := (Stream.receive hash_string hash_uint32 has_extensions).
#[local] Abbreviation on_read := (server_on_read hash_string hash_uint32 hash_order has_extensions m_dispatch).

(** ** The handshake *)

(** The SETTINGS frame of a fresh server. *)
Definition server_settings (now : Z) : list Z :=
  wire (frame_of SETTINGS 0 0 (WriteSettingsAdaptor (default_settings now) [])).

(** A fresh server that has read [bytes], fewer than the preface has. *)
Definition waiting (now : Z) (bytes : list Z) : Flow :=
  mkFlow (loaded bytes (emit_event (Submit (server_settings now)) (new_session now))) true false false.

Lemma send_handshake_first now bytes :
  send_handshake true (mkFlow (loaded bytes (new_session now)) false false false) = (waiting now bytes, Return tt).
Proof. vm_compute. reflexivity. Qed.

(** The preface check, and what follows it in [on_read]. *)
Definition judge (now : Z) : step Flow unit :=
  result ← on_session is_valid_preface;
  match result with
  | COMPLETED =>
      _ ← modify set_completed;
      dispatch_to_session hash_string hash_uint32 hash_order has_extensions m_dispatch now
  | PREFACE_ERROR => flow_close PROTOCOL_ERROR
  | _ => mret tt
  end.

Lemma first_read now chunk :
  Z.of_nat (length chunk) < 2 ^ 64 -> on_read now (fresh chunk) (new_flow now) = judge now (waiting now chunk).
Proof.
  intros Hb. unfold server_on_read.
  rewrite (bind_eq _ _ _ (mkFlow (loaded chunk (new_session now)) false false false) tt).
  2: { unfold on_session, new_flow, modify. cbn [m_session]. by rewrite arrive_loaded. }
  rewrite bind_gets. cbn [id m_handshake_completed].
  by rewrite (bind_eq _ _ _ _ _ (send_handshake_first now chunk)).
Qed.

(** A second read while part of the preface is unread finds room in its node. *)
Lemma next_read now bytes r :
  bytes <> [] -> tail_full r = false -> Z.of_nat (length bytes + length (octets r)) < 2 ^ 64 ->
  on_read now r (waiting now bytes) =
    judge now (waiting now (resize (length bytes + length (octets r)) 0 (memory r))).
Proof.
  intros Hne Hf Hb. set (bytes' := resize _ _ _). unfold server_on_read. rewrite (bind_eq _ _ _ (waiting now bytes') tt).
  2: { unfold on_session, waiting, modify. cbn [m_session]. unfold arrive, arrived, overwrite. cbn.
       rewrite bool_decide_false, Hf by done. cbn. unfold loaded, Queue.of_bytes, with_shared, with_reader. cbn.
       subst bytes'. rewrite length_resize, wrap_small, <- Nat2Z.inj_add by lia. done. }
  rewrite bind_gets. cbn [id m_handshake_completed waiting].
  by rewrite (bind_eq _ _ _ (waiting now bytes') tt).
Qed.

Lemma judge_awaits now bytes :
  (length bytes < 24)%nat -> judge now (waiting now bytes) = (waiting now bytes, Return tt).
Proof.
  intros Hb. unfold judge. rewrite (bind_eq _ _ _ (waiting now bytes) AWAITING_PREFACE); [done|].
  unfold on_session, is_valid_preface, waiting. cbn [m_session]. rewrite bind_gets. cbn [id].
  replace (Queue.size _ <? _) with true; [done|]. symmetry. apply Z.ltb_lt. cbn. lia.
Qed.

(** The octets that belong to the preface, if they are there. *)
Lemma judge_decides now bytes :
  (24 <= length bytes)%nat -> Z.of_nat (length bytes) < 2 ^ 64 ->
  judge now (waiting now bytes) =
    if decide (take 24 bytes = HTTP2_CONNECTION_PREFACE)
    then dispatch_to_session hash_string hash_uint32 hash_order has_extensions m_dispatch now
           (set_completed (waiting now (drop 24 bytes)))
    else flow_close PROTOCOL_ERROR (waiting now bytes).
Proof.
  intros Hlen Hb. assert (length HTTP2_CONNECTION_PREFACE = 24%nat) as H24 by reflexivity.
  assert (length (take 24 bytes) = 24%nat) as Ht by (rewrite length_take; lia).
  assert (shared (take_bytes 24) (m_session (waiting now bytes)) = (m_session (waiting now bytes), Return (take 24 bytes))) as E1.
  { unfold shared, take_bytes, waiting, loaded. run_step.
    pose proof (take_front (take 24 bytes) (drop 24 bytes)) as H. rewrite Ht, take_drop in H. rewrite H by done. done. }
  assert (shared (consume_bytes 24) (m_session (waiting now bytes)) = (m_session (waiting now (drop 24 bytes)), Return tt)) as E2.
  { unfold shared, consume_bytes, waiting, loaded. run_step.
    pose proof (consume_front (take 24 bytes) (drop 24 bytes)) as H. rewrite Ht, take_drop in H. by rewrite H. }
  unfold judge.
  assert (Queue.size (reader (m_shared (m_session (waiting now bytes)))) <? Z.of_nat 24 = false) as E3
    by (apply Z.ltb_ge; change (Queue.size _) with (Z.of_nat (length bytes)); lia).
  case_decide as Hp.
  - rewrite (bind_eq _ _ _ (waiting now (drop 24 bytes)) COMPLETED); [by rewrite bind_modify|].
    unfold on_session, is_valid_preface. rewrite bind_gets. cbn [id]. rewrite H24, E3, (bind_eq _ _ _ _ _ E1).
    rewrite bool_decide_true by done. by rewrite (bind_eq _ _ _ _ _ E2).
  - rewrite (bind_eq _ _ _ (waiting now bytes) PREFACE_ERROR); [done|].
    unfold on_session, is_valid_preface. rewrite bind_gets. cbn [id]. rewrite H24, E3, (bind_eq _ _ _ _ _ E1).
    by rewrite bool_decide_false.
Qed.

Lemma judged now bytes :
  (24 <= length bytes)%nat -> Z.of_nat (length bytes) < 2 ^ 64 ->
  let f := (judge now (waiting now bytes)).1 in
  (m_handshake_completed f = true <-> take 24 bytes = HTTP2_CONNECTION_PREFACE) /\
  (take 24 bytes <> HTTP2_CONNECTION_PREFACE ->
     m_closed f = true /\
     m_events (m_session f) =
       [Submit (server_settings now); Submit (goaway_wire 0 PROTOCOL_ERROR); CloseTransport]).
Proof.
  intros Hlen Hb f. subst f. rewrite judge_decides by done. case_decide as Hp.
  - split; [|done]. split; [done|]. intros _. unfold dispatch_to_session. rewrite bind_gets.
    destruct (negb _); [|done]. cbn [when]. unfold on_session.
    by destruct (s_receive now (m_session (set_completed (waiting now (drop 24 bytes))))).
  - split; [|intros _; split; reflexivity]. split; [|done]. intros Hx. exfalso. revert Hx. vm_compute. done.
Qed.

(** C11: The handshake of a server.  If the first read brings 24 octets or more, it decides: the
    handshake is complete exactly when they start with the preface; otherwise the server sends GOAWAY
    with PROTOCOL_ERROR after its SETTINGS and closes.  A first read that brings less leaves a server
    that has sent its SETTINGS and waits; but the next read overwrites those octets, so what decides
    then is what the memory of the node holds, not what the peer sent. *)
Theorem handshake_outcome now chunk r :
  Z.of_nat (length chunk) < 2 ^ 64 -> tail_full r = false ->
  let f := (on_read now (fresh chunk) (new_flow now)).1 in
  ((24 <= length chunk)%nat ->
     (m_handshake_completed f = true <-> take 24 chunk = HTTP2_CONNECTION_PREFACE) /\
     (take 24 chunk <> HTTP2_CONNECTION_PREFACE ->
        m_closed f = true /\
        m_events (m_session f) =
          [Submit (server_settings now); Submit (goaway_wire 0 PROTOCOL_ERROR); CloseTransport])) /\
  ((length chunk < 24)%nat ->
     m_events (m_session f) = [Submit (server_settings now)] /\
     m_handshake_completed f = false /\ m_closed f = false /\
     forall n, n = (length chunk + length (octets r))%nat -> chunk <> [] -> (24 <= n)%nat -> Z.of_nat n < 2 ^ 64 ->
       m_handshake_completed (on_read now r f).1 = true <->
         take 24 (resize n 0 (memory r)) = HTTP2_CONNECTION_PREFACE).
Proof.
  intros Hb Hr f. subst f. rewrite first_read by done. split; intros Hlen; [by apply judged|].
  rewrite judge_awaits by done. split_and!; [done..|]. intros n -> Hne Hn Hn'. cbn [fst]. rewrite next_read by done.
  apply judged; by rewrite length_resize.
Qed.

(** ** Sending one frame *)

Lemma frames_of_single a data :
  data <> [] -> (length data <= a_max_frame_size a)%nat ->
  frames_of a data =
    [(make_header (u32 (Z.of_nat (length data))) (chunk_type a 0) (chunk_flags a 0 1) (a_stream_id a), data)].
Proof.
  intros Hne Hl. unfold frames_of. rewrite Nat.min_r by done. set (k := length data) in *.
  assert (0 < k)%nat by (subst k; destruct data; [done|cbn; lia]).
  replace (total_chunks k k) with 1%nat.
  - unfold chunked. cbn. rewrite drop_0, take_ge by done. done.
  - unfold total_chunks. replace (k =? 0)%nat with false by (symmetry; apply Nat.eqb_neq; lia).
    symmetry. symmetry. apply (Nat.div_unique _ _ 1 (k - 1)); lia.
Qed.

Lemma frame_submitted type id payload s :
  type <> DATA -> type <> HEADERS -> type_ok type -> payload <> [] -> Z.of_nat (length payload) < 2 ^ 24 ->
  (length payload <= max_frame_size s)%nat ->
  send_frame (build_frame type 0 id payload) s =
    (emit_event (Submit (wire (frame_of type 0 (mask_stream_id id) payload))) s, Return tt).
Proof.
  intros Hd Hh Ht Hne Hb Hl. unfold send_frame. rewrite bind_gets.
  assert (WriteFrameBuilderAdaptor (build_frame type 0 id payload) (max_frame_size s) false false [] =
    Ok (wire (frame_of type 0 (mask_stream_id id) payload))) as E.
  { unfold WriteFrameBuilderAdaptor, build_frame, add_payload, add_stream_id, add_flags, add_type, new_builder. cbn [fb_payload fb_stream_id fb_type fb_flags app].
    assert (0 < length payload)%nat by (destruct payload; [done|cbn; lia]).
    rewrite write_frames_wire by (cbn; lia). rewrite frames_of_single by done. cbn [fmap list_fmap concat].
    rewrite app_nil_r. unfold frame_of, make_header. cbn [a_stream_id]. rewrite mask_twice, wrap_small by lia.
    unfold chunk_type, chunk_flags. cbn [a_type a_flags]. rewrite !bool_decide_false by done. done. }
  rewrite E. cbn [of_result]. rewrite bind_lift.
  replace (length (wire (frame_of type 0 (mask_stream_id id) payload)) <=?
    Frame.get_size (build_frame type 0 id payload))%nat with true; [done|].
  symmetry. apply Nat.leb_le. by rewrite wire_length.
Qed.

(** ** The end of the receive window *)

Lemma max_frame_at_least s : session_ok s -> (16384 <= Z.of_nat (max_frame_size s))%Z.
Proof. intros [[_ [_ _ _ Hf _ _ _] _ _ _] _ _ _ _]. unfold max_frame_size, MIN_FRAME_SIZE in *. lia. Qed.

(** C24: Nothing replenishes the receive window of a connection, and the octet after the last one it
    has room for is fatal: on an open stream of a well formed session, a DATA frame longer than what
    is left makes [receive] send RST_STREAM for stream 0 and then throw, out of the [catch] block
    that should have reset the stream. *)
Theorem window_exhausted now n id send recv window req res t events s h payload :
  session_ok s -> collects n id send recv window req res t events s -> frame_ok n (h, payload) ->
  m_type h = DATA -> Frame.m_stream_id h = id -> 0 <= window < m_length h ->
  exists s', s_receive now (arrive (fresh (wire (h, payload))) s) =
      (s', Throw (ConnectionError PROTOCOL_ERROR MAX_CONNECTED_STREAMS)) /\
    m_events s' = events ++ [Submit (reset_wire 0 FLOW_CONTROL_ERROR)].
Proof.
  intros Hok [[Hb Hd Hn Hid] Hst Hw Ht He] Hf Hty Hi Hwin. subst n. pose proof Hf as [Hl Hm _ _ _]. cbn [fst snd] in *.
  set (s0 := settle s).
  assert (m_streams (loaded payload s0) !! id = Some (Some (open_stream id send recv req res))) as Hs0
    by (cbn; subst s0; by rewrite settle_streams).
  assert (exists sc, st_receive h (m_shared (loaded payload s0), open_stream id send recv req res) =
    (sc, Throw (StreamError 0 FLOW_CONTROL_ERROR)) /\ local_settings sc.1 = local_settings (m_shared s)) as (sc & Hsc & Hloc).
  { unfold Stream.receive. rewrite bind_self. cbn [open_stream m_expecting_continuation andb m_state_machine]. rewrite Hty.
    assert (exists st, advance DATA (m_flags h) false (mkMachine id OPEN) = Return (mkMachine id st)) as [st ->].
    { unfold advance, advance_from, handle_open. cbn. destruct (negb _); by eexists. }
    rewrite bind_lift, bind_update.
    eexists. split.
    - apply bind_throw. unfold receive_data. rewrite bind_self. replace (0 <? m_length h) with true by lia. cbn [when].
      apply bind_throw. unfold consume_window. apply bind_throw. unfold on_shared.
      unfold connection_consume_window. rewrite bind_gets. rewrite i32_small by lia. unfold debited_window.
      subst s0. cbn [connection_stream m_shared loaded with_shared with_reader]. rewrite settle_connection, Hw.
      destruct (Z.ltb_spec (window - m_length h) (- 2 ^ 31)); [lia|].
      destruct (Z.ltb_spec (window - m_length h) 0); [|lia]. reflexivity.
    - cbn. subst s0. unfold settle. by destruct (is_acknowledged _). }
  destruct sc as [w' st']. set (s1 := put_stream id st' (with_shared w' (loaded payload s0))).
  assert (s_body now (arrive (fresh (wire (h, payload))) s) = (s1, Throw (StreamError 0 FLOW_CONTROL_ERROR))) as E.
  { rewrite frame_read by (done || (cbn [fst]; lia)). cbn [fst snd]. fold s0. unfold receive_frame. cbv zeta. rewrite Hi.
    replace (id =? 0) with false by lia. rewrite (bind_eq _ _ _ (loaded payload s0) tt).
    2: { unfold get_or_create_stream. replace (id =? 0) with false by lia. rewrite bind_gets. cbn [Datatypes.id].
         by rewrite Hs0. }
    apply bind_throw. unfold on_stream. rewrite (bind_eq _ _ _ (loaded payload s0) (open_stream id send recv req res))
      by (unfold stream_at; by rewrite Hs0).
    unfold run_stream. by rewrite Hsc. }
  assert (max_frame_size s1 = max_frame_size s) as Hmax by (unfold max_frame_size; cbn; by rewrite <- Hloc).
  pose proof (max_frame_at_least s Hok).
  exists (emit_event (Submit (reset_wire 0 FLOW_CONTROL_ERROR)) s1). split.
  - unfold receive. rewrite E. rewrite (bind_eq _ _ _ _ _ (frame_submitted RST_STREAM 0 (be_bytes 4 (error_code FLOW_CONTROL_ERROR)) s1
      ltac:(done) ltac:(done) I ltac:(discriminate) ltac:(rewrite length_be_bytes; lia)
      ltac:(rewrite Hmax, length_be_bytes; lia))). done.
  - cbn. rewrite <- He. f_equal. subst s0. unfold settle. by destruct (is_acknowledged _).
Qed.

(** ** After GOAWAY *)

(** The session once a GOAWAY frame was read and answered. *)
Definition after_goaway (s : Session) : Session :=
  let w := m_shared (settle s) in
  emit_event (Submit (goaway_wire 0 (m_connection_error_code (connection_stream w))))
    (with_shared (with_reader Queue.empty_reader (with_remote (set_last_stream_id 0 (remote_settings w)) w)) (settle s)).

Lemma settle_local s : local_settings (m_shared (settle s)) = local_settings (m_shared s).
Proof. unfold settle. by destruct (is_acknowledged _). Qed.

Lemma goaway_payload_length id code : length (goaway_payload id code) = 8%nat.
Proof. unfold goaway_payload, WriteBigEndianAdaptor. by rewrite !length_app, !length_be_bytes. Qed.

Lemma goaway_payload_ne id code : goaway_payload id code <> [].
Proof. intros E%(f_equal length). by rewrite goaway_payload_length in E. Qed.

Lemma goaway_read now s h payload :
  session_ok s -> between_reads s -> no_delta s ->
  frame_ok (m_max_frame_size (local_settings (m_shared s))) (h, payload) ->
  m_type h = GOAWAY -> Frame.m_stream_id h = 0 ->
  s_receive now (arrive (fresh (wire (h, payload))) s) = (after_goaway s, Return tt).
Proof.
  intros Hok Hb Hd Hf Hty Hi. pose proof Hf as [Hl Hm _ _ _]. cbn [fst snd] in *. apply receive_returns.
  pose proof (so_last _ (sh_remote _ (se_shared _ Hok))) as Hlast. unfold u32_ok in Hlast.
  rewrite frame_read by (done || (cbn [fst]; lia)). cbn [fst snd]. unfold receive_frame. rewrite Hi. cbn [Z.eqb].
  set (s0 := settle s). set (w := m_shared s0). set (code := m_connection_error_code (connection_stream w)).
  set (s1 := with_shared (with_reader Queue.empty_reader (with_remote (set_last_stream_id 0 (remote_settings w)) w)) s0).
  rewrite (bind_eq _ _ _ s1 (Some (build_frame GOAWAY 0 0 (goaway_payload 0 code)))).
  - pose proof (max_frame_at_least s Hok).
    rewrite frame_submitted; try done. rewrite goaway_payload_length. unfold max_frame_size in *. cbn. subst w s0. rewrite settle_local. lia.
  - unfold shared, connection_receive. rewrite Hty. unfold goaway_reply. run_step. rewrite Hi.
    rewrite (frame_bytes_length _ _ Hl). pose proof (consume_front payload []) as Hc. rewrite app_nil_r in Hc.
    subst s1 w. unfold with_shared, with_reader, with_remote. cbn. rewrite Hc by lia. done.
Qed.

Lemma after_goaway_ok s : session_ok s -> session_ok (after_goaway s).
Proof.
  intros [[Hby Hl Hr Hsd Hrv] Hst Hodd Hh Hcl]. unfold after_goaway, settle.
  destruct (is_acknowledged _); (split; cbn; [|done..]); split; cbn; try done; apply set_last_ok; try done.
  by apply set_state_ok.
Qed.

Lemma locked_out now s f :
  session_ok s -> between_reads s -> m_last_stream_id (remote_settings (m_shared s)) = 0 ->
  frame_ok (m_max_frame_size (local_settings (m_shared s))) f -> 0 < Frame.m_stream_id f.1 ->
  let s' := (s_receive now (arrive (fresh (wire f)) s)).1 in
  m_streams s' = ∅ /\
  m_events s' = m_events s ++ [Submit (goaway_wire 0 PROTOCOL_ERROR); CloseTransport].
Proof.
  intros Hok Hb Hlast Hf Hid. destruct f as [h payload]. pose proof Hf as [Hl Hm _ _ _]. cbn [fst snd] in *.
  rewrite arrive_loaded; [|done|rewrite wire_length; cbn; unfold HEADER_SIZE; lia].
  change (wire (h, payload)) with (header_octets h ++ payload).
  assert (s_body now (loaded (header_octets h ++ payload) s) = (loaded payload s, Throw (ConnectionError PROTOCOL_ERROR 0))) as E.
  { unfold receive_body. apply bind_throw. unfold fetch_header. rewrite bind_gets.
    cbn [m_safe_header loaded with_shared id]. rewrite (br_header _ Hb). rewrite (bind_eq _ _ _ _ _ (header_read s h payload Hf)).
    rewrite bind_gets. cbn [id]. cbv zeta. cbn [loaded m_shared with_shared with_reader remote_settings].
    rewrite Hlast. by replace (0 <? Frame.m_stream_id h) with true by lia. }
  unfold receive. rewrite E. unfold close, send_goaway. pose proof (max_frame_at_least s Hok).
  rewrite (bind_eq _ _ _ _ _ (frame_submitted GOAWAY 0 (goaway_payload 0 PROTOCOL_ERROR) (loaded payload s)
    ltac:(done) ltac:(done) I ltac:(apply goaway_payload_ne) ltac:(rewrite goaway_payload_length; lia)
    ltac:(rewrite goaway_payload_length; unfold max_frame_size in *; cbn; lia))).
  rewrite !bind_modify. split.
  - cbn. apply map_eq. intros i. rewrite lookup_empty. apply map_lookup_filter_None. right. intros x Hx Hle. pose proof (se_odd _ Hok i ltac:(by eexists)). lia.
  - cbn. by rewrite <- app_assoc.
Qed.

(** A GOAWAY from the peer locks the connection: the session answers it, taking the stream id of the
    frame header, which is 0, for the last stream it may still serve; so the next frame of any
    stream, those in progress included, closes the connection with PROTOCOL_ERROR and drops every
    stream. *)
Theorem goaway_locks_out now s h payload f :
  session_ok s -> between_reads s -> no_delta s ->
  frame_ok (m_max_frame_size (local_settings (m_shared s))) (h, payload) ->
  m_type h = GOAWAY -> Frame.m_stream_id h = 0 ->
  frame_ok (m_max_frame_size (local_settings (m_shared s))) f -> 0 < Frame.m_stream_id f.1 ->
  let s' := reads hash_string hash_uint32 hash_order has_extensions m_dispatch now [(h, payload); f] s in
  m_streams s' = ∅ /\
  m_events s' = m_events s ++
    [Submit (goaway_wire 0 (m_connection_error_code (connection_stream (m_shared s)))); Submit (goaway_wire 0 PROTOCOL_ERROR);
     CloseTransport].
Proof.
  intros Hok Hb Hd Hg Hty Hi Hf Hid s'. subst s'. cbn [reads foldl]. rewrite goaway_read by done. cbn [fst].
  destruct (locked_out now (after_goaway s) f) as [H1 H2].
  - by apply after_goaway_ok.
  - split; [done|]. cbn. destruct Hb as [_ Hh]. unfold settle. by destruct (is_acknowledged _).
  - done.
  - unfold after_goaway. cbn. by rewrite settle_local.
  - done.
  - split; [exact H1|]. rewrite H2. unfold after_goaway. cbn. rewrite <- app_assoc, settle_connection. cbn. f_equal.
    unfold settle. by destruct (is_acknowledged _).
Qed.

(** ** Header blocks in several frames *)

(** The length of a CONTINUATION frame is compared with the size of the whole block: after a fragment
    that is not empty, every CONTINUATION that is not empty is an INTERNAL_ERROR of the connection. *)
Theorem continuation_rejected w s h payload view :
  m_expecting_continuation s = true -> m_primary_headers_done s = false -> m_header_block s = Some view -> view <> [] ->
  StreamState.m_state (m_state_machine s) = OPEN -> m_type h = CONTINUATION ->
  m_length h = Z.of_nat (length payload) -> payload <> [] -> reader w = Queue.of_bytes payload ->
  (st_receive h (w, s)).2 = Throw (ConnectionError INTERNAL_ERROR (get_stream_id s)).
Proof.
  intros He Hp Hb Hv Hst Hty Hl Hne Hr. unfold Stream.receive. rewrite bind_self, He, Hty. cbn [andb negb].
  rewrite bool_decide_true by done. cbn [negb].
  assert (exists st, advance CONTINUATION (m_flags h) false (m_state_machine s) = Return (mkMachine (get_stream_id s) st)) as [st ->].
  { unfold advance, advance_from, handle_open. rewrite Hst. cbn. destruct (negb _); by eexists. }
  rewrite bind_lift, bind_update. set (s1 := with_machine _ s).
  assert (exists sc, receive_block hash_string hash_uint32 h (w, s1) = (sc, Throw (ConnectionError INTERNAL_ERROR (get_stream_id s))))
    as [sc E].
  { assert (0 < length payload)%nat by (destruct payload; [done|cbn; lia]).
    assert (0 < length view)%nat by (destruct view; [done|cbn; lia]).
    unfold receive_block. rewrite (bind_eq _ _ _ (w, s1) view).
    2: { unfold get_header_block_for_write. rewrite bind_self. cbn. rewrite Hp, Hb. done. }
    rewrite bind_self. replace (0 <? m_length h) with true by lia.
    rewrite (bind_throw _ _ _ (with_reader (Queue.mkReader [] (Z.of_nat (length payload))) w, set_block (view ++ payload) s1)
      (ConnectionError INTERNAL_ERROR (get_stream_id s))).
    - by eexists.
    - rewrite (bind_eq _ _ _ (with_reader (Queue.mkReader [] (Z.of_nat (length payload))) w, s1) payload).
      2: { unfold on_shared, grow_bytes. by rewrite Hr, (frame_bytes_length _ _ Hl), grow_all. }
      rewrite bind_update, length_app. replace (Z.of_nat (length view + length payload) =? m_length h) with false
        by (symmetry; apply Z.eqb_neq; rewrite Hl; lia).
      done. }
  by rewrite (bind_throw _ _ _ _ _ E).
Qed.

End Connections.

(** The preface in two reads: the memory of the node decides. *)
Lemma handshake_outcome_witness :
  let r memory := mkRead (drop 3 HTTP2_CONNECTION_PREFACE) false memory in
  let f := (server_on_read fnv1a id_hash map_to_list false plain_handler 0 (fresh (take 3 HTTP2_CONNECTION_PREFACE)) (new_flow 0)).1 in
  m_handshake_completed (server_on_read fnv1a id_hash map_to_list false plain_handler 0 (r (drop 3 HTTP2_CONNECTION_PREFACE)) f).1 <> true /\
  m_handshake_completed (server_on_read fnv1a id_hash map_to_list false plain_handler 0 (r HTTP2_CONNECTION_PREFACE) f).1 = true.
Proof.
  cbv zeta. split.
  - destruct (handshake_outcome fnv1a id_hash map_to_list false plain_handler 0 (take 3 HTTP2_CONNECTION_PREFACE)
      (mkRead (drop 3 HTTP2_CONNECTION_PREFACE) false (drop 3 HTTP2_CONNECTION_PREFACE))) as [_ H]; [reflexivity..|].
    destruct (H ltac:(cbn; lia)) as (_ & _ & _ & H'). intros E%(H' 24%nat); [|reflexivity|discriminate|lia|reflexivity].
    revert E. vm_compute. discriminate.
  - destruct (handshake_outcome fnv1a id_hash map_to_list false plain_handler 0 (take 3 HTTP2_CONNECTION_PREFACE)
      (mkRead (drop 3 HTTP2_CONNECTION_PREFACE) false HTTP2_CONNECTION_PREFACE)) as [_ H]; [reflexivity..|].
    destruct (H ltac:(cbn; lia)) as (_ & _ & _ & H'). apply (H' 24%nat); [reflexivity|discriminate|lia|reflexivity|reflexivity].
Defined.

(** The session with one open stream and two octets left of the connection's window. *)
Definition exhaust (s : Session) : Session :=
  with_streams {[3 := Some (open_stream 3 65535 65535 (new_message 3) (new_message 3))]}
    (with_shared (with_connection (mkConnection 65535 2 NO_ERROR_CODE) (m_shared s)) s).

Lemma exhaust_ok s : session_ok s -> session_ok (exhaust s).
Proof.
  intros [[Hb Hl Hr _ _] _ _ Hh Hc]. split; [|..|exact Hh|exact Hc].
  - by split.
  - intros id st. cbn. intros [<- [= <-]]%lookup_singleton_Some. by split.
  - intros id [st Hst]. revert Hst. cbn. by intros [<- _]%lookup_singleton_Some.
Qed.

Definition nearly_exhausted : Session := exhaust demo_server.

Lemma nearly_exhausted_ok : session_ok nearly_exhausted.
Proof. apply exhaust_ok, demo_server_ok. Qed.

Lemma nearly_exhausted_max : m_max_frame_size (local_settings (m_shared nearly_exhausted)) = 16384.
Proof. vm_compute. reflexivity. Qed.

Lemma window_exhausted_witness :
  exists s', receive fnv1a id_hash map_to_list false plain_handler 0 (arrive (fresh (wire ((frame_of DATA 0 3 [1; 2; 3]).1, [1; 2; 3]))) nearly_exhausted) =
    (s', Throw (ConnectionError PROTOCOL_ERROR MAX_CONNECTED_STREAMS)).
Proof.
  destruct (window_exhausted fnv1a id_hash map_to_list false plain_handler 0 16384 3 65535 65535 2 (new_message 3)
    (new_message 3) (decoding_table (m_shared nearly_exhausted)) (m_events nearly_exhausted) nearly_exhausted
    (frame_of DATA 0 3 [1; 2; 3]).1 [1; 2; 3]) as (s' & H & _).
  - exact nearly_exhausted_ok.
  - split; try reflexivity. split; [split; vm_compute; reflexivity|vm_compute; done|vm_compute; reflexivity|
      split; vm_compute; done].
  - split; cbn; done.
  - reflexivity.
  - reflexivity.
  - cbn. lia.
  - exists s'. exact H.
Defined.

Lemma goaway_locks_out_witness :
  m_streams (reads fnv1a id_hash map_to_list false plain_handler 0
    [((frame_of GOAWAY 0 0 (goaway_payload 0 NO_ERROR_CODE)).1, goaway_payload 0 NO_ERROR_CODE);
     frame_of DATA END_STREAM 3 [1]] nearly_exhausted) = ∅.
Proof.
  destruct (goaway_locks_out fnv1a id_hash map_to_list false plain_handler 0 nearly_exhausted
    (frame_of GOAWAY 0 0 (goaway_payload 0 NO_ERROR_CODE)).1 (goaway_payload 0 NO_ERROR_CODE)
    (frame_of DATA END_STREAM 3 [1])) as [H _].
  - exact nearly_exhausted_ok.
  - split; vm_compute; reflexivity.
  - vm_compute. done.
  - rewrite nearly_exhausted_max. split; cbn; try done; unfold is_byte; lia.
  - reflexivity.
  - reflexivity.
  - rewrite nearly_exhausted_max. split; cbn; try done; unfold is_byte; cbn; lia.
  - reflexivity.
  - exact H.
Defined.

(** ** Closed executions *)

#[local] Abbreviation run_plain := (run fnv1a id_hash map_to_list false plain_handler).
#[local] Abbreviation run_slow := (run fnv1a id_hash map_to_list false slow_handler).

(** A handler that answers and then throws. *)
Definition failing_handler (req res : Message) : Handled := mkHandled req res true true.

Definition dispatched (f : Flow) : list Z :=
  omap (fun e => match e with Dispatch id _ _ => Some id | _ => None end) (m_events (m_session f)).

Definition greeting : list Operation :=
  [OnRead true 0 (fresh HTTP2_CONNECTION_PREFACE); OnRead true 0 (fresh (wire (frame_of SETTINGS 0 0 [])))].

Definition post_headers : list Z := wire (frame_of HEADERS END_HEADERS 1 [0x82]).
Definition post_body : list Z := wire (frame_of DATA END_STREAM 1 [7]).

(** Frames that share a read are lost: the payload leaves the reader twice, once by [grow_view] and
    once by [consume], so the octets of the next frame go with it; the same two frames in two reads
    make a request. *)
Theorem pipelined_frames_lost :
  dispatched (run_plain (greeting ++ [OnRead true 0 (fresh post_headers); OnRead true 0 (fresh post_body)]) (new_flow 0)) = [1] /\
  let f := run_plain (greeting ++ [OnRead true 0 (fresh (post_headers ++ post_body))])
             (new_flow 0) in
  dispatched f = [] /\ (length (Queue.chain (reader (m_shared (m_session f)))) < length post_body)%nat.
Proof. split; [|split]; vm_compute; [reflexivity|reflexivity|lia]. Qed.

(** SETTINGS are decoded to the end of the reader: a DATA frame of 1024 octets behind them is read as
    INITIAL_WINDOW_SIZE = 256. *)
Theorem settings_over_read :
  let data := wire (frame_of DATA END_STREAM 1 (replicate 1024 0)) in
  let f := run_plain [OnRead true 0 (fresh HTTP2_CONNECTION_PREFACE); OnRead true 0 (fresh (wire (frame_of SETTINGS 0 0 []) ++ data))]
             (new_flow 0) in
  m_initial_window_size (remote_settings (m_shared (m_session f))) = 256 /\
  c_send_window (connection_stream (m_shared (m_session f))) = 256.
Proof. split; vm_compute; reflexivity. Qed.

(** A connection may change its settings once: the second SETTINGS frame closes it. *)
Theorem second_settings_closes :
  last (m_events (m_session (run_plain (greeting ++
    [OnRead true 0 (fresh (wire (frame_of PING 0 0 [1; 2; 3; 4; 5; 6; 7; 8]))); OnRead true 0 (fresh (wire (frame_of SETTINGS 0 0 [])))])
    (new_flow 0)))) = Some CloseTransport.
Proof. vm_compute. reflexivity. Qed.

(** A request that waits for its answer is dispatched again by every frame on its stream, here a
    WINDOW_UPDATE; the two [send] functions do not know each other, and the second answers a stream
    that is gone. *)
Theorem pending_request_dispatched_twice :
  let reads := greeting ++ [OnRead true 0 (fresh (get_request 1)); OnRead true 0 (fresh (wire (frame_of WINDOW_UPDATE 0 1 [0; 0; 0; 1])))] in
  dispatched (run_slow reads (new_flow 0)) = [1; 1] /\
  (operate fnv1a id_hash map_to_list false slow_handler (CallSend 1) (run_slow (reads ++ [CallSend 0]) (new_flow 0))).2 =
    Throw (Other UndefinedBehaviour).
Proof. split; vm_compute; reflexivity. Qed.

(** A handler that throws after it answered is answered for again, on a response that was destroyed. *)
Theorem throw_after_send_undefined :
  (operate fnv1a id_hash map_to_list false failing_handler (OnRead true 0 (fresh (get_request 1)))
     (run fnv1a id_hash map_to_list false failing_handler greeting (new_flow 0))).2 = Throw (Other UndefinedBehaviour).
Proof. vm_compute. reflexivity. Qed.

(** A header block with an index of 0 throws out of [on_read]: the errors of the codec are no
    [Http2Exception]. *)
Theorem decode_error_escapes :
  (operate fnv1a id_hash map_to_list false plain_handler (OnRead true 0 (fresh (wire (frame_of HEADERS END_HEADERS 1 [0x80]))))
     (run_plain greeting (new_flow 0))).2 = Throw (Other InvalidIndexError).
Proof. vm_compute. reflexivity. Qed.
