(* ===== verification/SignalTree.v ===== *)
(** * The signal tree

    Models src/include/core/contracts/signal_tree.cppm: [Node<false>], a leaf, which is a word of 64
    bits; [Node<true>], a router, which packs the number of scheduled contracts of each of its eight
    leaves into a word of eight octets; and [SignalTree], an array of routers with the counter that
    hands out contract ids.

    Every store of the code is one atomic instruction on one word: a compare-and-swap loop on a
    router, which [bump] and [drop_count] describe by the exchange that succeeds, and a [fetch_or] or
    [fetch_and] on a leaf.  [schedule] and [deschedule] are compositions of these stores, which
    Executors.v interleaves.  The ids of a tree with [n] routers are [0 .. 512 * n - 1]: the id
    [512 * r + 64 * b + i] is bit [i] of leaf [b] of router [r].

    The theorems: the tree implements a set of ids ([tree_refines_set]), and contracts that share a
    leaf take turns ([leaf_takes_turns]); contracts of different leaves need not ([branch_starves]). *)

From Stdlib Require Import ZArith Lia.
From stdpp Require Import base list gmap sets.
From S2P Require Import Prelude.

Open Scope Z_scope.

Record Node := mkNode { m_value : Z; m_children : list Z }.

Definition new_node : Node := mkNode 0 (replicate 8 0).

Record SignalTree := mkTree { m_routers : list Node; m_next_id : Z }.

Definition new_tree (NUM_ROUTERS : nat) : SignalTree := mkTree (replicate NUM_ROUTERS new_node) 0.

(** [MaxCapacity]. *)
Definition capacity (t : SignalTree) : Z := 512 * Z.of_nat (length (m_routers t)).

(** ** Routers and leaves *)

Definition BRANCH_IDX (local_id : Z) : Z := Z.land (Z.shiftr local_id 6) 7.

(** The counter of a branch in the word of a router. *)
Definition count_at (value b : Z) : Z := Z.land (Z.shiftr value (b * 8)) 255.

Definition with_count (value b c : Z) : Z := Z.lor (Z.ldiff value (Z.shiftl 255 (b * 8))) (Z.shiftl c (b * 8)).

(** The exchange of [schedule]: the counter is capped at the width of a leaf. *)
Definition bump (value b : Z) : Z :=
  let COUNT := count_at value b in
  if 64 <=? COUNT then value else with_count value b (COUNT + 1).

(** The exchange of [deschedule]. *)
Definition drop_count (value b : Z) : Z :=
  let COUNT := count_at value b in
  if COUNT =? 0 then value else with_count value b (COUNT - 1).

Definition leaf_schedule (local_id v : Z) : Z := Z.lor v (Z.shiftl 1 (Z.land local_id 63)).
Definition leaf_deschedule (local_id v : Z) : Z := Z.ldiff v (Z.shiftl 1 (Z.land local_id 63)).

Definition node_bump (local_id : Z) (n : Node) : Node := mkNode (bump (m_value n) (BRANCH_IDX local_id)) (m_children n).
Definition node_drop (local_id : Z) (n : Node) : Node := mkNode (drop_count (m_value n) (BRANCH_IDX local_id)) (m_children n).
Definition node_set (local_id : Z) (n : Node) : Node :=
  mkNode (m_value n) (alter (leaf_schedule (Z.land local_id 63)) (Z.to_nat (BRANCH_IDX local_id)) (m_children n)).
Definition node_clear (local_id : Z) (n : Node) : Node :=
  mkNode (m_value n) (alter (leaf_deschedule (Z.land local_id 63)) (Z.to_nat (BRANCH_IDX local_id)) (m_children n)).

(** ** The tree *)

Definition on_router (f : Z -> Node -> Node) (contract_id : Z) (t : SignalTree) : SignalTree :=
  mkTree (alter (f (contract_id mod 512)) (Z.to_nat (contract_id / 512)) (m_routers t)) (m_next_id t).

(** [schedule]: the counter first, then the bit. *)
Definition schedule (contract_id : Z) (t : SignalTree) : result SignalTree :=
  if capacity t <=? contract_id then Err OutOfRange
  else Ok (on_router node_set contract_id (on_router node_bump contract_id t)).

(** [deschedule]: the bit first, then the counter. *)
Definition deschedule (contract_id : Z) (t : SignalTree) : result SignalTree :=
  if capacity t <=? contract_id then Err OutOfRange
  else Ok (on_router node_drop contract_id (on_router node_clear contract_id t)).

Definition free_contract_id (t : SignalTree) : result (Z * SignalTree) :=
  if capacity t <=? m_next_id t then Err RuntimeError
  else Ok (m_next_id t, mkTree (m_routers t) (u32 (m_next_id t + 1))).

(** ** The search *)

Definition BIAS_FLAG : Z := 2 ^ 63.

(** [calculate_bias] on a window of [2 ^ (levels + 1)] octets: the branch, the new bias and the bias
    bit of the level below.  The left half is shifted down while the window it is cut into by the next
    call is still counted from [base_shift]. *)
Fixpoint calculate_bias (levels : nat) (val bias bias_bit base_shift : Z) : Z * (Z * Z) :=
  let blocks := 2 ^ Z.of_nat levels in
  let PREFER_RIGHT := negb (Z.land bias bias_bit =? 0) in
  let MASK_LOWER := Z.shiftl (Z.shiftl 1 (blocks * 8) - 1) (base_shift * 8) in
  let RIGHT_HALF := Z.land val MASK_LOWER in
  let LEFT_HALF := Z.shiftr (Z.ldiff val MASK_LOWER) (blocks * 8) in
  let CHOOSE_RIGHT := (PREFER_RIGHT && negb (RIGHT_HALF =? 0)) || (LEFT_HALF =? 0) in
  let bias := if CHOOSE_RIGHT then Z.ldiff bias bias_bit else Z.lor bias bias_bit in
  let bias_bit := Z.shiftr bias_bit 1 in
  match levels with
  | O => (if CHOOSE_RIGHT then 0 else 1, (bias, bias_bit))
  | S levels =>
      let '(idx, s) :=
        if CHOOSE_RIGHT then calculate_bias levels RIGHT_HALF bias bias_bit base_shift
        else calculate_bias levels LEFT_HALF bias bias_bit (base_shift + blocks) in
      (if CHOOSE_RIGHT then idx else idx + blocks, s)
  end.

Definition rotr (v s : Z) : Z := Z.lor (Z.shiftr v s) (size_t (Z.shiftl v (64 - s))).

(** [select_child_index] of a leaf: the low six bits of the bias are a rotating cursor. *)
Definition leaf_select (v bias accumulator : Z) : option Z * Z :=
  if v =? 0 then (None, bias)
  else
    let START := Z.land bias 63 in
    let OFFSET := Z.of_nat (ctz 64 (rotr v START)) in
    let BIT_IDX := Z.land (START + OFFSET) 63 in
    (Some (u32 (Z.lor (Z.shiftl accumulator 6) BIT_IDX)), Z.lor (Z.ldiff bias 63) (Z.land (BIT_IDX + 1) 63)).

Definition child (n : Node) (i : Z) : Z := default 0 (m_children n !! Z.to_nat i).

Definition select_branch (n : Node) (i bias accumulator : Z) : option Z * Z :=
  leaf_select (child n i) bias (u32 (Z.lor (Z.shiftl accumulator 3) i)).

(** The scan of the other branches, after the preferred one came up empty. *)
Fixpoint scan (n : Node) (VAL idx : Z) (branches : list Z) (bias accumulator : Z) : option Z * Z :=
  match branches with
  | [] => (None, bias)
  | i :: branches =>
      if (i =? idx) || (count_at VAL i =? 0) then scan n VAL idx branches bias accumulator
      else
        match select_branch n i bias accumulator with
        | (Some r, bias) => (Some r, bias)
        | (None, bias) => scan n VAL idx branches bias accumulator
        end
  end.

Definition select_child_index (n : Node) (bias accumulator bias_bit : Z) : option Z * Z :=
  let VAL := m_value n in
  if VAL =? 0 then (None, bias)
  else
    let '(idx, (bias, _)) := calculate_bias 2 VAL bias bias_bit 0 in
    match select_branch n idx bias accumulator with
    | (Some r, bias) => (Some r, bias)
    | (None, bias) => scan n VAL idx (seqZ 0 8) bias accumulator
    end.

Fixpoint next_loop (order : list nat) (t : SignalTree) (bias : Z) : option Z * Z :=
  match order with
  | [] => (None, bias)
  | IDX :: order =>
      match select_child_index (default new_node (m_routers t !! IDX)) bias (Z.of_nat IDX) (Z.shiftr BIAS_FLAG 1) with
      | (Some r, bias) => (Some r, Z.lxor bias BIAS_FLAG)
      | (None, bias) => next_loop order t bias
      end
  end.

(** [next]: the id that was found, and the new bias. *)
Definition next (bias : Z) (t : SignalTree) : option Z * Z :=
  let PREFER_RIGHT := negb (Z.land bias BIAS_FLAG =? 0) in
  let routers := seq 0 (length (m_routers t)) in
  next_loop (if PREFER_RIGHT then rev routers else routers) t bias.

(** ** Lemmas: counting *)

Fixpoint count_if (f : Z -> bool) (l : list Z) : Z :=
  match l with
  | [] => 0
  | x :: l => Z.b2z (f x) + count_if f l
  end.

Lemma count_if_ext f g l : (forall x, x ∈ l -> f x = g x) -> count_if f l = count_if g l.
Proof.
  induction l as [|x l IH]; intros H; [done|]. cbn. rewrite H by left. f_equal. apply IH. intros y Hy. apply H. by right.
Qed.

Lemma count_if_bounds f l : 0 <= count_if f l <= Z.of_nat (length l).
Proof. induction l as [|x l IH]; cbn; [lia|]. destruct (f x); cbn; lia. Qed.

Lemma count_if_zero f l : count_if f l = 0 <-> forall x, x ∈ l -> f x = false.
Proof.
  induction l as [|x l IH]; cbn.
  - split; [|done]. intros _ x Hx. by apply elem_of_nil in Hx.
  - pose proof (count_if_bounds f l). split.
    + intros Hc y [->|Hy]%elem_of_cons; [by destruct (f x); cbn in *; lia|].
      apply IH; [|done]. destruct (f x); cbn in *; lia.
    + intros Hf. rewrite (Hf x) by left. cbn. rewrite (proj2 IH); [done|]. intros y Hy. apply Hf. by right.
Qed.

(** Turning one element on adds one. *)
Lemma count_if_flip f g l b :
  NoDup l -> b ∈ l -> f b = false -> g b = true -> (forall x, x <> b -> g x = f x) -> count_if g l = count_if f l + 1.
Proof.
  intros Hl Hb Hf Hg Hx. induction Hl as [|x l Hnot Hl IH]; [by apply elem_of_nil in Hb|]. cbn.
  apply elem_of_cons in Hb as [<-|Hb].
  - rewrite Hf, Hg. cbn. rewrite (count_if_ext g f l); [lia|]. intros y Hy. apply Hx. by intros ->.
  - rewrite IH by done. rewrite (Hx x); [lia|]. by intros ->.
Qed.

(** The scheduled contracts of a leaf. *)
Definition bit_count (v : Z) : Z := count_if (Z.testbit v) (seqZ 0 64).

Lemma bit_count_bounds v : 0 <= bit_count v <= 64.
Proof. unfold bit_count. pose proof (count_if_bounds (Z.testbit v) (seqZ 0 64)). rewrite length_seqZ in *. lia. Qed.

(** ** Lemmas: words *)

Lemma shiftl_1 i n : 0 <= i -> Z.testbit (Z.shiftl 1 i) n = bool_decide (n = i).
Proof.
  intros Hi. rewrite Z.shiftl_1_l. case_bool_decide as Hn.
  - subst n. by apply Z.pow2_bits_true.
  - apply Z.pow2_bits_false. lia.
Qed.

Lemma testbit_255 n : 0 <= n -> Z.testbit 255 n = (n <? 8).
Proof. intros Hn. change 255 with (Z.ones 8). rewrite Z.testbit_ones by lia. lia. Qed.

Lemma land_ones_mod a n : 0 <= n -> Z.land a (Z.ones n) = a mod 2 ^ n.
Proof. apply Z.land_ones. Qed.

Lemma land_63 a : Z.land a 63 = a mod 64.
Proof. apply (Z.land_ones a 6). lia. Qed.

Lemma word_eq_0 v : 0 <= v < 2 ^ 64 -> (forall n, 0 <= n < 64 -> Z.testbit v n = false) -> v = 0.
Proof.
  intros Hv H. apply Z.bits_inj'. intros n Hn. rewrite Z.bits_0. destruct (Z.lt_ge_cases n 64); [by apply H|].
  rewrite <- (Z.mod_small v (2 ^ 64)) by done. by rewrite Z.mod_pow2_bits_high.
Qed.

Lemma bit_count_zero v : 0 <= v < 2 ^ 64 -> bit_count v = 0 <-> v = 0.
Proof.
  intros Hv. unfold bit_count. rewrite count_if_zero. split.
  - intros H. apply word_eq_0; [done|]. intros n Hn. apply H, elem_of_seqZ. lia.
  - intros -> x _. apply Z.bits_0.
Qed.

Lemma word_range_bits v : 0 <= v -> (forall n, 64 <= n -> Z.testbit v n = false) -> v < 2 ^ 64.
Proof.
  intros Hv H. destruct (decide (v = 0)) as [->|]; [done|]. apply Z.log2_lt_pow2; [lia|].
  destruct (Z.lt_ge_cases (Z.log2 v) 64) as [|Hl]; [done|]. pose proof (H (Z.log2 v) Hl) as Hb.
  rewrite Z.bit_log2 in Hb by lia. done.
Qed.

Lemma testbit_high v n : 0 <= v < 2 ^ 64 -> 64 <= n -> Z.testbit v n = false.
Proof. intros Hv Hn. rewrite <- (Z.mod_small v (2 ^ 64)) by done. by apply Z.mod_pow2_bits_high. Qed.

(** *** The counters of a router *)

Lemma count_at_bit value b j : 0 <= b -> 0 <= j -> Z.testbit (count_at value b) j = (j <? 8) && Z.testbit value (j + b * 8).
Proof.
  intros Hb Hj. unfold count_at. rewrite Z.land_spec, testbit_255, Z.shiftr_spec by lia. apply andb_comm.
Qed.

Lemma count_at_range value b : 0 <= count_at value b < 256.
Proof. unfold count_at. rewrite (Z.land_ones _ 8) by lia. apply Z.mod_pos_bound. lia. Qed.

Lemma with_count_bit value b c n : 0 <= b -> 0 <= c < 256 -> 0 <= n ->
  Z.testbit (with_count value b c) n =
  if (b * 8 <=? n) && (n <? b * 8 + 8) then Z.testbit c (n - b * 8) else Z.testbit value n.
Proof.
  intros Hb Hc Hn. unfold with_count. rewrite Z.lor_spec, Z.ldiff_spec, !Z.shiftl_spec by done.
  destruct (Z.leb_spec (b * 8) n); cbn [andb].
  - rewrite testbit_255 by lia. destruct (Z.ltb_spec n (b * 8 + 8)).
    + replace (n - b * 8 <? 8) with true by lia. cbn. by rewrite andb_false_r.
    + replace (n - b * 8 <? 8) with false by lia. cbn. rewrite andb_true_r.
      replace (Z.testbit c (n - b * 8)) with false; [by rewrite orb_false_r|].
      symmetry. rewrite <- (Z.mod_small c (2 ^ 8)) by done. apply Z.mod_pow2_bits_high. lia.
  - rewrite (Z.testbit_neg_r 255), (Z.testbit_neg_r c) by lia. cbn. by rewrite andb_true_r, orb_false_r.
Qed.

Lemma with_count_range value b c : 0 <= value < 2 ^ 64 -> 0 <= b < 8 -> 0 <= c < 256 -> 0 <= with_count value b c < 2 ^ 64.
Proof.
  intros Hv Hb Hc. assert (0 <= with_count value b c).
  { unfold with_count. apply Z.lor_nonneg. split; [apply Z.ldiff_nonneg; lia|apply Z.shiftl_nonneg; lia]. }
  split; [done|]. apply word_range_bits; [done|]. intros n Hn. rewrite with_count_bit by lia.
  replace (n <? b * 8 + 8) with false by lia. rewrite andb_false_r. by apply testbit_high.
Qed.

Lemma count_at_with value b b' c : 0 <= b -> 0 <= b' -> 0 <= c < 256 ->
  count_at (with_count value b c) b' = if b' =? b then c else count_at value b'.
Proof.
  intros Hb Hb' Hc. apply Z.bits_inj'. intros j Hj. rewrite count_at_bit, with_count_bit by lia.
  destruct (Z.eqb_spec b' b) as [->|Hne].
  - destruct (Z.ltb_spec j 8); cbn.
    + replace (b * 8 <=? j + b * 8) with true by lia. replace (j + b * 8 <? b * 8 + 8) with true by lia. cbn.
      f_equal. lia.
    + symmetry. rewrite <- (Z.mod_small c (2 ^ 8)) by done. by apply Z.mod_pow2_bits_high.
  - rewrite count_at_bit by lia. destruct (Z.ltb_spec j 8); cbn; [|done].
    replace ((b * 8 <=? j + b' * 8) && (j + b' * 8 <? b * 8 + 8)) with false; [done|]. symmetry. apply andb_false_iff. lia.
Qed.

(** A word whose eight counters are zero is zero. *)
Lemma counts_zero value : 0 <= value < 2 ^ 64 -> (forall b, 0 <= b < 8 -> count_at value b = 0) -> value = 0.
Proof.
  intros Hv H. apply word_eq_0; [done|]. intros n Hn.
  pose proof (count_at_bit value (n / 8) (n mod 8) ltac:(mlia) ltac:(mlia)) as Hb.
  rewrite H, Z.bits_0 in Hb by mlia. replace (n mod 8 <? 8) with true in Hb by mlia.
  replace (n mod 8 + n / 8 * 8) with n in Hb by mlia. by destruct (Z.testbit value n).
Qed.

(** ** The tree as bits and counters *)

Definition word (v : Z) : Prop := 0 <= v < 2 ^ 64.

Record node_ok (n : Node) : Prop := {
  node_children : length (m_children n) = 8%nat;
  node_leaves : Forall word (m_children n);
  node_value : word (m_value n);
}.

Record tree_shape (t : SignalTree) : Prop := {
  shape_nodes : Forall node_ok (m_routers t);
  shape_capacity : capacity t <= 2 ^ 32;
}.

Definition router (t : SignalTree) (r : Z) : Node := default new_node (m_routers t !! Z.to_nat r).

(** The leaf and the counter of the branch with number [g], which has the ids [64 * g .. 64 * g + 63]. *)
Definition leaf (t : SignalTree) (g : Z) : Z := child (router t (g / 8)) (g mod 8).
Definition counter (t : SignalTree) (g : Z) : Z := count_at (m_value (router t (g / 8))) (g mod 8).

Definition scheduled (t : SignalTree) (id : Z) : bool := Z.testbit (leaf t (id / 64)) (id mod 64).

Definition valid_id (t : SignalTree) (id : Z) : Prop := 0 <= id < capacity t.

Lemma branch_idx id : 0 <= id -> BRANCH_IDX (id mod 512) = (id / 64) mod 8.
Proof.
  intros Hid. unfold BRANCH_IDX. rewrite (Z.land_ones _ 3), Z.shiftr_div_pow2 by lia. change (2 ^ 6) with 64.
  change (2 ^ 3) with 8. mlia.
Qed.

Lemma new_node_ok : node_ok new_node.
Proof. split; [done|apply Forall_replicate; unfold word; lia|cbn; unfold word; lia]. Qed.

Lemma router_ok t r : tree_shape t -> node_ok (router t r).
Proof.
  intros [Hs _]. unfold router. destruct (m_routers t !! _) as [n|] eqn:E; [|apply new_node_ok].
  cbn. by eapply Forall_lookup_1 in E.
Qed.

Lemma child_word n i : node_ok n -> word (child n i).
Proof.
  intros [_ Hl _]. unfold child. destruct (m_children n !! _) as [v|] eqn:E; cbn; [by eapply Forall_lookup_1 in E|].
  unfold word. lia.
Qed.

Lemma leaf_word t g : tree_shape t -> word (leaf t g).
Proof. intros Hs. by apply child_word, router_ok. Qed.

Lemma capacity_on_router f id t : capacity (on_router f id t) = capacity t.
Proof. unfold capacity, on_router. cbn. by rewrite length_alter. Qed.

Lemma shape_on_router f id t : (forall n, node_ok n -> node_ok (f (id mod 512) n)) -> tree_shape t -> tree_shape (on_router f id t).
Proof.
  intros Hf [Hs Hc]. split; [|by rewrite capacity_on_router]. cbn. apply Forall_alter; [done|]. intros n _. apply Hf.
Qed.

Lemma router_on_router f id t r : valid_id t id -> 0 <= r ->
  router (on_router f id t) r = if r =? id / 512 then f (id mod 512) (router t r) else router t r.
Proof.
  intros [H0 H1] Hr. unfold router, on_router, capacity in *. cbn. destruct (Z.eqb_spec r (id / 512)) as [->|Hne].
  - rewrite list_lookup_alter_eq. destruct (m_routers t !! _) as [n|] eqn:E; [done|].
    apply lookup_ge_None in E. exfalso. mlia.
  - rewrite list_lookup_alter_ne; [done|]. mlia.
Qed.

(** *** The four stores *)

Lemma node_bump_ok l n : 0 <= BRANCH_IDX l < 8 -> node_ok n -> node_ok (node_bump l n).
Proof.
  intros Hb [Hc Hl Hv]. split; [done..|]. cbn. unfold bump. destruct (Z.leb_spec 64 (count_at (m_value n) (BRANCH_IDX l))); [done|].
  pose proof (count_at_range (m_value n) (BRANCH_IDX l)). apply with_count_range; [exact Hv|lia|lia].
Qed.

Lemma node_drop_ok l n : 0 <= BRANCH_IDX l < 8 -> node_ok n -> node_ok (node_drop l n).
Proof.
  intros Hb [Hc Hl Hv]. split; [done..|]. cbn. unfold drop_count. destruct (Z.eqb_spec (count_at (m_value n) (BRANCH_IDX l)) 0); [done|].
  pose proof (count_at_range (m_value n) (BRANCH_IDX l)). apply with_count_range; [exact Hv|lia|lia].
Qed.

Lemma leaf_schedule_bit l v n : 0 <= l < 64 -> Z.testbit (leaf_schedule l v) n = bool_decide (n = l) || Z.testbit v n.
Proof.
  intros Hl. unfold leaf_schedule. rewrite Z.lor_spec, land_63, Z.mod_small, shiftl_1 by lia. apply orb_comm.
Qed.

Lemma leaf_deschedule_bit l v n : 0 <= l < 64 -> Z.testbit (leaf_deschedule l v) n = negb (bool_decide (n = l)) && Z.testbit v n.
Proof.
  intros Hl. unfold leaf_deschedule. rewrite Z.ldiff_spec, land_63, Z.mod_small, shiftl_1 by lia. apply andb_comm.
Qed.

Lemma leaf_schedule_word l v : 0 <= l < 64 -> word v -> word (leaf_schedule l v).
Proof.
  intros Hl Hv. assert (0 <= leaf_schedule l v).
  { unfold leaf_schedule. apply Z.lor_nonneg. split; [apply Hv|]. apply Z.shiftl_nonneg. lia. }
  split; [done|]. apply word_range_bits; [done|]. intros n Hn. rewrite leaf_schedule_bit by done.
  rewrite bool_decide_false by lia. by apply testbit_high.
Qed.

Lemma leaf_deschedule_word l v : 0 <= l < 64 -> word v -> word (leaf_deschedule l v).
Proof.
  intros Hl Hv. assert (0 <= leaf_deschedule l v) by (unfold leaf_deschedule; apply Z.ldiff_nonneg; left; apply Hv).
  split; [done|]. apply word_range_bits; [done|]. intros n Hn. rewrite leaf_deschedule_bit by done.
  rewrite testbit_high by done. apply andb_false_r.
Qed.

Lemma node_set_ok l n : node_ok n -> node_ok (node_set l n).
Proof.
  intros [Hc Hl Hv]. split; cbn; [by rewrite length_alter| |done]. apply Forall_alter; [done|]. intros v _ H.
  apply leaf_schedule_word; [|done]. rewrite land_63. mlia.
Qed.

Lemma node_clear_ok l n : node_ok n -> node_ok (node_clear l n).
Proof.
  intros [Hc Hl Hv]. split; cbn; [by rewrite length_alter| |done]. apply Forall_alter; [done|]. intros v _ H.
  apply leaf_deschedule_word; [|done]. rewrite land_63. mlia.
Qed.

Lemma child_alter f n i j : node_ok n -> 0 <= i < 8 -> 0 <= j ->
  child (mkNode (m_value n) (alter f (Z.to_nat i) (m_children n))) j = if j =? i then f (child n j) else child n j.
Proof.
  intros [Hc _ _] Hi Hj. unfold child. cbn. destruct (Z.eqb_spec j i) as [->|Hne].
  - rewrite list_lookup_alter_eq. destruct (m_children n !! _) eqn:E; [done|]. apply lookup_ge_None in E. lia.
  - rewrite list_lookup_alter_ne; [done|]. lia.
Qed.

(** What a store does to a tree: [f] changes leaves, [c] counters, both only at the branch of [id]. *)
Record stored (id : Z) (t t' : SignalTree) (f : Z -> Z) (c : Z -> Z) : Prop := {
  stored_shape : tree_shape t';
  stored_capacity : capacity t' = capacity t;
  stored_next : m_next_id t' = m_next_id t;
  stored_leaf g : 0 <= g -> leaf t' g = if g =? id / 64 then f (leaf t g) else leaf t g;
  stored_counter g : 0 <= g -> counter t' g = if g =? id / 64 then c (counter t g) else counter t g;
}.

Definition capped (c : Z) : Z := if 64 <=? c then c else c + 1.
Definition lowered (c : Z) : Z := if c =? 0 then c else c - 1.

Lemma same_branch g id : (g / 8 =? id / 512) && (g mod 8 =? (id / 64) mod 8) = (g =? id / 64).
Proof. destruct (Z.eqb_spec (g / 8) (id / 512)), (Z.eqb_spec (g mod 8) ((id / 64) mod 8)), (Z.eqb_spec g (id / 64)); cbn; try done; mlia. Qed.

Lemma store_value f v id t :
  valid_id t id -> tree_shape t -> (forall n, node_ok n -> node_ok (f (id mod 512) n)) ->
  (forall n, m_children (f (id mod 512) n) = m_children n) ->
  (forall n b, 0 <= b -> count_at (m_value (f (id mod 512) n)) b =
     if b =? (id / 64) mod 8 then v (count_at (m_value n) b) else count_at (m_value n) b) ->
  stored id t (on_router f id t) (fun l => l) v.
Proof.
  intros Hid Hs Hok Hc Hv. split.
  - by apply shape_on_router.
  - apply capacity_on_router.
  - done.
  - intros g Hg. unfold leaf. rewrite router_on_router by (done || mlia).
    destruct (g / 8 =? id / 512); [|by destruct (g =? _)]. unfold child. rewrite Hc. by destruct (g =? _).
  - intros g Hg. unfold counter. rewrite router_on_router by (done || mlia). rewrite <- same_branch.
    destruct (g / 8 =? id / 512); [|done]. cbn. rewrite Hv by mlia. done.
Qed.

Lemma store_leaf f v id t :
  valid_id t id -> tree_shape t -> (forall n, node_ok n -> node_ok (f (id mod 512) n)) ->
  (forall n, m_value (f (id mod 512) n) = m_value n) ->
  (forall n i, node_ok n -> 0 <= i -> child (f (id mod 512) n) i = if i =? (id / 64) mod 8 then v (child n i) else child n i) ->
  stored id t (on_router f id t) v (fun c => c).
Proof.
  intros Hid Hs Hok Hc Hv. split.
  - by apply shape_on_router.
  - apply capacity_on_router.
  - done.
  - intros g Hg. unfold leaf. rewrite router_on_router by (done || mlia). rewrite <- same_branch.
    destruct (g / 8 =? id / 512); [|done]. cbn. rewrite Hv by (mlia || by apply router_ok). done.
  - intros g Hg. unfold counter. rewrite router_on_router by (done || mlia).
    destruct (g / 8 =? id / 512); [|by destruct (g =? _)]. rewrite Hc. by destruct (g =? _).
Qed.

Lemma bump_stored id t : valid_id t id -> tree_shape t -> stored id t (on_router node_bump id t) (fun l => l) capped.
Proof.
  intros Hid Hs. pose proof (branch_idx id ltac:(destruct Hid; lia)) as Hb. apply store_value; [done..| |done|].
  - intros n. apply node_bump_ok. rewrite Hb. mlia.
  - intros n b Hb0. cbn. rewrite Hb. unfold bump, capped. pose proof (count_at_range (m_value n) ((id / 64) mod 8)).
    destruct (Z.leb_spec 64 (count_at (m_value n) ((id / 64) mod 8))).
    + destruct (Z.eqb_spec b ((id / 64) mod 8)) as [->|]; [|done]. replace (64 <=? _) with true by lia. done.
    + rewrite count_at_with by mlia. destruct (Z.eqb_spec b ((id / 64) mod 8)) as [->|]; [|done].
      replace (64 <=? _) with false by lia. done.
Qed.

Lemma drop_stored id t : valid_id t id -> tree_shape t -> stored id t (on_router node_drop id t) (fun l => l) lowered.
Proof.
  intros Hid Hs. pose proof (branch_idx id ltac:(destruct Hid; lia)) as Hb. apply store_value; [done..| |done|].
  - intros n. apply node_drop_ok. rewrite Hb. mlia.
  - intros n b Hb0. cbn. rewrite Hb. unfold drop_count, lowered. pose proof (count_at_range (m_value n) ((id / 64) mod 8)).
    destruct (Z.eqb_spec (count_at (m_value n) ((id / 64) mod 8)) 0) as [E|E].
    + destruct (Z.eqb_spec b ((id / 64) mod 8)) as [->|]; [|done]. by rewrite E.
    + rewrite count_at_with by mlia. destruct (Z.eqb_spec b ((id / 64) mod 8)) as [->|]; [|done].
      replace (_ =? 0) with false by lia. done.
Qed.

Lemma local_id id : 0 <= id -> Z.land (id mod 512) 63 = id mod 64.
Proof. intros Hid. rewrite land_63. mlia. Qed.

Lemma set_stored id t : valid_id t id -> tree_shape t -> stored id t (on_router node_set id t) (leaf_schedule (id mod 64)) (fun c => c).
Proof.
  intros Hid Hs. destruct Hid as [H0 H1]. apply store_leaf; [done..| |done|].
  - intros n. apply node_set_ok.
  - intros n i Hn Hi. unfold node_set. rewrite branch_idx, local_id by done. apply child_alter; [done|mlia|done].
Qed.

Lemma clear_stored id t : valid_id t id -> tree_shape t -> stored id t (on_router node_clear id t) (leaf_deschedule (id mod 64)) (fun c => c).
Proof.
  intros Hid Hs. destruct Hid as [H0 H1]. apply store_leaf; [done..| |done|].
  - intros n. apply node_clear_ok.
  - intros n i Hn Hi. unfold node_clear. rewrite branch_idx, local_id by done. apply child_alter; [done|mlia|done].
Qed.

(** ** Lemmas: sets of ids *)

(** A tree at rest: each counter is the number of bits of its leaf. *)
Record tree_ok (t : SignalTree) : Prop := {
  ok_shape : tree_shape t;
  ok_counter g : 0 <= g -> counter t g = bit_count (leaf t g);
}.

Lemma scheduled_stored id t t' f c b :
  stored id t t' f c -> 0 <= id -> (forall v n, Z.testbit (f v) n = if n =? id mod 64 then b else Z.testbit v n) ->
  forall id', 0 <= id' -> scheduled t' id' = if id' =? id then b else scheduled t id'.
Proof.
  intros [_ _ _ Hl _] Hid Hf id' Hid'. unfold scheduled. rewrite Hl by mlia.
  destruct (Z.eqb_spec (id' / 64) (id / 64)) as [E|E]; [|destruct (Z.eqb_spec id' id); [mlia|done]].
  rewrite Hf. destruct (Z.eqb_spec (id' mod 64) (id mod 64)), (Z.eqb_spec id' id); try done; mlia.
Qed.

Lemma stored_trans id t t' t'' f c f' c' :
  stored id t t' f c -> stored id t' t'' f' c' -> stored id t t'' (fun l => f' (f l)) (fun n => c' (c n)).
Proof.
  intros [H1 H2 H3 H4 H5] [G1 G2 G3 G4 G5]. split; [done|congruence|congruence| |].
  - intros g Hg. rewrite G4, H4 by done. by destruct (g =? _).
  - intros g Hg. rewrite G5, H5 by done. by destruct (g =? _).
Qed.

Lemma schedule_stored id t : valid_id t id -> tree_shape t ->
  exists t', schedule id t = Ok t' /\ stored id t t' (leaf_schedule (id mod 64)) capped.
Proof.
  intros Hid Hs. pose proof (bump_stored id t Hid Hs) as H1. unfold schedule.
  replace (capacity t <=? id) with false by (symmetry; apply Z.leb_gt; apply Hid). eexists. split; [done|].
  refine (stored_trans _ _ _ _ _ _ _ _ H1 (set_stored id _ _ (stored_shape _ _ _ _ _ H1))).
  split; [apply Hid|rewrite (stored_capacity _ _ _ _ _ H1); apply Hid].
Qed.

Lemma deschedule_stored id t : valid_id t id -> tree_shape t ->
  exists t', deschedule id t = Ok t' /\ stored id t t' (leaf_deschedule (id mod 64)) lowered.
Proof.
  intros Hid Hs. pose proof (clear_stored id t Hid Hs) as H1. unfold deschedule.
  replace (capacity t <=? id) with false by (symmetry; apply Z.leb_gt; apply Hid). eexists. split; [done|].
  refine (stored_trans _ _ _ _ _ _ _ _ H1 (drop_stored id _ _ (stored_shape _ _ _ _ _ H1))).
  split; [apply Hid|rewrite (stored_capacity _ _ _ _ _ H1); apply Hid].
Qed.

Lemma leaf_schedule_bits l v n : 0 <= l < 64 -> Z.testbit (leaf_schedule l v) n = if n =? l then true else Z.testbit v n.
Proof. intros Hl. rewrite leaf_schedule_bit by done. case_bool_decide; destruct (Z.eqb_spec n l); done. Qed.

Lemma leaf_deschedule_bits l v n : 0 <= l < 64 -> Z.testbit (leaf_deschedule l v) n = if n =? l then false else Z.testbit v n.
Proof. intros Hl. rewrite leaf_deschedule_bit by done. case_bool_decide; destruct (Z.eqb_spec n l); done. Qed.

Lemma bit_count_flip v v' b : 0 <= b < 64 -> Z.testbit v b = false -> Z.testbit v' b = true ->
  (forall n, n <> b -> Z.testbit v' n = Z.testbit v n) -> bit_count v' = bit_count v + 1.
Proof. intros Hb H1 H2 H3. apply (count_if_flip _ _ _ b); [apply NoDup_seqZ|apply elem_of_seqZ; lia|done..]. Qed.

Lemma schedule_ok id t : valid_id t id -> tree_ok t -> scheduled t id = false ->
  exists t', schedule id t = Ok t' /\ tree_ok t' /\ capacity t' = capacity t /\ m_next_id t' = m_next_id t /\
    forall id', 0 <= id' -> scheduled t' id' = if id' =? id then true else scheduled t id'.
Proof.
  intros Hid [Hs Hc] Hb. destruct (schedule_stored id t Hid Hs) as (t' & -> & H). exists t'. destruct Hid as [H0 H1].
  assert (forall v n, Z.testbit (leaf_schedule (id mod 64) v) n = if n =? id mod 64 then true else Z.testbit v n) as Hbits
    by (intros; apply leaf_schedule_bits; mlia).
  pose proof H as [Hs' Hcap Hn Hl Hcnt].
  split; [done|]. split; [|split; [done|split; [done|by eapply scheduled_stored]]]. split; [done|]. intros g Hg.
  rewrite Hl, Hcnt, Hc by done. destruct (Z.eqb_spec g (id / 64)) as [->|]; [|done].
  rewrite (bit_count_flip (leaf t (id / 64)) (leaf_schedule (id mod 64) (leaf t (id / 64))) (id mod 64)).
  - unfold capped. pose proof (bit_count_bounds (leaf_schedule (id mod 64) (leaf t (id / 64)))) as Hle.
    rewrite (bit_count_flip (leaf t (id / 64)) _ (id mod 64)) in Hle; [|mlia|done|by rewrite Hbits, Z.eqb_refl|].
    + destruct (Z.leb_spec 64 (bit_count (leaf t (id / 64)))); [lia|done].
    + intros n Hne. rewrite Hbits. by destruct (Z.eqb_spec n (id mod 64)).
  - mlia.
  - done.
  - by rewrite Hbits, Z.eqb_refl.
  - intros n Hne. rewrite Hbits. by destruct (Z.eqb_spec n (id mod 64)).
Qed.

Lemma deschedule_ok id t : valid_id t id -> tree_ok t -> scheduled t id = true ->
  exists t', deschedule id t = Ok t' /\ tree_ok t' /\ capacity t' = capacity t /\ m_next_id t' = m_next_id t /\
    forall id', 0 <= id' -> scheduled t' id' = if id' =? id then false else scheduled t id'.
Proof.
  intros Hid [Hs Hc] Hb. destruct (deschedule_stored id t Hid Hs) as (t' & -> & H). exists t'. destruct Hid as [H0 H1].
  assert (forall v n, Z.testbit (leaf_deschedule (id mod 64) v) n = if n =? id mod 64 then false else Z.testbit v n) as Hbits
    by (intros; apply leaf_deschedule_bits; mlia).
  pose proof H as [Hs' Hcap Hn Hl Hcnt].
  split; [done|]. split; [|split; [done|split; [done|by eapply scheduled_stored]]]. split; [done|]. intros g Hg.
  rewrite Hl, Hcnt, Hc by done. destruct (Z.eqb_spec g (id / 64)) as [->|]; [|done].
  rewrite (bit_count_flip (leaf_deschedule (id mod 64) (leaf t (id / 64))) (leaf t (id / 64)) (id mod 64)).
  - unfold lowered. pose proof (bit_count_bounds (leaf_deschedule (id mod 64) (leaf t (id / 64)))).
    replace (_ =? 0) with false by lia. lia.
  - mlia.
  - by rewrite Hbits, Z.eqb_refl.
  - done.
  - intros n Hne. rewrite Hbits. by destruct (Z.eqb_spec n (id mod 64)).
Qed.

(** ** Lemmas: the search *)

Lemma land_63_ldiff a k : 6 <= k -> Z.land (Z.ldiff a (2 ^ k)) 63 = Z.land a 63.
Proof.
  intros Hk. apply Z.bits_inj'. intros n Hn. rewrite !Z.land_spec, Z.ldiff_spec. change 63 with (Z.ones 6).
  rewrite Z.testbit_ones by lia. destruct (Z.ltb_spec n 6); [|by rewrite !andb_false_r].
  rewrite Z.pow2_bits_false by lia. by rewrite andb_true_r.
Qed.

Lemma land_63_lor a k : 6 <= k -> Z.land (Z.lor a (2 ^ k)) 63 = Z.land a 63.
Proof.
  intros Hk. apply Z.bits_inj'. intros n Hn. rewrite !Z.land_spec, Z.lor_spec. change 63 with (Z.ones 6).
  rewrite Z.testbit_ones by lia. destruct (Z.ltb_spec n 6); [|by rewrite !andb_false_r].
  rewrite Z.pow2_bits_false by lia. by rewrite orb_false_r.
Qed.

Lemma land_63_lxor a : Z.land (Z.lxor a BIAS_FLAG) 63 = Z.land a 63.
Proof.
  apply Z.bits_inj'. intros n Hn. rewrite !Z.land_spec, Z.lxor_spec. change 63 with (Z.ones 6).
  rewrite Z.testbit_ones by lia. destruct (Z.ltb_spec n 6); [|by rewrite !andb_false_r].
  unfold BIAS_FLAG. rewrite Z.pow2_bits_false by lia. by rewrite xorb_false_r.
Qed.

(** The preferred branch exists, and the cursor is not touched. *)
Lemma calculate_bias_spec levels val bias k base :
  6 + Z.of_nat levels <= k ->
  let '(idx, (bias', _)) := calculate_bias levels val bias (2 ^ k) base in
  0 <= idx < 2 ^ (Z.of_nat levels + 1) /\ Z.land bias' 63 = Z.land bias 63.
Proof.
  revert val bias k base. induction levels as [|levels IH]; intros val bias k base Hk; cbn [calculate_bias].
  - destruct (_ || _); (split; [lia|]); [apply land_63_ldiff|apply land_63_lor]; lia.
  - assert (Z.shiftr (2 ^ k) 1 = 2 ^ (k - 1)) as Hsh by (rewrite Z.shiftr_div_pow2, Z.pow_sub_r by lia; done).
    rewrite Hsh. replace (Z.of_nat (S levels) + 1) with (1 + (Z.of_nat levels + 1)) by lia.
    rewrite (Z.pow_add_r 2 1) by lia. replace (2 ^ Z.of_nat (S levels)) with (2 ^ (Z.of_nat levels + 1)) by (f_equal; lia).
    destruct (_ || _).
    + match goal with |- context [calculate_bias levels ?v ?b ?m ?s] =>
        specialize (IH v b (k - 1) s ltac:(lia)); destruct (calculate_bias levels v b m s) as [idx [b' bb]] end.
      destruct IH as [H1 H2]. split; [lia|]. rewrite H2. apply land_63_ldiff. lia.
    + match goal with |- context [calculate_bias levels ?v ?b ?m ?s] =>
        specialize (IH v b (k - 1) s ltac:(lia)); destruct (calculate_bias levels v b m s) as [idx [b' bb]] end.
      destruct IH as [H1 H2]. split; [lia|]. rewrite H2. apply land_63_lor. lia.
Qed.

Lemma rotr_bit v s n : word v -> 0 <= s < 64 -> 0 <= n < 64 -> Z.testbit (rotr v s) n = Z.testbit v ((n + s) mod 64).
Proof.
  intros Hv Hs Hn. unfold rotr. rewrite Z.lor_spec, Z.shiftr_spec by lia. unfold wrap.
  rewrite Z.mod_pow2_bits_low, Z.shiftl_spec by lia. destruct (Z.lt_ge_cases (n + s) 64).
  - rewrite (Z.testbit_neg_r v (n - (64 - s))) by lia. rewrite orb_false_r. f_equal. mlia.
  - rewrite (testbit_high v (n + s)) by done. cbn. f_equal. mlia.
Qed.

Lemma rotr_word v s : word v -> 0 <= s -> word (rotr v s).
Proof.
  intros Hv Hs. pose proof (wrap_range 64 (Z.shiftl v (64 - s)) ltac:(lia)) as Hw. assert (0 <= rotr v s).
  { unfold rotr. apply Z.lor_nonneg. split; [apply Z.shiftr_nonneg, Hv|apply Hw]. }
  split; [done|]. apply word_range_bits; [done|]. intros n Hn. unfold rotr.
  rewrite Z.lor_spec, Z.shiftr_spec, (testbit_high v), (testbit_high _ n Hw) by (done || lia). done.
Qed.

(** [i] is the first bit of [v] at or after the cursor, and the cursor moves behind it. *)
Record picks (v bias i bias' : Z) : Prop := {
  picks_range : 0 <= i < 64;
  picks_bit : Z.testbit v i = true;
  picks_cursor : Z.land bias' 63 = (i + 1) mod 64;
  picks_first c : 0 <= c < 64 -> Z.testbit v c = true -> (i - Z.land bias 63) mod 64 <= (c - Z.land bias 63) mod 64;
}.

Lemma leaf_select_spec v bias acc : word v -> v <> 0 ->
  exists i bias', leaf_select v bias acc = (Some (u32 (Z.lor (Z.shiftl acc 6) i)), bias') /\ picks v bias i bias'.
Proof.
  intros Hv Hne. unfold leaf_select. rewrite (proj2 (Z.eqb_neq v 0) Hne). set (s := Z.land bias 63).
  assert (0 <= s < 64) as Hs by (subst s; rewrite land_63; mlia). pose proof (rotr_word v s Hv ltac:(lia)) as Hr.
  assert (rotr v s <> 0) as Hr0.
  { intros E. apply Hne, word_eq_0; [done|]. intros n Hn. pose proof (rotr_bit v s ((n - s) mod 64) Hv Hs ltac:(mlia)) as Hb.
    rewrite E, Z.bits_0 in Hb. rewrite Hb. f_equal. mlia. }
  destruct (ctz_spec 64 (rotr v s)) as [H1 H2]; [unfold word in Hr; change (Z.of_nat 64) with 64; lia|].
  set (o := Z.of_nat (ctz 64 (rotr v s))) in *.
  assert (0 <= o < 64) as Ho.
  { split; [lia|]. destruct (Z.lt_ge_cases o 64); [done|]. rewrite testbit_high in H1 by done. done. }
  rewrite rotr_bit in H1 by done. rewrite land_63. eexists _, _. split; [reflexivity|]. split.
  - mlia.
  - rewrite <- H1. f_equal. mlia.
  - rewrite Z.land_lor_distr_l, Z.land_ldiff, Z.lor_0_l, !land_63. mlia.
  - intros c Hc Hbit. fold s. rewrite Zminus_mod_idemp_l, Z.add_simpl_l, (Z.mod_small o) by done.
    destruct (Z.lt_ge_cases ((c - s) mod 64) o) as [Hlt|]; [|done].
    specialize (H2 (Z.to_nat ((c - s) mod 64)) ltac:(subst o; mlia)). rewrite Z2Nat.id, rotr_bit in H2 by (done || mlia).
    replace (((c - s) mod 64 + s) mod 64) with c in H2 by mlia. congruence.
Qed.

Lemma picks_same v bias1 bias i bias' : Z.land bias1 63 = Z.land bias 63 -> picks v bias1 i bias' -> picks v bias i bias'.
Proof. intros E [H1 H2 H3 H4]. split; [done..|]. rewrite <- E. done. Qed.

Lemma packed_id r b i : 0 <= r -> 512 * (r + 1) <= 2 ^ 32 -> 0 <= b < 8 -> 0 <= i < 64 ->
  u32 (Z.lor (Z.shiftl (u32 (Z.lor (Z.shiftl r 3) b)) 6) i) = r * 512 + b * 64 + i.
Proof.
  intros Hr Hr2 Hb Hi. rewrite !Z.shiftl_mul_pow2 by lia. rewrite (lor_low_add r b 3) by lia.
  rewrite (wrap_small 32 (r * 2 ^ 3 + b)) by lia. rewrite (lor_low_add _ i 6) by lia. rewrite wrap_small by lia. lia.
Qed.

(** The outcome of a search below a router whose number is [r]. *)
Definition found (n : Node) (r bias : Z) (res : option Z * Z) : Prop :=
  match res with
  | (Some id, bias') => exists b i, 0 <= b < 8 /\ id = r * 512 + b * 64 + i /\ picks (child n b) bias i bias'
  | (None, bias') => Z.land bias' 63 = Z.land bias 63
  end.

Lemma select_branch_spec n b bias r : node_ok n -> 0 <= r -> 512 * (r + 1) <= 2 ^ 32 -> 0 <= b < 8 ->
  found n r bias (select_branch n b bias r) /\ ((select_branch n b bias r).1 = None -> child n b = 0 /\ (select_branch n b bias r).2 = bias).
Proof.
  intros Hn Hr Hr2 Hb. unfold select_branch. destruct (decide (child n b = 0)) as [E|E].
  - unfold leaf_select. rewrite E. done.
  - destruct (leaf_select_spec (child n b) bias (u32 (Z.lor (Z.shiftl r 3) b)) (child_word n b Hn) E) as (i & bias' & -> & Hp).
    split; [|done]. exists b, i. split; [done|]. split; [|done]. apply packed_id; [done..|apply Hp].
Qed.

Lemma scan_spec n idx bs bias r : node_ok n -> 0 <= r -> 512 * (r + 1) <= 2 ^ 32 -> (forall b, b ∈ bs -> 0 <= b < 8) ->
  let res := scan n (m_value n) idx bs bias r in
  found n r bias res /\
  (res.1 = None -> res.2 = bias /\ forall b, b ∈ bs -> b <> idx -> count_at (m_value n) b <> 0 -> child n b = 0).
Proof.
  intros Hn Hr Hr2. cbv zeta. induction bs as [|b bs IH]; intros Hbs; cbn [scan].
  { split; [done|]. intros _. split; [done|]. intros b Hb. by apply elem_of_nil in Hb. }
  specialize (IH ltac:(intros; apply Hbs; by right)).
  destruct (Z.eqb_spec b idx) as [->|Hidx]; cbn [orb].
  { split; [apply IH|]. intros HN. destruct IH as [_ IH]. destruct (IH HN) as [H1 H2]. split; [done|].
    intros b' [->|Hb']%elem_of_cons Hne; [done|by apply H2]. }
  destruct (Z.eqb_spec (count_at (m_value n) b) 0) as [Hc|Hc].
  { split; [apply IH|]. intros HN. destruct IH as [_ IH]. destruct (IH HN) as [H1 H2]. split; [done|].
    intros b' [->|Hb']%elem_of_cons Hne Hb0; [done|by apply H2]. }
  destruct (select_branch_spec n b bias r Hn Hr Hr2 ltac:(apply Hbs; left)) as [Hf HN].
  destruct (select_branch n b bias r) as [[id|] bias'] eqn:E; [done|]. destruct (HN eq_refl) as [H0 H1].
  cbn in H1. subst bias'. split; [apply IH|]. intros HN'. destruct IH as [_ IH]. destruct (IH HN') as [H2 H3].
  split; [done|]. intros b' [->|Hb']%elem_of_cons Hne Hb0; [done|by apply H3].
Qed.

Lemma select_child_index_spec n bias r : node_ok n -> 0 <= r -> 512 * (r + 1) <= 2 ^ 32 ->
  let res := select_child_index n bias r (Z.shiftr BIAS_FLAG 1) in
  found n r bias res /\
  (res.1 = None -> forall b, 0 <= b < 8 -> count_at (m_value n) b <> 0 -> child n b = 0).
Proof.
  intros Hn Hr Hr2. cbv zeta. unfold select_child_index. destruct (Z.eqb_spec (m_value n) 0) as [E|E].
  { split; [done|]. intros _ b Hb. rewrite E. unfold count_at. by rewrite Z.shiftr_0_l. }
  change (Z.shiftr BIAS_FLAG 1) with (2 ^ 62). pose proof (calculate_bias_spec 2 (m_value n) bias 62 0 ltac:(lia)) as Hcb.
  destruct (calculate_bias 2 (m_value n) bias (2 ^ 62) 0) as [idx [bias1 bb]]. destruct Hcb as [Hidx Hlow].
  change (2 ^ (Z.of_nat 2 + 1)) with 8 in Hidx.
  assert (forall res, found n r bias1 res -> found n r bias res) as Hsame.
  { intros [[id|] bias']; cbn; [|congruence]. intros (b & i & H1 & H2 & H3). exists b, i. split; [done|]. split; [done|].
    by eapply picks_same. }
  destruct (select_branch_spec n idx bias1 r Hn Hr Hr2 Hidx) as [Hf HN].
  destruct (select_branch n idx bias1 r) as [[id|] bias2] eqn:Es; [split; [by apply Hsame|done]|].
  destruct (HN eq_refl) as [H0 H1]. cbn in H1. subst bias2.
  destruct (scan_spec n idx (seqZ 0 8) bias1 r Hn Hr Hr2) as [Hf2 HN2]; [intros b ?%elem_of_seqZ; lia|].
  split; [by apply Hsame|]. intros HNone b Hb Hc. destruct (HN2 HNone) as [_ H3]. destruct (decide (b = idx)) as [->|]; [done|].
  apply H3; [apply elem_of_seqZ; lia|done..].
Qed.

(** What [next] promises about a tree in any state, also between the two stores of an operation. *)
Definition next_found (t : SignalTree) (bias : Z) (res : option Z * Z) : Prop :=
  match res with
  | (Some id, bias') => valid_id t id /\ picks (leaf t (id / 64)) bias (id mod 64) bias'
  | (None, _) => True
  end.

Lemma next_loop_spec order t bias : tree_shape t -> (forall r, r ∈ order -> (r < length (m_routers t))%nat) ->
  let res := next_loop order t bias in
  next_found t bias res /\
  (res.1 = None -> forall r g, r ∈ order -> g / 8 = Z.of_nat r -> counter t g <> 0 -> leaf t g = 0).
Proof.
  intros Hs. cbv zeta. revert bias. induction order as [|r order IH]; intros bias Hlt; cbn [next_loop].
  { split; [done|]. intros _ r g Hr. by apply elem_of_nil in Hr. }
  pose proof (Hlt r ltac:(left)) as Hr. pose proof (shape_capacity t Hs) as Hcap. unfold capacity in Hcap.
  pose proof (router_ok t (Z.of_nat r) Hs) as Hn. unfold router in Hn. rewrite Nat2Z.id in Hn.
  pose proof (select_child_index_spec _ bias (Z.of_nat r) Hn ltac:(lia) ltac:(lia)) as [Hf HN].
  destruct (select_child_index _ bias (Z.of_nat r) _) as [[id|] bias1] eqn:E.
  - split; [|done]. destruct Hf as (b & i & Hb & -> & Hp). pose proof (picks_range _ _ _ _ Hp).
    split; [unfold valid_id, capacity; lia|].
    replace ((Z.of_nat r * 512 + b * 64 + i) / 64) with (8 * Z.of_nat r + b) by mlia.
    replace ((Z.of_nat r * 512 + b * 64 + i) mod 64) with i by mlia. unfold leaf, router.
    replace ((8 * Z.of_nat r + b) / 8) with (Z.of_nat r) by mlia. replace ((8 * Z.of_nat r + b) mod 8) with b by mlia.
    rewrite Nat2Z.id. destruct Hp as [H1 H2 H3 H4]. split; [done..| |done]. by rewrite land_63_lxor.
  - cbn in Hf. specialize (IH bias1 ltac:(intros; apply Hlt; by right)). destruct IH as [IH1 IH2]. split.
    + destruct (next_loop order t bias1) as [[id|] bias2]; [|done]. destruct IH1 as [Hv Hp]. split; [done|].
      by eapply picks_same.
    + intros HNone r' g [->|Hr']%elem_of_cons Hg Hc; [|by eapply IH2]. unfold counter, leaf, router in *.
      rewrite Hg, Nat2Z.id in *. apply (HN eq_refl); [mlia|done].
Qed.

Lemma next_spec t bias : tree_shape t ->
  next_found t bias (next bias t) /\
  ((next bias t).1 = None -> forall g, 0 <= g -> counter t g <> 0 -> leaf t g = 0).
Proof.
  intros Hs. unfold next. set (order := if negb (Z.land bias BIAS_FLAG =? 0) then _ else _).
  assert (forall r, r ∈ order <-> (r < length (m_routers t))%nat) as Ho.
  { intros r. subst order. destruct (negb _); rewrite ?list_elem_of_In, <- ?in_rev, <- ?list_elem_of_In, elem_of_seq; lia. }
  destruct (next_loop_spec order t bias Hs ltac:(intros; by apply Ho)) as [H1 H2]. split; [done|].
  intros HN g Hg Hc. apply (H2 HN (Z.to_nat (g / 8))); [|mlia|done]. apply Ho.
  destruct (decide (Z.to_nat (g / 8) < length (m_routers t))%nat) as [|Hge]; [done|]. exfalso. apply Hc.
  unfold counter, router. rewrite lookup_ge_None_2 by lia. cbn. unfold count_at. by rewrite Z.shiftr_0_l.
Qed.

Lemma next_scheduled t bias id bias' : tree_shape t -> next bias t = (Some id, bias') -> valid_id t id /\ scheduled t id = true.
Proof.
  intros Hs E. destruct (next_spec t bias Hs) as [H _]. rewrite E in H. destruct H as [H1 H2]. split; [done|apply H2].
Qed.

(** A search of a tree whose counters are not too low finds what is there. *)
Lemma next_complete t bias id : tree_shape t -> (forall g, 0 <= g -> leaf t g <> 0 -> counter t g <> 0) ->
  0 <= id -> scheduled t id = true -> exists id' bias', next bias t = (Some id', bias').
Proof.
  intros Hs Hc Hid Hb. destruct (next_spec t bias Hs) as [_ HN]. destruct (next bias t) as [[id'|] bias'] eqn:E; [by eexists _, _|].
  unfold scheduled in Hb. assert (leaf t (id / 64) <> 0) as Hl by (intros H0; rewrite H0, Z.bits_0 in Hb; done).
  exfalso. apply Hl, (HN eq_refl); [mlia|]. apply Hc; [mlia|done].
Qed.

Lemma tree_ok_counters t g : tree_ok t -> 0 <= g -> leaf t g <> 0 -> counter t g <> 0.
Proof. intros [Hs Hc] Hg Hl. rewrite Hc by done. rewrite bit_count_zero; [done|]. by apply leaf_word. Qed.

Lemma new_tree_leaf n g : leaf (new_tree n) g = 0 /\ counter (new_tree n) g = 0.
Proof.
  assert (router (new_tree n) (g / 8) = new_node) as Hr.
  { unfold router, new_tree. cbn. destruct (replicate n new_node !! _) as [m|] eqn:E; [|done].
    by apply lookup_replicate in E as [-> _]. }
  unfold leaf, counter. rewrite Hr. split; [|unfold count_at; cbn; by rewrite Z.shiftr_0_l].
  unfold child. cbn [new_node m_children]. destruct (replicate 8 0 !! _) as [v|] eqn:E; [|done].
  by apply lookup_replicate in E as [-> _].
Qed.

Lemma new_tree_ok n : 512 * Z.of_nat n <= 2 ^ 32 -> tree_ok (new_tree n).
Proof.
  intros Hn. split.
  - split; [apply Forall_replicate, new_node_ok|]. unfold capacity, new_tree. cbn. by rewrite length_replicate.
  - intros g Hg. destruct (new_tree_leaf n g) as [-> ->]. reflexivity.
Qed.

Lemma new_tree_scheduled n id : scheduled (new_tree n) id = false.
Proof. unfold scheduled. destruct (new_tree_leaf n (id / 64)) as [-> _]. apply Z.bits_0. Qed.

(** ** The tree implements a set *)

Inductive tree_op := Schedule (id : Z) | Deschedule (id : Z) | Next.

(** One call on a tree and the bias of the caller. *)
Definition tree_step (op : tree_op) (s : SignalTree * Z) : result (option Z * (SignalTree * Z)) :=
  match op with
  | Schedule id => t ← schedule id s.1; Ok (None, (t, s.2))
  | Deschedule id => t ← deschedule id s.1; Ok (None, (t, s.2))
  | Next => let '(r, bias) := next s.2 s.1 in Ok (r, (s.1, bias))
  end.

Fixpoint run_tree (ops : list tree_op) (s : SignalTree * Z) : result (list (option Z)) :=
  match ops with
  | [] => Ok []
  | op :: ops => '(r, s) ← tree_step op s; rs ← run_tree ops s; Ok (r :: rs)
  end.

(** The set of scheduled ids. *)
Definition set_step (op : tree_op) (S : gset Z) : gset Z :=
  match op with Schedule id => {[id]} ∪ S | Deschedule id => S ∖ {[id]} | Next => S end.

(** The callers schedule an id that is not in the tree and take out one that is. *)
Definition allowed (n : nat) (op : tree_op) (S : gset Z) : Prop :=
  match op with
  | Schedule id => 0 <= id < 512 * Z.of_nat n /\ id ∉ S
  | Deschedule id => id ∈ S
  | Next => True
  end.

#[export] Instance allowed_dec n op S : Decision (allowed n op S).
Proof. destruct op; cbn; apply _. Defined.

Fixpoint disciplined (n : nat) (ops : list tree_op) (S : gset Z) : bool :=
  match ops with
  | [] => true
  | op :: ops => bool_decide (allowed n op S) && disciplined n ops (set_step op S)
  end.

(** The answers a set allows: a search finds an element when there is one, and any will do. *)
Definition answers (op : tree_op) (S : gset Z) (r : option Z) : Prop :=
  match op, r with
  | Next, Some id => id ∈ S
  | Next, None => S = ∅
  | _, _ => r = None
  end.

Inductive set_run : list tree_op -> gset Z -> list (option Z) -> Prop :=
  | set_run_nil S : set_run [] S []
  | set_run_cons op ops S r rs : answers op S r -> set_run ops (set_step op S) rs -> set_run (op :: ops) S (r :: rs).

(** The tree [t] holds exactly the ids of [S]. *)
Record holds (n : nat) (t : SignalTree) (S : gset Z) : Prop := {
  holds_ok : tree_ok t;
  holds_capacity : capacity t = 512 * Z.of_nat n;
  holds_ids id : id ∈ S <-> valid_id t id /\ scheduled t id = true;
}.

Lemma tree_step_refines n op t bias S : holds n t S -> allowed n op S ->
  exists r t' bias', tree_step op (t, bias) = Ok (r, (t', bias')) /\ answers op S r /\ holds n t' (set_step op S).
Proof.
  intros [Hok Hcap Hids] Hop. unfold valid_id in Hids. destruct op as [id|id|]; cbn in Hop.
  - destruct Hop as [Hid Hnot]. destruct (schedule_ok id t) as (t' & E & Hok' & Hcap' & _ & Hb).
    + unfold valid_id. lia.
    + done.
    + destruct (scheduled t id) eqn:Eb; [|done]. exfalso. apply Hnot, Hids. split; [lia|done].
    + exists None, t', bias. unfold tree_step. cbn [fst snd]. rewrite E. split; [done|]. split; [done|].
      split; [done|congruence|]. intros id'. cbn [set_step]. unfold valid_id. rewrite elem_of_union, elem_of_singleton, Hids, Hcap'.
      split; [intros [->|[H1 H2]]|intros [H1 H2]].
      * split; [lia|]. rewrite Hb, Z.eqb_refl by lia. done.
      * split; [done|]. rewrite Hb by lia. by destruct (id' =? id).
      * rewrite Hb in H2 by lia. destruct (Z.eqb_spec id' id); [by left|by right].
  - apply Hids in Hop as [Hid Hs]. destruct (deschedule_ok id t Hid Hok Hs) as (t' & E & Hok' & Hcap' & _ & Hb).
    exists None, t', bias. unfold tree_step. cbn [fst snd]. rewrite E. split; [done|]. split; [done|].
    split; [done|congruence|]. intros id'. cbn [set_step]. unfold valid_id. rewrite elem_of_difference, elem_of_singleton, Hids, Hcap'.
    split; [intros [[H1 H2] H3]|intros [H1 H2]].
    + split; [done|]. rewrite Hb by lia. by destruct (Z.eqb_spec id' id).
    + rewrite Hb in H2 by lia. by destruct (Z.eqb_spec id' id).
  - cbn [tree_step fst snd]. destruct (next bias t) as [r bias'] eqn:E. exists r, t, bias'. split; [done|]. split; [|done].
    destruct r as [id|]; cbn [answers].
    + apply Hids. by eapply next_scheduled; [apply Hok|].
    + apply set_eq. intros id. split; [|by intros ?%elem_of_empty]. intros [Hid Hs]%Hids. exfalso.
      destruct (next_complete t bias id (ok_shape t Hok)) as (id' & b' & E'); [intros g; by apply tree_ok_counters|lia|done|].
      by rewrite E in E'.
Qed.

(** C19: Whatever calls its users make, in any order and under any bias, as long as they schedule ids that are not in
    the tree and take out ids that are, the tree of counters and bits answers as a set of ids does: a search finds one
    of the scheduled ids exactly when there is one. *)
Theorem tree_refines_set n ops bias :
  512 * Z.of_nat n <= 2 ^ 32 -> disciplined n ops ∅ = true ->
  exists rs, run_tree ops (new_tree n, bias) = Ok rs /\ set_run ops ∅ rs.
Proof.
  intros Hn. assert (holds n (new_tree n) ∅) as H.
  { split; [by apply new_tree_ok|unfold capacity, new_tree; cbn; by rewrite length_replicate|].
    intros id. rewrite new_tree_scheduled. split; [by intros ?%elem_of_empty|by intros [_ ?]]. }
  revert H. generalize (new_tree n) (∅ : gset Z) bias. induction ops as [|op ops IH]; intros t S b H Hd.
  { exists []. split; [done|constructor]. }
  cbn [disciplined] in Hd. apply andb_prop in Hd as [Hop%bool_decide_eq_true_1 Hd].
  destruct (tree_step_refines n op t b S H Hop) as (r & t' & b' & E & Ha & H').
  destruct (IH t' _ b' H' Hd) as (rs & E' & Hrs). exists (r :: rs). cbn [run_tree]. rewrite E. cbn [mbind result_bind].
  rewrite E'. split; [done|by constructor].
Qed.

Definition demo_ops : list tree_op := [Schedule 5; Schedule 700; Next; Deschedule 700; Next; Schedule 6; Deschedule 5; Next; Deschedule 6; Next].

Lemma tree_refines_set_witness : exists rs, run_tree demo_ops (new_tree 2, 0) = Ok rs /\ set_run demo_ops ∅ rs.
Proof. apply (tree_refines_set 2 demo_ops 0); vm_compute; reflexivity || discriminate. Defined.

(** ** Turns *)

(** Successive searches of one caller, of trees that others may have changed in between. *)
Fixpoint searches (ts : list SignalTree) (bias : Z) : list (option Z) :=
  match ts with
  | [] => []
  | t :: ts => let '(r, bias) := next bias t in r :: searches ts bias
  end.

(** Every scheduled contract is in branch [g]. *)
Definition in_branch (g : Z) (t : SignalTree) : Prop := forall id, 0 <= id -> scheduled t id = true -> id / 64 = g.

(** How far the cursor of a bias is from a contract. *)
Definition turns_left (id bias : Z) : Z := (id mod 64 - Z.land bias 63) mod 64.

Lemma turns_left_bounds id bias : 0 <= turns_left id bias < 64.
Proof. apply Z.mod_pos_bound. lia. Qed.

(** One search returns the contract or brings the cursor closer to it.  The counters may be larger than
    the numbers of bits, as they are in the middle of a call. *)
Lemma turn_covered g id bias t :
  tree_shape t -> (forall g, 0 <= g -> leaf t g <> 0 -> counter t g <> 0) -> in_branch g t -> scheduled t id = true -> 0 <= id ->
  exists id' bias', next bias t = (Some id', bias') /\ (id' = id \/ turns_left id bias' < turns_left id bias).
Proof.
  intros Hsh Hcov Hin Hs Hid. pose proof (Hin id Hid Hs) as Hg.
  destruct (next_complete t bias id Hsh Hcov Hid Hs) as (id' & bias' & E).
  exists id', bias'. split; [done|]. destruct (next_spec t bias Hsh) as [H _]. rewrite E in H. destruct H as [[H0 _] Hp].
  pose proof (next_scheduled t bias id' bias' Hsh E) as [_ Hs']. pose proof (Hin id' H0 Hs') as Hg'.
  destruct (decide (id' = id)) as [->|Hne]; [by left|]. right.
  destruct Hp as [_ _ Hcur Hfirst]. specialize (Hfirst (id mod 64) ltac:(mlia)).
  rewrite Hg', <- Hg in Hfirst. specialize (Hfirst Hs).
  unfold turns_left. pose proof (Z.mod_pos_bound (Z.land bias 63) 64). rewrite Hcur.
  assert (id' mod 64 <> id mod 64) by mlia. revert Hfirst. rewrite land_63. intros. mlia.
Qed.

Lemma turn g id bias t : tree_ok t -> in_branch g t -> scheduled t id = true -> 0 <= id ->
  exists id' bias', next bias t = (Some id', bias') /\ (id' = id \/ turns_left id bias' < turns_left id bias).
Proof.
  intros Hok. apply turn_covered; [apply Hok|]. intros. by apply tree_ok_counters.
Qed.

Lemma turns g id ts bias :
  Forall (fun t => tree_ok t /\ in_branch g t /\ scheduled t id = true) ts -> 0 <= id ->
  (Z.to_nat (turns_left id bias) < length ts)%nat -> Some id ∈ searches ts bias.
Proof.
  intros Hts Hid. revert bias. induction Hts as [|t ts (Hok & Hin & Hs) _ IH]; intros bias Hlen; [cbn in Hlen; lia|].
  destruct (turn g id bias t Hok Hin Hs Hid) as (id' & bias' & E & [-> |Hlt]); cbn [searches]; rewrite E; [left|].
  right. apply IH. cbn [length] in Hlen. pose proof (turns_left_bounds id bias'). lia.
Qed.

(** Contracts of one branch take turns: of 64 successive searches by one caller, whatever its bias, one returns
    any given contract that is scheduled all the while, whatever other contracts of the branch come and go. *)
Theorem leaf_takes_turns g id ts bias :
  Forall (fun t => tree_ok t /\ in_branch g t /\ scheduled t id = true) ts -> 0 <= id -> length ts = 64%nat ->
  Some id ∈ searches ts bias.
Proof.
  intros Hts Hid Hlen. apply (turns g id ts bias Hts Hid). rewrite Hlen.
  pose proof (turns_left_bounds id bias). lia.
Qed.

Definition demo_tree : SignalTree :=
  match schedule 6 (new_tree 2) ≫= schedule 5 with Ok t => t | Err _ => new_tree 2 end.

Lemma demo_tree_holds : tree_ok demo_tree /\ forall id, 0 <= id -> scheduled demo_tree id = (id =? 5) || (id =? 6).
Proof.
  pose proof (new_tree_ok 2 ltac:(lia)) as H0.
  destruct (schedule_ok 6 (new_tree 2)) as (t1 & E1 & H1 & C1 & _ & B1); [by vm_compute|done|apply new_tree_scheduled|].
  destruct (schedule_ok 5 t1) as (t2 & E2 & H2 & _ & _ & B2);
    [unfold valid_id; rewrite C1; by vm_compute|done|by rewrite B1, new_tree_scheduled by lia|].
  assert (demo_tree = t2) as -> by (unfold demo_tree; rewrite E1; cbn [mbind result_bind]; by rewrite E2).
  split; [done|]. intros id Hid. rewrite B2, B1, new_tree_scheduled by done.
  by destruct (id =? 5), (id =? 6).
Qed.

Lemma leaf_takes_turns_witness : Some 5 ∈ searches (replicate 64 demo_tree) 6.
Proof.
  destruct demo_tree_holds as [H1 H2]. apply (leaf_takes_turns 0 5 (replicate 64 demo_tree) 6).
  - apply Forall_replicate. split; [exact H1|]. split; [|by rewrite H2].
    intros id Hid. rewrite H2 by done. destruct (Z.eqb_spec id 5) as [->|]; [done|]. destruct (Z.eqb_spec id 6) as [->|]; done.
  - lia.
  - done.
Defined.

Definition starving_tree : SignalTree :=
  match schedule 192 (new_tree 2) ≫= schedule 128 with Ok t => t | Err _ => new_tree 2 end.

Definition starving_node : Node := mkNode (2 ^ 16 + 2 ^ 24) [0; 0; 1; 1; 0; 0; 0; 0].

Lemma starving_tree_value : starving_tree = mkTree [starving_node; new_node] 0.
Proof. vm_compute. reflexivity. Qed.

Lemma starving_bias bias bit : exists s, calculate_bias 2 (2 ^ 16 + 2 ^ 24) bias bit 0 = (3, s).
Proof.
  cbn [calculate_bias].
  match goal with |- context [(?p && negb (?r =? 0)) || (?l =? 0)] => change l with 0; rewrite Z.eqb_refl, orb_true_r end.
  match goal with |- context [(?p && negb (?r =? 0)) || (?l =? 0)] => change r with 0; change l with (1 + 2 ^ 8) end.
  rewrite Z.eqb_refl, andb_false_r. change (1 + 2 ^ 8 =? 0) with false. cbn [orb].
  match goal with |- context [(?p && negb (?r =? 0)) || (?l =? 0)] => change r with 0; change l with 1 end.
  rewrite Z.eqb_refl, andb_false_r. change (1 =? 0) with false. cbn [orb]. eexists. reflexivity.
Qed.

Lemma starving_select bias : (select_child_index starving_node bias 0 (Z.shiftr BIAS_FLAG 1)).1 = Some 192.
Proof.
  unfold select_child_index. change (m_value starving_node) with (2 ^ 16 + 2 ^ 24).
  change (2 ^ 16 + 2 ^ 24 =? 0) with false. cbv iota.
  destruct (starving_bias bias (Z.shiftr BIAS_FLAG 1)) as [[b bb] ->]. unfold select_branch.
  change (child starving_node 3) with 1.
  destruct (leaf_select_spec 1 b (u32 (Z.lor (Z.shiftl 0 3) 3))) as (i & b' & -> & [Hr Hbit _ _]); [unfold word; lia|done|].
  cbn. change 1 with (2 ^ 0) in Hbit. rewrite Z.pow2_bits_eqb in Hbit by lia. apply Z.eqb_eq in Hbit. by subst i.
Qed.

(** Contracts of different branches need not take turns: the window of the search is misplaced after a step to the
    left, so with contracts 128 and 192 scheduled, whatever the bias, every search returns 192. *)
Theorem branch_starves bias : (next bias starving_tree).1 = Some 192.
Proof.
  rewrite starving_tree_value. set (t := mkTree [starving_node; new_node] 0).
  assert (forall b order, (next_loop (0%nat :: order) t b).1 = Some 192) as H0.
  { intros b order. cbn [next_loop]. change (default new_node (m_routers t !! 0%nat)) with starving_node.
    pose proof (starving_select b) as Hs. change (Z.of_nat 0) with 0.
    by destruct (select_child_index starving_node b 0 _) as [[r|] b']. }
  assert (forall b order, next_loop (1%nat :: order) t b = next_loop order t b) as H1 by done.
  unfold next. change (rev (seq 0 (length (m_routers t)))) with [1%nat; 0%nat].
  change (seq 0 (length (m_routers t))) with [0%nat; 1%nat]. destruct (negb _); [rewrite H1|]; apply H0.
Qed.
