(* ===== verification/Contracts.v ===== *)
(** * Contracts

    Models src/include/core/contracts/types.cppm ([ContractState], [Worker]) and contract.cppm
    ([ContractGroup], [ContractThreadPool], [ContractRegistry]) on the signal tree of SignalTree.v.

    A group is a state and its member functions are steps (Steps.v).  The code a contract runs is not
    part of the scheduler: a worker, a releaser and an error handler are values of parameters [W], [R]
    and [E], and what one does when it is called is a [Body], the public functions of the group it calls
    with what it does on each answer.  A body is chosen anew for each call, so that code may depend on
    anything.  What is published and what is run goes to [log].  An array index out of range is
    undefined behaviour.

    A call from outside the pool and a cycle of an executor are steps that do not interleave here.  In the
    code they are sequences of atomic instructions, which Executors.v takes apart: two executors can claim
    one contract and count it out of the tree twice ([Executors.lost_contract]), and a [deschedule] that
    falls between the search and the claim of an executor does not keep the contract from running.  So the
    theorems on runs are stated for one executor, whose cycles the calls from outside do not interrupt; the
    calls that the code of a contract makes happen inside a cycle, as they do in the program.

    The theorem: a contract that was scheduled runs within 64 cycles, as long as its group has at most
    64 contracts, none of them is descheduled and it is not released ([scheduled_contract_runs]). *)

From Stdlib Require Import ZArith Lia.
From stdpp Require Import base list sets tactics.
From S2P Require Import Prelude SignalTree Frame Steps.

Open Scope Z_scope.

(** ** Contract states *)

Module ContractState.

Definition IDLE : Z := 0.
Definition SCHEDULED : Z := 1.
Definition EXECUTING : Z := 2.
Definition RELEASED : Z := 4.

(** [operator~] on the underlying octet. *)
Definition complement (state : Z) : Z := u8 (Z.lnot state).

End ContractState.
Export ContractState.

(** ** Workers *)

Module Worker.

Record Worker {W : Type} := mkWorker { m_worker : option W; m_flags : Z }.
#[global] Arguments Worker : clear implicits.

Section Worker.
Context {W : Type}.
Implicit Types w : Worker W.

Definition empty : Worker W := mkWorker W None 0.

Definition set_flags (f : Z) w : Worker W := mkWorker W (m_worker w) f.

Definition fetch_or (state : Z) w : Z * Worker W := (m_flags w, set_flags (Z.lor (m_flags w) state) w).
Definition fetch_and (state : Z) w : Z * Worker W := (m_flags w, set_flags (Z.land (m_flags w) state) w).

(** The exchange that does not fail spuriously; the new value of [expected] comes with the answer. *)
Definition compare_exchange (expected desired : Z) w : bool * (Z * Worker W) :=
  if m_flags w =? expected then (true, (expected, set_flags desired w)) else (false, (m_flags w, w)).

Definition add_flags (state : Z) w : Worker W := (fetch_or state w).2.
Definition remove_flags (state : Z) w : Worker W := (fetch_and (complement state) w).2.

Definition has_any (state : Z) w : bool := negb (Z.land (m_flags w) state =? 0).
Definition is_scheduled := has_any SCHEDULED.
Definition is_released := has_any RELEASED.
Definition is_idle w : bool := m_flags w =? 0.

Definition schedule w : bool * Worker W :=
  let '(prev, w) := fetch_or SCHEDULED w in (Z.land prev (Z.lor SCHEDULED EXECUTING) =? 0, w).

(** The value that a claim stores. *)
Definition DESIRED (current : Z) : Z := Z.lor (Z.land current (complement SCHEDULED)) EXECUTING.

(** Without interference the first exchange succeeds. *)
Definition try_claim_execution w : bool * Worker W :=
  let current := m_flags w in
  if is_scheduled w then
    let '(success, (_, w)) := compare_exchange current (DESIRED current) w in (success, w)
  else (false, w).

Definition complete_execution w : Worker W := add_flags IDLE (remove_flags EXECUTING w).

End Worker.
End Worker.
Import Worker.

(** ** Groups *)

Section Groups.
Context {W R E : Type}.

(** What a contract can be made to run. *)
Inductive Code := Work (w : W) | Releaser (r : R) | OnError (e : E).

Inductive Event :=
  | InvalidState (id : Z)
  | AlreadyScheduled (id : Z)
  | NotFoundOnDeschedule (id : Z)
  | ExecutionFailed (id : Z) (phase : Code)
  | AutoclearFatal (id : Z)
  | Ran (id : Z) (code : Code).

Record ContractGroup := mkGroup {
  m_signal_tree : SignalTree;
  m_workers : list (Worker W);
  m_releasers : list (option R);
  m_errors : list (option E);
  log : list Event;
}.

(** [MaxCapacity] is 512 times the number of routers. *)
Definition new_group (NUM_ROUTERS : nat) : ContractGroup :=
  let n := (512 * NUM_ROUTERS)%nat in
  mkGroup (new_tree NUM_ROUTERS) (replicate n empty) (replicate n None) (replicate n None) [].

Definition publish (e : Event) : step ContractGroup unit :=
  modify (fun g => mkGroup (m_signal_tree g) (m_workers g) (m_releasers g) (m_errors g) (log g ++ [e])).

Definition at_index {A} (l : list A) (id : Z) : outcome A :=
  if id <? 0 then Throw (Other UndefinedBehaviour)
  else match l !! Z.to_nat id with Some a => Return a | None => Throw (Other UndefinedBehaviour) end.

Definition worker_at (id : Z) : step ContractGroup (Worker W) := fun g => (g, at_index (m_workers g) id).

Definition set_worker (id : Z) (w : Worker W) : step ContractGroup unit :=
  modify (fun g => mkGroup (m_signal_tree g) (<[Z.to_nat id := w]> (m_workers g)) (m_releasers g) (m_errors g) (log g)).

Definition set_slots (id : Z) (r : option R) (e : option E) : step ContractGroup unit :=
  modify (fun g => mkGroup (m_signal_tree g) (m_workers g) (<[Z.to_nat id := r]> (m_releasers g))
                     (<[Z.to_nat id := e]> (m_errors g)) (log g)).

Definition on_tree (f : SignalTree -> result SignalTree) : step ContractGroup unit := fun g =>
  match f (m_signal_tree g) with
  | Ok t => (mkGroup t (m_workers g) (m_releasers g) (m_errors g) (log g), Return tt)
  | Err e => (g, Throw (Other e))
  end.

Definition free_id : step ContractGroup Z := fun g =>
  match free_contract_id (m_signal_tree g) with
  | Ok (id, t) => (mkGroup t (m_workers g) (m_releasers g) (m_errors g) (log g), Return id)
  | Err e => (g, Throw (Other e))
  end.

Definition add_worker (worker : Worker W) (releaser : option R) (error_handler : option E) : step ContractGroup Z :=
  id ← free_id;
  _ ← set_worker id worker;
  _ ← set_slots id releaser error_handler;
  mret id.

Definition create (worker : W) (releaser : option R) (error_handler : option E) (state : Z) : step ContractGroup Z :=
  CONTRACT_ID ← add_worker (mkWorker W (Some worker) state) releaser error_handler;
  _ ← (if (state =? SCHEDULED) || (state =? RELEASED) then on_tree (SignalTree.schedule CONTRACT_ID)
       else when (state =? EXECUTING) (publish (InvalidState CONTRACT_ID)));
  mret CONTRACT_ID.

Definition schedule (contract_id : Z) : step ContractGroup unit :=
  w ← worker_at contract_id;
  if is_released w then mret tt
  else if is_scheduled w then publish (AlreadyScheduled contract_id)
  else
    let '(changed, w) := Worker.schedule w in
    _ ← set_worker contract_id w;
    when changed (on_tree (SignalTree.schedule contract_id)).

(** One step, as [schedule] and [release] are: a caller's instructions with no executor's between them.
    SCHEDULED stays set, so an executor that had found the contract before would still claim it. *)
Definition deschedule (contract_id : Z) : step ContractGroup unit :=
  w ← worker_at contract_id;
  if is_released w then mret tt
  else if is_scheduled w then
    _ ← on_tree (SignalTree.deschedule contract_id);
    set_worker contract_id (add_flags IDLE w)
  else publish (NotFoundOnDeschedule contract_id).

Definition release (contract_id : Z) : step ContractGroup unit :=
  w ← worker_at contract_id;
  _ ← set_worker contract_id (add_flags RELEASED w);
  w ← worker_at contract_id;
  if is_scheduled w then mret tt else schedule contract_id.

(** ** Code of a contract *)

(** The public functions that code can call. *)
Inductive Call :=
  | Create (worker : W) (releaser : option R) (error_handler : option E) (state : Z)
  | Schedule (id : Z)
  | Deschedule (id : Z)
  | Release (id : Z).

Inductive Body :=
  | Returns
  | Throws
  | Calls (c : Call) (k : outcome Z -> Body).

Definition perform (c : Call) : step ContractGroup Z :=
  match c with
  | Create worker releaser error_handler state => create worker releaser error_handler state
  | Schedule id => _ ← schedule id; mret 0
  | Deschedule id => _ ← deschedule id; mret 0
  | Release id => _ ← release id; mret 0
  end.

Definition undefined {A} (o : outcome A) : bool :=
  match o with Throw (Other UndefinedBehaviour) => true | _ => false end.

(** What [m] ends with, seen by the code after it: an exception can be caught, undefined behaviour cannot. *)
Definition caught {A B} (m : step ContractGroup A) (k : outcome A -> step ContractGroup B) : step ContractGroup B := fun g =>
  let '(g, o) := m g in if undefined o then (g, Throw (Other UndefinedBehaviour)) else k o g.

(** The destructor of a guard runs on every path and throws nothing itself. *)
Definition finally {A} (m : step ContractGroup A) (f : step ContractGroup unit) : step ContractGroup A := fun g =>
  let '(g, o) := m g in ((f g).1, o).

Fixpoint run_body (b : Body) : step ContractGroup unit :=
  match b with
  | Returns => mret tt
  | Throws => raise (Other RuntimeError)
  | Calls c k => caught (perform c) (fun o => run_body (k o))
  end.

(** What each piece of code does on this call, given the id it reads as the current one. *)
Definition Behaviour : Type := Code -> Z -> Body.

Definition run_code (behave : Behaviour) (id : Z) (c : Code) : step ContractGroup unit :=
  _ ← publish (Ran id c);
  run_body (behave c id).

(** ** Cycles *)

(** The two variables that [process_next_contract] keeps for a thread. *)
Record Executor := mkExecutor { bias_flags : Z; current_id : Z }.

Definition NO_ID : Z := 2 ^ 32 - 1.

(** The handler of a [try] around the code of contract [id]. *)
Definition handle (behave : Behaviour) (id : Z) (phase : Code) (m : step ContractGroup unit) : step ContractGroup unit :=
  caught m (fun o =>
    match o with
    | Return _ => mret tt
    | Throw e =>
        _ ← publish (ExecutionFailed id phase);
        error ← gets (fun g => default None (m_errors g !! Z.to_nat id));
        match error with Some h => run_code behave id (OnError h) | None => raise e end
    end).

(** [~AutoEraseContract]. *)
Definition erase (id : Z) : step ContractGroup unit :=
  _ ← set_worker id empty;
  set_slots id None None.

(** [~AutoClearExecuteFlag]. *)
Definition clear_execute (id : Z) : step ContractGroup unit :=
  w ← worker_at id;
  let '(prev, w) := fetch_and (complement EXECUTING) w in
  _ ← set_worker id w;
  when (Z.land prev SCHEDULED =? SCHEDULED)
    (caught (on_tree (SignalTree.schedule id)) (fun o =>
       match o with Return _ => mret tt | Throw _ => publish (AutoclearFatal id) end)).

Definition run_claimed (behave : Behaviour) (id : Z) : step ContractGroup unit :=
  w ← worker_at id;
  if is_released w then
    r ← gets (fun g => default None (m_releasers g !! Z.to_nat id));
    finally (match r with
             | Some r => handle behave id (Releaser r) (run_code behave id (Releaser r))
             | None => mret tt
             end) (erase id)
  else
    finally (match m_worker w with
             | Some f => handle behave id (Work f) (run_code behave id (Work f))
             | None => mret tt
             end) (clear_execute id).

(** A cycle as one step: the search, the claim and the removal from the tree with no instruction of
    another thread between them, as it is for one executor that no caller interrupts. *)
Definition process_next_contract (behave : Behaviour) (e : Executor) : step ContractGroup Executor :=
  found ← gets (fun g => next (bias_flags e) (m_signal_tree g));
  match found with
  | (None, bias) => mret (mkExecutor bias (current_id e))
  | (Some ready_id, bias) =>
      w ← worker_at ready_id;
      let '(claimed, w) := try_claim_execution w in
      _ ← set_worker ready_id w;
      if claimed then
        _ ← on_tree (SignalTree.deschedule ready_id);
        _ ← run_claimed behave ready_id;
        mret (mkExecutor bias NO_ID)
      else mret (mkExecutor bias (current_id e))
  end.

(** One thread of a [ContractThreadPool]: what the code of contracts does in each cycle while
    [m_running] holds. *)
Fixpoint worker_loop (cycles : list Behaviour) (e : Executor) : step ContractGroup Executor :=
  match cycles with
  | [] => mret e
  | behave :: cycles => e ← process_next_contract behave e; worker_loop cycles e
  end.

(** [ContractRegistry]: the ids of the handles it keeps. *)
Definition add (contract : Z) (m_contracts : list Z) : list Z := m_contracts ++ [contract].

Fixpoint release_all (m_contracts : list Z) : step ContractGroup (list Z) :=
  match m_contracts with
  | [] => mret []
  | contract :: m_contracts => _ ← release contract; release_all m_contracts
  end.

(** ** Runs *)

(** A group and the threads of its pool. *)
Record Pool := mkPool { group : ContractGroup; executors : list Executor }.

Definition start (NUM_ROUTERS threads : nat) : Pool :=
  mkPool (new_group NUM_ROUTERS) (replicate threads (mkExecutor 0 NO_ID)).

(** What happens next: a call from outside the pool, whose exceptions its caller handles, or a cycle of a
    thread.  Nothing catches what leaves a cycle. *)
Inductive Action := Outside (c : Call) | Cycle (i : nat) (behave : Behaviour).

Definition act (a : Action) (s : Pool) : option Pool :=
  match a with
  | Outside c =>
      let '(g, o) := perform c (group s) in
      if undefined o then None else Some (mkPool g (executors s))
  | Cycle i behave =>
      e ← executors s !! i;
      match process_next_contract behave e (group s) with
      | (g, Return e) => Some (mkPool g (<[i := e]> (executors s)))
      | (_, Throw _) => None
      end
  end.

Fixpoint run (actions : list Action) (s : Pool) : option Pool :=
  match actions with [] => Some s | a :: actions => s ← act a s; run actions s end.

End Groups.

(** ** Lemmas: flags *)

#[local] Arguments Z.testbit : simpl never.

Lemma has_any_bit {W} k (w : Worker W) : 0 <= k -> has_any (2 ^ k) w = Z.testbit (m_flags w) k.
Proof.
  intros Hk. unfold has_any. destruct (Z.testbit (m_flags w) k) eqn:E.
  - apply negb_true_iff, Z.eqb_neq. intros H0. assert (Z.testbit (Z.land (m_flags w) (2 ^ k)) k = true) as H.
    { by rewrite Z.land_spec, E, Z.pow2_bits_true by done. }
    by rewrite H0, Z.bits_0 in H.
  - apply negb_false_iff, Z.eqb_eq. apply Z.bits_inj_iff'. intros n Hn. rewrite Z.land_spec, Z.bits_0, Z.pow2_bits_eqb by done.
    destruct (Z.eqb_spec k n) as [<-|]; [by rewrite E|apply andb_false_r].
Qed.

Lemma is_scheduled_bit {W} (w : Worker W) : is_scheduled w = Z.testbit (m_flags w) 0.
Proof. by apply (has_any_bit 0). Qed.

Lemma is_released_bit {W} (w : Worker W) : is_released w = Z.testbit (m_flags w) 2.
Proof. by apply (has_any_bit 2). Qed.

(** The bits that [Worker.schedule] tests. *)
Lemma changed_bits f : (Z.land f (Z.lor SCHEDULED EXECUTING) =? 0) = negb (Z.testbit f 0) && negb (Z.testbit f 1).
Proof.
  destruct (Z.eqb_spec (Z.land f (Z.lor SCHEDULED EXECUTING)) 0) as [H|H].
  - assert (forall n, Z.testbit f n && Z.testbit 3 n = false) as Hn.
    { intros n. change (Z.lor SCHEDULED EXECUTING) with 3 in H. by rewrite <- Z.land_spec, H, Z.bits_0. }
    pose proof (Hn 0) as H0. pose proof (Hn 1) as H1. change (Z.testbit 3 0) with true in H0. change (Z.testbit 3 1) with true in H1.
    rewrite andb_true_r in H0, H1. by rewrite H0, H1.
  - symmetry. apply not_true_iff_false. intros [H0 H1]%andb_prop. apply negb_true_iff in H0, H1. apply H.
    apply Z.bits_inj_iff'. intros n Hn. rewrite Z.land_spec, Z.bits_0.
    destruct (decide (n = 0)) as [->|]; [by rewrite H0|]. destruct (decide (n = 1)) as [->|]; [by rewrite H1|].
    change (Z.lor SCHEDULED EXECUTING) with (Z.ones 2). rewrite Z.ones_spec_high by lia. apply andb_false_r.
Qed.

Lemma again_bit f : (Z.land f SCHEDULED =? SCHEDULED) = Z.testbit f 0.
Proof.
  change SCHEDULED with (Z.ones 1). rewrite land_ones_mod by lia. change (2 ^ 1) with 2. rewrite <- Z.bit0_mod. by destruct (Z.testbit f 0).
Qed.

Definition same_bits (f f' : Z) (b0 b1 b2 : option bool) : Prop :=
  Z.testbit f' 0 = default (Z.testbit f 0) b0 /\ Z.testbit f' 1 = default (Z.testbit f 1) b1 /\
  Z.testbit f' 2 = default (Z.testbit f 2) b2.

Ltac flags :=
  unfold same_bits, DESIRED; rewrite ?Z.lor_spec, ?Z.land_spec;
  repeat match goal with
    | |- context [Z.testbit ?c ?n] =>
        first [is_var c; fail 1 | let b := eval vm_compute in (Z.testbit c n) in change (Z.testbit c n) with b]
    end;
  rewrite ?Z.lor_spec, ?Z.land_spec, ?orb_true_r, ?orb_false_r, ?andb_true_r, ?andb_false_r; repeat split.

Lemma lor_scheduled f : same_bits f (Z.lor f SCHEDULED) (Some true) None None.
Proof. flags. Qed.
Lemma lor_released f : same_bits f (Z.lor f RELEASED) None None (Some true).
Proof. flags. Qed.
Lemma desired_bits f : same_bits f (DESIRED f) (Some false) (Some true) None.
Proof. flags. Qed.
Lemma land_executing f : same_bits f (Z.land f (complement EXECUTING)) None (Some false) None.
Proof. flags. Qed.

Lemma try_claim_eq {W} (w : Worker W) :
  try_claim_execution w = if Z.testbit (m_flags w) 0 then (true, set_flags (DESIRED (m_flags w)) w) else (false, w).
Proof.
  unfold try_claim_execution. rewrite is_scheduled_bit. destruct (Z.testbit (m_flags w) 0); [|done].
  unfold compare_exchange. by rewrite Z.eqb_refl.
Qed.

(** ** Lemmas: steps of a group *)

Section Groups.
Context {W R E : Type}.
Implicit Types (g : ContractGroup (W := W) (R := R) (E := E)) (w : Worker W).

Lemma keeps_caught {A B} (P : ContractGroup -> ContractGroup -> Prop) `{!PreOrder P} (m : step ContractGroup A)
    (k : outcome A -> step ContractGroup B) :
  keeps P m -> (forall o, keeps P (k o)) -> keeps P (caught (W := W) (R := R) (E := E) m k).
Proof.
  intros Hm Hk g. unfold caught. specialize (Hm g). destruct (m g) as [g1 o]. cbn in Hm.
  destruct (undefined o); [done|]. etransitivity; [done|apply Hk].
Qed.

Lemma keeps_finally {A} (P : ContractGroup -> ContractGroup -> Prop) `{!PreOrder P} (m : step ContractGroup A) f :
  keeps P m -> keeps P f -> keeps P (finally (W := W) (R := R) (E := E) m f).
Proof.
  intros Hm Hf g. unfold finally. specialize (Hm g). destruct (m g) as [g1 o]. cbn in Hm. cbn [fst].
  etransitivity; [done|apply Hf].
Qed.

Lemma free_id_tree t id t' : tree_shape t -> capacity t < 2 ^ 32 -> 0 <= m_next_id t -> free_contract_id t = Ok (id, t') ->
  id = m_next_id t /\ id < capacity t /\ t' = mkTree (m_routers t) (id + 1).
Proof.
  intros Hs Hc H0. unfold free_contract_id. destruct (Z.leb_spec (capacity t) (m_next_id t)); [done|]. intros [= <- <-].
  split; [done|]. split; [done|]. by rewrite wrap_small by lia.
Qed.

(** ** The invariant of a group that nobody deschedules from *)

(** What the group promises to keep: the contract [id] with worker [f] waits to be run. *)
Definition ready (o : option (Z * W)) g : Prop :=
  match o with
  | None => True
  | Some (id, f) => 0 <= id /\ exists w, m_workers g !! Z.to_nat id = Some w /\ m_worker w = Some f /\
      Z.testbit (m_flags w) 0 = true /\ Z.testbit (m_flags w) 1 = false /\ Z.testbit (m_flags w) 2 = false
  end.

(** The tree holds the contracts that are scheduled and not executing; [cur] is executing; at least the
    ids below [n] were handed out. *)
Record calm (cur : option Z) (n : Z) (o : option (Z * W)) g : Prop := {
  calm_tree : tree_ok (m_signal_tree g);
  calm_small : capacity (m_signal_tree g) < 2 ^ 32;
  calm_length : Z.of_nat (length (m_workers g)) = capacity (m_signal_tree g);
  calm_next : 0 <= n <= m_next_id (m_signal_tree g) /\ m_next_id (m_signal_tree g) <= capacity (m_signal_tree g);
  calm_flags id w : 0 <= id -> m_workers g !! Z.to_nat id = Some w ->
    scheduled (m_signal_tree g) id = Z.testbit (m_flags w) 0 && negb (Z.testbit (m_flags w) 1) /\
    Z.testbit (m_flags w) 1 = bool_decide (cur = Some id) /\ (m_next_id (m_signal_tree g) <= id -> m_flags w = 0);
  calm_ready : ready o g;
}.

(** A call that uses only ids that were handed out, that does not deschedule, and that does not release [keep]. *)
Definition proper (keep : option Z) (n : Z) (c : Call (W := W) (R := R) (E := E)) : Prop :=
  match c with
  | Create _ _ _ state => state = IDLE \/ state = SCHEDULED
  | Schedule id => 0 <= id < n
  | Deschedule _ => False
  | Release id => 0 <= id < n /\ keep <> Some id
  end.

(** The ids in use after a call that answered [r]. *)
Definition granted (n : Z) (c : Call (W := W) (R := R) (E := E)) (r : outcome Z) : Z :=
  match c, r with Create _ _ _ _, Return id => Z.max n (id + 1) | _, _ => n end.

Fixpoint tame (keep : option Z) (n : Z) (b : Body (W := W) (R := R) (E := E)) : Prop :=
  match b with
  | Returns | Throws => True
  | Calls c k => proper keep n c /\
      forall r, tame keep (granted n c r) (k r)
  end.

Fixpoint orderly (keep : option Z) (actions : list (Action (W := W) (R := R) (E := E))) (s : Pool) : Prop :=
  match actions with
  | [] => True
  | a :: actions =>
      let n := m_next_id (m_signal_tree (group s)) in
      match a with
      | Outside c => proper keep n c
      | Cycle _ behave => forall c id, tame keep n (behave c id)
      end /\
      match act a s with Some s => orderly keep actions s | None => True end
  end.

Lemma calm_id cur n o g id : calm cur n o g -> 0 <= id < n ->
  id < m_next_id (m_signal_tree g) /\ valid_id (m_signal_tree g) id /\ exists w, m_workers g !! Z.to_nat id = Some w.
Proof.
  intros [H1 H2 H3 H4 H5 H6] Hid. split; [lia|]. split; [unfold valid_id; lia|]. apply lookup_lt_is_Some_2. lia.
Qed.

Lemma worker_at_eq g id w : 0 <= id -> m_workers g !! Z.to_nat id = Some w -> worker_at (R := R) (E := E) id g = (g, Return w).
Proof. intros H0 Hw. unfold worker_at, at_index. destruct (Z.ltb_spec id 0); [lia|]. by rewrite Hw. Qed.

(** One contract's flags and its bit change together. *)
Lemma calm_update cur cur' n o o' g g' id w w' :
  calm cur n o g -> 0 <= id < m_next_id (m_signal_tree g) -> m_workers g !! Z.to_nat id = Some w ->
  m_workers g' = <[Z.to_nat id := w']> (m_workers g) ->
  tree_ok (m_signal_tree g') -> capacity (m_signal_tree g') = capacity (m_signal_tree g) ->
  m_next_id (m_signal_tree g') = m_next_id (m_signal_tree g) ->
  (forall id', 0 <= id' -> scheduled (m_signal_tree g') id' =
     if id' =? id then Z.testbit (m_flags w') 0 && negb (Z.testbit (m_flags w') 1) else scheduled (m_signal_tree g) id') ->
  Z.testbit (m_flags w') 1 = bool_decide (cur' = Some id) ->
  (forall id', id' <> id -> cur = Some id' <-> cur' = Some id') ->
  (o' = None \/ o' = o /\ forall f, o = Some (id, f) -> m_worker w = Some f -> m_worker w' = Some f /\
     (Z.testbit (m_flags w) 0 = true -> Z.testbit (m_flags w') 0 = true) /\
     Z.testbit (m_flags w') 1 = Z.testbit (m_flags w) 1 /\ Z.testbit (m_flags w') 2 = Z.testbit (m_flags w) 2) ->
  calm cur' n o' g'.
Proof.
  intros [H1 H2 H3 H4 H5 H6] Hid Hw Hws Ht Hc Hn Hb H1' Hcur Ho.
  assert (Z.to_nat id < length (m_workers g))%nat as Hlt by (by eapply lookup_lt_Some).
  split; [done|by rewrite Hc|by rewrite Hws, length_insert, Hc|by rewrite Hn, Hc|..].
  - intros id' w1 H0 E1. rewrite Hws in E1. rewrite Hb, Hn by done. destruct (Z.eqb_spec id' id) as [->|Hne].
    + rewrite list_lookup_insert_eq in E1 by done. injection E1 as <-. split; [done|]. split; [done|lia].
    + rewrite list_lookup_insert_ne in E1 by lia. destruct (H5 id' w1 H0 E1) as (F1 & F2 & F3). split; [done|].
      split; [|done]. rewrite F2. apply bool_decide_ext. by apply Hcur.
  - destruct Ho as [->|[-> Ho]]; [done|]. destruct o as [[id1 f]|]; [|done]. destruct H6 as (G0 & w1 & G1 & G2 & G3 & G4 & G5).
    cbn. split; [done|]. rewrite Hws. destruct (decide (id1 = id)) as [->|Hne].
    + rewrite list_lookup_insert_eq by done. exists w'. rewrite Hw in G1. injection G1 as <-.
      destruct (Ho f eq_refl G2) as (K1 & K2 & K3 & K4). rewrite K3, K4. auto.
    + rewrite list_lookup_insert_ne by lia. by exists w1.
Qed.

Lemma bit_unchanged cur n o g id w : calm cur n o g -> 0 <= id -> m_workers g !! Z.to_nat id = Some w ->
  forall b id', b = Z.testbit (m_flags w) 0 && negb (Z.testbit (m_flags w) 1) ->
  scheduled (m_signal_tree g) id' = if id' =? id then b else scheduled (m_signal_tree g) id'.
Proof. intros H H0 Hw b id' ->. destruct (Z.eqb_spec id' id) as [->|]; [|done]. by eapply calm_flags. Qed.

Lemma calm_publish cur n o e : keeps (fun g g' => calm cur n o g -> calm cur n o g') (publish e).
Proof. intros g []. by split. Qed.

Lemma calm_schedule cur n o id g : calm cur n o g -> 0 <= id < n -> calm cur n o (schedule id g).1.
Proof.
  intros H Hid. destruct (calm_id _ _ _ _ id H Hid) as (Hlt & Hv & w & Hw). pose proof (calm_flags _ _ _ _ H id w ltac:(lia) Hw) as (F1 & F2 & F3).
  unfold schedule. rewrite (bind_eq _ _ _ _ _ (worker_at_eq g id w ltac:(lia) Hw)), is_released_bit, is_scheduled_bit.
  destruct (Z.testbit (m_flags w) 2) eqn:E2; [done|]. destruct (Z.testbit (m_flags w) 0) eqn:E0; [by apply calm_publish|].
  unfold Worker.schedule, fetch_or. rewrite changed_bits, E0. cbn [negb andb].
  destruct (lor_scheduled (m_flags w)) as (B0 & B1 & B2). cbn in F1.
  assert (forall cur' g', m_workers g' = <[Z.to_nat id := set_flags (Z.lor (m_flags w) SCHEDULED) w]> (m_workers g) ->
    tree_ok (m_signal_tree g') -> capacity (m_signal_tree g') = capacity (m_signal_tree g) ->
    m_next_id (m_signal_tree g') = m_next_id (m_signal_tree g) -> cur' = cur ->
    (forall id', 0 <= id' -> scheduled (m_signal_tree g') id' =
       if id' =? id then negb (Z.testbit (m_flags w) 1) else scheduled (m_signal_tree g) id') -> calm cur' n o g') as Hup.
  { intros cur' g' U1 U2 U3 U4 -> U5. eapply (calm_update cur cur n o o g g' id w); try done; [lia|..].
    - intros id' ?. rewrite U5 by done. cbn in *. by rewrite B0, B1.
    - cbn in *. by rewrite B1.
    - right. split; [done|]. intros f _ Hf. cbn in *. rewrite B0, B1, B2. by repeat split. }
  destruct (Z.testbit (m_flags w) 1) eqn:E1; cbn [negb] in *.
  - apply Hup; try done; [apply H|]. intros id' ?. destruct (Z.eqb_spec id' id) as [->|]; [done|done].
  - destruct (schedule_ok id (m_signal_tree g) Hv (calm_tree _ _ _ _ H) F1) as (t' & Et & T1 & T2 & T3 & T4).
    unfold mbind, step_bind, set_worker, modify, when, on_tree. cbn [m_signal_tree]. rewrite Et. cbn [fst]. by apply Hup.
Qed.

Lemma calm_release cur n o id g : calm cur n o g -> 0 <= id < n -> fst <$> o <> Some id -> calm cur n o (release id g).1.
Proof.
  intros H Hid Ho. destruct (calm_id _ _ _ _ id H Hid) as (Hlt & Hv & w & Hw). pose proof (calm_flags _ _ _ _ H id w ltac:(lia) Hw) as (F1 & F2 & F3).
  unfold release. rewrite (bind_eq _ _ _ _ _ (worker_at_eq g id w ltac:(lia) Hw)). destruct (lor_released (m_flags w)) as (B0 & B1 & B2).
  unfold set_worker. rewrite bind_modify. set (w' := add_flags RELEASED w).
  set (g' := mkGroup _ _ _ _ _).
  assert (m_workers g' !! Z.to_nat id = Some w') as Hw' by (cbn; apply list_lookup_insert_eq; by eapply lookup_lt_Some).
  assert (calm cur n o g') as H'.
  { eapply (calm_update cur cur n o o g g' id w); try done; [lia|apply H|..].
    - intros id' ?. subst g' w'. cbn in *. rewrite B0, B1. by eapply bit_unchanged; [|lia|done|].
    - subst w'. cbn in *. by rewrite B1.
    - right. split; [done|]. intros f ->. by destruct Ho. }
  rewrite (bind_eq _ _ _ _ _ (worker_at_eq g' id w' ltac:(lia) Hw')). destruct (is_scheduled w'); [done|].
  unfold schedule. rewrite (bind_eq _ _ _ _ _ (worker_at_eq g' id w' ltac:(lia) Hw')), is_released_bit.
  subst w'. cbn in B2 |- *. by rewrite B2.
Qed.

(** A slot that has not been handed out is empty, so that it can be filled. *)
Lemma calm_fill cur n o g w :
  calm cur n o g -> m_next_id (m_signal_tree g) < capacity (m_signal_tree g) -> Z.testbit (m_flags w) 1 = false ->
  forall g' t, m_workers g' = <[Z.to_nat (m_next_id (m_signal_tree g)) := w]> (m_workers g) -> m_signal_tree g' = t ->
  tree_ok t -> capacity t = capacity (m_signal_tree g) -> m_next_id t = m_next_id (m_signal_tree g) + 1 ->
  (forall id', 0 <= id' -> scheduled t id' =
     if id' =? m_next_id (m_signal_tree g) then Z.testbit (m_flags w) 0 else scheduled (m_signal_tree g) id') ->
  calm cur (m_next_id (m_signal_tree g) + 1) o g'.
Proof.
  intros [H1 H2 H3 H4 H5 H6] Hlt Hw g' t Hws Ht Hok Hc Hn Hb.
  set (id := m_next_id (m_signal_tree g)) in *.
  assert (exists w0, m_workers g !! Z.to_nat id = Some w0) as (w0 & Hw0) by (apply lookup_lt_is_Some_2; lia).
  destruct (H5 id w0 ltac:(lia) Hw0) as (_ & F2 & F3). rewrite (F3 ltac:(lia)) in F2. change (Z.testbit 0 1) with false in F2.
  split; rewrite ?Ht; [done|by rewrite Hc|by rewrite Hws, length_insert, Hc|lia|..].
  - intros id' w1 H0 E1. rewrite Hws in E1. rewrite Hb, Hn by done. destruct (Z.eqb_spec id' id) as [->|Hne].
    + rewrite list_lookup_insert_eq in E1 by (by eapply lookup_lt_Some). injection E1 as <-. rewrite Hw.
      split; [by rewrite andb_true_r|]. split; [done|lia].
    + rewrite list_lookup_insert_ne in E1 by lia. destruct (H5 id' w1 H0 E1) as (G1 & G2 & G3).
      split; [done|]. split; [done|]. intros. apply G3. lia.
  - destruct o as [[id1 f]|]; [|done]. destruct H6 as (G0 & w1 & G1 & G2 & G3 & G4). cbn. split; [done|]. rewrite Hws.
    rewrite list_lookup_insert_ne; [by exists w1|]. intros E1. assert (id1 = id) as -> by lia.
    rewrite Hw0 in G1. injection G1 as <-. by rewrite (F3 ltac:(lia)) in G3.
Qed.

Lemma calm_raise cur n n' o g : calm cur n o g -> 0 <= n' <= m_next_id (m_signal_tree g) -> calm cur n' o g.
Proof. intros [H1 H2 H3 H4 H5 H6] Hn. split; try done. lia. Qed.

Lemma calm_create cur n o g worker r e state : calm cur n o g -> state = IDLE \/ state = SCHEDULED ->
  match create worker r e state g with
  | (g', Return id) => calm cur (Z.max n (id + 1)) o g'
  | (g', Throw _) => calm cur n o g'
  end.
Proof.
  intros H Hst. pose proof H as [H1 H2 H3 H4 H5 H6]. unfold create, add_worker.
  unfold mbind, step_bind, free_id. destruct (free_contract_id (m_signal_tree g)) as [[id t]|x] eqn:Ef; [|done].
  destruct (free_id_tree _ _ _ (ok_shape _ H1) H2 ltac:(lia) Ef) as (Hid & Hlt & ->). subst id.
  set (id := m_next_id (m_signal_tree g)) in *. set (t := mkTree _ _).
  assert (forall id', scheduled t id' = scheduled (m_signal_tree g) id') as Hsame by done.
  assert (tree_ok t) as Ht by (destruct H1 as [[S1 S2] C]; by split).
  assert (Z.max n (id + 1) = id + 1) as Hmax by lia.
  destruct (H5 id (default empty (m_workers g !! Z.to_nat id)) ltac:(lia)) as (F1 & _ & F3).
  { destruct (lookup_lt_is_Some_2 (m_workers g) (Z.to_nat id) ltac:(lia)) as [w0 ->]. done. }
  rewrite (F3 ltac:(lia)) in F1. change (Z.testbit 0 0 && _) with false in F1.
  destruct Hst as [-> | ->]; cbn -[SignalTree.schedule].
  - rewrite Hmax. eapply (calm_fill _ n o g (mkWorker W (Some worker) IDLE) H Hlt eq_refl); try done. intros id' H0. rewrite Hsame.
    change (Z.testbit _ 0) with false. fold id. by destruct (Z.eqb_spec id' id) as [->|].
  - unfold on_tree. cbn [m_signal_tree].
    destruct (schedule_ok id t) as (t' & Et & T1 & T2 & T3 & T4); [unfold valid_id; change (capacity t) with (capacity (m_signal_tree g)); lia|done|done|].
    rewrite Et. cbn -[Z.max]. rewrite Hmax. eapply (calm_fill _ n o g (mkWorker W (Some worker) SCHEDULED) H Hlt eq_refl); done.
Qed.

Lemma calm_perform cur n o g c : calm cur n o g -> proper (fst <$> o) n c ->
  calm cur (granted n c (perform c g).2) o (perform c g).1.
Proof.
  intros H Hc. destruct c as [worker r e state|id|id|id]; cbn [perform proper] in *.
  - pose proof (calm_create cur n o g worker r e state H Hc) as Hp. by destruct (create worker r e state g) as [g' [id|x]].
  - pose proof (calm_schedule cur n o id g H Hc) as Hp. unfold mbind, step_bind. by destruct (schedule id g) as [g' [u|x]].
  - done.
  - destruct Hc as [Hid Hk]. pose proof (calm_release cur n o id g H Hid Hk) as Hp.
    unfold mbind, step_bind. by destruct (release id g) as [g' [u|x]].
Qed.

Lemma calm_weaken cur n n' o o' g : calm cur n o g -> 0 <= n' <= n -> o' = o \/ o' = None -> calm cur n' o' g.
Proof. intros [H1 H2 H3 H4 H5 H6] Hn Ho. split; try done; [lia|]. by destruct Ho as [-> | ->]. Qed.

Lemma tame_weaken keep n b : tame keep n b -> tame None n b.
Proof.
  revert n. induction b as [| |c k IH]; intros n; [done..|]. cbn [tame]. intros [Hc Hk]. split.
  - destruct c; try done. by destruct Hc.
  - intros r. by apply IH.
Qed.

Lemma calm_run_body cur n o b g : calm cur n o g -> tame (fst <$> o) n b -> calm cur n o (run_body b g).1.
Proof.
  revert n g. induction b as [| |c k IH]; intros n g H Hb; [done..|]. destruct Hb as [Hc Hk]. cbn [run_body]. unfold caught.
  pose proof (calm_perform cur n o g c H Hc) as Hp. destruct (perform c g) as [g1 r]. cbn [fst snd] in Hp.
  assert (0 <= n) as Hn by (destruct (calm_next _ _ _ _ H); lia).
  assert (n <= granted n c r) as Hle by (destruct c; [destruct r|..]; cbn; lia).
  destruct (undefined r); cbn [fst]; [by apply (calm_weaken _ _ _ _ _ _ Hp); [|left]|].
  apply (calm_weaken _ _ _ _ _ _ (IH r _ _ Hp (Hk r))); [done|by left].
Qed.

Section Cycle.
Context (behave : Behaviour (W := W) (R := R) (E := E)) (keep : option Z) (n : Z) (o : option (Z * W)).
Hypothesis Htame : forall c id, tame (fst <$> o) n (behave c id).

Lemma calm_run_code cur id c : keeps (fun g g' => calm cur n o g -> calm cur n o g') (run_code behave id c).
Proof.
  intros g H. unfold run_code, publish. rewrite bind_modify. apply calm_run_body; [by apply (calm_publish cur n o (Ran id c) g)|done].
Qed.

#[local] Instance calm_preorder cur : PreOrder (fun g g' => calm cur n o g -> calm cur n o g').
Proof. split; [by intros g|]. intros g1 g2 g3. auto. Qed.

Lemma calm_handle cur id phase m : keeps (fun g g' => calm cur n o g -> calm cur n o g') m ->
  keeps (fun g g' => calm cur n o g -> calm cur n o g') (handle behave id phase m).
Proof.
  intros Hm. unfold handle. apply keeps_caught; [apply _|done|]. intros [a|e]; [apply keeps_ret, _|].
  apply keeps_bind; [apply _|apply calm_publish|]. intros _. apply keeps_bind; [apply _|apply keeps_gets, _|].
  intros [h|]; [apply calm_run_code|apply keeps_raise, _].
Qed.

(** The contract that executes. *)
Lemma calm_executing g id : calm (Some id) n o g -> 0 <= id < m_next_id (m_signal_tree g) ->
  exists w, m_workers g !! Z.to_nat id = Some w /\ Z.testbit (m_flags w) 1 = true /\ scheduled (m_signal_tree g) id = false.
Proof.
  intros H Hid. destruct (calm_id _ _ _ _ id (calm_raise _ _ (m_next_id (m_signal_tree g)) _ _ H ltac:(lia)) Hid) as (_ & _ & w & Hw).
  exists w. split; [done|]. destruct (calm_flags _ _ _ _ H id w ltac:(lia) Hw) as (F1 & F2 & _).
  rewrite bool_decide_eq_true_2 in F2 by done. split; [done|]. by rewrite F1, F2, andb_false_r.
Qed.

Lemma not_kept g id w : m_workers g !! Z.to_nat id = Some w -> Z.testbit (m_flags w) 1 = true -> ready o g ->
  forall f, o <> Some (id, f).
Proof. intros Hw H1 Hr f ->. destruct Hr as (_ & w1 & E1 & _ & _ & H2 & _). congruence. Qed.

Lemma calm_erase id g : calm (Some id) n o g -> 0 <= id < m_next_id (m_signal_tree g) -> calm None n o (erase id g).1.
Proof.
  intros H Hid. destruct (calm_executing g id H Hid) as (w & Hw & H1 & Hb).
  eapply (calm_update (Some id) None n o o g _ id w empty); try done; [apply H|..].
  - intros id' _. change (Z.testbit (m_flags empty) 0) with false. cbn. destruct (Z.eqb_spec id' id) as [->|]; [done|done].
  - intros id' Hne. split; congruence.
  - right. split; [done|]. intros f Hf. by destruct (not_kept _ _ _ Hw H1 (calm_ready _ _ _ _ H) f).
Qed.

Lemma calm_clear_execute id g : calm (Some id) n o g -> 0 <= id < m_next_id (m_signal_tree g) -> calm None n o (clear_execute id g).1.
Proof.
  intros H Hid. destruct (calm_executing g id H Hid) as (w & Hw & H1 & Hb).
  unfold clear_execute. rewrite (bind_eq _ _ _ _ _ (worker_at_eq g id w ltac:(lia) Hw)). unfold fetch_and. rewrite again_bit.
  unfold set_worker. rewrite bind_modify. set (w' := set_flags _ w). destruct (land_executing (m_flags w)) as (B0 & B1 & B2). cbn in B1.
  assert (forall g', m_workers g' = <[Z.to_nat id := w']> (m_workers g) ->
    tree_ok (m_signal_tree g') -> capacity (m_signal_tree g') = capacity (m_signal_tree g) ->
    m_next_id (m_signal_tree g') = m_next_id (m_signal_tree g) ->
    (forall id', 0 <= id' -> scheduled (m_signal_tree g') id' =
       if id' =? id then Z.testbit (m_flags w) 0 else scheduled (m_signal_tree g) id') -> calm None n o g') as Hup.
  { intros g' U1 U2 U3 U4 U5. eapply (calm_update (Some id) None n o o g g' id w w'); try done.
    - intros id' ?. rewrite U5 by done. subst w'. cbn in *. by rewrite B0, B1, andb_true_r.
    - intros id' Hne. split; congruence.
    - right. split; [done|]. intros f Hf. by destruct (not_kept _ _ _ Hw H1 (calm_ready _ _ _ _ H) f). }
  destruct (Z.testbit (m_flags w) 0); cbn [when].
  - unfold caught, on_tree. cbn [m_signal_tree].
    destruct (schedule_ok id (m_signal_tree g)) as (t' & Et & T1 & T2 & T3 & T4); [unfold valid_id; destruct (calm_next _ _ _ _ H); lia|apply H|done|].
    rewrite Et. cbn. by apply Hup.
  - apply Hup; try done; [apply H|]. intros id' _. destruct (Z.eqb_spec id' id) as [->|]; [done|done].
Qed.

Lemma calm_finally id m f g : keeps (fun g g' => calm (Some id) n o g -> calm (Some id) n o g') m -> 0 <= id < n ->
  (forall g, calm (Some id) n o g -> 0 <= id < m_next_id (m_signal_tree g) -> calm None n o (f g).1) ->
  calm (Some id) n o g -> calm None n o (finally (A := unit) m f g).1.
Proof.
  intros Hm Hid Hf H. unfold finally. specialize (Hm g H). destruct (m g) as [g1 r]. cbn in *. apply Hf; [done|].
  destruct (calm_next _ _ _ _ Hm). lia.
Qed.

Lemma calm_run_claimed id g : calm (Some id) n o g -> 0 <= id < n -> calm None n o (run_claimed behave id g).1.
Proof.
  intros H Hid. destruct (calm_id _ _ _ _ id H Hid) as (_ & _ & w & Hw).
  unfold run_claimed. rewrite (bind_eq _ _ _ _ _ (worker_at_eq g id w ltac:(lia) Hw)). destruct (is_released w).
  - rewrite bind_gets. apply (calm_finally id); [|done|apply calm_erase|done].
    destruct (default _ _); [apply calm_handle, calm_run_code|apply keeps_ret, _].
  - apply (calm_finally id); [|done|apply calm_clear_execute|done].
    destruct (m_worker w); [apply calm_handle, calm_run_code|apply keeps_ret, _].
Qed.

End Cycle.

(** A claim: the contract leaves the tree and executes. *)
Lemma claim_found behave e n o o' g id bias :
  calm None n o g -> next (bias_flags e) (m_signal_tree g) = (Some id, bias) ->
  o' = None \/ o' = o /\ (forall f, o <> Some (id, f)) ->
  exists g1 w w1, process_next_contract behave e g = (_ ← run_claimed behave id; mret (mkExecutor bias NO_ID)) g1 /\
    calm (Some id) n o' g1 /\ 0 <= id < m_next_id (m_signal_tree g) /\ log g1 = log g /\
    m_workers g !! Z.to_nat id = Some w /\ m_workers g1 !! Z.to_nat id = Some w1 /\ m_worker w1 = m_worker w /\
    is_released w1 = is_released w.
Proof.
  intros H En Ho. destruct (next_scheduled _ _ _ _ (ok_shape _ (calm_tree _ _ _ _ H)) En) as [Hv Hb].
  destruct (lookup_lt_is_Some_2 (m_workers g) (Z.to_nat id)) as [w Hw].
  { destruct Hv. pose proof (calm_length _ _ _ _ H). lia. }
  destruct Hv as [H0 Hcap]. destruct (calm_flags _ _ _ _ H id w H0 Hw) as (F1 & F2 & F3). rewrite Hb in F1.
  symmetry in F1. apply andb_prop in F1 as [F0 _].
  assert (id < m_next_id (m_signal_tree g)) as Hlt.
  { destruct (Z.lt_ge_cases id (m_next_id (m_signal_tree g))) as [|Hge]; [done|]. by rewrite (F3 Hge) in F0. }
  destruct (deschedule_ok id (m_signal_tree g)) as (t' & Et & T1 & T2 & T3 & T4); [done|apply H|done|].
  set (w1 := set_flags (DESIRED (m_flags w)) w). destruct (desired_bits (m_flags w)) as (B0 & B1 & B2). cbn in B0, B1, B2.
  exists (mkGroup t' (<[Z.to_nat id := w1]> (m_workers g)) (m_releasers g) (m_errors g) (log g)), w, w1. split.
  { unfold process_next_contract. rewrite bind_gets, En. rewrite (bind_eq _ _ _ _ _ (worker_at_eq g id w H0 Hw)), try_claim_eq, F0.
    unfold set_worker. rewrite bind_modify. fold w1. refine (bind_eq _ _ _ _ tt _). unfold on_tree. cbn [m_signal_tree]. by rewrite Et. }
  split.
  { eapply (calm_update None (Some id) n o o' g _ id w w1); try done.
    - intros id' ?. cbn [m_signal_tree]. rewrite T4 by done. subst w1. cbn [m_flags set_flags]. by rewrite B0, B1.
    - subst w1. cbn [m_flags set_flags]. rewrite B1. by rewrite bool_decide_eq_true_2.
    - intros id' Hne. split; congruence.
    - destruct Ho as [->|[-> Hno]]; [by left|]. right. split; [done|]. intros f Hf. by destruct (Hno f). }
  repeat split; try done.
  - cbn. apply list_lookup_insert_eq. by eapply lookup_lt_Some.
  - rewrite !is_released_bit. subst w1. cbn [m_flags set_flags]. by rewrite B2.
Qed.

(** ** The log *)

Definition grew g g' : Prop := exists events, log g' = log g ++ events.

#[local] Instance grew_preorder : PreOrder grew.
Proof.
  split; [intros g; exists []; by rewrite app_nil_r|]. intros g1 g2 g3 [l1 E1] [l2 E2]. exists (l1 ++ l2).
  by rewrite E2, E1, app_assoc.
Qed.

Lemma grew_same g g' : log g' = log g -> grew g g'.
Proof. intros Hl. exists []. by rewrite Hl, app_nil_r. Qed.

Lemma grew_publish e : keeps grew (publish e).
Proof. intros g. by exists [e]. Qed.
Lemma grew_worker_at id : keeps grew (worker_at id).
Proof. intros g. by apply grew_same. Qed.
Lemma grew_set_worker id w : keeps grew (set_worker id w).
Proof. intros g. by apply grew_same. Qed.
Lemma grew_set_slots id r e : keeps grew (set_slots id r e).
Proof. intros g. by apply grew_same. Qed.
Lemma grew_on_tree f : keeps grew (on_tree f).
Proof. intros g. apply grew_same. unfold on_tree. by destruct (f (m_signal_tree g)). Qed.
Lemma grew_free_id : keeps grew free_id.
Proof. intros g. apply grew_same. unfold free_id. by destruct (free_contract_id (m_signal_tree g)) as [[id t]|e]. Qed.

#[local] Hint Resolve grew_publish grew_worker_at grew_set_worker grew_set_slots grew_on_tree grew_free_id : steps.

Lemma grew_perform c : keeps grew (perform c).
Proof.
  assert (forall id, keeps grew (schedule id)) as Hs by (intros id; unfold schedule; keep).
  destruct c; cbn [perform]; unfold create, add_worker, deschedule, release; keep.
Qed.

Lemma grew_run_body b : keeps grew (run_body b).
Proof.
  induction b as [| |c k IH]; cbn [run_body]; [keep..|]. apply keeps_caught; [apply _|apply grew_perform|done].
Qed.

Lemma grew_run_code behave id c : keeps grew (run_code behave id c).
Proof. unfold run_code. apply keeps_bind; [apply _|apply grew_publish|]. intros _. apply grew_run_body. Qed.

Lemma grew_handle behave id phase m : keeps grew m -> keeps grew (handle behave id phase m).
Proof.
  intros Hm. unfold handle. apply keeps_caught; [apply _|done|]. pose proof grew_run_code. intros o. keep.
Qed.

Lemma grew_clear_execute id : keeps grew (clear_execute id).
Proof. unfold clear_execute. keep. apply keeps_caught; [apply _|apply grew_on_tree|]. intros o. keep. Qed.

Lemma grew_run_claimed behave id : keeps grew (run_claimed behave id).
Proof.
  unfold run_claimed. pose proof grew_run_code. pose proof grew_handle. pose proof grew_clear_execute.
  apply keeps_bind; [apply _|apply grew_worker_at|]. intros w. destruct (is_released w).
  - apply keeps_bind; [apply _|apply keeps_gets, _|]. intros r. apply keeps_finally; [apply _|keep|unfold erase; keep].
  - apply keeps_finally; [apply _|keep|done].
Qed.

Lemma grew_process behave e : keeps grew (process_next_contract behave e).
Proof. unfold process_next_contract. pose proof grew_run_claimed. keep. Qed.

(** A contract that is ready and claimed is run. *)
Lemma claimed_runs behave id f g w : m_workers g !! Z.to_nat id = Some w -> 0 <= id -> m_worker w = Some f -> is_released w = false ->
  exists events, log (run_claimed behave id g).1 = log g ++ events /\ Ran id (Work f) ∈ events.
Proof.
  intros Hw H0 Hf Hr. unfold run_claimed. rewrite (bind_eq _ _ _ _ _ (worker_at_eq g id w H0 Hw)), Hr, Hf.
  unfold finally, handle, caught. set (g1 := (publish (Ran id (Work f)) g).1).
  assert (grew g1 (run_code behave id (Work f) g).1) as H1 by apply (grew_run_body _ g1).
  assert (exists events, log g1 = log g ++ events /\ Ran id (Work f) ∈ events) as (l & El & Hin) by (exists [Ran id (Work f)]; split; [done|by left]).
  destruct (run_code behave id (Work f) g) as [g2 r]. cbn [fst] in *.
  assert (forall g', grew g2 g' -> exists events, log g' = log g ++ events /\ Ran id (Work f) ∈ events) as Hend.
  { intros g' [l' E']. destruct H1 as [l1 E1]. exists (l ++ l1 ++ l'). rewrite E', E1, El, !app_assoc. split; [done|].
    rewrite !elem_of_app. auto. }
  pose proof (grew_handle behave id (Work f) (fun g => (g, r)) ltac:(intros ?; reflexivity) g2) as Hh.
  unfold handle, caught in Hh. destruct (undefined r).
  - apply Hend. apply grew_clear_execute.
  - match type of Hh with grew _ ?x.1 => destruct x as [g3 r3] end. apply Hend. etransitivity; [apply Hh|apply grew_clear_execute].
Qed.

(** ** Runs of a pool *)

Notation next_id s := (m_next_id (m_signal_tree (group s))).

Definition proper_action (keep : option Z) (n : Z) (a : Action (W := W) (R := R) (E := E)) : Prop :=
  match a with Outside c => proper keep n c | Cycle _ behave => forall c id, tame keep n (behave c id) end.

(** The contract that is kept was run. *)
Definition kept_ran (o : option (Z * W)) g g' : Prop :=
  exists id f events, o = Some (id, f) /\ log g' = log g ++ events /\ Ran id (Work f) ∈ events.

Lemma calm_here cur n o g : calm cur n o g -> calm cur (m_next_id (m_signal_tree g)) o g.
Proof. intros H. apply (calm_raise _ n); [done|]. destruct (calm_next _ _ _ _ H). lia. Qed.

Lemma calm_process behave e o g g' r : calm None (m_next_id (m_signal_tree g)) o g ->
  (forall c id, tame (fst <$> o) (m_next_id (m_signal_tree g)) (behave c id)) ->
  process_next_contract behave e g = (g', r) ->
  calm None (m_next_id (m_signal_tree g)) None g' /\
  (calm None (m_next_id (m_signal_tree g)) o g' /\ (forall id bias f, next (bias_flags e) (m_signal_tree g) = (Some id, bias) -> o <> Some (id, f))
   \/ kept_ran o g g') /\
  (forall e', r = Return e' -> bias_flags e' = (next (bias_flags e) (m_signal_tree g)).2).
Proof.
  intros H Ht Ep. set (n := m_next_id (m_signal_tree g)) in *.
  destruct (next (bias_flags e) (m_signal_tree g)) as [[id|] bias] eqn:En; cycle 1.
  { unfold process_next_contract in Ep. rewrite bind_gets, En in Ep. injection Ep as <- <-.
    split; [apply (calm_weaken _ n _ o); [done|destruct (calm_next _ _ _ _ H); lia|by right]|].
    split; [left; split; [done|congruence]|]. by intros e' [= <-]. }
  assert (forall o', o' = None \/ o' = o /\ (forall f, o <> Some (id, f)) -> calm None n o' g' /\
    (forall e', r = Return e' -> bias_flags e' = bias)) as Hfound.
  { intros o' Ho. destruct (claim_found behave e n o o' g id bias H En Ho) as (g1 & w & w1 & E1 & H1 & Hid & _). rewrite E1 in Ep.
    assert (forall c id, tame (fst <$> o') n (behave c id)) as Ht'.
    { intros c i. destruct Ho as [->|[-> _]]; [by eapply tame_weaken|done]. }
    pose proof (calm_run_claimed behave n o' Ht' id g1 H1 Hid) as Hc. unfold mbind, step_bind in Ep.
    destruct (run_claimed behave id g1) as [g2 [u|x]]; injection Ep as <- <-; (split; [done|]); [by intros e' [= <-]|done]. }
  destruct (Hfound None ltac:(by left)) as [Hnone Hbias]. split; [done|]. split; [|done].
  destruct (decide (fst <$> o = Some id)) as [Ho|Ho].
  - right. destruct o as [[id0 f]|]; [|done]. injection Ho as ->.
    destruct (claim_found behave e n _ None g id bias H En ltac:(by left)) as (g1 & w & w1 & E1 & _ & Hid & Hl & Hw & Hw1 & Hf & Hr).
    pose proof (calm_ready _ _ _ _ H) as (_ & w' & Ew & Fw & _ & _ & Rw). rewrite Hw in Ew. injection Ew as <-.
    rewrite Fw in Hf.
    destruct (claimed_runs behave id f g1 w1 Hw1 ltac:(lia) Hf) as (evs & El & Hin).
    { by rewrite Hr, is_released_bit. }
    exists id, f, evs. split; [done|]. split; [|done]. rewrite E1 in Ep. rewrite <- Hl, <- El. unfold mbind, step_bind in Ep.
    destruct (run_claimed behave id g1) as [g2 [u|x]]; by injection Ep as <- _.
  - left. split; [|intros id' b f [= -> ->] ->; by destruct Ho].
    apply (Hfound o). right. split; [done|]. intros f ->. by destruct Ho.
Qed.

Lemma calm_act o a s s' : calm None (next_id s) o (group s) -> proper_action (fst <$> o) (next_id s) a -> act a s = Some s' ->
  calm None (next_id s') None (group s') /\ next_id s <= next_id s' /\
  (calm None (next_id s') o (group s') \/ kept_ran o (group s) (group s')).
Proof.
  intros H Ha. assert (forall o' g', calm None (next_id s) o' g' -> calm None (m_next_id (m_signal_tree g')) o' g' /\
    next_id s <= m_next_id (m_signal_tree g')) as Hup by (intros o' g' H'; split; [by eapply calm_here|apply (calm_next _ _ _ _ H')]).
  destruct a as [c|i behave]; cbn [act].
  - pose proof (calm_perform _ _ _ _ c H Ha) as Hp. destruct (perform c (group s)) as [g r]. cbn [fst snd] in Hp.
    destruct (undefined r); [done|]. intros [= <-]. cbn [group].
    assert (next_id s <= granted (next_id s) c r) as Hle by (destruct c; [destruct r|..]; cbn; lia).
    destruct (calm_next _ _ _ _ Hp) as [Hn _]. split; [|split; [lia|left; by eapply calm_here]].
    eapply (calm_weaken _ (m_next_id (m_signal_tree g)) _ o); [by eapply calm_here|lia|by right].
  - intros (e & _ & Hc)%bind_Some. destruct (process_next_contract behave e (group s)) as [g [e'|x]] eqn:Ep; [|done].
    injection Hc as <-. destruct (calm_process behave e o _ _ _ H Ha Ep) as (H1 & H2 & _). cbn [group].
    destruct (Hup None g H1) as [H3 H4]. split; [done|]. split; [done|]. destruct H2 as [[H2 _]|H2]; [left; by apply Hup|by right].
Qed.

Lemma calm_run keep actions s s' : calm None (next_id s) None (group s) -> orderly keep actions s -> run actions s = Some s' ->
  calm None (next_id s') None (group s') /\ next_id s <= next_id s'.
Proof.
  revert s. induction actions as [|a actions IH]; intros s H; cbn [run orderly]; [intros _ [= <-]; by split|].
  intros [Ha Ho] (s1 & Es & Hr)%bind_Some. rewrite Es in Ho.
  assert (proper_action None (next_id s) a) as Ha'.
  { destruct a as [c|i behave]; cbn in *; [destruct c; try done; by destruct Ha|]. intros c id. by eapply tame_weaken. }
  destruct (calm_act None a s s1 H Ha' Es) as (H1 & H2 & _). destruct (IH s1 H1 Ho Hr) as [H3 H4]. split; [done|lia].
Qed.

Lemma start_calm NUM_ROUTERS threads : 512 * Z.of_nat NUM_ROUTERS < 2 ^ 32 ->
  calm None 0 None (group (start NUM_ROUTERS threads)).
Proof.
  intros Hn. cbn. split; cbn; [apply new_tree_ok; lia|..|done].
  - unfold capacity, new_tree. cbn. by rewrite length_replicate.
  - unfold capacity, new_tree. cbn. rewrite !length_replicate. lia.
  - unfold capacity, new_tree. cbn. rewrite length_replicate. lia.
  - intros id w _ Hw. apply lookup_replicate in Hw as [-> _]. rewrite new_tree_scheduled. repeat split.
Qed.

(** The number of cycles that thread [i] makes. *)
Fixpoint cycles (i : nat) (actions : list (Action (W := W) (R := R) (E := E))) : nat :=
  match actions with
  | [] => 0
  | Cycle j _ :: actions => if decide (j = i) then S (cycles i actions) else cycles i actions
  | _ :: actions => cycles i actions
  end.

Lemma calm_branch cur n o g : calm cur n o g -> m_next_id (m_signal_tree g) <= 64 -> in_branch 0 (m_signal_tree g).
Proof.
  intros H Hn id H0 Hb. pose proof (calm_length _ _ _ _ H) as Hl.
  destruct (m_workers g !! Z.to_nat id) as [w|] eqn:Ew.
  - destruct (calm_flags _ _ _ _ H id w H0 Ew) as (F1 & _ & F3). rewrite Hb in F1.
    destruct (Z.lt_ge_cases id (m_next_id (m_signal_tree g))); [mlia|]. by rewrite F3 in F1 by lia.
  - apply lookup_ge_None in Ew. exfalso. unfold scheduled, leaf, router in Hb.
    rewrite lookup_ge_None_2 in Hb; [|unfold capacity in Hl; mlia]. cbn in Hb. unfold child in Hb. cbn [m_children new_node] in Hb.
    destruct (replicate 8 0 !! _) as [v|] eqn:Ev; [apply lookup_replicate in Ev as [-> _]|]; cbn in Hb; by rewrite Z.bits_0 in Hb.
Qed.

Lemma grew_act a s s' : act a s = Some s' -> grew (group s) (group s').
Proof.
  destruct a as [c|j behave]; cbn [act].
  - pose proof (grew_perform c (group s)) as Hg. destruct (perform c (group s)) as [g r]. destruct (undefined r); [done|]. by intros [= <-].
  - intros (ej & _ & Es)%bind_Some. pose proof (grew_process behave ej (group s)) as Hg.
    destruct (process_next_contract behave ej (group s)) as [g [e'|x]]; [|done]. by injection Es as <-.
Qed.

Lemma grew_run actions s s' : run actions s = Some s' -> grew (group s) (group s').
Proof.
  revert s. induction actions as [|a actions IH]; intros s; cbn [run]; [by intros [= <-]|].
  intros (s1 & Es & Hr)%bind_Some. etransitivity; [by eapply grew_act|by apply IH].
Qed.

(** An action runs the contract, or brings the cursor of thread [i] closer to it when it is a cycle of [i]. *)
Lemma act_turn a id f s s1 i e :
  calm None (next_id s) (Some (id, f)) (group s) -> proper_action (Some id) (next_id s) a -> act a s = Some s1 ->
  next_id s <= 64 -> executors s !! i = Some e ->
  kept_ran (Some (id, f)) (group s) (group s1) \/
  calm None (next_id s1) (Some (id, f)) (group s1) /\ exists e', executors s1 !! i = Some e' /\
    turns_left id (bias_flags e') + Z.of_nat (cycles i [a]) <= turns_left id (bias_flags e).
Proof.
  intros H Ha Es Hn He. destruct (calm_act _ a s s1 H Ha Es) as (_ & _ & [H2|H2]); [|by left].
  destruct a as [c|j behave]; cbn [act] in Es.
  - right. split; [done|]. destruct (perform c (group s)) as [g r]. destruct (undefined r); [done|]. injection Es as <-.
    exists e. split; [done|]. cbn. lia.
  - apply bind_Some in Es as (ej & Ej & Es). destruct (process_next_contract behave ej (group s)) as [g [e'|x]] eqn:Ep; [|done].
    injection Es as <-. cbn [executors group cycles] in *. destruct (decide (j = i)) as [->|Hne]; cycle 1.
    { right. split; [done|]. exists e. rewrite list_lookup_insert_ne by done. split; [done|]. cbn. lia. }
    rewrite He in Ej. injection Ej as <-.
    destruct (calm_process behave e _ _ _ _ H Ha Ep) as (_ & [[_ Hno]|Hran] & Hbias); [|by left].
    right. split; [done|]. exists e'. rewrite list_lookup_insert_eq by (by eapply lookup_lt_Some). split; [done|].
    rewrite (Hbias e' eq_refl). pose proof (calm_ready _ _ _ _ H) as (H0 & w & Hw & _ & B0 & B1 & _).
    destruct (calm_flags _ _ _ _ H id w H0 Hw) as (F1 & _). rewrite B0, B1 in F1.
    destruct (turn 0 id (bias_flags e) (m_signal_tree (group s))) as (id' & bias' & En & Hcase);
      [apply H|by eapply calm_branch|done|done|]. rewrite En. cbn.
    destruct Hcase as [->|]; [by destruct (Hno id bias' f En)|lia].
Qed.

Lemma runs_within actions id f s s' i e :
  calm None (next_id s) (Some (id, f)) (group s) -> orderly (Some id) actions s -> run actions s = Some s' ->
  next_id s' <= 64 -> executors s !! i = Some e -> turns_left id (bias_flags e) < Z.of_nat (cycles i actions) ->
  exists events, log (group s') = log (group s) ++ events /\ Ran id (Work f) ∈ events.
Proof.
  revert s e. induction actions as [|a actions IH]; intros s e H; cbn [orderly run].
  { intros _ _ _ _ Hlt. cbn in Hlt. pose proof (turns_left_bounds id (bias_flags e)). lia. }
  intros [Ha Ho] (s1 & Es & Hr)%bind_Some Hn He Hlt. rewrite Es in Ho.
  destruct (calm_act _ a s s1 H Ha Es) as (H1 & Hle & _). destruct (calm_run _ _ _ _ H1 Ho Hr) as [_ Hle'].
  destruct (grew_act a s s1 Es) as [l1 El1]. destruct (grew_run actions s1 s' Hr) as [l2 El2].
  destruct (act_turn a id f s s1 i e H Ha Es ltac:(lia) He) as [(id0 & f0 & events & [= <- <-] & El & Hin)|(H2 & e' & He' & Hlt')].
  { exists (events ++ l2). rewrite El2, El, app_assoc. split; [done|]. apply elem_of_app. by left. }
  destruct (IH s1 e' H2 Ho Hr Hn He') as (events & El & Hin).
  { destruct a as [c|j behave]; cbn [cycles] in Hlt, Hlt'; [lia|]. destruct (decide (j = i)); lia. }
  exists (l1 ++ events). rewrite El, El1, app_assoc. split; [done|]. apply elem_of_app. by right.
Qed.

Implicit Types s : Pool (W := W) (R := R) (E := E).

Lemma executors_run actions s s' : run actions s = Some s' -> length (executors s') = length (executors s).
Proof.
  revert s. induction actions as [|a actions IH]; intros s; cbn [run]; [by intros [= <-]|].
  intros (s1 & Es & Hr)%bind_Some. rewrite (IH s1 Hr). destruct a as [c|j behave]; cbn [act] in Es.
  - destruct (perform c (group s)) as [g r]. destruct (undefined r); [done|]. by injection Es as <-.
  - apply bind_Some in Es as (ej & _ & Es). destruct (process_next_contract behave ej (group s)) as [g [e'|x]]; [|done].
    injection Es as <-. cbn. apply length_insert.
Qed.

(** C39: Scheduling is live: in a pool of one executor that has handed out at most 64 ids, a contract that waits is
    run before the executor has made 64 cycles, whatever the contracts and their error handlers do, and whatever the
    rest of the program calls between the cycles, short of descheduling any contract or releasing this one. *)
Theorem scheduled_contract_runs NUM_ROUTERS before actions s s' id f :
  512 * Z.of_nat NUM_ROUTERS < 2 ^ 32 ->
  orderly None before (start NUM_ROUTERS 1) -> run before (start NUM_ROUTERS 1) = Some s ->
  ready (Some (id, f)) (group s) ->
  orderly (Some id) actions s -> run actions s = Some s' ->
  next_id s' <= 64 -> (64 <= cycles 0 actions)%nat ->
  exists events, log (group s') = log (group s) ++ events /\ Ran id (Work f) ∈ events.
Proof.
  intros Hn Ho Hs Hready Ho' Hs' Hlim Hc.
  destruct (calm_run None before (start NUM_ROUTERS 1) s) as [H _]; [eapply calm_here, start_calm; done|done|done|].
  assert (calm None (next_id s) (Some (id, f)) (group s)) as H' by (destruct H; by split).
  destruct (lookup_lt_is_Some_2 (executors s) 0) as [e He]; [rewrite (executors_run _ _ _ Hs); cbn; lia|].
  apply (runs_within actions id f s s' 0 e); try done. pose proof (turns_left_bounds id (bias_flags e)). lia.
Qed.

End Groups.

(** ** Instances *)

(** Three contracts, the first of which creates a fourth when it runs. *)
Definition demo_before : list (Action (W := unit) (R := unit) (E := unit)) :=
  [Outside (Create tt None None SCHEDULED); Outside (Create tt None None SCHEDULED); Outside (Create tt (Some tt) None IDLE)].

Definition demo_behave : Behaviour (W := unit) (R := unit) (E := unit) := fun c id =>
  if id =? 0 then Calls (Create tt None None SCHEDULED) (fun _ => Returns) else Returns.

Definition demo_cycles : list Action := replicate 64 (Cycle 0 demo_behave).

Definition demo_start : Pool (W := unit) (R := unit) (E := unit) := start 1 1.
Definition demo_state : Pool (W := unit) (R := unit) (E := unit) := default demo_start (run demo_before demo_start).
Definition demo_end : Pool (W := unit) (R := unit) (E := unit) := default demo_start (run demo_cycles demo_state).

Lemma orderly_cycles {W R E} keep k i (behave : Behaviour (W := W) (R := R) (E := E)) s :
  (forall n c id, tame keep n (behave c id)) -> orderly keep (replicate k (Cycle i behave)) s.
Proof.
  intros Hb. revert s. induction k as [|k IH]; intros s; [done|]. cbn [replicate orderly]. split; [by intros; apply Hb|].
  destruct (act _ s); [apply IH|done].
Qed.

Lemma demo_behave_tame keep n c id : tame keep n (demo_behave c id).
Proof. unfold demo_behave. destruct (id =? 0); [|done]. split; [by right|done]. Qed.

Lemma demo_orderly : orderly None demo_before demo_start.
Proof. vm_compute. repeat split; by auto. Qed.

Lemma default_run (actions : list (Action (W := unit) (R := unit) (E := unit))) s d :
  bool_decide (is_Some (run actions s)) = true -> run actions s = Some (default d (run actions s)).
Proof. intros [s' ->]%bool_decide_eq_true_1. done. Qed.

Lemma scheduled_contract_runs_witness :
  exists events, log (group demo_end) = log (group demo_state) ++ events /\ Ran 1 (Work tt) ∈ events.
Proof.
  apply (scheduled_contract_runs 1 demo_before demo_cycles demo_state demo_end 1 tt).
  - lia.
  - exact demo_orderly.
  - apply default_run. vm_compute. reflexivity.
  - split; [lia|]. exists (mkWorker unit (Some tt) 1). vm_compute. repeat split.
  - apply orderly_cycles. intros. apply demo_behave_tame.
  - apply default_run. vm_compute. reflexivity.
  - vm_compute. discriminate.
  - vm_compute. lia.
Defined.

(** A contract that is idle when it is released stays out of the tree, so its releaser is not run. *)
Example released_idle :
  (fun s => (log (group s), scheduled (m_signal_tree (group s)) 0)) <$>
    run (Outside (Create tt (Some tt) None IDLE) :: Outside (Release 0) :: replicate 3 (Cycle 0 demo_behave)) demo_start =
  Some ([], false).
Proof. vm_compute. reflexivity. Qed.

(** A contract that was descheduled cannot be scheduled again: it keeps the flag SCHEDULED. *)
Example descheduled_refuses :
  (fun s => (log (group s), scheduled (m_signal_tree (group s)) 0)) <$>
    run (Outside (Create tt None None SCHEDULED) :: Outside (Deschedule 0) :: Outside (Schedule 0) ::
         replicate 3 (Cycle 0 demo_behave)) demo_start = Some ([AlreadyScheduled 0], false).
Proof. vm_compute. reflexivity. Qed.

(** A contract created in the state RELEASED is put into the tree, but only SCHEDULED can be claimed: it takes its
    turns there for good, and its releaser is not run. *)
Example created_released :
  (fun s => (log (group s), scheduled (m_signal_tree (group s)) 0)) <$>
    run (Outside (Create tt (Some tt) None RELEASED) :: replicate 3 (Cycle 0 demo_behave)) demo_start = Some ([], true).
Proof. vm_compute. reflexivity. Qed.
