(* ===== verification/Executors.v ===== *)
(** * Executors

    The contract scheduler of src/include/core/contracts at the grain of its atomic instructions: the
    threads of a pool and threads that call [schedule], in any interleaving.  A thread is at a program
    point [Pc] between two instructions of [ContractGroup::schedule], [process_next_contract],
    [Worker::try_claim_execution], [SignalTree::schedule] and [SignalTree::deschedule]; [exec] makes the
    next one.  Memory is sequentially consistent.  An exchange of a router's word, which its loop repeats
    until it succeeds, is one instruction.

    A search reads one word after the other.  [Search] makes all its reads at once, by [next]; [Find] is
    any search that ends with an id whose bit was set when its leaf was read.  [no_wakeup_lost] allows both;
    [waiting_contract_runs] speaks of [Search], whose bias decides whose turn it is.  A call that the code of a
    contract makes is the call of another thread.  Nothing is released or descheduled, so the tests for
    [RELEASED] are left out.

    The theorems: with one executor no wake-up is lost ([no_wakeup_lost]), and a contract that waits among at
    most 64 is run before the executor's 65th search ([waiting_contract_runs]).  With two executors both fail,
    as two traces show: a contract can run twice at the same time ([double_execution]), and another one can
    stay scheduled where no search finds it ([lost_contract]). *)

From Stdlib Require Import ZArith Lia.
From stdpp Require Import base list sets tactics.
From S2P Require Import Prelude SignalTree Contracts.
Import Contracts.Worker.

Open Scope Z_scope.

(** The comment on a point is the instruction that comes next. *)
Inductive Pc :=
  | Idle
  | IsScheduled (id : Z)            (* [schedule]: [is_scheduled()] *)
  | FetchOr (id : Z)                (* [Worker::schedule]: [fetch_or] *)
  | Bump (id : Z)                   (* [SignalTree::schedule]: the router's counter *)
  | SetBit (id : Z)                 (* [SignalTree::schedule]: the leaf's bit *)
  | ClaimLoad (id : Z)              (* [try_claim_execution]: [load()] *)
  | ClaimTest (id current : Z)      (* [try_claim_execution]: [is_scheduled()] *)
  | ClaimExchange (id current : Z)  (* [try_claim_execution]: [compare_exchange] *)
  | ClearBit (id : Z)               (* [SignalTree::deschedule]: the leaf's bit *)
  | Drop (id : Z)                   (* [SignalTree::deschedule]: the router's counter *)
  | Running (id : Z).               (* the code of the contract, then [fetch_and] of the guard *)

#[export] Instance Pc_eq_dec : EqDecision Pc.
Proof. solve_decision. Defined.

Record State := mkState { tree : SignalTree; workers : list (Worker unit); threads : list (Z * Pc) }.

Inductive Event := Call (i : nat) (id : Z) | Search (i : nat) | Find (i : nat) (id : Z) | Step (i : nat).

Definition goto (i : nat) (pc : Pc) (s : State) : State :=
  mkState (tree s) (workers s) (alter (fun th => (th.1, pc)) i (threads s)).

Definition with_bias (i : nat) (bias : Z) (s : State) : State :=
  mkState (tree s) (workers s) (alter (fun th => (bias, th.2)) i (threads s)).

Definition store (id : Z) (w : Worker unit) (s : State) : State :=
  mkState (tree s) (<[Z.to_nat id := w]> (workers s)) (threads s).

Definition on_word (f : Z -> Node -> Node) (id : Z) (s : State) : State :=
  mkState (on_router f id (tree s)) (workers s) (threads s).

(** The instruction of thread [i] at [pc]. *)
Definition instruction (i : nat) (pc : Pc) (s : State) : option State :=
  let worker id := workers s !! Z.to_nat id in
  match pc with
  | Idle => None
  | IsScheduled id => w ← worker id; Some (goto i (if is_scheduled w then Idle else FetchOr id) s)
  | FetchOr id =>
      w ← worker id;
      let '(changed, w) := Worker.schedule w in
      Some (goto i (if changed then Bump id else Idle) (store id w s))
  | Bump id => Some (goto i (SetBit id) (on_word node_bump id s))
  | SetBit id => Some (goto i Idle (on_word node_set id s))
  | ClaimLoad id => w ← worker id; Some (goto i (ClaimTest id (m_flags w)) s)
  | ClaimTest id current => w ← worker id; Some (goto i (if is_scheduled w then ClaimExchange id current else Idle) s)
  | ClaimExchange id current =>
      w ← worker id;
      let '(success, (current, w)) := compare_exchange current (DESIRED current) w in
      Some (goto i (if success then ClearBit id else ClaimTest id current) (store id w s))
  | ClearBit id => Some (goto i (Drop id) (on_word node_clear id s))
  | Drop id => Some (goto i (Running id) (on_word node_drop id s))
  | Running id =>
      w ← worker id;
      let '(prev, w) := fetch_and (complement EXECUTING) w in
      Some (goto i (if Z.land prev SCHEDULED =? SCHEDULED then Bump id else Idle) (store id w s))
  end.

(** The first [pool] threads are executors. *)
Definition exec (pool : nat) (ev : Event) (s : State) : option State :=
  match ev with
  | Call i id =>
      '(_, pc) ← threads s !! i;
      match pc with
      | Idle => if (0 <=? id) && (id <? capacity (tree s)) then Some (goto i (IsScheduled id) s) else None
      | _ => None
      end
  | Search i =>
      '(bias, pc) ← threads s !! i;
      match pc with
      | Idle =>
          if (i <? pool)%nat then
            let '(found, bias) := next bias (tree s) in
            let s := with_bias i bias s in
            Some (match found with Some id => goto i (ClaimLoad id) s | None => s end)
          else None
      | _ => None
      end
  | Find i id =>
      '(_, pc) ← threads s !! i;
      match pc with
      | Idle =>
          if (i <? pool)%nat && (0 <=? id) && (id <? capacity (tree s)) && scheduled (tree s) id
          then Some (goto i (ClaimLoad id) s) else None
      | _ => None
      end
  | Step i => '(_, pc) ← threads s !! i; instruction i pc s
  end.

Fixpoint run (pool : nat) (trace : list Event) (s : State) : option State :=
  match trace with [] => Some s | ev :: trace => s ← exec pool ev s; run pool trace s end.

Definition start (NUM_ROUTERS n : nat) : State :=
  mkState (new_tree NUM_ROUTERS) (replicate (512 * NUM_ROUTERS) empty) (replicate n (0, Idle)).

(** ** Two executors *)

Definition steps (n i : nat) : list Event := replicate n (Step i).

(** Both executors find contract 5; it is scheduled again while the first one runs it, and the second one
    claims it. *)
Definition double_trace : list Event :=
  Call 2 5 :: steps 4 2 ++ [Search 0; Search 1] ++ steps 5 0 ++ Call 2 5 :: steps 2 2 ++ steps 3 1.

(** Contract 6 is scheduled meanwhile, and the second executor takes contract 5 out of the tree again. *)
Definition losing_trace : list Event :=
  double_trace ++ Call 2 6 :: steps 4 2 ++ steps 2 1 ++ [Step 0; Step 1].

Definition after (trace : list Event) : State := default (start 1 3) (run 2 trace (start 1 3)).

(** Claiming does not look at EXECUTING, so with two executors one contract can be in the hands of both: the claim
    of the second succeeds while the first is running the contract. *)
Example double_execution :
  run 2 double_trace (start 1 3) = Some (after double_trace) /\
  (threads (after double_trace)).*2 = [Running 5; ClearBit 5; Idle] /\
  (threads (after (double_trace ++ steps 2 1))).*2 = [Running 5; Running 5; Idle].
Proof. vm_compute. repeat split. Qed.

Lemma empty_search bias t : (forall n, n ∈ m_routers t -> m_value n = 0) -> (next bias t).1 = None.
Proof.
  intros Hn. unfold next. generalize (if negb (Z.land bias BIAS_FLAG =? 0) then rev (seq 0 (length (m_routers t))) else seq 0 (length (m_routers t))).
  intros order. revert bias. induction order as [|r order IH]; intros bias; [done|]. cbn [next_loop].
  assert (m_value (default new_node (m_routers t !! r)) = 0) as Hv.
  { destruct (m_routers t !! r) as [n|] eqn:En; [|done]. apply Hn. by eapply list_elem_of_lookup_2. }
  unfold select_child_index. rewrite Hv, Z.eqb_refl. apply IH.
Qed.

(** A contract claimed twice is also counted out of the tree twice, at the expense of another contract of its
    branch: that one stays scheduled with its bit set, every thread is idle, and no search finds it, whatever its bias. *)
Example lost_contract :
  run 2 losing_trace (start 1 3) = Some (after losing_trace) /\
  (threads (after losing_trace)).*2 = [Idle; Idle; Idle] /\
  m_flags <$> workers (after losing_trace) !! 6%nat = Some SCHEDULED /\ scheduled (tree (after losing_trace)) 6 = true /\
  forall bias, (next bias (tree (after losing_trace))).1 = None.
Proof.
  repeat split; [vm_compute; reflexivity..|]. intros bias. apply empty_search. intros n Hn. vm_compute in Hn.
  by apply list_elem_of_singleton in Hn as ->.
Qed.

(** ** One executor: the invariant *)

Definition pc_at (s : State) (i : nat) : Pc := default Idle (snd <$> threads s !! i).

Definition upd (i : nat) (pc : Pc) (pcs : nat -> Pc) : nat -> Pc := fun j => if decide (j = i) then pc else pcs j.

Definition subject (pc : Pc) : option Z :=
  match pc with
  | Idle => None
  | IsScheduled id | FetchOr id | Bump id | SetBit id | ClaimLoad id | ClaimTest id _ | ClaimExchange id _
  | ClearBit id | Drop id | Running id => Some id
  end.

(** On the way to claim a contract; the flags it has read. *)
Definition claims (pc : Pc) : bool := match pc with ClaimLoad _ | ClaimTest _ _ | ClaimExchange _ _ => true | _ => false end.
Definition read_flags (pc : Pc) : option Z := match pc with ClaimTest _ c | ClaimExchange _ c => Some c | _ => None end.

(** Putting contract [id] into the tree; executing it; holding a unit of the counter of its branch while its bit is clear. *)
Definition adds (id : Z) (pc : Pc) : bool := match pc with Bump id' | SetBit id' => id' =? id | _ => false end.
Definition executes (id : Z) (pc : Pc) : bool := match pc with ClearBit id' | Drop id' | Running id' => id' =? id | _ => false end.
Definition counts (id : Z) (pc : Pc) : bool := match pc with SetBit id' | Drop id' => id' =? id | _ => false end.

(** The flags, the bit and the unit in the counter of contract [id] at each stage of its life. *)
Inductive life (pcs : nat -> Pc) (flags : Z) (bit counted : bool) (id : Z) : Prop :=
  | Resting : flags = 0 -> bit = false -> counted = false ->
      (forall i, adds id (pcs i) = false) -> executes id (pcs 0%nat) = false -> life pcs flags bit counted id
  | Waiting : flags = SCHEDULED -> bit = true -> counted = true ->
      (forall i, adds id (pcs i) = false) -> executes id (pcs 0%nat) = false -> life pcs flags bit counted id
  | Adding i : flags = SCHEDULED -> bit = false -> counted = counts id (pcs i) ->
      adds id (pcs i) = true -> (forall j, j <> i -> adds id (pcs j) = false) -> executes id (pcs 0%nat) = false ->
      life pcs flags bit counted id
  | Executing : flags = EXECUTING \/ flags = Z.lor EXECUTING SCHEDULED ->
      bit = (match pcs 0%nat with ClearBit _ => true | _ => false end) ->
      counted = (match pcs 0%nat with Running _ => false | _ => true end) ->
      (forall i, adds id (pcs i) = false) -> executes id (pcs 0%nat) = true -> life pcs flags bit counted id.

Definition held (s : State) (id : Z) : bool := scheduled (tree s) id || existsb (counts id) (threads s).*2.

Record sound (s : State) : Prop := {
  sound_shape : tree_shape (tree s);
  sound_length : Z.of_nat (length (workers s)) = capacity (tree s);
  sound_pool i id : claims (pc_at s i) = true \/ executes id (pc_at s i) = true -> i = 0%nat;
  sound_subject i id : subject (pc_at s i) = Some id -> valid_id (tree s) id;
  sound_claim id : claims (pc_at s 0) = true -> subject (pc_at s 0) = Some id -> scheduled (tree s) id = true;
  sound_read c : read_flags (pc_at s 0) = Some c -> c = SCHEDULED;
  sound_life id w : 0 <= id -> workers s !! Z.to_nat id = Some w ->
    life (pc_at s) (m_flags w) (scheduled (tree s) id) (held s id) id;
  sound_counter g : 0 <= g -> counter (tree s) g = count_if (held s) (seqZ (64 * g) 64);
}.

Lemma held_spec s id : held s id = true <-> scheduled (tree s) id = true \/ exists i, counts id (pc_at s i) = true.
Proof.
  unfold held. rewrite orb_true_iff, existsb_exists. apply or_iff_compat_l. split.
  - intros (pc & Hin & Hc). apply list_elem_of_In, list_elem_of_fmap in Hin as ([b pc'] & -> & Hin).
    apply list_elem_of_lookup in Hin as [i Hi]. exists i. unfold pc_at. by rewrite Hi.
  - intros [i Hc]. unfold pc_at in Hc. destruct (threads s !! i) as [[b pc]|] eqn:Ei; [|done]. exists pc. split; [|done].
    apply list_elem_of_In, list_elem_of_fmap. exists (b, pc). split; [done|]. by eapply list_elem_of_lookup_2.
Qed.

Lemma adds_subject id pc : adds id pc = true -> subject pc = Some id.
Proof. destruct pc; cbn; try done; by intros ->%Z.eqb_eq. Qed.
Lemma executes_subject id pc : executes id pc = true -> subject pc = Some id.
Proof. destruct pc; cbn; try done; by intros ->%Z.eqb_eq. Qed.
Lemma counts_cases id pc : counts id pc = true -> pc = SetBit id \/ pc = Drop id.
Proof. destruct pc; cbn; try done; intros ->%Z.eqb_eq; auto. Qed.

(** The unit that a stage describes is the one that the counter has. *)
Lemma life_held s id f bit h :
  (forall i, executes id (pc_at s i) = true -> i = 0%nat) -> bit = scheduled (tree s) id ->
  life (pc_at s) f bit h id -> held s id = h.
Proof.
  intros Hpool Hbit Hl.
  assert (forall b : bool, (b = true <-> scheduled (tree s) id = true \/ exists i, counts id (pc_at s i) = true) -> held s id = b) as Heq.
  { intros b Hb. apply eq_true_iff_eq. by rewrite held_spec. }
  assert (forall i, counts id (pc_at s i) = true -> adds id (pc_at s i) = true \/ i = 0%nat /\ pc_at s 0 = Drop id) as Hc.
  { intros i [E|E]%counts_cases; rewrite E; cbn; [left; apply Z.eqb_refl|]. assert (i = 0%nat) as -> by (apply Hpool; rewrite E; apply Z.eqb_refl).
    by right. }
  apply Heq. rewrite <- Hbit. destruct Hl as [_ -> -> Ha He|_ -> -> Ha He|i _ -> -> Ha Ho He|_ -> -> Ha He].
  - split; [done|]. intros [?|[i Hi]]; [done|]. destruct (Hc i Hi) as [H|[-> H]]; [by rewrite Ha in H|]. by rewrite H in He; cbn in He; rewrite Z.eqb_refl in He.
  - split; [by left|done].
  - split; [intros H; right; by exists i|]. intros [?|[j Hj]]; [done|]. destruct (Hc j Hj) as [H|[-> H]].
    + destruct (decide (j = i)) as [->|Hne]; [done|]. by rewrite (Ho j Hne) in H.
    + rewrite H in He. cbn in He. by rewrite Z.eqb_refl in He.
  - destruct (pc_at s 0) as [| | | | | | | | |id'|id'] eqn:E0; cbn in He; try done.
    + split; [by left|done].
    + apply Z.eqb_eq in He as ->. split; [|done]. intros _. right. exists 0%nat. rewrite E0. cbn. apply Z.eqb_refl.
    + split; [done|]. intros [?|[i Hi]]; [done|]. destruct (Hc i Hi) as [H|[_ H]]; [by rewrite Ha in H|done].
Qed.

(** Changing one element. *)
Lemma count_if_change f g l b : NoDup l -> b ∈ l -> (forall x, x ∈ l -> x <> b -> g x = f x) ->
  count_if g l = count_if f l + Z.b2z (g b) - Z.b2z (f b).
Proof.
  intros Hl Hb Hx. rewrite (count_if_ext g (fun x => if x =? b then g b else f x)).
  2: { intros x Hin. destruct (Z.eqb_spec x b) as [->|]; [done|by apply Hx]. }
  set (g' := fun x => _). assert (forall x, x <> b -> g' x = f x) as Hx' by (intros x Hne; subst g'; cbn; by destruct (Z.eqb_spec x b)).
  assert (g' b = g b) as Hb' by (subst g'; cbn; by rewrite Z.eqb_refl).
  destruct (f b) eqn:Ef, (g b) eqn:Eg; cbn.
  - rewrite (count_if_ext g' f); [lia|]. intros x _. destruct (decide (x = b)) as [->|]; [congruence|by apply Hx'].
  - rewrite (count_if_flip g' f l b); [lia|done..|]. intros x Hne. by rewrite Hx'.
  - rewrite (count_if_flip f g' l b); [lia|done..].
  - rewrite (count_if_ext g' f); [lia|]. intros x _. destruct (decide (x = b)) as [->|]; [congruence|by apply Hx'].
Qed.

(** An instruction of thread [i] on contract [id]. *)
Lemma step_sound s s' i id pc' w w' h h' :
  sound s -> valid_id (tree s) id -> workers s !! Z.to_nat id = Some w ->
  (subject (pc_at s i) = None \/ subject (pc_at s i) = Some id) -> (subject pc' = None \/ subject pc' = Some id) ->
  (forall j, pc_at s' j = upd i pc' (pc_at s) j) -> workers s' = <[Z.to_nat id := w']> (workers s) ->
  tree_shape (tree s') -> capacity (tree s') = capacity (tree s) ->
  (forall id', 0 <= id' -> id' <> id -> scheduled (tree s') id' = scheduled (tree s) id') ->
  (claims pc' = true \/ executes id pc' = true -> i = 0%nat) ->
  (claims (upd i pc' (pc_at s) 0%nat) = true -> subject (upd i pc' (pc_at s) 0%nat) = Some id -> scheduled (tree s') id = true) ->
  (forall c, read_flags pc' = Some c -> c = SCHEDULED) ->
  life (pc_at s) (m_flags w) (scheduled (tree s) id) h id ->
  life (upd i pc' (pc_at s)) (m_flags w') (scheduled (tree s') id) h' id ->
  (forall g, 0 <= g -> counter (tree s') g = if g =? id / 64 then counter (tree s) g + Z.b2z h' - Z.b2z h else counter (tree s) g) ->
  sound s'.
Proof.
  intros [S1 S2 S3 S4 S5 S6 S7 S8] Hv Hw Hsub Hsub' Hpc Hws Hsh Hcap Hbits Hpool Hclaim Hread Hl Hl' Hcnt.
  assert (forall j, j <> i -> pc_at s' j = pc_at s j) as Hother by (intros j Hj; rewrite Hpc; unfold upd; by rewrite decide_False).
  assert (pc_at s' i = pc') as Hself by (rewrite Hpc; unfold upd; by rewrite decide_True).
  assert (forall j id', executes id' (pc_at s' j) = true -> j = 0%nat) as Hexec.
  { intros j id' H. destruct (decide (j = i)) as [->|Hne].
    - rewrite Hself in H. apply Hpool. right. pose proof (executes_subject _ _ H) as Hs.
      assert (id' = id) as -> by (destruct Hsub' as [Hs'|Hs']; congruence). done.
    - rewrite Hother in H by done. eapply S3. by right. }
  assert (held s id = h) as Hh by (eapply (life_held s id _ _ h); [intros j Hj; eapply S3; by right|done|done]).
  assert (forall f bit h0, life (upd i pc' (pc_at s)) f bit h0 id -> life (pc_at s') f bit h0 id) as Hext.
  { intros f bit h0 H. destruct H as [H1 H2 H3 H4 H5|H1 H2 H3 H4 H5|j H1 H2 H3 H4 H5 H6|H1 H2 H3 H4 H5].
    - apply Resting; [done..| |by rewrite Hpc]. intros j. by rewrite Hpc.
    - apply Waiting; [done..| |by rewrite Hpc]. intros j. by rewrite Hpc.
    - apply (Adding _ _ _ _ _ j); rewrite ?Hpc; [done..| |done]. intros k Hk. rewrite Hpc. by apply H5.
    - apply Executing; rewrite ?Hpc; [done..| |done]. intros j. by rewrite Hpc. }
  assert (held s' id = h') as Hh' by (eapply (life_held s' id _ _ h'); [intros j; apply Hexec|done|by apply Hext]).
  assert (forall j id', id' <> id -> adds id' (pc_at s' j) = adds id' (pc_at s j) /\ executes id' (pc_at s' j) = executes id' (pc_at s j) /\
    counts id' (pc_at s' j) = counts id' (pc_at s j)) as Hne.
  { intros j id' Hne. destruct (decide (j = i)) as [->|Hj]; [|by rewrite Hother]. rewrite Hself.
    assert (forall pc, subject pc = None \/ subject pc = Some id -> adds id' pc = false /\ executes id' pc = false /\ counts id' pc = false) as Hf.
    { intros pc H. destruct pc; cbn in *; repeat split; apply Z.eqb_neq; destruct H; congruence. }
    destruct (Hf _ Hsub) as (-> & -> & ->), (Hf _ Hsub') as (-> & -> & ->). done. }
  assert (forall id', 0 <= id' -> id' <> id -> held s' id' = held s id') as Hheld.
  { intros id' H0 Hid. apply eq_true_iff_eq. rewrite !held_spec, Hbits by done. apply or_iff_compat_l.
    split; intros [j Hj]; exists j; [by rewrite (proj2 (proj2 (Hne j id' Hid))) in Hj|by rewrite (proj2 (proj2 (Hne j id' Hid)))]. }
  split; [done|by rewrite Hws, length_insert, Hcap|..].
  - intros j id' [H|H]; [|by eapply Hexec]. destruct (decide (j = i)) as [->|Hj]; [apply Hpool; left; congruence|].
    rewrite Hother in H by done. eapply (S3 j 0). by left.
  - intros j id' H. unfold valid_id. rewrite Hcap. destruct (decide (j = i)) as [->|Hj]; [|rewrite Hother in H by done; by eapply S4].
    rewrite Hself in H. destruct Hsub' as [Hs|Hs]; rewrite Hs in H; [done|]. by injection H as <-.
  - intros id' H1 H2. destruct (decide (id' = id)) as [->|Hid]; [rewrite Hpc in H1, H2; by apply Hclaim|].
    destruct (decide (0%nat = i)) as [<-|Hj].
    + rewrite Hself in H2. destruct Hsub' as [Hs|Hs]; congruence.
    + rewrite Hother in H1, H2 by done. rewrite Hbits; [by apply S5|by destruct (S4 _ _ H2)|done].
  - intros c H. destruct (decide (0%nat = i)) as [<-|Hj]; [rewrite Hself in H; by apply Hread|]. rewrite Hother in H by done. by apply S6.
  - intros id' w1 H0 Hw1. rewrite Hws in Hw1. destruct (decide (id' = id)) as [->|Hid].
    { rewrite list_lookup_insert_eq in Hw1 by (by eapply lookup_lt_Some). injection Hw1 as <-. rewrite Hh'. by apply Hext. }
    rewrite list_lookup_insert_ne in Hw1 by (destruct Hv; lia). rewrite Hbits, Hheld by done.
    pose proof (S7 id' w1 H0 Hw1) as H. assert (forall j, adds id' (pc_at s' j) = adds id' (pc_at s j)) as Ha by (intros j; apply Hne, Hid).
    assert (forall j, executes id' (pc_at s' j) = executes id' (pc_at s j)) as He by (intros j; apply Hne, Hid).
    destruct H as [H1 H2 H3 H4 H5|H1 H2 H3 H4 H5|j H1 H2 H3 H4 H5 H6|H1 H2 H3 H4 H5].
    + apply Resting; [done..|intros j; by rewrite Ha|by rewrite He].
    + apply Waiting; [done..|intros j; by rewrite Ha|by rewrite He].
    + apply (Adding _ _ _ _ _ j); rewrite ?Ha, ?He; [done..| |done|intros k Hk; rewrite Ha; by apply H5|done].
      rewrite H3. symmetry. apply Hne, Hid.
    + assert (pc_at s' 0 = pc_at s 0) as E0.
      { apply Hother. intros <-. apply executes_subject in H5. destruct Hsub as [Hs|Hs]; congruence. }
      apply Executing; rewrite ?E0; [done..|intros j; by rewrite Ha|done].
  - intros g Hg. rewrite Hcnt, S8 by done. destruct (Z.eqb_spec g (id / 64)) as [->|Hgne].
    + rewrite (count_if_change (held s) (held s') _ id), Hh, Hh'; [done|apply NoDup_seqZ|apply elem_of_seqZ; destruct Hv; mlia|].
      intros x Hx%elem_of_seqZ Hxne. apply Hheld; [lia|done].
    + apply count_if_ext. intros x Hx%elem_of_seqZ. symmetry. apply Hheld; [lia|]. intros ->. mlia.
Qed.

(** ** One executor: the instructions keep the invariant *)

Lemma pc_at_goto s i th pc' j : threads s !! i = Some th -> pc_at (goto i pc' s) j = upd i pc' (pc_at s) j.
Proof.
  intros Hi. unfold pc_at, goto, upd. cbn [threads]. destruct (decide (j = i)) as [->|Hne].
  - rewrite list_lookup_alter_eq, Hi. done.
  - by rewrite list_lookup_alter_ne.
Qed.

Lemma pc_at_thread s i th : threads s !! i = Some th -> pc_at s i = th.2.
Proof. intros Hi. unfold pc_at. by rewrite Hi. Qed.

Lemma sound_worker s id : sound s -> valid_id (tree s) id -> exists w, workers s !! Z.to_nat id = Some w.
Proof. intros Hs [H0 H1]. apply lookup_lt_is_Some_2. pose proof (sound_length s Hs). lia. Qed.

(** A point that neither puts a contract into the tree nor executes it. *)
Definition plain (pc : Pc) : Prop := forall id, adds id pc = false /\ executes id pc = false.

(** Flags that belong to the same stage. *)
Definition same_stage (f f' : Z) : Prop :=
  (f = 0 -> f' = 0) /\ (f = SCHEDULED -> f' = SCHEDULED) /\
  (f = EXECUTING \/ f = Z.lor EXECUTING SCHEDULED -> f' = EXECUTING \/ f' = Z.lor EXECUTING SCHEDULED).

Lemma same_stage_refl f : same_stage f f.
Proof. by repeat split. Qed.

Lemma life_move pcs f f' bit h id i pc' : plain (pcs i) -> plain pc' ->
  same_stage f f' ->
  life pcs f bit h id -> life (upd i pc' pcs) f' bit h id.
Proof.
  intros Hp Hp' (Hf0 & Hf1 & Hf2) Hl. assert (forall j, adds id (upd i pc' pcs j) = adds id (pcs j)) as Ha.
  { intros j. unfold upd. destruct (decide (j = i)) as [->|]; [|done]. by rewrite (proj1 (Hp id)), (proj1 (Hp' id)). }
  assert (executes id (upd i pc' pcs 0%nat) = executes id (pcs 0%nat)) as He.
  { unfold upd. destruct (decide (0%nat = i)) as [<-|]; [|done]. by rewrite (proj2 (Hp id)), (proj2 (Hp' id)). }
  destruct Hl as [H1 H2 H3 H4 H5|H1 H2 H3 H4 H5|j H1 H2 H3 H4 H5 H6|H1 H2 H3 H4 H5].
  - apply Resting; [by apply Hf0|done..|intros j; by rewrite Ha|by rewrite He].
  - apply Waiting; [by apply Hf1|done..|intros j; by rewrite Ha|by rewrite He].
  - apply (Adding _ _ _ _ _ j); rewrite ?Ha, ?He; [by apply Hf1|done| |done|intros k Hk; rewrite Ha; by apply H5|done].
    unfold upd. destruct (decide (j = i)) as [->|]; [|done]. by rewrite (proj1 (Hp id)) in H4.
  - assert (upd i pc' pcs 0%nat = pcs 0%nat) as E0.
    { unfold upd. destruct (decide (0%nat = i)) as [<-|]; [|done]. by rewrite (proj2 (Hp id)) in H5. }
    apply Executing; rewrite ?E0; [by apply Hf2|done..|intros j; by rewrite Ha|done].
Qed.

(** The thread goes on to another such point; nothing else changes, but perhaps a flag that is set again. *)
Lemma pass_sound s i th id pc' w w' :
  sound s -> threads s !! i = Some th -> valid_id (tree s) id -> workers s !! Z.to_nat id = Some w ->
  plain th.2 -> plain pc' -> (subject th.2 = None \/ subject th.2 = Some id) -> (subject pc' = None \/ subject pc' = Some id) ->
  (claims pc' = true -> i = 0%nat /\ scheduled (tree s) id = true) -> (forall c, read_flags pc' = Some c -> c = SCHEDULED) ->
  same_stage (m_flags w) (m_flags w') ->
  sound (goto i pc' (store id w' s)).
Proof.
  intros Hs Hi Hv Hw Hp Hp' Hsub Hsub' Hcl Hrd Hf. pose proof (pc_at_thread s i th Hi) as Hpc. rewrite <- Hpc in Hp, Hsub.
  pose proof (sound_life s Hs id w ltac:(apply Hv) Hw) as Hl.
  eapply (step_sound s _ i id pc' w w' (held s id) (held s id)); try done.
  - intros j. by erewrite pc_at_goto.
  - apply Hs.
  - intros [H|H]; [by apply Hcl|]. by rewrite (proj2 (Hp' id)) in H.
  - unfold upd. cbn [tree goto store]. destruct (decide (0%nat = i)) as [<-|Hne]; [intros H _; by apply Hcl|]. apply (sound_claim s Hs).
  - by eapply life_move.
  - intros g Hg. cbn. destruct (g =? id / 64); lia.
Qed.

Lemma store_same s id w : workers s !! Z.to_nat id = Some w -> store id w s = s.
Proof. intros Hw. unfold store. rewrite list_insert_id by done. by destruct s. Qed.

(** The counter has room for a contract that holds no unit of it, and is not empty when one does. *)
Lemma counter_room s id : sound s -> 0 <= id -> held s id = false -> counter (tree s) (id / 64) < 64.
Proof.
  intros Hs H0 Hh. rewrite (sound_counter s Hs) by mlia.
  pose proof (count_if_change (held s) (fun x => if x =? id then true else held s x) (seqZ (64 * (id / 64)) 64) id
    ltac:(apply NoDup_seqZ) ltac:(apply elem_of_seqZ; mlia)) as Hc.
  pose proof (count_if_bounds (fun x => if x =? id then true else held s x) (seqZ (64 * (id / 64)) 64)) as Hb.
  rewrite length_seqZ in Hb. cbv beta in Hc. rewrite Z.eqb_refl, Hh in Hc. cbn in Hc.
  rewrite Hc in Hb; [lia|]. intros x _ Hne. by destruct (Z.eqb_spec x id).
Qed.

Lemma counter_used s id : sound s -> 0 <= id -> held s id = true -> counter (tree s) (id / 64) <> 0.
Proof.
  intros Hs H0 Hh. rewrite (sound_counter s Hs) by mlia. intros Hz. rewrite count_if_zero in Hz.
  rewrite (Hz id) in Hh; [done|]. apply elem_of_seqZ. mlia.
Qed.

(** A store on a counter leaves the bits. *)
Lemma same_leaves id t t' c : stored id t t' (fun l => l) c -> forall id', 0 <= id' -> scheduled t' id' = scheduled t id'.
Proof. intros [_ _ _ Hl _] id' H0. unfold scheduled. rewrite Hl by mlia. by destruct (_ =? _). Qed.

Section Instruction.
Context (s : State) (i : nat) (th : Z * Pc) (id : Z) (w : Worker unit).
Hypotheses (Hs : sound s) (Hi : threads s !! i = Some th) (Hv : valid_id (tree s) id) (Hw : workers s !! Z.to_nat id = Some w).

Lemma pc_i : pc_at s i = th.2.
Proof. by apply pc_at_thread. Qed.

Lemma life_w : life (pc_at s) (m_flags w) (scheduled (tree s) id) (held s id) id.
Proof. apply (sound_life s Hs); [apply Hv|done]. Qed.

(** The general step, with what does not depend on the instruction discharged. *)
Lemma instruction_sound s' pc' w' h' :
  subject th.2 = Some id -> (subject pc' = None \/ subject pc' = Some id) ->
  threads s' = threads (goto i pc' s) -> workers s' = <[Z.to_nat id := w']> (workers s) ->
  tree_shape (tree s') -> capacity (tree s') = capacity (tree s) ->
  (forall id', 0 <= id' -> id' <> id -> scheduled (tree s') id' = scheduled (tree s) id') ->
  (executes id pc' = true -> i = 0%nat) -> claims pc' = false ->
  (i <> 0%nat -> claims (pc_at s 0) = true -> subject (pc_at s 0) = Some id -> scheduled (tree s') id = true) ->
  life (upd i pc' (pc_at s)) (m_flags w') (scheduled (tree s') id) h' id ->
  (forall g, 0 <= g -> counter (tree s') g = if g =? id / 64 then counter (tree s) g + Z.b2z h' - Z.b2z (held s id) else counter (tree s) g) ->
  sound s'.
Proof.
  intros Hsub Hsub' Hth Hws Hsh Hcap Hbits Hex Hcl Hclaim Hl' Hcnt. rewrite <- pc_i in Hsub.
  eapply (step_sound s s' i id pc' w w' (held s id) h'); try done.
  - by right.
  - intros j. rewrite <- (pc_at_goto s i th) by done. unfold pc_at. by rewrite Hth.
  - intros [H|H]; [congruence|by apply Hex].
  - unfold upd. destruct (decide (0%nat = i)) as [<-|Hne]; [congruence|]. apply Hclaim. done.
  - intros c H. destruct pc'; try done; cbn in Hcl; congruence.
  - apply life_w.
Qed.

Lemma fetch_or_sound : th.2 = FetchOr id -> forall s', instruction i (FetchOr id) s = Some s' -> sound s'.
Proof.
  intros Eth s'. cbn [instruction]. rewrite Hw. unfold Worker.schedule, fetch_or. cbn. rewrite changed_bits.
  pose proof life_w as Hl.
  assert (plain th.2) as Hp by (rewrite Eth; by intros id').
  assert (plain Idle) as Hp' by (by intros id').
  destruct Hl as [F Hb Hh Ha He|F Hb Hh Ha He|j F Hb Hh Ha Ho He|F Hb Hh Ha He]; cycle 1.
  1, 2: rewrite F; cbn; intros [= <-]; eapply (pass_sound s i th id Idle w); try done;
    [rewrite Eth; by right|by left|rewrite F; by repeat split].
  { assert (forall f, f = EXECUTING \/ f = Z.lor EXECUTING SCHEDULED -> negb (Z.testbit f 0) && negb (Z.testbit f 1) = false /\
      Z.lor f SCHEDULED = Z.lor EXECUTING SCHEDULED) as Hx by (by intros f [-> | ->]).
    destruct (Hx _ F) as [-> Hlor]. intros [= <-]. eapply (pass_sound s i th id Idle w); try done; [rewrite Eth; by right|by left|].
    cbn. rewrite Hlor. destruct F as [-> | ->]; (split; [done|]; split; [done|]; intros _; by right). }
  rewrite F. cbn. intros [= <-].
  eapply (instruction_sound _ (Bump id) (set_flags SCHEDULED w) false); try done; [by rewrite Eth|by right|apply Hs|..].
  - intros H1 H2 H3. cbn. by apply (sound_claim s Hs).
  - cbn. rewrite Hb. apply (Adding _ _ _ _ _ i); unfold upd; rewrite ?decide_True by done; [done..|cbn; apply Z.eqb_refl| |].
    + intros j Hj. rewrite decide_False by done. apply Ha.
    + destruct (decide (0%nat = i)); [done|apply He].
  - intros g Hg. cbn. rewrite Hh. destruct (g =? id / 64); cbn; lia.
Qed.

Lemma adding_here : adds id th.2 = true ->
  m_flags w = SCHEDULED /\ scheduled (tree s) id = false /\ held s id = counts id th.2 /\
  (forall j, j <> i -> adds id (pc_at s j) = false) /\ executes id (pc_at s 0) = false /\
  (i <> 0%nat -> claims (pc_at s 0) = true -> subject (pc_at s 0) = Some id -> False).
Proof.
  intros Hadd. rewrite <- pc_i in *. destruct life_w as [F Hb Hh Ha He|F Hb Hh Ha He|j F Hb Hh Ha Ho He|F Hb Hh Ha He];
    try (by rewrite Ha in Hadd).
  destruct (decide (j = i)) as [->|Hne]; [|by rewrite (Ho i) in Hadd by done]. repeat split; try done.
  intros Hi0 Hc Hsub. rewrite (sound_claim s Hs id Hc Hsub) in Hb. done.
Qed.

Lemma adding_life bit h pc' : adds id th.2 = true -> adds id pc' = true -> bit = false -> h = counts id pc' -> executes id pc' = false ->
  life (upd i pc' (pc_at s)) SCHEDULED bit h id.
Proof.
  intros Hadd Hadd' -> -> Hex. destruct (adding_here Hadd) as (_ & _ & _ & Ho & He & _).
  apply (Adding _ _ _ _ _ i); unfold upd; rewrite ?decide_True by done; [done..| |].
  - intros j Hj. rewrite decide_False by done. by apply Ho.
  - by destruct (decide (0%nat = i)).
Qed.

Lemma bump_sound : th.2 = Bump id -> sound (goto i (SetBit id) (on_word node_bump id s)).
Proof.
  intros Eth. pose proof (bump_stored id (tree s) Hv (sound_shape s Hs)) as Ht. pose proof Ht as [T1 T2 T3 T4 T5].
  assert (adds id th.2 = true) as Hadd by (rewrite Eth; apply Z.eqb_refl).
  destruct (adding_here Hadd) as (F & Hb & Hh & Ho & He & Hno). rewrite Eth in Hh. cbn in Hh.
  assert (forall id', 0 <= id' -> scheduled (on_router node_bump id (tree s)) id' = scheduled (tree s) id') as Hbits
    by (intros id' H0; by apply (same_leaves _ _ _ _ Ht)).
  eapply (instruction_sound _ (SetBit id) w true); try done; [by rewrite Eth|by right|by rewrite list_insert_id|..].
  - intros. by apply Hbits.
  - intros H1 H2 H3. by destruct (Hno H1 H2 H3).
  - cbn [tree goto on_word]. rewrite Hbits, Hb, F by apply Hv. apply adding_life; try done; cbn; by rewrite Z.eqb_refl.
  - intros g Hg. cbn [tree goto on_word]. rewrite T5 by done. destruct (Z.eqb_spec g (id / 64)) as [->|]; [|done].
    pose proof (counter_room s id Hs ltac:(apply Hv) Hh). unfold capped. rewrite Hh. replace (64 <=? _) with false by lia. cbn. lia.
Qed.

Lemma set_sound : th.2 = SetBit id -> sound (goto i Idle (on_word node_set id s)).
Proof.
  intros Eth. pose proof (set_stored id (tree s) Hv (sound_shape s Hs)) as Ht. pose proof Ht as [T1 T2 T3 T4 T5].
  assert (adds id th.2 = true) as Hadd by (rewrite Eth; apply Z.eqb_refl).
  destruct (adding_here Hadd) as (F & Hb & Hh & Ho & He & Hno). rewrite Eth in Hh. cbn in Hh. rewrite Z.eqb_refl in Hh.
  assert (forall id', 0 <= id' -> scheduled (on_router node_set id (tree s)) id' = if id' =? id then true else scheduled (tree s) id') as Hbits.
  { intros id' H0. eapply scheduled_stored; [done|apply Hv| |done]. intros. apply leaf_schedule_bits, Z.mod_pos_bound. lia. }
  eapply (instruction_sound _ Idle w true); try done; [by rewrite Eth|by left|by rewrite list_insert_id|..].
  - intros id' H0 Hne. cbn [tree goto on_word]. rewrite Hbits by done. by destruct (Z.eqb_spec id' id).
  - intros H1 H2 H3. by destruct (Hno H1 H2 H3).
  - cbn [tree goto on_word]. rewrite Hbits, Z.eqb_refl, F by apply Hv.
    apply Waiting; [done..| |]; unfold upd.
    + intros j. destruct (decide (j = i)); [done|by apply Ho].
    + by destruct (decide (0%nat = i)).
  - intros g Hg. cbn [tree goto on_word]. rewrite T5, Hh by done. destruct (g =? id / 64); cbn; lia.
Qed.

(** What the executor knows of the contract it executes. *)
Lemma executing_here : executes id th.2 = true ->
  i = 0%nat /\ (m_flags w = EXECUTING \/ m_flags w = Z.lor EXECUTING SCHEDULED) /\
  scheduled (tree s) id = (match th.2 with ClearBit _ => true | _ => false end) /\
  held s id = (match th.2 with Running _ => false | _ => true end) /\ (forall j, adds id (pc_at s j) = false).
Proof.
  intros Hex. rewrite <- pc_i in *. assert (i = 0%nat) as Hi0 by (eapply (sound_pool s Hs i id); by right). split; [done|]. rewrite Hi0 in *.
  destruct life_w as [F Hb Hh Ha He|F Hb Hh Ha He|j F Hb Hh Ha Ho He|F Hb Hh Ha He]; try congruence. done.
Qed.

Lemma executing_life f bit h pc' : executes id th.2 = true -> executes id pc' = true -> f = EXECUTING \/ f = Z.lor EXECUTING SCHEDULED ->
  bit = (match pc' with ClearBit _ => true | _ => false end) -> h = (match pc' with Running _ => false | _ => true end) ->
  life (upd i pc' (pc_at s)) f bit h id.
Proof.
  intros Hex Hex' Hf Hb Hh. destruct (executing_here Hex) as (-> & _ & _ & _ & Ha).
  apply Executing; unfold upd; rewrite ?decide_True by done; [done..| |done].
  intros j. destruct (decide (j = 0%nat)); [by destruct pc'|apply Ha].
Qed.

Lemma clear_sound : th.2 = ClearBit id -> sound (goto i (Drop id) (on_word node_clear id s)).
Proof.
  intros Eth. pose proof (clear_stored id (tree s) Hv (sound_shape s Hs)) as Ht. pose proof Ht as [T1 T2 T3 T4 T5].
  assert (executes id th.2 = true) as Hex by (rewrite Eth; apply Z.eqb_refl).
  destruct (executing_here Hex) as (Hi0 & F & Hb & Hh & Ha). rewrite Eth in Hb, Hh.
  assert (forall id', 0 <= id' -> scheduled (on_router node_clear id (tree s)) id' = if id' =? id then false else scheduled (tree s) id') as Hbits.
  { intros id' H0. eapply scheduled_stored; [done|apply Hv| |done]. intros. apply leaf_deschedule_bits, Z.mod_pos_bound. lia. }
  eapply (instruction_sound _ (Drop id) w true); try done; [by rewrite Eth|by right|by rewrite list_insert_id|..].
  - intros id' H0 Hne. cbn [tree goto on_word]. rewrite Hbits by done. by destruct (Z.eqb_spec id' id).
  - cbn [tree goto on_word]. rewrite Hbits, Z.eqb_refl by apply Hv. by apply executing_life; [|apply Z.eqb_refl|..].
  - intros g Hg. cbn [tree goto on_word]. rewrite T5, Hh by done. destruct (g =? id / 64); cbn; lia.
Qed.

Lemma drop_sound : th.2 = Drop id -> sound (goto i (Running id) (on_word node_drop id s)).
Proof.
  intros Eth. pose proof (drop_stored id (tree s) Hv (sound_shape s Hs)) as Ht. pose proof Ht as [T1 T2 T3 T4 T5].
  assert (executes id th.2 = true) as Hex by (rewrite Eth; apply Z.eqb_refl).
  destruct (executing_here Hex) as (Hi0 & F & Hb & Hh & Ha). rewrite Eth in Hb, Hh.
  pose proof (same_leaves _ _ _ _ Ht) as Hbits.
  eapply (instruction_sound _ (Running id) w false); try done; [by rewrite Eth|by right|by rewrite list_insert_id|..].
  - intros id' H0 Hne. by apply Hbits.
  - cbn [tree goto on_word]. rewrite Hbits by apply Hv. by apply executing_life; [|apply Z.eqb_refl|..].
  - intros g Hg. cbn [tree goto on_word]. rewrite T5 by done. destruct (Z.eqb_spec g (id / 64)) as [->|]; [|done].
    pose proof (counter_used s id Hs ltac:(apply Hv) Hh). unfold lowered. rewrite Hh. replace (_ =? 0) with false by lia. cbn. lia.
Qed.

(** The guard puts the contract back when it was scheduled meanwhile. *)
Lemma finish_sound : th.2 = Running id -> forall s', instruction i (Running id) s = Some s' -> sound s'.
Proof.
  intros Eth s'. cbn [instruction]. rewrite Hw. unfold fetch_and. cbn. rewrite again_bit.
  assert (executes id th.2 = true) as Hex by (rewrite Eth; apply Z.eqb_refl).
  destruct (executing_here Hex) as (Hi0 & F & Hb & Hh & Ha). rewrite Eth in Hb, Hh.
  assert (executes id (upd i Idle (pc_at s) 0%nat) = false) as He by (unfold upd; by rewrite decide_True).
  destruct F as [F|F]; rewrite F; intros [= <-].
  - eapply (instruction_sound _ Idle (set_flags 0 w) false); try done; [by rewrite Eth|by left|apply Hs| |].
    + apply Resting; [done..| |done]. intros j. unfold upd. destruct (decide (j = i)); [done|apply Ha].
    + intros g Hg. rewrite Hh. cbn. destruct (g =? id / 64); cbn; lia.
  - eapply (instruction_sound _ (Bump id) (set_flags SCHEDULED w) false); try done; [by rewrite Eth|by right|apply Hs| |].
    + apply (Adding _ _ _ _ _ i); unfold upd; rewrite ?decide_True by done; [done..|cbn; apply Z.eqb_refl| |done].
      intros j Hj. rewrite decide_False by done. apply Ha.
    + intros g Hg. rewrite Hh. cbn. destruct (g =? id / 64); cbn; lia.
Qed.

(** An executor that is about to claim a contract finds it waiting. *)
Lemma claiming_here : claims th.2 = true -> subject th.2 = Some id ->
  i = 0%nat /\ m_flags w = SCHEDULED /\ scheduled (tree s) id = true /\ held s id = true /\ (forall j, adds id (pc_at s j) = false) /\
  (forall c, read_flags th.2 = Some c -> c = SCHEDULED).
Proof.
  intros Hc Hsub. rewrite <- pc_i in *. assert (i = 0%nat) as Hi0 by (eapply (sound_pool s Hs i id); by left). split; [done|]. rewrite Hi0 in *.
  pose proof (sound_claim s Hs id Hc Hsub) as Hbit. pose proof (sound_read s Hs) as Hread.
  destruct life_w as [F Hb Hh Ha He|F Hb Hh Ha He|j F Hb Hh Ha Ho He|F Hb Hh Ha He]; try congruence; [done|].
  by destruct (pc_at s 0).
Qed.

Lemma exchange_sound c : th.2 = ClaimExchange id c -> forall s', instruction i (ClaimExchange id c) s = Some s' -> sound s'.
Proof.
  intros Eth s'. cbn [instruction]. rewrite Hw.
  destruct claiming_here as (Hi0 & F & Hb & Hh & Ha & Hread); [by rewrite Eth..|]. rewrite Eth in Hread. rewrite (Hread c eq_refl).
  cbn [mbind option_bind]. unfold compare_exchange. rewrite F. cbn. intros [= <-].
  eapply (instruction_sound _ (ClearBit id) (set_flags EXECUTING w) true); try done; [by rewrite Eth|by right|apply Hs|..].
  - cbn [tree goto store]. apply Executing; unfold upd; rewrite ?decide_True by done; [by left|done..| |cbn; apply Z.eqb_refl].
    intros j. destruct (decide (j = i)); [done|apply Ha].
  - intros g Hg. cbn. rewrite Hh. destruct (g =? id / 64); cbn; lia.
Qed.

End Instruction.

(** ** One executor: the theorem *)

Lemma instruction_keeps s s' i th : sound s -> threads s !! i = Some th -> instruction i th.2 s = Some s' -> sound s'.
Proof.
  intros Hs Hi E. pose proof (sound_subject s Hs i) as Hsub. rewrite (pc_at_thread s i th Hi) in Hsub.
  destruct th as [b pc]. cbn [snd] in *. destruct (subject pc) as [id|] eqn:Esub; [|by destruct pc].
  specialize (Hsub id eq_refl). destruct (sound_worker s id Hs Hsub) as [w Hw].
  assert (forall pc', plain pc -> plain pc' -> (subject pc' = None \/ subject pc' = Some id) ->
    (claims pc' = true -> i = 0%nat /\ scheduled (tree s) id = true) -> (forall c, read_flags pc' = Some c -> c = SCHEDULED) ->
    sound (goto i pc' s)) as Hpass.
  { intros pc' P1 P2 P3 P4 P5. rewrite <- (store_same s id w Hw).
    eapply (pass_sound s i (b, pc) id pc' w w); first [done|by right|apply same_stage_refl]. }
  destruct pc as [|id'|id'|id'|id'|id'|id' c|id' c|id'|id'|id']; try (injection Esub as <-); cbn [instruction] in E.
  - done.
  - rewrite Hw in E. cbn in E. injection E as <-. destruct (is_scheduled w); apply Hpass; try done; [by left|by right].
  - eapply (fetch_or_sound s i _ id' w); done.
  - injection E as <-. by eapply (bump_sound s i _ id' w).
  - injection E as <-. by eapply (set_sound s i _ id' w).
  - rewrite Hw in E. cbn in E. injection E as <-.
    destruct (claiming_here s i _ id' w Hs Hi Hsub Hw) as (Hi0 & F & Hb & _); [done..|].
    apply Hpass; try done; [by right|]. intros c [= <-]. done.
  - rewrite Hw in E. cbn in E. injection E as <-.
    destruct (claiming_here s i _ id' w Hs Hi Hsub Hw) as (Hi0 & F & Hb & _ & _ & Hread); [done..|].
    destruct (is_scheduled w); apply Hpass; try done; [by right|by left].
  - by eapply (exchange_sound s i _ id' w Hs Hi Hsub Hw c).
  - injection E as <-. by eapply (clear_sound s i _ id' w).
  - injection E as <-. by eapply (drop_sound s i _ id' w).
  - eapply (finish_sound s i _ id' w); done.
Qed.

(** A thread at rest takes up a contract. *)
Lemma begin_sound s i b id pc' : sound s -> threads s !! i = Some (b, Idle) -> valid_id (tree s) id -> plain pc' ->
  subject pc' = Some id -> read_flags pc' = None -> (claims pc' = true -> i = 0%nat /\ scheduled (tree s) id = true) ->
  sound (goto i pc' s).
Proof.
  intros Hs Hi Hv Hp Hsub Hread Hc. destruct (sound_worker s id Hs Hv) as [w Hw]. rewrite <- (store_same s id w Hw).
  eapply (pass_sound s i (b, Idle) id pc' w w); first [done|by left|by right|apply same_stage_refl|congruence].
Qed.

(** The biases do not matter. *)
Lemma bias_sound s i bias : sound s -> sound (with_bias i bias s).
Proof.
  assert (forall j, pc_at (with_bias i bias s) j = pc_at s j) as Hpc.
  { intros j. unfold pc_at, with_bias. cbn [threads]. destruct (decide (j = i)) as [->|Hne].
    - rewrite list_lookup_alter_eq. by destruct (threads s !! i).
    - by rewrite list_lookup_alter_ne. }
  assert (forall id, held (with_bias i bias s) id = held s id) as Hh.
  { intros id. apply eq_true_iff_eq. rewrite !held_spec. cbn [tree with_bias]. apply or_iff_compat_l.
    split; intros [j Hj]; exists j; [by rewrite <- Hpc|by rewrite Hpc]. }
  intros [S1 S2 S3 S4 S5 S6 S7 S8]. split; [done|done|..]; cbn [tree workers with_bias].
  - intros j id. rewrite Hpc. apply S3.
  - intros j id. rewrite Hpc. apply S4.
  - intros id. rewrite Hpc. apply S5.
  - intros c. rewrite Hpc. apply S6.
  - intros id w H0 Hw. rewrite Hh. specialize (S7 id w H0 Hw).
    destruct S7 as [H1 H2 H3 H4 H5|H1 H2 H3 H4 H5|j H1 H2 H3 H4 H5 H6|H1 H2 H3 H4 H5].
    + apply Resting; [done..|intros j; by rewrite Hpc|by rewrite Hpc].
    + apply Waiting; [done..|intros j; by rewrite Hpc|by rewrite Hpc].
    + apply (Adding _ _ _ _ _ j); rewrite ?Hpc; [done..|intros k Hk; rewrite Hpc; by apply H5|done].
    + apply Executing; rewrite ?Hpc; [done..|intros j; by rewrite Hpc|done].
  - intros g Hg. rewrite S8 by done. apply count_if_ext. intros x _. by rewrite Hh.
Qed.

Lemma exec_sound s s' ev : sound s -> exec 1 ev s = Some s' -> sound s'.
Proof.
  intros Hs E. destruct ev as [i id|i|i id|i]; cbn [exec] in E; apply bind_Some in E as ([b pc] & Hi & E).
  - destruct pc; try done. destruct ((0 <=? id) && (id <? capacity (tree s))) eqn:Ev; [|done]. injection E as <-.
    apply (begin_sound s i b id); try done. unfold valid_id. lia.
  - destruct pc; try done. destruct (i <? 1)%nat eqn:Ei; [|done]. apply Nat.ltb_lt in Ei.
    destruct (next b (tree s)) as [[id|] bias] eqn:En; injection E as <-; pose proof (bias_sound s i bias Hs) as Hs'.
    + destruct (next_scheduled _ _ _ _ (sound_shape s Hs) En) as [Hv Hb].
      apply (begin_sound _ i bias id); try done; [cbn [threads with_bias]; by rewrite list_lookup_alter_eq, Hi|]. intros _. split; [lia|done].
    + done.
  - destruct pc; try done. destruct (_ && _) eqn:Ev; [|done]. injection E as <-.
    apply andb_prop in Ev as [Ev Hb]. apply andb_prop in Ev as [Ev Hlt]. apply andb_prop in Ev as [Ei H0].
    apply Nat.ltb_lt in Ei. apply (begin_sound s i b id); try done; [unfold valid_id; lia|]. intros _. split; [lia|done].
  - by apply (instruction_keeps s s' i (b, pc)).
Qed.

Lemma run_sound trace s s' : sound s -> run 1 trace s = Some s' -> sound s'.
Proof.
  revert s. induction trace as [|ev trace IH]; intros s Hs; cbn [run]; [by intros [= <-]|].
  intros (s1 & E & Hr)%bind_Some. apply (IH s1); [by eapply exec_sound|done].
Qed.

Lemma start_pc NUM_ROUTERS n i : pc_at (start NUM_ROUTERS n) i = Idle.
Proof.
  unfold pc_at, start. cbn [threads]. destruct (replicate n (0, Idle) !! i) as [th|] eqn:E; [|done].
  by apply lookup_replicate in E as [-> _].
Qed.

Lemma start_sound NUM_ROUTERS n : 512 * Z.of_nat NUM_ROUTERS <= 2 ^ 32 -> sound (start NUM_ROUTERS n).
Proof.
  intros Hn. pose proof (new_tree_ok NUM_ROUTERS Hn) as Hok.
  assert (forall id, held (start NUM_ROUTERS n) id = false) as Hh.
  { intros id. apply not_true_iff_false. rewrite held_spec. cbn [tree start]. rewrite new_tree_scheduled.
    intros [?|[i Hi]]; [done|]. by rewrite start_pc in Hi. }
  split.
  - apply Hok.
  - cbn. unfold capacity, new_tree. cbn. rewrite !length_replicate. lia.
  - intros i id. rewrite start_pc. by intros [?|?].
  - intros i id. by rewrite start_pc.
  - intros id. by rewrite start_pc.
  - intros c. by rewrite start_pc.
  - intros id w H0 Hw. cbn [workers start] in Hw. apply lookup_replicate in Hw as [-> _]. cbn [tree start]. rewrite new_tree_scheduled.
    apply Resting; [done..|by apply Hh| |]; [intros i|]; by rewrite start_pc.
  - intros g Hg. cbn [tree start]. rewrite (ok_counter _ Hok g Hg). destruct (new_tree_leaf NUM_ROUTERS g) as [-> _].
    symmetry. change (bit_count 0) with 0. apply count_if_zero. intros x _. apply Hh.
Qed.

(** Between its calls, nobody adds or executes anything. *)
Lemma rest_life s id w : sound s -> (forall i, pc_at s i = Idle) -> 0 <= id -> workers s !! Z.to_nat id = Some w ->
  m_flags w = (if scheduled (tree s) id then SCHEDULED else 0) /\ held s id = scheduled (tree s) id.
Proof.
  intros Hs Hidle H0 Hw. destruct (sound_life s Hs id w H0 Hw) as [H1 H2 H3 H4 H5|H1 H2 H3 H4 H5|j H1 H2 H3 H4 H5 H6|H1 H2 H3 H4 H5].
  - by rewrite H1, H2, H3.
  - by rewrite H1, H2, H3.
  - by rewrite Hidle in H4.
  - by rewrite Hidle in H5.
Qed.

Lemma rest_ok s : sound s -> (forall i, pc_at s i = Idle) -> tree_ok (tree s).
Proof.
  intros Hs Hidle. split; [apply Hs|]. intros g Hg. rewrite (sound_counter s Hs g Hg). unfold bit_count.
  replace (seqZ (64 * g) 64) with (Z.add (64 * g) <$> seqZ 0 64) by (rewrite fmap_add_seqZ; f_equal; lia).
  assert (forall l f, count_if f (Z.add (64 * g) <$> l) = count_if (fun x => f (64 * g + x)) l) as Hmap.
  { intros l f. induction l as [|x l IH]; [done|]. cbn. by rewrite IH. }
  rewrite Hmap. apply count_if_ext. intros x Hx%elem_of_seqZ.
  assert (held s (64 * g + x) = scheduled (tree s) (64 * g + x)) as ->.
  { apply eq_true_iff_eq. rewrite held_spec. split; [intros [?|[i Hi]]; [done|by rewrite Hidle in Hi]|by left]. }
  unfold scheduled. replace ((64 * g + x) / 64) with g by mlia. by replace ((64 * g + x) mod 64) with x by mlia.
Qed.

(** C7: With one executor no wake-up is lost, however its instructions and those of the callers of [schedule] interleave:
    a contract with the SCHEDULED flag is in the tree, or a thread is putting it there, or it is executing and will be put
    back; and when all threads are at rest the tree holds exactly the contracts with that flag, nothing executes, and a
    search finds one of them if there is any. *)
Theorem no_wakeup_lost NUM_ROUTERS n trace s :
  512 * Z.of_nat NUM_ROUTERS <= 2 ^ 32 -> run 1 trace (start NUM_ROUTERS n) = Some s ->
  (forall id w, 0 <= id -> workers s !! Z.to_nat id = Some w -> is_scheduled w = true ->
     scheduled (tree s) id = true \/ (exists i, adds id (pc_at s i) = true) \/ executes id (pc_at s 0) = true) /\
  ((forall i, pc_at s i = Idle) ->
     tree_ok (tree s) /\
     (forall id w, 0 <= id -> workers s !! Z.to_nat id = Some w -> m_flags w = if scheduled (tree s) id then SCHEDULED else 0) /\
     forall bias id w, 0 <= id -> workers s !! Z.to_nat id = Some w -> is_scheduled w = true ->
       exists id', (next bias (tree s)).1 = Some id' /\ scheduled (tree s) id' = true).
Proof.
  intros Hn Hr. pose proof (run_sound trace _ s (start_sound NUM_ROUTERS n Hn) Hr) as Hs. split.
  - intros id w H0 Hw Hb. rewrite is_scheduled_bit in Hb.
    destruct (sound_life s Hs id w H0 Hw) as [H1 H2 H3 H4 H5|H1 H2 H3 H4 H5|j H1 H2 H3 H4 H5 H6|H1 H2 H3 H4 H5].
    + by rewrite H1 in Hb.
    + by left.
    + right; left. by exists j.
    + by right; right.
  - intros Hidle. pose proof (rest_ok s Hs Hidle) as Hok. split; [done|]. split; [intros id w H0 Hw; by apply rest_life|].
    intros bias id w H0 Hw Hb. destruct (rest_life s id w Hs Hidle H0 Hw) as [Hf _]. rewrite is_scheduled_bit, Hf in Hb.
    destruct (scheduled (tree s) id) eqn:Es; [|done].
    destruct (next_complete (tree s) bias id (ok_shape _ Hok)) as (id' & bias' & E); [intros; by apply tree_ok_counters|done|done|].
    exists id'. rewrite E. split; [done|]. by eapply next_scheduled; [apply Hok|].
Qed.

(** Contract 5 is scheduled, found, scheduled again while it runs, and so put back. *)
Definition rerun_trace : list Event := Call 1 5 :: steps 4 1 ++ [Search 0] ++ steps 5 0 ++ Call 1 5 :: steps 2 1 ++ steps 3 0.

Definition rerun : State := default (start 1 2) (run 1 rerun_trace (start 1 2)).

Lemma no_wakeup_lost_witness :
  run 1 rerun_trace (start 1 2) = Some rerun /\ exists id, (next 0 (tree rerun)).1 = Some id.
Proof.
  assert (run 1 rerun_trace (start 1 2) = Some rerun) as Hr by (vm_compute; reflexivity). split; [exact Hr|].
  destruct (no_wakeup_lost 1 2 rerun_trace rerun ltac:(lia) Hr) as [_ Hrest].
  destruct Hrest as (_ & _ & Hfind).
  - intros i. destruct i as [|[|i]]; vm_compute; reflexivity.
  - destruct (Hfind 0 5 (mkWorker unit None 1)) as (id & Hid & _); [lia|vm_compute; reflexivity|reflexivity|]. by exists id.
Defined.

(** ** One executor: progress *)

(** Everything in the tree, and everything a thread is working on, is in branch [g]: so it is in a pool that
    has handed out at most 64 ids, where [g] is 0. *)
Definition branched (g : Z) (s : State) : Prop :=
  in_branch g (tree s) /\ forall i id, subject (pc_at s i) = Some id -> id / 64 = g.

(** The calls name contracts of branch [g], and executors search as [next] does. *)
Definition fair (g : Z) (ev : Event) : Prop :=
  match ev with Call _ id => id / 64 = g | Find _ _ => False | _ => True end.

Definition is_search (ev : Event) : bool := match ev with Search _ => true | _ => false end.

Fixpoint count_searches (trace : list Event) : nat :=
  match trace with [] => 0%nat | ev :: trace => ((if is_search ev then 1 else 0) + count_searches trace)%nat end.

(** The executor has found contract [id] and has not finished with it. *)
Definition toward (id : Z) (pc : Pc) : bool :=
  match pc with
  | ClaimLoad id' | ClaimTest id' _ | ClaimExchange id' _ | ClearBit id' | Drop id' | Running id' => id' =? id
  | _ => false
  end.

(** On the way the executor comes to run contract [id]. *)
Definition gets_run (id : Z) (trace : list Event) (s : State) : Prop :=
  exists t1 t2 s1, trace = t1 ++ t2 /\ run 1 t1 s = Some s1 /\ pc_at s1 0 = Running id.

Definition bias_of (s : State) : Z := default 0 (fst <$> threads s !! 0%nat).

Lemma gets_run_cons id ev trace s s1 : exec 1 ev s = Some s1 -> gets_run id trace s1 -> gets_run id (ev :: trace) s.
Proof.
  intros E (t1 & t2 & s2 & -> & Hr & Hpc). exists (ev :: t1), t2, s2. split; [done|]. split; [|done]. cbn [run]. by rewrite E.
Qed.

(** What an instruction does to the thread that makes it, and to the bits of the tree. *)
Lemma instruction_threads i pc s s' : instruction i pc s = Some s' ->
  exists pc', threads s' = threads (goto i pc' s) /\ (subject pc' = None \/ subject pc' = subject pc).
Proof.
  destruct pc; cbn [instruction]; try done;
    try (intros [= <-]; eexists; split; [done|]; cbn; by auto);
    intros (w & _ & E)%bind_Some; revert E; unfold Worker.schedule, fetch_or, fetch_and, compare_exchange;
    repeat case_match; simplify_eq; intros [= <-]; eexists; (split; [done|]); cbn; by auto.
Qed.

Lemma instruction_bits i pc s s' id id' : sound s -> (subject pc = Some id -> valid_id (tree s) id) ->
  instruction i pc s = Some s' -> subject pc = Some id -> 0 <= id' ->
  scheduled (tree s') id' =
    match pc with
    | SetBit _ => if id' =? id then true else scheduled (tree s) id'
    | ClearBit _ => if id' =? id then false else scheduled (tree s) id'
    | _ => scheduled (tree s) id'
    end.
Proof.
  intros Hs Hv E Hsub H0. specialize (Hv Hsub). pose proof (sound_shape s Hs) as Hsh.
  destruct pc; cbn [subject] in Hsub; simplify_eq; cbn [instruction] in E;
    try (apply bind_Some in E as (w & _ & E); revert E; unfold Worker.schedule, fetch_or, fetch_and, compare_exchange;
      repeat case_match; simplify_eq; by intros [= <-]); try (by injection E as <-); injection E as <-; cbn [tree goto on_word].
  - by apply (same_leaves _ _ _ _ (bump_stored id (tree s) Hv Hsh)).
  - eapply scheduled_stored; [by apply set_stored|apply Hv| |done]. intros. apply leaf_schedule_bits, Z.mod_pos_bound. lia.
  - eapply scheduled_stored; [by apply clear_stored|apply Hv| |done]. intros. apply leaf_deschedule_bits, Z.mod_pos_bound. lia.
  - by apply (same_leaves _ _ _ _ (drop_stored id (tree s) Hv Hsh)).
Qed.

Lemma pc_at_threads s s' i pc j : threads s' = threads (goto i pc s) -> (i < length (threads s))%nat ->
  pc_at s' j = upd i pc (pc_at s) j.
Proof.
  intros E Hi. destruct (lookup_lt_is_Some_2 (threads s) i Hi) as [th Hth].
  rewrite <- (pc_at_goto s i th) by done. unfold pc_at. by rewrite E.
Qed.

Lemma bias_goto i pc s s' : threads s' = threads (goto i pc s) -> bias_of s' = bias_of s.
Proof.
  intros E. unfold bias_of. rewrite E. unfold goto. cbn [threads]. destruct (decide (i = 0%nat)) as [->|Hne].
  - rewrite list_lookup_alter_eq. by destruct (threads s !! 0%nat).
  - by rewrite list_lookup_alter_ne by done.
Qed.

Lemma pc_at_bias i bias s j : pc_at (with_bias i bias s) j = pc_at s j.
Proof.
  unfold pc_at, with_bias. cbn [threads]. destruct (decide (j = i)) as [->|Hne].
  - rewrite list_lookup_alter_eq. by destruct (threads s !! i).
  - by rewrite list_lookup_alter_ne.
Qed.

(** A thread of the list goes to [pc]. *)
Lemma branched_goto g i pc s s' :
  branched g s -> threads s' = threads (goto i pc s) -> (i < length (threads s))%nat -> in_branch g (tree s') ->
  (forall id, subject pc = Some id -> id / 64 = g) -> branched g s'.
Proof.
  intros [_ Hsub] E Hi Hin Hpc. split; [done|]. intros j id. rewrite (pc_at_threads s s' i pc j E Hi). unfold upd.
  destruct (decide (j = i)); [apply Hpc|apply Hsub].
Qed.

Lemma branched_step g i pc s s' b :
  sound s -> branched g s -> threads s !! i = Some (b, pc) -> instruction i pc s = Some s' -> branched g s'.
Proof.
  intros Hs Hb Hi E. pose proof (pc_at_thread s i _ Hi) as Hpc. cbn in Hpc.
  destruct (instruction_threads i pc s s' E) as (pc' & Eth & Hsub').
  apply (branched_goto g i pc' s); [done|done|by eapply lookup_lt_Some|..].
  - intros id0 H0 Hbit. destruct (subject pc) as [id|] eqn:Esub; [|by destruct pc].
    rewrite (instruction_bits i pc s s' id id0 Hs) in Hbit; [|intros _; apply (sound_subject s Hs i); by rewrite Hpc|done..].
    assert (scheduled (tree s) id0 = true -> id0 / 64 = g) as Hold by (apply Hb; done).
    destruct pc; cbn in Hbit; try (by apply Hold); destruct (Z.eqb_spec id0 id) as [->|]; try done; try (by apply Hold).
    apply (proj2 Hb i). by rewrite Hpc.
  - intros id Hid. apply (proj2 Hb i). rewrite Hpc. destruct Hsub' as [H|H]; congruence.
Qed.

Lemma branched_search g i b bias found s s' :
  sound s -> branched g s -> threads s !! i = Some (b, Idle) -> next b (tree s) = (found, bias) ->
  s' = (match found with Some id => goto i (ClaimLoad id) (with_bias i bias s) | None => with_bias i bias s end) ->
  branched g s'.
Proof.
  intros Hs Hb Hi En ->.
  assert (branched g (with_bias i bias s)) as Hb' by (split; [apply Hb|intros j id; rewrite pc_at_bias; apply Hb]).
  destruct found as [id|]; [|done].
  destruct (next_scheduled _ _ _ _ (sound_shape s Hs) En) as [[H0 _] Hbit].
  apply (branched_goto g i (ClaimLoad id) (with_bias i bias s)); [done|done| |apply Hb|].
  - unfold with_bias. cbn [threads]. rewrite length_alter. by eapply lookup_lt_Some.
  - intros ? [= <-]. by apply Hb.
Qed.

Lemma branched_exec g ev s s' : sound s -> branched g s -> fair g ev -> exec 1 ev s = Some s' -> branched g s'.
Proof.
  intros Hs Hb Hf E. destruct ev as [i id|i|i id|i]; cbn [exec fair] in *; [| |done|];
    apply bind_Some in E as ([b pc] & Hi & E).
  - destruct pc; try done. destruct (_ && _); [|done]. injection E as <-.
    apply (branched_goto g i (IsScheduled id) s); [done|done|by eapply lookup_lt_Some|apply Hb|by intros ? [= <-]].
  - destruct pc; try done. destruct (i <? 1)%nat; [|done]. destruct (next b (tree s)) as [found bias] eqn:En.
    injection E as <-. by eapply branched_search.
  - by eapply branched_step.
Qed.

(** Only an executor clears a bit: a contract in the tree stays there until the executor has found it. *)
Lemma waits_exec id ev s s' : sound s -> exec 1 ev s = Some s' -> 0 <= id -> scheduled (tree s) id = true ->
  toward id (pc_at s 0) = false -> scheduled (tree s') id = true.
Proof.
  intros Hs E H0 Hbit Hto. destruct ev as [i id'|i|i id'|i]; cbn [exec] in E; apply bind_Some in E as ([b pc] & Hi & E).
  - destruct pc; try done. destruct (_ && _); [|done]. by injection E as <-.
  - destruct pc; try done. destruct (i <? 1)%nat; [|done]. destruct (next b (tree s)) as [[id'|] bias]; by injection E as <-.
  - destruct pc; try done. destruct (_ && _); [|done]. by injection E as <-.
  - pose proof (pc_at_thread s i _ Hi) as Hpc. cbn in Hpc. destruct (subject pc) as [id'|] eqn:Esub; [|by destruct pc].
    rewrite (instruction_bits i pc s s' id' id Hs); [|intros _; apply (sound_subject s Hs i); by rewrite Hpc|done..].
    destruct pc; try done; cbn in Esub; injection Esub as ->; [by destruct (id =? id')|].
    assert (i = 0%nat) as -> by (apply (sound_pool s Hs i id'); right; rewrite Hpc; apply Z.eqb_refl).
    rewrite Hpc in Hto. cbn in Hto. rewrite Z.eqb_sym in Hto. by rewrite Hto.
Qed.

(** Once found, a contract is claimed. *)
Lemma toward_step id s s' b pc : sound s -> threads s !! 0%nat = Some (b, pc) -> instruction 0 pc s = Some s' ->
  toward id pc = true -> pc = Running id \/ toward id (pc_at s' 0) = true.
Proof.
  intros Hs Hi E Hto.
  assert (forall pc' s0, threads s0 = threads (goto 0 pc' s) -> pc_at s0 0 = pc') as Hat.
  { intros pc' s0 Eth. rewrite (pc_at_threads s s0 0 pc' 0 Eth) by (by eapply lookup_lt_Some). by apply decide_True. }
  assert (subject pc = Some id) as Hsub by (destruct pc; try done; cbn in Hto; by apply Z.eqb_eq in Hto as ->).
  assert (valid_id (tree s) id) as Hv by (apply (sound_subject s Hs 0); by rewrite (pc_at_thread s 0 _ Hi)).
  destruct (sound_worker s id Hs Hv) as [w Hw].
  pose proof (claiming_here s 0 (b, pc) id w Hs Hi Hv Hw) as Hcl. cbn [snd] in Hcl.
  destruct pc; try done; cbn in Hsub; injection Hsub as ->; cbn [instruction] in E;
    try (right; injection E as <-; erewrite Hat by reflexivity; cbn; by rewrite Z.eqb_refl).
  - right. rewrite Hw in E. injection E as <-. erewrite Hat by reflexivity. cbn. by rewrite Z.eqb_refl.
  - right. rewrite Hw in E. injection E as <-. erewrite Hat by reflexivity. destruct Hcl as (_ & F & _); [done..|].
    rewrite is_scheduled_bit, F. cbn. by rewrite Z.eqb_refl.
  - right. rewrite Hw in E. destruct Hcl as (_ & F & _ & _ & _ & Hc); [done..|]. rewrite (Hc _ eq_refl) in E.
    cbn [mbind option_bind] in E. unfold compare_exchange in E. rewrite F in E. cbn in E. injection E as <-.
    erewrite Hat by reflexivity. cbn. by rewrite Z.eqb_refl.
  - by left.
Qed.

(** An event of another thread, or one that is no search. *)
Lemma quiet_event_pc ev s s' : exec 1 ev s = Some s' -> pc_at s 0 <> Idle ->
  pc_at s' 0 = pc_at s 0 \/ ev = Step 0 /\ exists b pc, threads s !! 0%nat = Some (b, pc) /\ instruction 0 pc s = Some s'.
Proof.
  intros E Hpc. destruct ev as [i id|i|i id|i]; cbn [exec] in E; apply bind_Some in E as ([b pc] & Hi & E);
    pose proof (pc_at_thread s i _ Hi) as Hi'; cbn in Hi'.
  - destruct pc; try done. destruct (_ && _); [|done]. injection E as <-. left.
    erewrite pc_at_goto by done. unfold upd. apply decide_False. congruence.
  - destruct pc; try done. destruct (i <? 1)%nat eqn:Ei; [|done]. apply Nat.ltb_lt in Ei. destruct i; [done|lia].
  - destruct pc; try done. destruct (i <? 1)%nat eqn:Ei; [|done]. apply Nat.ltb_lt in Ei. destruct i; [done|lia].
  - destruct i as [|i]; [right; by eauto|left]. destruct (instruction_threads _ _ _ _ E) as (pc' & Eth & _).
    rewrite (pc_at_threads s s' (S i) pc' 0 Eth) by (by eapply lookup_lt_Some). by apply decide_False.
Qed.

Lemma found_runs id trace s s' : sound s -> toward id (pc_at s 0) = true -> run 1 trace s = Some s' ->
  (1 <= count_searches trace)%nat -> gets_run id trace s.
Proof.
  revert s. induction trace as [|ev trace IH]; intros s Hs Hto; cbn [run count_searches]; [lia|].
  intros (s1 & E & Hr)%bind_Some Hc. destruct (decide (pc_at s 0 = Running id)) as [Hrun|Hrun].
  { exists [], (ev :: trace), s. by rewrite Hrun. }
  assert (pc_at s 0 <> Idle) as Hidle by (intros E0; by rewrite E0 in Hto).
  assert (is_search ev = false) as Hev.
  { destruct ev as [|i| |]; try done. cbn [exec] in E. apply bind_Some in E as ([b pc] & Hi & E).
    destruct pc; try done. destruct (i <? 1)%nat eqn:Ei; [|done]. apply Nat.ltb_lt in Ei. destruct i; [|lia].
    by rewrite (pc_at_thread s 0 _ Hi) in Hidle. }
  rewrite Hev in Hc. apply (gets_run_cons _ _ _ _ s1 E), IH; [by eapply exec_sound| |done|done].
  destruct (quiet_event_pc ev s s1 E Hidle) as [-> |(_ & b & pc & Hi & Ei)]; [done|].
  rewrite (pc_at_thread s 0 _ Hi) in Hto, Hrun. by destruct (toward_step id s s1 b pc Hs Hi Ei Hto).
Qed.

Lemma search_turn g id s : sound s -> branched g s -> 0 <= id -> scheduled (tree s) id = true ->
  exists id' bias', next (bias_of s) (tree s) = (Some id', bias') /\ (id' = id \/ turns_left id bias' < turns_left id (bias_of s)).
Proof.
  intros Hs Hb H0 Hbit. apply (turn_covered g); [apply Hs| |apply Hb|done|done].
  intros g' Hg Hl Hc. apply Hl. apply Z.bits_inj_iff'. intros n Hn. rewrite Z.bits_0.
  destruct (Z.lt_ge_cases n 64) as [Hlt|Hge].
  - assert (scheduled (tree s) (64 * g' + n) = Z.testbit (leaf (tree s) g') n) as E.
    { unfold scheduled. replace ((64 * g' + n) / 64) with g' by mlia. by replace ((64 * g' + n) mod 64) with n by mlia. }
    rewrite <- E. apply not_true_iff_false. intros Hs'. apply (counter_used s (64 * g' + n) Hs); [lia|apply held_spec; by left|].
    by replace ((64 * g' + n) / 64) with g' by mlia.
  - pose proof (leaf_word (tree s) g' (sound_shape s Hs)) as Hw. unfold word in Hw.
    apply Z.bits_above_log2; [lia|]. destruct (Z.eq_dec (leaf (tree s) g') 0) as [E|E]; [by rewrite E|].
    apply Z.log2_lt_pow2; [lia|]. apply Z.lt_le_trans with (2 ^ 64); [lia|]. apply Z.pow_le_mono_r; lia.
Qed.

Lemma waits_run g id trace s s' : sound s -> branched g s -> 0 <= id -> scheduled (tree s) id = true ->
  Forall (fair g) trace -> run 1 trace s = Some s' ->
  turns_left id (bias_of s) + 2 <= Z.of_nat (count_searches trace) -> gets_run id trace s.
Proof.
  intros Hs Hb H0 Hbit Hf. revert s Hs Hb Hbit.
  induction Hf as [|ev trace Hev Hf IH]; intros s Hs Hb Hbit; cbn [run count_searches].
  { intros _ Hc. pose proof (turns_left_bounds id (bias_of s)). lia. }
  intros (s1 & E & Hr)%bind_Some Hc. pose proof (turns_left_bounds id (bias_of s)).
  destruct (toward id (pc_at s 0)) eqn:Hto.
  { apply (found_runs id (ev :: trace) s s'); [done|done|cbn [run]; by rewrite E|cbn [count_searches]; lia]. }
  apply (gets_run_cons _ _ _ _ s1 E). pose proof (exec_sound s s1 ev Hs E) as Hs1.
  pose proof (branched_exec g ev s s1 Hs Hb Hev E) as Hb1. pose proof (waits_exec id ev s s1 Hs E H0 Hbit Hto) as Hbit1.
  destruct ev as [i id'|i|i id'|i]; [| |done|]; cbn [is_search] in Hc; cbn [exec] in E; apply bind_Some in E as ([b pc] & Hi & E).
  - apply IH; try done. destruct pc; try done. destruct (_ && _); [|done]. injection E as <-.
    by rewrite (bias_goto i (IsScheduled id') s).
  - destruct pc; try done. destruct (i <? 1)%nat eqn:Ei; [|done]. apply Nat.ltb_lt in Ei. destruct i; [|lia].
    destruct (search_turn g id s Hs Hb H0 Hbit) as (id' & bias' & En & Hcase).
    assert (bias_of s = b) as Hbias by (unfold bias_of; by rewrite Hi). rewrite Hbias in *. rewrite En in E. injection E as <-.
    set (s1 := goto 0 (ClaimLoad id') (with_bias 0 bias' s)) in *.
    assert (threads s1 !! 0%nat = Some (bias', ClaimLoad id')) as Ht
      by (subst s1; unfold goto, with_bias; cbn [threads]; by rewrite !list_lookup_alter_eq, Hi).
    destruct Hcase as [->|Hlt].
    + apply (found_runs id trace s1 s'); [done|rewrite (pc_at_thread s1 0 _ Ht); cbn; apply Z.eqb_refl|done|lia].
    + apply IH; try done. unfold bias_of. rewrite Ht. cbn. lia.
  - apply IH; try done. destruct (instruction_threads _ _ _ _ E) as (pc' & Eth & _). by rewrite (bias_goto i pc' s s1 Eth).
Qed.

Lemma start_branched g NUM_ROUTERS n : branched g (start NUM_ROUTERS n).
Proof.
  split; [intros id _; cbn [tree start]; by rewrite new_tree_scheduled|]. intros i id. by rewrite start_pc.
Qed.

Lemma branched_run g trace s s' : sound s -> branched g s -> Forall (fair g) trace -> run 1 trace s = Some s' -> branched g s'.
Proof.
  intros Hs Hb Hf. revert s Hs Hb. induction Hf as [|ev trace Hev _ IH]; intros s Hs Hb; cbn [run]; [by intros [= <-]|].
  intros (s1 & E & Hr)%bind_Some. apply (IH s1); [by eapply exec_sound|by eapply branched_exec|done].
Qed.

(** C8: Scheduling is live with one executor: in a pool whose contracts share a branch of 64 ids (the first 64 that
    are handed out do), a contract that is in the tree is run before the executor has made 65 searches, in every
    interleaving of the executor's instructions with those of the threads that call [schedule], for this or any other
    contract, as often as they like. *)
Theorem waiting_contract_runs NUM_ROUTERS n g before trace s s' id :
  512 * Z.of_nat NUM_ROUTERS <= 2 ^ 32 ->
  Forall (fair g) (before ++ trace) -> run 1 before (start NUM_ROUTERS n) = Some s -> run 1 trace s = Some s' ->
  0 <= id -> scheduled (tree s) id = true -> (65 <= count_searches trace)%nat ->
  exists t1 t2 s1, trace = t1 ++ t2 /\ run 1 t1 s = Some s1 /\ pc_at s1 0 = Running id.
Proof.
  intros Hn [Hf1 Hf2]%Forall_app Hr Hr' H0 Hbit Hc. pose proof (start_sound NUM_ROUTERS n Hn) as Hs0.
  pose proof (turns_left_bounds id (bias_of s)).
  apply (waits_run g id trace s s'); [by eapply run_sound|apply (branched_run g before _ s Hs0 (start_branched g _ _) Hf1 Hr)|done..|lia].
Qed.

(** Contracts 6 and 5 are scheduled; contract 5 is found first, scheduled again while it runs, and put back. *)
Definition busy_before : list Event := Call 1 6 :: steps 4 1 ++ Call 1 5 :: steps 4 1.
Definition busy_trace : list Event :=
  (Search 0 :: steps 5 0 ++ Call 1 5 :: steps 2 1 ++ steps 3 0) ++ (Search 0 :: steps 6 0) ++ (Search 0 :: steps 6 0) ++
  replicate 62 (Search 0).
Definition busy : State := default (start 1 2) (run 1 busy_before (start 1 2)).

Lemma waiting_contract_runs_witness :
  exists t1 t2 s1, busy_trace = t1 ++ t2 /\ run 1 t1 busy = Some s1 /\ pc_at s1 0 = Running 6.
Proof.
  apply (waiting_contract_runs 1 2 0 busy_before busy_trace busy (default (start 1 2) (run 1 busy_trace busy)) 6).
  - lia.
  - vm_compute. repeat constructor.
  - vm_compute. reflexivity.
  - vm_compute. reflexivity.
  - lia.
  - vm_compute. reflexivity.
  - vm_compute. lia.
Defined.
