(* ===== verification/Model.v ===== *)
(** * The workflow data model (plugins/shared/model)

    The enumerations, policies, graph, definitions and run-time records the workflow engine works
    on, with the constructors and fields of the classes in the source: one record per class (the
    field prefix names the class), its default-constructed value, the setters the engine uses, and
    its [validate] method.  A getter is the projection of the same name.

    - A uuid is represented by its canonical text, so [std::format("{}", id)] is the identity;
      [nil_id] is the default-constructed uuid.
    - A [std::unordered_map<std::string, std::string>] is a [gmap string string].
    - A [system_clock::time_point] is the number of clock ticks since the epoch, as a [Z].
    - A [std::uint32_t] is a [Z]; the arithmetic that can wrap writes [u32]. *)

From stdpp Require Import base gmap strings list fin_maps.
From Stdlib Require Import ZArith Lia.
From S2P Require Import Prelude.

Open Scope string_scope.
Open Scope list_scope.
Open Scope Z_scope.

(** ** Generic values and the [std::expected] result of the validators *)

(** The alternatives of [rfl::Generic], which [serde::Value] is an alias of; a double is kept as
    its 64-bit pattern. *)
Inductive Value :=
  | VNull
  | VBool (b : bool)
  | VInt (z : Z)
  | VDouble (bits : Z)
  | VString (s : string)
  | VObject (fields : list (string * Value))
  | VArray (items : list Value).

Definition to_object (v : Value) : option (list (string * Value)) :=
  match v with VObject fs => Some fs | _ => None end.

Abbreviation data_map := (gmap string string).

Definition to_value_input (input : data_map) : Value :=
  VObject (prod_map id VString <$> map_to_list input).

(** [std::expected<A, std::string>]. *)
Inductive expected (A : Type) : Type :=
  | Expected (a : A)
  | Unexpected (message : string).
Arguments Expected {A} a.
Arguments Unexpected {A} message.

(** [if (auto result = v; !result) return result;] *)
Definition and_then (r k : expected unit) : expected unit :=
  match r with Expected _ => k | Unexpected e => Unexpected e end.

Definition guard_not (b : bool) (message : string) : expected unit :=
  if b then Unexpected message else Expected tt.

(** [for (const auto& x: xs) if (auto result = x.validate(); !result) return result;] *)
Fixpoint validate_all {A} (validate : A -> expected unit) (xs : list A) : expected unit :=
  match xs with
  | [] => Expected tt
  | x :: xs' => and_then (validate x) (validate_all validate xs')
  end.

Definition empty (s : string) : bool := bool_decide (s = "").

(** ** Identifiers *)

Abbreviation ExecutionId := string.
Abbreviation TaskId := string.
Abbreviation CorrelationId := string.

Definition nil_id : string := "00000000-0000-0000-0000-000000000000".

(** ** Statuses *)

Inductive TaskStatus :=
  | SCHEDULED
  | IN_PROGRESS
  | COMPLETED
  | FAILED
  | TIMED_OUT
  | SKIPPED
  | CANCELED.

#[export] Instance TaskStatus_eq_dec : EqDecision TaskStatus.
Proof. solve_decision. Defined.

Inductive TaskType :=
  | SIMPLE | FORK | JOIN | SWITCH | SUB_WORKFLOW | DYNAMIC | TERMINATE | SET_VARIABLE | NOOP
  | LAMBDA | INLINE | JSON_JQ_TRANSFORM | DO_WHILE | FORK_JOIN_DYNAMIC | START_WORKFLOW | WAIT
  | HUMAN | EVENT.

#[export] Instance TaskType_eq_dec : EqDecision TaskType.
Proof. solve_decision. Defined.

Definition is_terminal (s : TaskStatus) : bool :=
  bool_decide (s = COMPLETED) || bool_decide (s = FAILED) || bool_decide (s = TIMED_OUT)
  || bool_decide (s = SKIPPED) || bool_decide (s = CANCELED).

(** The constructors of [WorkflowStatus] that [TaskStatus] also has carry the prefix [WF_]. *)
Inductive WorkflowStatus :=
  | WF_RUNNING
  | WF_COMPLETED
  | WF_FAILED
  | WF_TIMED_OUT
  | WF_PAUSED
  | WF_TERMINATED.

#[export] Instance WorkflowStatus_eq_dec : EqDecision WorkflowStatus.
Proof. solve_decision. Defined.

Definition wf_is_terminal (s : WorkflowStatus) : bool :=
  bool_decide (s = WF_COMPLETED) || bool_decide (s = WF_FAILED)
  || bool_decide (s = WF_TIMED_OUT) || bool_decide (s = WF_TERMINATED).

(** ** Policies *)

Inductive RetryBackoff := FIXED | EXPONENTIAL.

#[export] Instance RetryBackoff_eq_dec : EqDecision RetryBackoff.
Proof. solve_decision. Defined.

Inductive TimeoutAction := RETRY | FAIL_WORKFLOW | ALERT_ONLY.

#[export] Instance TimeoutAction_eq_dec : EqDecision TimeoutAction.
Proof. solve_decision. Defined.

(** [model::RetryPolicy] *)
Record RetryPolicy := mkRetryPolicy {
  rp_max_attempts : Z;
  rp_backoff : RetryBackoff;
  rp_interval_ms : Z
}.

(** The default arguments of the constructor. *)
Definition rp_default : RetryPolicy := {|
  rp_max_attempts := 3;
  rp_backoff := FIXED;
  rp_interval_ms := 1000
|}.

Definition rp_validate (p : RetryPolicy) : expected unit :=
  and_then (guard_not (rp_max_attempts p =? 0) "max_attempts must be at least 1")
    (guard_not (rp_interval_ms p =? 0) "interval_ms must be greater than 0").

(** [model::TimeoutPolicy] *)
Record TimeoutPolicy := mkTimeoutPolicy {
  tp_timeout_ms : Z;
  tp_action : TimeoutAction
}.

(** The default arguments of the constructor. *)
Definition tp_default : TimeoutPolicy := {|
  tp_timeout_ms := 30000;
  tp_action := FAIL_WORKFLOW
|}.

Definition tp_validate (p : TimeoutPolicy) : expected unit :=
  guard_not (tp_timeout_ms p =? 0) "timeout_ms must be greater than 0".

(** [model::RateLimitPolicy] *)
Record RateLimitPolicy := mkRateLimitPolicy {
  rl_max_concurrent : Z;
  rl_rate_limit_per_second : Z
}.

Definition rl_validate (p : RateLimitPolicy) : expected unit :=
  and_then (guard_not (rl_max_concurrent p =? 0) "max_concurrent must be at least 1")
    (guard_not (rl_rate_limit_per_second p =? 0) "rate_limit_per_second must be at least 1").

(** ** Timings *)

(** [model::ExecutionTimings] *)
Record ExecutionTimings := mkExecutionTimings {
  et_scheduled_at : option Z;
  et_started_at : option Z;
  et_completed_at : option Z
}.

(** [ExecutionTimings() = default] *)
Definition et_default : ExecutionTimings := {|
  et_scheduled_at := None;
  et_started_at := None;
  et_completed_at := None
|}.

Definition et_set_scheduled_at (x : option Z) (o : ExecutionTimings) : ExecutionTimings := {|
  et_scheduled_at := x;
  et_started_at := et_started_at o;
  et_completed_at := et_completed_at o
|}.

Definition et_set_started_at (x : option Z) (o : ExecutionTimings) : ExecutionTimings := {|
  et_scheduled_at := et_scheduled_at o;
  et_started_at := x;
  et_completed_at := et_completed_at o
|}.

Definition et_set_completed_at (x : option Z) (o : ExecutionTimings) : ExecutionTimings := {|
  et_scheduled_at := et_scheduled_at o;
  et_started_at := et_started_at o;
  et_completed_at := x
|}.

Definition before (a b : option Z) : bool :=
  match a, b with Some x, Some y => x <? y | _, _ => false end.

Definition et_validate (t : ExecutionTimings) : expected unit :=
  and_then
    (guard_not (before (et_started_at t) (et_scheduled_at t))
       "started_at must not be before scheduled_at")
    (guard_not (before (et_completed_at t) (et_started_at t))
       "completed_at must not be before started_at").

(** ** The task graph *)

(** [model::InputMapping] *)
Record InputMapping := mkInputMapping {
  im_source : string;
  im_target : string
}.

Definition im_validate (m : InputMapping) : expected unit :=
  and_then (guard_not (empty (im_source m)) "InputMapping source must not be empty")
    (guard_not (empty (im_target m)) "InputMapping target must not be empty").

(** [model::OutputMapping] *)
Record OutputMapping := mkOutputMapping {
  om_source : string;
  om_target : string
}.

Definition om_validate (m : OutputMapping) : expected unit :=
  and_then (guard_not (empty (om_source m)) "OutputMapping source must not be empty")
    (guard_not (empty (om_target m)) "OutputMapping target must not be empty").

(** [model::TaskEdge] *)
Record TaskEdge := mkTaskEdge {
  te_from : string;
  te_to : string;
  te_condition : option string;
  te_mappings : list InputMapping
}.

Definition te_validate (e : TaskEdge) : expected unit :=
  and_then (guard_not (empty (te_from e)) "TaskEdge from must not be empty")
    (and_then (guard_not (empty (te_to e)) "TaskEdge to must not be empty")
       (validate_all im_validate (te_mappings e))).

Inductive JoinType := ALL | ANY.

#[export] Instance JoinType_eq_dec : EqDecision JoinType.
Proof. solve_decision. Defined.

(** [model::TaskNode] *)
Record TaskNode := mkTaskNode {
  tn_def_name : string;
  tn_ref_name : string;
  tn_edges : list TaskEdge;
  tn_join_on : list string;
  tn_join_type : JoinType;
  tn_loop_body : list string;
  tn_loop_condition : option string;
  tn_dynamic_tasks_input_key : option string
}.

Definition tn_validate (n : TaskNode) : expected unit :=
  and_then (guard_not (empty (tn_def_name n)) "TaskNode def_name must not be empty")
    (and_then (guard_not (empty (tn_ref_name n)) "TaskNode ref_name must not be empty")
       (validate_all te_validate (tn_edges n))).

(** ** Definitions *)

(** [model::WorkflowDef] *)
Record WorkflowDef := mkWorkflowDef {
  wd_name : string;
  wd_version : Z;
  wd_nodes : list TaskNode;
  wd_input_params : list string;
  wd_output_mappings : list OutputMapping;
  wd_failure_workflow : option string;
  wd_timeout : option TimeoutPolicy;
  wd_restartable : bool;
  wd_workflow_status_listener_enabled : bool
}.

(** [WorkflowDef() = default] *)
Definition wd_default : WorkflowDef := {|
  wd_name := "";
  wd_version := 1;
  wd_nodes := [];
  wd_input_params := [];
  wd_output_mappings := [];
  wd_failure_workflow := None;
  wd_timeout := None;
  wd_restartable := true;
  wd_workflow_status_listener_enabled := false
|}.

Definition validate_opt {A} (validate : A -> expected unit) (x : option A) : expected unit :=
  match x with Some a => validate a | None => Expected tt end.

Definition wd_validate (d : WorkflowDef) : expected unit :=
  and_then (guard_not (empty (wd_name d)) "WorkflowDef name must not be empty")
    (and_then (guard_not (wd_version d =? 0) "WorkflowDef version must be at least 1")
       (and_then (guard_not (match wd_nodes d with [] => true | _ => false end)
                    "WorkflowDef must have at least one node")
          (and_then (validate_all tn_validate (wd_nodes d))
             (and_then (validate_all om_validate (wd_output_mappings d))
                (validate_opt tp_validate (wd_timeout d)))))).

(** [model::TaskDef] *)
Record TaskDef := mkTaskDef {
  td_name : string;
  td_type : TaskType;
  td_worker_type : string;
  td_input_keys : list string;
  td_output_keys : list string;
  td_retry : RetryPolicy;
  td_timeout : TimeoutPolicy;
  td_rate_limit : option RateLimitPolicy;
  td_dynamic_task_param : option string;
  td_wait_duration_ms : option Z;
  td_domain : option string;
  td_input_schema : option string;
  td_output_schema : option string;
  td_enforce_schema : bool;
  td_masked_fields : list string
}.

(** [TaskDef() = default] *)
Definition td_default : TaskDef := {|
  td_name := "";
  td_type := SIMPLE;
  td_worker_type := "";
  td_input_keys := [];
  td_output_keys := [];
  td_retry := rp_default;
  td_timeout := tp_default;
  td_rate_limit := None;
  td_dynamic_task_param := None;
  td_wait_duration_ms := None;
  td_domain := None;
  td_input_schema := None;
  td_output_schema := None;
  td_enforce_schema := false;
  td_masked_fields := []
|}.

Definition td_validate (d : TaskDef) : expected unit :=
  and_then (guard_not (empty (td_name d)) "TaskDef name must not be empty")
    (and_then (guard_not (bool_decide (td_type d = SIMPLE) && empty (td_worker_type d))
                 "TaskDef worker_type must not be empty for SIMPLE tasks")
       (and_then (rp_validate (td_retry d))
          (and_then (tp_validate (td_timeout d))
             (validate_opt rl_validate (td_rate_limit d))))).

(** ** Run-time records *)

(** [model::TaskInstance] *)
Record TaskInstance := mkTaskInstance {
  ti_task_id : TaskId;
  ti_def_name : string;
  ti_node_ref : string;
  ti_workflow_exec_id : ExecutionId;
  ti_status : TaskStatus;
  ti_seq : Z;
  ti_input_data : Value;
  ti_output_data : data_map;
  ti_timings : ExecutionTimings;
  ti_retry_count : Z;
  ti_deadline_at : option Z;
  ti_next_retry_at : option Z;
  ti_sub_workflow_exec_id : option ExecutionId
}.

(** [TaskInstance() = default] *)
Definition ti_default : TaskInstance := {|
  ti_task_id := nil_id;
  ti_def_name := "";
  ti_node_ref := "";
  ti_workflow_exec_id := nil_id;
  ti_status := SCHEDULED;
  ti_seq := 0;
  ti_input_data := VNull;
  ti_output_data := ∅;
  ti_timings := et_default;
  ti_retry_count := 0;
  ti_deadline_at := None;
  ti_next_retry_at := None;
  ti_sub_workflow_exec_id := None
|}.

Definition ti_set_task_id (x : TaskId) (o : TaskInstance) : TaskInstance := {|
  ti_task_id := x;
  ti_def_name := ti_def_name o;
  ti_node_ref := ti_node_ref o;
  ti_workflow_exec_id := ti_workflow_exec_id o;
  ti_status := ti_status o;
  ti_seq := ti_seq o;
  ti_input_data := ti_input_data o;
  ti_output_data := ti_output_data o;
  ti_timings := ti_timings o;
  ti_retry_count := ti_retry_count o;
  ti_deadline_at := ti_deadline_at o;
  ti_next_retry_at := ti_next_retry_at o;
  ti_sub_workflow_exec_id := ti_sub_workflow_exec_id o
|}.

Definition ti_set_def_name (x : string) (o : TaskInstance) : TaskInstance := {|
  ti_task_id := ti_task_id o;
  ti_def_name := x;
  ti_node_ref := ti_node_ref o;
  ti_workflow_exec_id := ti_workflow_exec_id o;
  ti_status := ti_status o;
  ti_seq := ti_seq o;
  ti_input_data := ti_input_data o;
  ti_output_data := ti_output_data o;
  ti_timings := ti_timings o;
  ti_retry_count := ti_retry_count o;
  ti_deadline_at := ti_deadline_at o;
  ti_next_retry_at := ti_next_retry_at o;
  ti_sub_workflow_exec_id := ti_sub_workflow_exec_id o
|}.

Definition ti_set_node_ref (x : string) (o : TaskInstance) : TaskInstance := {|
  ti_task_id := ti_task_id o;
  ti_def_name := ti_def_name o;
  ti_node_ref := x;
  ti_workflow_exec_id := ti_workflow_exec_id o;
  ti_status := ti_status o;
  ti_seq := ti_seq o;
  ti_input_data := ti_input_data o;
  ti_output_data := ti_output_data o;
  ti_timings := ti_timings o;
  ti_retry_count := ti_retry_count o;
  ti_deadline_at := ti_deadline_at o;
  ti_next_retry_at := ti_next_retry_at o;
  ti_sub_workflow_exec_id := ti_sub_workflow_exec_id o
|}.

Definition ti_set_workflow_exec_id (x : ExecutionId) (o : TaskInstance) : TaskInstance := {|
  ti_task_id := ti_task_id o;
  ti_def_name := ti_def_name o;
  ti_node_ref := ti_node_ref o;
  ti_workflow_exec_id := x;
  ti_status := ti_status o;
  ti_seq := ti_seq o;
  ti_input_data := ti_input_data o;
  ti_output_data := ti_output_data o;
  ti_timings := ti_timings o;
  ti_retry_count := ti_retry_count o;
  ti_deadline_at := ti_deadline_at o;
  ti_next_retry_at := ti_next_retry_at o;
  ti_sub_workflow_exec_id := ti_sub_workflow_exec_id o
|}.

Definition ti_set_status (x : TaskStatus) (o : TaskInstance) : TaskInstance := {|
  ti_task_id := ti_task_id o;
  ti_def_name := ti_def_name o;
  ti_node_ref := ti_node_ref o;
  ti_workflow_exec_id := ti_workflow_exec_id o;
  ti_status := x;
  ti_seq := ti_seq o;
  ti_input_data := ti_input_data o;
  ti_output_data := ti_output_data o;
  ti_timings := ti_timings o;
  ti_retry_count := ti_retry_count o;
  ti_deadline_at := ti_deadline_at o;
  ti_next_retry_at := ti_next_retry_at o;
  ti_sub_workflow_exec_id := ti_sub_workflow_exec_id o
|}.

Definition ti_set_input_data (x : Value) (o : TaskInstance) : TaskInstance := {|
  ti_task_id := ti_task_id o;
  ti_def_name := ti_def_name o;
  ti_node_ref := ti_node_ref o;
  ti_workflow_exec_id := ti_workflow_exec_id o;
  ti_status := ti_status o;
  ti_seq := ti_seq o;
  ti_input_data := x;
  ti_output_data := ti_output_data o;
  ti_timings := ti_timings o;
  ti_retry_count := ti_retry_count o;
  ti_deadline_at := ti_deadline_at o;
  ti_next_retry_at := ti_next_retry_at o;
  ti_sub_workflow_exec_id := ti_sub_workflow_exec_id o
|}.

Definition ti_set_output_data (x : data_map) (o : TaskInstance) : TaskInstance := {|
  ti_task_id := ti_task_id o;
  ti_def_name := ti_def_name o;
  ti_node_ref := ti_node_ref o;
  ti_workflow_exec_id := ti_workflow_exec_id o;
  ti_status := ti_status o;
  ti_seq := ti_seq o;
  ti_input_data := ti_input_data o;
  ti_output_data := x;
  ti_timings := ti_timings o;
  ti_retry_count := ti_retry_count o;
  ti_deadline_at := ti_deadline_at o;
  ti_next_retry_at := ti_next_retry_at o;
  ti_sub_workflow_exec_id := ti_sub_workflow_exec_id o
|}.

Definition ti_set_timings (x : ExecutionTimings) (o : TaskInstance) : TaskInstance := {|
  ti_task_id := ti_task_id o;
  ti_def_name := ti_def_name o;
  ti_node_ref := ti_node_ref o;
  ti_workflow_exec_id := ti_workflow_exec_id o;
  ti_status := ti_status o;
  ti_seq := ti_seq o;
  ti_input_data := ti_input_data o;
  ti_output_data := ti_output_data o;
  ti_timings := x;
  ti_retry_count := ti_retry_count o;
  ti_deadline_at := ti_deadline_at o;
  ti_next_retry_at := ti_next_retry_at o;
  ti_sub_workflow_exec_id := ti_sub_workflow_exec_id o
|}.

Definition ti_set_retry_count (x : Z) (o : TaskInstance) : TaskInstance := {|
  ti_task_id := ti_task_id o;
  ti_def_name := ti_def_name o;
  ti_node_ref := ti_node_ref o;
  ti_workflow_exec_id := ti_workflow_exec_id o;
  ti_status := ti_status o;
  ti_seq := ti_seq o;
  ti_input_data := ti_input_data o;
  ti_output_data := ti_output_data o;
  ti_timings := ti_timings o;
  ti_retry_count := x;
  ti_deadline_at := ti_deadline_at o;
  ti_next_retry_at := ti_next_retry_at o;
  ti_sub_workflow_exec_id := ti_sub_workflow_exec_id o
|}.

Definition ti_set_deadline_at (x : option Z) (o : TaskInstance) : TaskInstance := {|
  ti_task_id := ti_task_id o;
  ti_def_name := ti_def_name o;
  ti_node_ref := ti_node_ref o;
  ti_workflow_exec_id := ti_workflow_exec_id o;
  ti_status := ti_status o;
  ti_seq := ti_seq o;
  ti_input_data := ti_input_data o;
  ti_output_data := ti_output_data o;
  ti_timings := ti_timings o;
  ti_retry_count := ti_retry_count o;
  ti_deadline_at := x;
  ti_next_retry_at := ti_next_retry_at o;
  ti_sub_workflow_exec_id := ti_sub_workflow_exec_id o
|}.

Definition ti_set_next_retry_at (x : option Z) (o : TaskInstance) : TaskInstance := {|
  ti_task_id := ti_task_id o;
  ti_def_name := ti_def_name o;
  ti_node_ref := ti_node_ref o;
  ti_workflow_exec_id := ti_workflow_exec_id o;
  ti_status := ti_status o;
  ti_seq := ti_seq o;
  ti_input_data := ti_input_data o;
  ti_output_data := ti_output_data o;
  ti_timings := ti_timings o;
  ti_retry_count := ti_retry_count o;
  ti_deadline_at := ti_deadline_at o;
  ti_next_retry_at := x;
  ti_sub_workflow_exec_id := ti_sub_workflow_exec_id o
|}.

Definition ti_set_sub_workflow_exec_id (x : option ExecutionId) (o : TaskInstance) : TaskInstance := {|
  ti_task_id := ti_task_id o;
  ti_def_name := ti_def_name o;
  ti_node_ref := ti_node_ref o;
  ti_workflow_exec_id := ti_workflow_exec_id o;
  ti_status := ti_status o;
  ti_seq := ti_seq o;
  ti_input_data := ti_input_data o;
  ti_output_data := ti_output_data o;
  ti_timings := ti_timings o;
  ti_retry_count := ti_retry_count o;
  ti_deadline_at := ti_deadline_at o;
  ti_next_retry_at := ti_next_retry_at o;
  ti_sub_workflow_exec_id := x
|}.

Definition ti_add_output_data (key value : string) (o : TaskInstance) : TaskInstance :=
  ti_set_output_data (<[key := value]> (ti_output_data o)) o.

Definition ti_validate (i : TaskInstance) : expected unit :=
  and_then (guard_not (empty (ti_def_name i)) "TaskInstance def_name must not be empty")
    (et_validate (ti_timings i)).

(** [model::WorkflowExecution] *)
Record WorkflowExecution := mkWorkflowExecution {
  we_exec_id : ExecutionId;
  we_def_name : string;
  we_def_version : Z;
  we_status : WorkflowStatus;
  we_correlation_id : option CorrelationId;
  we_variables : data_map;
  we_task_instances : list TaskInstance;
  we_timings : ExecutionTimings;
  we_dynamic_nodes : list TaskNode;
  we_parent_exec_id : option ExecutionId
}.

(** [WorkflowExecution() = default] *)
Definition we_default : WorkflowExecution := {|
  we_exec_id := nil_id;
  we_def_name := "";
  we_def_version := 1;
  we_status := WF_RUNNING;
  we_correlation_id := None;
  we_variables := ∅;
  we_task_instances := [];
  we_timings := et_default;
  we_dynamic_nodes := [];
  we_parent_exec_id := None
|}.

Definition we_set_exec_id (x : ExecutionId) (o : WorkflowExecution) : WorkflowExecution := {|
  we_exec_id := x;
  we_def_name := we_def_name o;
  we_def_version := we_def_version o;
  we_status := we_status o;
  we_correlation_id := we_correlation_id o;
  we_variables := we_variables o;
  we_task_instances := we_task_instances o;
  we_timings := we_timings o;
  we_dynamic_nodes := we_dynamic_nodes o;
  we_parent_exec_id := we_parent_exec_id o
|}.

Definition we_set_def_name (x : string) (o : WorkflowExecution) : WorkflowExecution := {|
  we_exec_id := we_exec_id o;
  we_def_name := x;
  we_def_version := we_def_version o;
  we_status := we_status o;
  we_correlation_id := we_correlation_id o;
  we_variables := we_variables o;
  we_task_instances := we_task_instances o;
  we_timings := we_timings o;
  we_dynamic_nodes := we_dynamic_nodes o;
  we_parent_exec_id := we_parent_exec_id o
|}.

Definition we_set_def_version (x : Z) (o : WorkflowExecution) : WorkflowExecution := {|
  we_exec_id := we_exec_id o;
  we_def_name := we_def_name o;
  we_def_version := x;
  we_status := we_status o;
  we_correlation_id := we_correlation_id o;
  we_variables := we_variables o;
  we_task_instances := we_task_instances o;
  we_timings := we_timings o;
  we_dynamic_nodes := we_dynamic_nodes o;
  we_parent_exec_id := we_parent_exec_id o
|}.

Definition we_set_status (x : WorkflowStatus) (o : WorkflowExecution) : WorkflowExecution := {|
  we_exec_id := we_exec_id o;
  we_def_name := we_def_name o;
  we_def_version := we_def_version o;
  we_status := x;
  we_correlation_id := we_correlation_id o;
  we_variables := we_variables o;
  we_task_instances := we_task_instances o;
  we_timings := we_timings o;
  we_dynamic_nodes := we_dynamic_nodes o;
  we_parent_exec_id := we_parent_exec_id o
|}.

Definition we_set_variables (x : data_map) (o : WorkflowExecution) : WorkflowExecution := {|
  we_exec_id := we_exec_id o;
  we_def_name := we_def_name o;
  we_def_version := we_def_version o;
  we_status := we_status o;
  we_correlation_id := we_correlation_id o;
  we_variables := x;
  we_task_instances := we_task_instances o;
  we_timings := we_timings o;
  we_dynamic_nodes := we_dynamic_nodes o;
  we_parent_exec_id := we_parent_exec_id o
|}.

Definition we_set_task_instances (x : list TaskInstance) (o : WorkflowExecution) : WorkflowExecution := {|
  we_exec_id := we_exec_id o;
  we_def_name := we_def_name o;
  we_def_version := we_def_version o;
  we_status := we_status o;
  we_correlation_id := we_correlation_id o;
  we_variables := we_variables o;
  we_task_instances := x;
  we_timings := we_timings o;
  we_dynamic_nodes := we_dynamic_nodes o;
  we_parent_exec_id := we_parent_exec_id o
|}.

Definition we_set_timings (x : ExecutionTimings) (o : WorkflowExecution) : WorkflowExecution := {|
  we_exec_id := we_exec_id o;
  we_def_name := we_def_name o;
  we_def_version := we_def_version o;
  we_status := we_status o;
  we_correlation_id := we_correlation_id o;
  we_variables := we_variables o;
  we_task_instances := we_task_instances o;
  we_timings := x;
  we_dynamic_nodes := we_dynamic_nodes o;
  we_parent_exec_id := we_parent_exec_id o
|}.

Definition we_set_dynamic_nodes (x : list TaskNode) (o : WorkflowExecution) : WorkflowExecution := {|
  we_exec_id := we_exec_id o;
  we_def_name := we_def_name o;
  we_def_version := we_def_version o;
  we_status := we_status o;
  we_correlation_id := we_correlation_id o;
  we_variables := we_variables o;
  we_task_instances := we_task_instances o;
  we_timings := we_timings o;
  we_dynamic_nodes := x;
  we_parent_exec_id := we_parent_exec_id o
|}.

Definition we_set_parent_exec_id (x : option ExecutionId) (o : WorkflowExecution) : WorkflowExecution := {|
  we_exec_id := we_exec_id o;
  we_def_name := we_def_name o;
  we_def_version := we_def_version o;
  we_status := we_status o;
  we_correlation_id := we_correlation_id o;
  we_variables := we_variables o;
  we_task_instances := we_task_instances o;
  we_timings := we_timings o;
  we_dynamic_nodes := we_dynamic_nodes o;
  we_parent_exec_id := x
|}.

Definition we_add_task_instance (i : TaskInstance) (o : WorkflowExecution) : WorkflowExecution :=
  we_set_task_instances (we_task_instances o ++ [i]) o.

Definition we_validate (e : WorkflowExecution) : expected unit :=
  and_then (guard_not (empty (we_def_name e)) "WorkflowExecution def_name must not be empty")
    (and_then (guard_not (we_def_version e =? 0)
                 "WorkflowExecution def_version must be at least 1")
       (and_then (et_validate (we_timings e))
          (validate_all ti_validate (we_task_instances e)))).

(** ** Event handlers *)

Inductive EventActionType :=
  | START_WORKFLOW_ACTION
  | COMPLETE_TASK
  | FAIL_TASK
  | TERMINATE_WORKFLOW
  | UPDATE_WORKFLOW_VARIABLES.

(** [model::EventAction] *)
Record EventAction := mkEventAction {
  ea_type : EventActionType;
  ea_payload : data_map
}.

(** [model::EventHandler] *)
Record EventHandler := mkEventHandler {
  eh_name : string;
  eh_event : string;
  eh_condition : option string;
  eh_actions : list EventAction;
  eh_active : bool
}.

Definition eh_validate (h : EventHandler) : expected unit :=
  and_then (guard_not (empty (eh_name h)) "EventHandler name must not be empty")
    (guard_not (empty (eh_event h)) "EventHandler event must not be empty").
