(* ===== verification/Connector.v ===== *)
(** * The connector (include/connector/connector.cppm, include/serde/cache.cppm)

    The persistence layer between the engine and its cache and database plugins.

    - [Module Local]: the operations in local mode (no database), where every operation runs
      synchronously on a write-through cache in front of one in-memory table per row type.  The
      cache is a plugin: it is a parameter, with the interface [CacheOps] and what the connector
      relies on in [CacheLaws] (a value read back is the one written, or a miss).  The JSON codec
      of a row type is a parameter of its [Connectable] instance, and may fail to decode.  The abstract specification is a
      family of finite maps; the operations refine it as long as nothing is written with
      [insert_many].
    - [Module Queue]: the queue that serialises the operations when a database is configured, as
      a step relation over the critical sections of [enqueue] and [on_execute].

    The SQL dialect strings and the database's own replies are not modelled. *)

From stdpp Require Import base gmap strings list fin_maps.
From Stdlib Require Import ZArith Lia Ascii Eqdep_dec.
From S2P Require Import Prelude.

Open Scope string_scope.
Open Scope list_scope.

(** ** Local mode *)
Module Local.

(** The cache plugin: [get] answers a miss with the empty string. *)
Class CacheOps (C : Type) := {
  cache_get : C -> string -> string;
  cache_set : C -> string -> string -> C;
  cache_remove : C -> string -> C;
}.

(** What the connector relies on: an entry is either missing (it may be evicted at any time) or
    the last value written under its key. *)
Class CacheLaws (C : Type) `{CacheOps C} := {
  get_set_eq c k v : cache_get (cache_set c k v) k = v \/ cache_get (cache_set c k v) k = "";
  get_set_ne c k k' v : k <> k' ->
    cache_get (cache_set c k v) k' = cache_get c k' \/ cache_get (cache_set c k v) k' = "";
  get_remove_eq c k : cache_get (cache_remove c k) k = "";
  get_remove_ne c k k' : k <> k' ->
    cache_get (cache_remove c k) k' = cache_get c k' \/ cache_get (cache_remove c k) k' = "";
}.

(** [serde::IConnectable]: a table name, a primary key and a JSON codec.  What was encoded decodes to the
    same value, or not at all, as when no plugin for "application/json" is loaded. *)
Class Connectable (T : Type) := {
  table_name : string;
  pk_string : T -> string;
  cache_value : T -> string;
  deserialize : string -> option T;
  deserialize_cache_value v : deserialize (cache_value v) = Some v \/ deserialize (cache_value v) = None;
}.

Section Connector.
  (** The row types, by [std::type_index]. *)
  Context {I : Type} {I_eq_dec : EqDecision I} (Row : I -> Type) {row_connectable : forall i, Connectable (Row i)}.
  Context {C : Type} {cache_ops : CacheOps C}.

Record connector_state := mk {
  m_cache : C;
  m_local_stores : forall i, gmap string (Row i);
  bus : list (string * list (string * string));
}.

Definition cache_key (i : I) (pk : string) : string :=
  table_name (T := Row i) +:+ ":" +:+ pk.

Definition with_cache (c : C) (s : connector_state) : connector_state := mk c (m_local_stores s) (bus s).

Definition cast {i j : I} (E : i = j) (m : gmap string (Row i)) : gmap string (Row j) :=
  eq_rect i (fun k => gmap string (Row k)) m j E.

Definition set_local_store (i : I) (m : gmap string (Row i)) (s : connector_state) : connector_state :=
  mk (m_cache s)
     (fun j => match decide (i = j) with left E => cast E m | right _ => m_local_stores s j end)
     (bus s).

Definition publish (name : string) (fields : list (string * string)) (s : connector_state) : connector_state :=
  mk (m_cache s) (m_local_stores s) (bus s ++ [(name, fields)]).

Definition write_through (operation_name : string) (i : I) (value : Row i) (s : connector_state) : bool * connector_state :=
  let s1 := with_cache
    (cache_set (m_cache s) (cache_key i (pk_string value)) (cache_value value)) s in
  let s2 := set_local_store i (<[pk_string value := value]> (m_local_stores s1 i)) s1 in
  (true, publish "connector.write.completed"
           [("operation", operation_name); ("backend", "local")] s2).

Definition insert (i : I) (value : Row i) (s : connector_state) : bool * connector_state := write_through "insert" i value s.
Definition update (i : I) (value : Row i) (s : connector_state) : bool * connector_state := write_through "update" i value s.
Definition upsert (i : I) (value : Row i) (s : connector_state) : bool * connector_state := write_through "upsert" i value s.

Definition insert_many (i : I) (values : list (Row i)) (s : connector_state) : bool * connector_state :=
  (true,
   set_local_store i
     (foldl (fun m v => <[pk_string v := v]> m) (m_local_stores s i) values) s).

Definition find (i : I) (key : string) (s : connector_state) : option (Row i) :=
  let cached_value := cache_get (m_cache s) (cache_key i key) in
  match (if decide (cached_value = "") then None else deserialize cached_value) with
  | Some decoded => Some decoded
  | None => m_local_stores s i !! key
  end.

Definition find_many (i : I) (keys : list string) (s : connector_state) : list (Row i) :=
  omap (fun key => m_local_stores s i !! key) keys.

(** The order of an [unordered_map] is unspecified: here it is that of [map_to_list]. *)
Definition find_all (i : I) (s : connector_state) : list (Row i) := (map_to_list (m_local_stores s i)).*2.

Definition remove (i : I) (key : string) (s : connector_state) : bool * connector_state :=
  let s1 := with_cache (cache_remove (m_cache s) (cache_key i key)) s in
  (true, set_local_store i (delete key (m_local_stores s1 i)) s1).

Definition remove_many (i : I) (keys : list string) (s : connector_state) : bool * connector_state :=
  let s1 := with_cache
    (foldl (fun c key => cache_remove c (cache_key i key)) (m_cache s) keys) s in
  (true, set_local_store i (foldl (fun m key => delete key m) (m_local_stores s1 i) keys) s1).

(** *** Invariant: what the cache holds is what the table holds *)
Definition coherent (s : connector_state) : Prop :=
  forall i k, cache_get (m_cache s) (cache_key i k) = ""
    \/ exists v, cache_get (m_cache s) (cache_key i k) = cache_value v
                 /\ m_local_stores s i !! k = Some v.

(** *** The abstract specification: one finite map per row type *)
Definition spec : Type := forall i, gmap string (Row i).

Inductive op :=
  | OInsert (i : I) (v : Row i)
  | OUpdate (i : I) (v : Row i)
  | OUpsert (i : I) (v : Row i)
  | ORemove (i : I) (k : string)
  | ORemoveMany (i : I) (ks : list string).

Definition run_op (o : op) (s : connector_state) : bool * connector_state :=
  match o with
  | OInsert i v => insert i v s
  | OUpdate i v => update i v s
  | OUpsert i v => upsert i v s
  | ORemove i k => remove i k s
  | ORemoveMany i ks => remove_many i ks s
  end.

Definition run_ops (os : list op) (s : connector_state) : connector_state := foldl (fun s o => (run_op o s).2) s os.

(** What an operation does to the row of table [j] under key [k]. *)
Definition spec_write (i : I) (v : Row i) (j : I) (k : string) (old : option (Row j)) : option (Row j) :=
  match decide (i = j) with
  | left E => if decide (pk_string v = k) then Some (eq_rect i Row v j E) else old
  | right _ => old
  end.

Definition spec_op (o : op) (j : I) (k : string) (old : option (Row j)) : option (Row j) :=
  match o with
  | OInsert i v | OUpdate i v | OUpsert i v => spec_write i v j k old
  | ORemove i k' => if decide (i = j /\ k' = k) then None else old
  | ORemoveMany i ks => if decide (i = j /\ k ∈ ks) then None else old
  end.

Definition spec_ops (os : list op) (j : I) (k : string) (old : option (Row j)) : option (Row j) :=
  foldl (fun old o => spec_op o j k old) old os.

(** *** Cache keys determine the table and the primary key *)

Fixpoint no_colon (s : string) : bool :=
  match s with
  | "" => true
  | String c s' => negb (bool_decide (c = ":"%char)) && no_colon s'
  end.

Lemma colon_split a b k k' :
  no_colon a = true -> no_colon b = true -> a +:+ ":" +:+ k = b +:+ ":" +:+ k' -> a = b /\ k = k'.
Proof.
  revert b. induction a as [|c a IH]; intros [|c' b]; cbn [no_colon].
  - by intros _ _ [= ?].
  - intros _ Hb [= <- _]. by rewrite bool_decide_true in Hb.
  - intros Ha _ [= -> _]. by rewrite bool_decide_true in Ha.
  - intros [_ Ha]%andb_prop [_ Hb]%andb_prop [= -> Heq]. by destruct (IH b Ha Hb Heq) as [-> ->].
Qed.

Section Laws.
  Context {cache_laws : CacheLaws C}.
  (** Distinct row types have distinct table names, and none contains the separator. *)
  Hypothesis table_name_inj : forall i j, table_name (T := Row i) = table_name (T := Row j) -> i = j.
  Hypothesis table_name_colon : forall i, no_colon (table_name (T := Row i)) = true.

Lemma cache_key_inj i j k k' : cache_key i k = cache_key j k' -> i = j /\ k = k'.
Proof.
  intros H. destruct (colon_split _ _ _ _ (table_name_colon i) (table_name_colon j) H); auto.
Qed.

Lemma cast_id {i} (E : i = i) m : cast E m = m.
Proof. by rewrite (UIP_dec (fun x y => decide (x = y)) E eq_refl). Qed.

Lemma set_local_store_eq i m s : m_local_stores (set_local_store i m s) i = m.
Proof. cbn. destruct (decide (i = i)) as [E|]; [apply cast_id|done]. Qed.

Lemma set_local_store_ne i j m s :
  i <> j -> m_local_stores (set_local_store i m s) j = m_local_stores s j.
Proof. intros H. cbn. by destruct (decide (i = j)). Qed.

(** [find] is a lookup in the table when the cache is coherent. *)
Lemma find_coherent i k s : coherent s -> find i k s = m_local_stores s i !! k.
Proof.
  intros H. unfold find. destruct (H i k) as [->|(v & -> & Hv)].
  - by rewrite decide_True.
  - rewrite Hv. case_decide; [done|]. by destruct (deserialize_cache_value v) as [-> | ->].
Qed.

Lemma write_through_store name i v s j k :
  m_local_stores (write_through name i v s).2 j !! k
  = spec_write i v j k (m_local_stores s j !! k).
Proof.
  unfold write_through, spec_write. cbn [snd publish m_local_stores].
  destruct (decide (i = j)) as [E|E].
  - subst j. rewrite set_local_store_eq. cbn. case_decide as Hk.
    + subst k. by rewrite lookup_insert_eq.
    + by rewrite lookup_insert_ne.
  - by rewrite set_local_store_ne.
Qed.

Lemma write_through_coherent name i v s : coherent s -> coherent (write_through name i v s).2.
Proof.
  intros H j k. pose proof (write_through_store name i v s j k) as Hst.
  cbn [write_through snd publish m_cache set_local_store with_cache] in *.
  destruct (decide (cache_key i (pk_string v) = cache_key j k)) as [E|E].
  - destruct (cache_key_inj _ _ _ _ E) as [-> <-].
    destruct (get_set_eq (m_cache s) (cache_key j (pk_string v)) (cache_value v)) as [->| ->];
      [right|by left].
    exists v. split; [done|]. rewrite Hst. unfold spec_write.
    destruct (decide (j = j)) as [E'|]; [|done]. rewrite decide_True by done.
    by rewrite (UIP_dec (fun x y => decide (x = y)) E' eq_refl).
  - destruct (get_set_ne (m_cache s) _ _ (cache_value v) E) as [->| ->]; [|by left].
    destruct (H j k) as [?|(w & ? & Hw)]; [by left|right]. exists w. split; [done|].
    rewrite Hst, Hw. unfold spec_write. destruct (decide (i = j)) as [->|]; [|done].
    case_decide; [|done]. by subst k.
Qed.

Lemma foldl_delete_lookup {V} (m : gmap string V) ks k :
  foldl (fun m key => delete key m) m ks !! k = if decide (k ∈ ks) then None else m !! k.
Proof.
  revert m. induction ks as [|x ks IH]; intros m; cbn [foldl].
  - by rewrite decide_False by apply not_elem_of_nil.
  - rewrite IH. destruct (decide (k = x)) as [->|Hne].
    + rewrite lookup_delete_eq, (decide_True (P := x ∈ x :: ks)) by apply list_elem_of_here.
      by case_decide.
    + rewrite lookup_delete_ne by done. do 2 case_decide; set_solver.
Qed.

Lemma foldl_cache_remove_keep i ks c key :
  cache_get (foldl (fun c key => cache_remove c (cache_key i key)) c ks) key = cache_get c key
  \/ cache_get (foldl (fun c key => cache_remove c (cache_key i key)) c ks) key = "".
Proof.
  revert c. induction ks as [|k ks IH]; intros c; cbn [foldl]; [by left|].
  destruct (IH (cache_remove c (cache_key i k))) as [->| ->]; [|by right].
  destruct (decide (cache_key i k = key)) as [<-|Hne].
  - right. apply get_remove_eq.
  - by apply get_remove_ne.
Qed.

Lemma foldl_cache_remove_gone i ks c k :
  k ∈ ks -> cache_get (foldl (fun c key => cache_remove c (cache_key i key)) c ks) (cache_key i k) = "".
Proof.
  revert c. induction ks as [|x ks IH]; intros c; [by intros ?%elem_of_nil|].
  cbn [foldl]. intros [->|?]%elem_of_cons; [|by apply IH].
  destruct (foldl_cache_remove_keep i ks (cache_remove c (cache_key i x)) (cache_key i x)) as [->| ->];
    [apply get_remove_eq|done].
Qed.

Lemma remove_many_store i ks s j k :
  m_local_stores (remove_many i ks s).2 j !! k
  = if decide (i = j /\ k ∈ ks) then None else m_local_stores s j !! k.
Proof.
  unfold remove_many. cbn [snd]. destruct (decide (i = j)) as [->|E].
  - rewrite set_local_store_eq, foldl_delete_lookup. cbn. do 2 case_decide; naive_solver.
  - rewrite set_local_store_ne by done. cbn. case_decide; naive_solver.
Qed.

Lemma remove_many_coherent i ks s : coherent s -> coherent (remove_many i ks s).2.
Proof.
  intros H j k. pose proof (remove_many_store i ks s j k) as Hst.
  cbn [remove_many snd m_cache set_local_store with_cache] in *.
  case_decide as Hd; [destruct Hd as [-> Hk]|].
  - left. by apply foldl_cache_remove_gone.
  - destruct (foldl_cache_remove_keep i ks (m_cache s) (cache_key j k)) as [->| ->]; [|by left].
    destruct (H j k) as [?|(w & ? & Hw)]; [by left|right]. exists w. split; [done|]. by rewrite Hst.
Qed.

(** [remove] is [remove_many] of one key. *)
Lemma remove_is_remove_many i k s : remove i k s = remove_many i [k] s.
Proof. done. Qed.

Lemma run_op_refines o s :
  coherent s ->
  (run_op o s).1 = true /\ coherent (run_op o s).2
  /\ forall j k, m_local_stores (run_op o s).2 j !! k = spec_op o j k (m_local_stores s j !! k).
Proof.
  intros H. destruct o as [i v|i v|i v|i k|i ks]; cbn [run_op spec_op];
    unfold insert, update, upsert; rewrite ?remove_is_remove_many;
    (split; [done|split; [by (apply write_through_coherent || apply remove_many_coherent)|]]);
    intros j k'; rewrite ?write_through_store, ?remove_many_store; try done.
  do 2 case_decide; set_solver.
Qed.

(** C26: In local mode the connector implements its tables: after any sequence of inserts, updates,
    upserts and removals, every one of which reports success, [find] answers what a family of
    finite maps, one per row type, would hold under the same operations, and the cache stays
    coherent with the tables, whatever it evicts and whether or not its entries can be decoded.  The cache
    agrees with the tables at the start, as it does when both are empty; row types have distinct table
    names, without a colon; and what was encoded decodes to the same row or fails to decode. *)
Theorem connector_refines_tables os s :
  coherent s ->
  coherent (run_ops os s)
  /\ (forall o, (run_op o (run_ops os s)).1 = true)
  /\ forall i k, find i k (run_ops os s) = spec_ops os i k (find i k s).
Proof.
  induction os as [|o os IH] using rev_ind; intros H.
  { split_and!; [done| |done]. by intros []. }
  destruct (IH H) as (Hc & _ & Hf). destruct (run_op_refines o _ Hc) as (_ & Hc' & Hs).
  unfold run_ops, spec_ops in *. rewrite foldl_app. cbn [foldl]. split_and!; [done|by intros []|].
  intros i k. rewrite foldl_app, find_coherent, Hs, <- find_coherent, Hf by done. done.
Qed.
End Laws.

(** [insert_many] writes the tables but not the cache: a row that is cached is still answered
    with its old value after [insert_many] has replaced it. *)
Theorem insert_many_stale i v v' s :
  cache_get (m_cache s) (cache_key i (pk_string v)) = cache_value v ->
  cache_value v <> "" -> deserialize (cache_value v) = Some v ->
  pk_string v' = pk_string v ->
  find i (pk_string v) (insert_many i [v'] s).2 = Some v
  /\ m_local_stores (insert_many i [v'] s).2 i !! pk_string v = Some v'.
Proof.
  intros Hc Hv Hd Hk. unfold find, insert_many. cbn [snd foldl]. split.
  - cbn. rewrite Hc, decide_False by done. by rewrite Hd.
  - rewrite set_local_store_eq, Hk. by rewrite lookup_insert_eq.
Qed.
End Connector.

(** *** An instance: a cache that never evicts, and rows of key and value *)

#[export] Instance map_cache_ops : CacheOps (gmap string string) := {
  cache_get c k := default "" (c !! k);
  cache_set c k v := <[k := v]> c;
  cache_remove c k := delete k c;
}.

#[export] Instance map_cache_laws : CacheLaws (gmap string string).
Proof.
  split; intros; cbn; try left;
    rewrite ?lookup_insert_eq, ?lookup_delete_eq, ?lookup_insert_ne, ?lookup_delete_ne by done; done.
Qed.

(** Two row types, both of strings whose key is their first character. *)
Definition demo_row (i : bool) : Type := string.

Definition first_char (s : string) : string :=
  match s with "" => "" | String c _ => String c "" end.

(** Rows of the second table cannot be decoded. *)
Definition demo_decode (i : bool) (s : string) : option (demo_row i) := if i then Some s else None.

Lemma demo_decode_value i (v : demo_row i) : demo_decode i v = Some v \/ demo_decode i v = None.
Proof. destruct i; [by left|by right]. Qed.

#[export] Instance demo_connectable i : Connectable (demo_row i) := {
  table_name := if i then "alpha" else "beta";
  pk_string v := first_char v;
  cache_value v := v;
  deserialize := demo_decode i;
  deserialize_cache_value := demo_decode_value i;
}.

Definition demo_connector : connector_state (C := gmap string string) demo_row := mk _ ∅ (fun _ => ∅) [].

Lemma demo_coherent : coherent demo_row demo_connector.
Proof. intros i k. left. done. Qed.

Lemma demo_table_name_inj i j :
  table_name (T := demo_row i) = table_name (T := demo_row j) -> i = j.
Proof. by destruct i, j. Qed.

Lemma demo_table_name_colon i : no_colon (table_name (T := demo_row i)) = true.
Proof. by destruct i. Qed.

Definition demo_ops : list (op demo_row) :=
  [OInsert _ true "k1"; OInsert _ false "k2"; OUpdate _ true "k3"; OInsert _ true "m"; ORemove _ true "m"].

Lemma connector_refines_tables_witness :
  find demo_row true "k" (run_ops demo_row demo_ops demo_connector) = Some "k3"
  /\ find demo_row false "k" (run_ops demo_row demo_ops demo_connector) = Some "k2"
  /\ find demo_row true "m" (run_ops demo_row demo_ops demo_connector) = None.
Proof.
  destruct (connector_refines_tables demo_row demo_table_name_inj demo_table_name_colon
              demo_ops demo_connector demo_coherent) as (_ & _ & H).
  split; [|split]; (etransitivity; [apply H|]); reflexivity.
Defined.

Lemma insert_many_stale_witness :
  let s := (insert demo_row true "k1" demo_connector).2 in
  find demo_row true (first_char "k1") (insert_many demo_row true ["k2"] s).2 = Some "k1"
  /\ m_local_stores demo_row (insert_many demo_row true ["k2"] s).2 true !! first_char "k1"
     = Some "k2".
Proof.
  intros s.
  pose proof (insert_many_stale demo_row true "k1" "k2" s eq_refl ltac:(discriminate) eq_refl eq_refl) as [H1 H2].
  split; [exact H1|exact H2].
Defined.
End Local.

(** ** Database mode: the operation queue

    Each constructor of [step] is one critical section (or one lock-free statement) of [enqueue]
    or [on_execute]; [tokens] counts the schedule requests of the handler that have not started
    yet, made by [m_wake] or by [shedule].  A second request while one is outstanding is what the
    contract layer treats as a fatal error. *)
Module Queue.
Section Queue.
  Context {Op : Type}.

Inductive phase :=
  | Idle
  | Running (o : Op)
  | Finishing (has_more : bool).

Record queue_state := mk {
  m_pending : list Op;
  m_executing : bool;
  on : phase;
  tokens : nat;
}.

Definition initial : queue_state := mk [] false Idle 0.

(** [enqueue], with a database and a wake callback: the push and, from idle, the wake. *)
Definition enqueue (o : Op) (s : queue_state) : queue_state :=
  let was_idle := match m_pending s with [] => true | _ => false end in
  mk (m_pending s ++ [o]) (m_executing s) (on s)
     (if was_idle && negb (m_executing s) then S (tokens s) else tokens s).

(** The first critical section of [on_execute]. *)
Definition begin_execute (s : queue_state) : queue_state :=
  match m_pending s with
  | [] => mk [] (m_executing s) Idle (pred (tokens s))
  | o :: rest => mk rest true (Running o) (pred (tokens s))
  end.

(** The second critical section of [on_execute]. *)
Definition end_execute (s : queue_state) : queue_state :=
  mk (m_pending s) false
     (Finishing (match m_pending s with [] => false | _ => true end)) (tokens s).

(** The trailing [if (has_more) shedule();]. *)
Definition reschedule (has_more : bool) (s : queue_state) : queue_state :=
  mk (m_pending s) (m_executing s) Idle (if has_more then S (tokens s) else tokens s).

Inductive event := Enqueued (o : Op) | Ran (o : Op) | Internal.

Inductive step : queue_state -> event -> queue_state -> Prop :=
  | step_enqueue s o : step s (Enqueued o) (enqueue o s)
  | step_begin s : on s = Idle -> (0 < tokens s)%nat -> step s Internal (begin_execute s)
  | step_end s o : on s = Running o -> step s (Ran o) (end_execute s)
  | step_reschedule s b : on s = Finishing b -> step s Internal (reschedule b s).

Inductive steps : queue_state -> list event -> queue_state -> Prop :=
  | steps_nil s : steps s [] s
  | steps_snoc s es s' e s'' : steps s es s' -> step s' e s'' -> steps s (es ++ [e]) s''.

Definition enqueued (es : list event) : list Op :=
  omap (fun e => match e with Enqueued o => Some o | _ => None end) es.
Definition ran (es : list event) : list Op :=
  omap (fun e => match e with Ran o => Some o | _ => None end) es.
Definition running (s : queue_state) : list Op := match on s with Running o => [o] | _ => [] end.

(** The schedule requests an intact queue has outstanding. *)
Definition expected_tokens (s : queue_state) : nat :=
  match on s, m_pending s with
  | Idle, _ :: _ | Finishing false, _ :: _ => 1
  | _, _ => 0
  end.

Lemma expected_tokens_le s : (expected_tokens s <= 1)%nat.
Proof. unfold expected_tokens. destruct (on s) as [|?|[]], (m_pending s); lia. Qed.

Definition inv (s : queue_state) : Prop :=
  tokens s = expected_tokens s
  /\ m_executing s = match on s with Running _ => true | _ => false end
  /\ (on s = Finishing true -> m_pending s <> []).

Lemma inv_initial : inv initial.
Proof. done. Qed.

Lemma step_inv s e s' : inv s -> step s e s' -> inv s'.
Proof.
  destruct s as [p x ph n]. intros (Ht & Hx & Hf) Hs.
  unfold inv, expected_tokens in *. inversion Hs; subst; cbn in *.
  - destruct ph as [|?|[]], p; cbn in *; subst; cbn; naive_solver.
  - subst. destruct p; cbn in *; [lia|]. done.
  - subst. by destruct p.
  - subst. destruct b, p; cbn in *; naive_solver.
Qed.
#[local] Hint Resolve inv_initial step_inv : congelado.

Lemma steps_inv s es s' : inv s -> steps s es s' -> inv s'.
Proof. induction 2; eauto with congelado. Qed.

Lemma step_order s e s' :
  step s e s' ->
  running s ++ m_pending s ++ enqueued [e] = ran [e] ++ running s' ++ m_pending s'.
Proof.
  intros Hs. unfold running. inversion Hs; subst; cbn.
  - done.
  - rewrite H. unfold begin_execute. by destruct (m_pending s); cbn; rewrite ?app_nil_r.
  - rewrite H. by rewrite app_nil_r.
  - rewrite H. by rewrite app_nil_r.
Qed.

Lemma steps_order s es s' :
  steps s es s' ->
  running s ++ m_pending s ++ enqueued es = ran es ++ running s' ++ m_pending s'.
Proof.
  unfold enqueued, ran. induction 1 as [s|s es s' e s'' _ IH Hs]; [by rewrite app_nil_r|].
  rewrite !omap_app, !app_assoc, <- (app_assoc (running s)), IH, <- !app_assoc.
  f_equal. exact (step_order _ _ _ Hs).
Qed.

(** A request to run the handler is made exactly at the steps that raise [tokens]. *)
Definition requests (s s' : queue_state) : Prop := (tokens s < tokens s')%nat.

(** The connector's queue never asks for the handler to be scheduled while an earlier request
    is outstanding, in any interleaving of producers with the handler, and never holds two
    requests. *)
Theorem queue_never_double_schedules es s e s' :
  steps initial es s -> step s e s' ->
  (tokens s <= 1)%nat /\ (requests s s' -> tokens s = 0%nat /\ tokens s' = 1%nat).
Proof.
  intros Hss Hs. pose proof (steps_inv _ _ _ inv_initial Hss) as Hi.
  pose proof (step_inv _ _ _ Hi Hs) as Hi'. destruct Hi as [Ht _], Hi' as [Ht' _].
  unfold requests. rewrite Ht, Ht'.
  pose proof (expected_tokens_le s). pose proof (expected_tokens_le s'). lia.
Qed.

(** The handler's own steps that are left until the queue is empty: three per operation. *)
Definition work (s : queue_state) : nat :=
  3 * length (m_pending s)
  + match on s with Idle => 0 | Running _ => 2 | Finishing _ => 1 end.

Lemma progress s :
  inv s -> (0 < work s)%nat ->
  exists e s', step s e s' /\ work s = S (work s') /\ enqueued [e] = [].
Proof.
  destruct s as [p x ph n]. intros (Ht & Hx & Hf) Hw. unfold work, expected_tokens in *. cbn in *.
  destruct ph as [|o|b].
  - destruct p as [|o p]; cbn in *; [lia|]. exists Internal, (mk p true (Running o) (pred n)).
    split_and!; [|cbn; lia|done]. refine (step_begin (mk (o :: p) x Idle n) _ _); cbn; [done|lia].
  - exists (Ran o), (end_execute (mk p x (Running o) n)). split_and!; [by apply step_end|cbn; lia|done].
  - exists Internal, (reschedule b (mk p x (Finishing b) n)).
    split_and!; [by apply step_reschedule|cbn; lia|done].
Qed.

Lemma steps_trans s es s' es' s'' : steps s es s' -> steps s' es' s'' -> steps s (es ++ es') s''.
Proof.
  induction 2 as [|? es2 s2 e s3 _ IH Hs]; [by rewrite app_nil_r|].
  rewrite app_assoc. eapply steps_snoc; eauto.
Qed.

Lemma drain n s :
  inv s -> work s = n ->
  exists es s', steps s es s' /\ length es = n /\ enqueued es = [] /\ running s' ++ m_pending s' = [].
Proof.
  revert s. induction n as [|n IH]; intros s Hi Hn.
  - exists [], s. split_and!; [constructor|done|done|]. unfold work, running in *.
    destruct (on s), (m_pending s); cbn in *; lia || done.
  - destruct (progress s Hi) as (e & s1 & Hs & Hw & He); [lia|].
    destruct (IH s1) as (es & s2 & Hss & Hl & Hes & Hr); [by eapply step_inv|lia|].
    exists ([e] ++ es), s2. split_and!; [|cbn; lia| |done].
    + eapply steps_trans; [|done]. apply (steps_snoc s [] s e s1); [constructor|done].
    + unfold enqueued in *. by rewrite omap_app, He, Hes.
Qed.

(** C32: Every operation put on the connector's queue is run exactly once, in the order of the
    calls: from any reachable state the handler's own steps, at most three per pending operation
    and never blocked for want of a wake-up, empty the queue, and what has run by then is exactly
    what was enqueued. *)
Theorem queue_runs_every_operation es s :
  steps initial es s ->
  exists es' s', steps s es' s' /\ length es' = work s /\ enqueued es' = []
    /\ ran (es ++ es') = enqueued es.
Proof.
  intros Hss. destruct (drain (work s) s) as (es' & s' & Hs' & Hl & He & Hr);
    [by eapply steps_inv; [apply inv_initial|]|done|].
  exists es', s'. split_and!; [done..|].
  pose proof (steps_order _ _ _ (steps_trans _ _ _ _ _ Hss Hs')) as Ho.
  rewrite Hr, app_nil_r in Ho. cbn in Ho. rewrite <- Ho.
  unfold enqueued in *. by rewrite omap_app, He, app_nil_r.
Qed.
End Queue.

Definition demo_trace : list (event (Op := nat)) := [Enqueued 1; Internal; Enqueued 2; Ran 1]%nat.

Lemma demo_steps : steps initial demo_trace (end_execute (enqueue 2%nat (begin_execute (enqueue 1%nat initial)))).
Proof.
  apply (steps_snoc _ [Enqueued 1%nat; Internal; Enqueued 2%nat]
           (enqueue 2%nat (begin_execute (enqueue 1%nat initial)))); [|by apply step_end].
  apply (steps_snoc _ [Enqueued 1%nat; Internal] (begin_execute (enqueue 1%nat initial)));
    [|apply step_enqueue].
  apply (steps_snoc _ [Enqueued 1%nat] (enqueue 1%nat initial)); [|apply step_begin; cbn; [done|lia]].
  apply (steps_snoc _ [] initial); [constructor|apply step_enqueue].
Defined.

Lemma queue_never_double_schedules_witness :
  let s := end_execute (enqueue 2%nat (begin_execute (enqueue 1%nat initial))) in
  requests s (reschedule true s) /\ tokens s = 0%nat /\ tokens (reschedule true s) = 1%nat.
Proof.
  intros s. split; [unfold requests; cbn; lia|].
  apply (queue_never_double_schedules demo_trace s Internal (reschedule true s));
    [apply demo_steps|apply step_reschedule; reflexivity|unfold requests; cbn; lia].
Defined.

Lemma queue_runs_every_operation_witness :
  exists es', ran (demo_trace ++ es') = [1; 2]%nat.
Proof.
  destruct (queue_runs_every_operation _ _ demo_steps) as (es' & _ & _ & _ & _ & H).
  exists es'. exact H.
Defined.
End Queue.
