(* ===== verification/Schema.v ===== *)
(** * The schema validator (plugins/orchestrator/workflow_local/src/schema_validator.cppm)

    [SchemaValidator::validate] checks that the keys in a schema's ["required"] array are present
    in a task's input.  The array is found by scanning the text, so the scanners are modelled
    character by character: a [std::string_view] is a [text], and a scan that advances an
    index is a recursion on the text from that index.

    The theorems give the scanners' contract (the array a JSON printer writes is read back), the
    decision [validate] makes, and where the scan departs from the documented one. *)

From stdpp Require Import base gmap strings list.
From Stdlib Require Import ZArith Lia Ascii.
From S2P Require Import Prelude Text Model.

Open Scope string_scope.
Open Scope list_scope.
Open Scope Z_scope.

(** The loop of [matching_bracket], from index [index] on. *)
Fixpoint matching_loop (t : text) (index : nat) (depth : Z) (in_string : bool) : option nat :=
  match t with
  | [] => None
  | character :: rest =>
      if in_string then
        if eqc character backslash then
          match rest with [] => None | _ :: rest' => matching_loop rest' (S (S index)) depth true end
        else matching_loop rest (S index) depth (negb (eqc character quote_char))
      else if eqc character quote_char then matching_loop rest (S index) depth true
      else if eqc character open_bracket then matching_loop rest (S index) (depth + 1) false
      else if eqc character close_bracket then
        if depth - 1 =? 0 then Some index else matching_loop rest (S index) (depth - 1) false
      else matching_loop rest (S index) depth false
  end.

Definition matching_bracket (t : text) (open : nat) : option nat :=
  matching_loop (drop open t) open 0 false.

(** The loop of [extract_required] over the characters strictly between the brackets. *)
Fixpoint names_loop (t : text) (in_string : bool) (current : text) : list string :=
  match t with
  | [] => []
  | character :: rest =>
      if in_string then
        if eqc character backslash then
          (* a backslash that is the last character before the bracket is kept, and ends the loop *)
          match rest with [] => [] | escaped :: rest' => names_loop rest' true (current ++ [escaped]) end
        else if eqc character quote_char then str current :: names_loop rest false []
        else names_loop rest true (current ++ [character])
      else names_loop rest (eqc character quote_char) current
  end.

Definition REQUIRED : text := quote_char :: chars "required" ++ [quote_char].

Definition extract_required (schema_json : text) : list string :=
  match find_sub REQUIRED schema_json with
  | None => []
  | Some key_pos =>
      match find_sub [open_bracket] (drop key_pos schema_json) with
      | None => []
      | Some off =>
          let open := (key_pos + off)%nat in
          match matching_bracket schema_json open with
          | None => []
          | Some close => names_loop (take (close - S open) (drop (S open) schema_json)) false []
          end
      end
  end.

Definition has_key (object : option (list (string * Value))) (key : string) : bool :=
  match object with None => false | Some fields => bool_decide (key ∈ fields.*1) end.

Definition validate (schema_json : text) (data : Value) : expected unit :=
  match base.filter (fun key => has_key (to_object data) key = false) (extract_required schema_json) with
  | [] => Expected tt
  | key :: _ => Unexpected ("missing required field '" +:+ key +:+ "'")
  end.

(** ** A reference printer of JSON string arrays *)

Definition escape (c : ascii) : text :=
  if eqc c quote_char || eqc c backslash then [backslash; c] else [c].
Definition print_string (s : string) : text :=
  quote_char :: (chars s ≫= escape) ++ [quote_char].
Fixpoint print_names (names : list string) : text :=
  match names with
  | [] => []
  | [n] => print_string n
  | n :: names' => print_string n ++ ","%char :: print_names names'
  end.
Definition print_required (names : list string) : text :=
  REQUIRED ++ ":"%char :: open_bracket :: print_names names ++ [close_bracket].

(** ** The scanners on a printed array *)

(** A scan in a string passes over an escaped character. *)
Lemma escape_cases c :
  (escape c = [backslash; c]) \/ (escape c = [c] /\ eqc c quote_char = false /\ eqc c backslash = false).
Proof.
  unfold escape. destruct (eqc c quote_char), (eqc c backslash); cbn; auto.
Qed.

Lemma matching_loop_string s rest index depth :
  matching_loop ((chars s ≫= escape) ++ quote_char :: rest) index depth true
  = matching_loop rest (index + S (length (chars s ≫= escape))) depth false.
Proof.
  revert index. induction (chars s) as [|c cs IH]; intros index.
  - cbn [mbind list_bind app]. cbn [matching_loop]. f_equal. cbn. lia.
  - cbn [mbind list_bind]. rewrite <- app_assoc, length_app.
    destruct (escape_cases c) as [->|(-> & Hq & Hb)]; cbn [app matching_loop].
    + rewrite eqc_refl. rewrite IH. f_equal. cbn [length]. lia.
    + rewrite Hb, Hq. cbn [negb]. rewrite IH. f_equal. cbn [length]. lia.
Qed.

Lemma matching_loop_print_string s rest index depth :
  matching_loop (print_string s ++ rest) index depth false
  = matching_loop rest (index + length (print_string s)) depth false.
Proof.
  unfold print_string. cbn [app]. rewrite <- app_assoc. cbn [app matching_loop].
  rewrite eqc_refl, matching_loop_string. f_equal. cbn. rewrite length_app. cbn. lia.
Qed.

Lemma print_names_cons n n' names :
  print_names (n :: n' :: names) = print_string n ++ ","%char :: print_names (n' :: names).
Proof. done. Qed.

Lemma matching_loop_print_names names rest index depth :
  matching_loop (print_names names ++ rest) index depth false
  = matching_loop rest (index + length (print_names names)) depth false.
Proof.
  revert index. induction names as [|n [|n' names] IH]; intros index.
  - cbn. f_equal. lia.
  - apply matching_loop_print_string.
  - rewrite print_names_cons, <- app_assoc, matching_loop_print_string.
    cbn [app matching_loop]. unfold eqc at 1 2 3.
    rewrite !bool_decide_false by done.
    rewrite IH. f_equal. rewrite length_app. cbn [length]. lia.
Qed.

Lemma names_loop_string s rest current :
  names_loop ((chars s ≫= escape) ++ quote_char :: rest) true current
  = str (current ++ chars s) :: names_loop rest false [].
Proof.
  revert current. induction (chars s) as [|c cs IH]; intros current.
  - cbn [mbind list_bind app names_loop]. by rewrite app_nil_r.
  - cbn [mbind list_bind]. rewrite <- app_assoc.
    destruct (escape_cases c) as [->|(-> & Hq & Hb)]; cbn [app names_loop].
    + by rewrite eqc_refl, IH, <- app_assoc.
    + by rewrite Hb, Hq, IH, <- app_assoc.
Qed.

Lemma names_loop_print_names names : names_loop (print_names names) false [] = names.
Proof.
  induction names as [|n [|n' names] IH]; [done| |].
  - unfold print_names, print_string. cbn [names_loop]. rewrite eqc_refl, names_loop_string.
    cbn. by rewrite str_chars.
  - rewrite print_names_cons. unfold print_string at 1. cbn [app]. rewrite <- app_assoc. cbn [app names_loop].
    rewrite eqc_refl, names_loop_string. cbn [app names_loop]. rewrite str_chars.
    unfold eqc at 1. rewrite bool_decide_false by done. by rewrite IH.
Qed.

(** The ["required"] array a JSON printer writes is read back, whatever the names contain
    (brackets, quotes and backslashes included) and whatever text follows, as long as no earlier
    text spells the key. *)
Theorem extract_required_printed pre names post :
  not_before REQUIRED pre (print_required names ++ post) ->
  extract_required (pre ++ print_required names ++ post) = names.
Proof.
  intros Hpre. unfold extract_required.
  assert (Hsplit : print_required names ++ post
    = REQUIRED ++ (":"%char :: open_bracket :: print_names names ++ close_bracket :: post)).
  { unfold print_required. rewrite <- app_assoc. cbn [app]. by rewrite <- !app_assoc. }
  rewrite Hsplit in *. rewrite find_sub_app by done.
  rewrite drop_app_length.
  set (body := print_names names ++ close_bracket :: post).
  change (REQUIRED ++ ":"%char :: open_bracket :: body)
    with ((REQUIRED ++ [":"%char]) ++ [open_bracket] ++ body).
  rewrite find_sub_app; [|done|by apply not_before_char; vm_compute; set_solver].
  set (key := REQUIRED ++ [":"%char]).
  unfold matching_bracket.
  rewrite (drop_app_add' pre), drop_app_length by done.
  cbn [app matching_loop].
  unfold body. rewrite matching_loop_print_names. cbn [matching_loop].
  change (eqc open_bracket quote_char) with false. change (eqc open_bracket open_bracket) with true.
  change (eqc close_bracket quote_char) with false. change (eqc close_bracket open_bracket) with false.
  change (eqc close_bracket close_bracket) with true. change (0 + 1 - 1 =? 0) with true.
  cbn [app].
  replace (S (length pre + length key)) with (length pre + (length key + 1))%nat by lia.
  rewrite (drop_app_add' pre), (drop_app_add' key) by done. cbn [drop].
  rewrite drop_0, take_app_length'; [apply names_loop_print_names|lia].
Qed.

(** [validate] accepts an input exactly when it has every required key, and otherwise reports
    the first one, in the order of the schema, that it lacks. *)
Theorem validate_required schema data :
  match validate schema data with
  | Expected _ => forall key, key ∈ extract_required schema ->
      exists fields, to_object data = Some fields /\ key ∈ fields.*1
  | Unexpected message =>
      exists before key after,
        extract_required schema = before ++ key :: after
        /\ message = "missing required field '" +:+ key +:+ "'"
        /\ has_key (to_object data) key = false
        /\ Forall (fun k => has_key (to_object data) k = true) before
  end.
Proof.
  unfold validate.
  induction (extract_required schema) as [|key keys IH].
  { by intros key ?%elem_of_nil. }
  rewrite filter_cons. destruct (has_key (to_object data) key) eqn:E.
  - rewrite decide_False by done. revert IH.
    destruct (base.filter _ keys) as [|k ks]; intros IH.
    + intros k [->|?]%elem_of_cons; [|by apply IH]. revert E. unfold has_key.
      destruct (to_object data) as [fields|]; [|done]. intros ?%bool_decide_eq_true. eauto.
    + destruct IH as (before & k' & after & -> & ? & ? & ?).
      exists (key :: before), k', after. split_and!; [done..|]. by constructor.
  - rewrite decide_True by done. exists [], key, keys. by split_and!.
Qed.

Lemma extract_required_printed_witness :
  extract_required (chars "{" ++ print_required ["a]"; "b"] ++ chars ",3:[1]}") = ["a]"; "b"].
Proof.
  apply extract_required_printed. intros i Hi. cbn in Hi.
  destruct i as [|i]; [reflexivity|lia].
Defined.

Definition nested_schema : text :=
  chars "{'properties':{'a':{'required':['x']}},'required':['y']}" ≫=
    fun c => [if eqc c "'"%char then quote_char else c].

(** The scan is not limited to the top level of the schema: a nested ["required"] array that
    comes first hides the top-level one, so the input that has exactly the top-level key is
    rejected and the one that has only the nested key is accepted. *)
Theorem nested_required_wins :
  extract_required nested_schema = ["x"]
  /\ validate nested_schema (VObject [("y", VNull)]) = Unexpected "missing required field 'x'"
  /\ validate nested_schema (VObject [("x", VNull)]) = Expected tt.
Proof. by vm_compute. Qed.
