(* ===== verification/Runtime.v ===== *)
(** * The engine's surroundings (workflow_context, lua_eval, projector, core events)

    What an [engine::Orchestrator] call can read and change, as one [World], and the monad of the
    engine's computations over it.

    - The tables are those of the connector in local mode, where every operation calls back before
      it returns: [find], [find_all], [insert], [update] are the abstract specification that
      [Connector.Local.connector_refines_tables] shows the connector implements.
    - The Lua interpreter, the uuid generator, the clock, the iteration order of
      [std::unordered_map] and the reply of the search provider are not part of the repository:
      they are the fields of [Env], and what the development assumes of them is in [EnvLaws].
    - The Lua state is threaded through the world, because [LuaEval::load_and_run] sets globals
      and never clears them.
    - [M A] is [World -> option (A * World)]: the outer [None] is a computation cut off by the fuel
      of [Orchestrator.engine], never an outcome of the code.  A continuation that the code drops
      without calling is a [None] of the result ([Reply]). *)

From stdpp Require Import base gmap strings list fin_maps.
From Stdlib Require Import ZArith Lia.
From S2P Require Import Prelude Model.

Open Scope string_scope.
Open Scope list_scope.
Open Scope Z_scope.

(** ** The environment *)

(** The outcome of [luaL_loadstring] and [lua_pcall] on a chunk: the truth value of the result
    and, unless it is nil, its [luaL_tolstring] text. *)
Inductive lua_result :=
  | LuaParseError (message : string)
  | LuaRuntimeError (message : string)
  | LuaValue (truthy : bool) (text : option string).

Class Env := {
  lua_state : Type;
  lua_setglobal : lua_state -> string -> Value -> lua_state;
  lua_run : lua_state -> string -> lua_state * lua_result;
  (** The [n]-th reading of [system_clock::now()], in ticks, and the ticks of a millisecond. *)
  clock : nat -> Z;
  ticks_per_ms : Z;
  (** The [n]-th uuid of the system generator. *)
  uuid : nat -> string;
  (** The iteration order of an [unordered_map]. *)
  enumerate : forall {T}, gmap string T -> list T;
  (** Whether the search provider accepts a document. *)
  search_accepts : string -> string -> bool;
}.

Class EnvLaws (E : Env) := {
  uuid_inj : Inj (=) (=) uuid;
  clock_mono n m : (n <= m)%nat -> clock n <= clock m;
  ticks_pos : 0 < ticks_per_ms;
  enumerate_perm {T} (m : gmap string T) : enumerate m ≡ₚ (map_to_list m).*2;
}.

(** What [get_lua_bridge()] and [native_handle()] give. *)
Inductive Bridge (S : Type) := NoBridge | NoHandle | Handle (s : S).
Arguments NoBridge {S}.
Arguments NoHandle {S}.
Arguments Handle {S} s.

(** The documents of the search provider; [w_search] below logs the requests to index one. *)
Record WorkflowSummary := {
  ws_exec_id : string; ws_workflow_type : string; ws_version : Z; ws_status : WorkflowStatus;
  ws_correlation_id : option string; ws_start_time : option Z; ws_end_time : option Z;
  ws_failed_task_names : list string;
}.

Record TaskSummary := {
  ts_task_id : string; ts_task_def_name : string; ts_workflow_exec_id : string;
  ts_status : TaskStatus; ts_scheduled_time : option Z; ts_start_time : option Z;
  ts_update_time : option Z; ts_queue_wait_time_ms : option Z;
}.

Inductive Summary := SWorkflow (s : WorkflowSummary) | STask (s : TaskSummary).

(** A continuation's argument, or [None] when the continuation is never called. *)
Abbreviation Reply := option.

Section Runtime.
  Context {E : Env}.

Record World := mkWorld {
  w_defs : gmap string WorkflowDef;
  w_execs : gmap string WorkflowExecution;
  w_tasks : gmap string TaskDef;
  w_instances : gmap string TaskInstance;
  w_handlers : gmap string EventHandler;
  w_lua : Bridge lua_state;
  w_ids : nat;
  w_clock : nat;
  w_bus : list (string * data_map);
  w_search : option (list (string * string * Summary));
}.

(** ** The monad *)
Definition M (A : Type) : Type := World -> option (A * World).

#[export] Instance M_ret : MRet M := fun A a w => Some (a, w).
#[export] Instance M_bind : MBind M := fun A B f m w =>
  match m w with Some (a, w') => f a w' | None => None end.

Definition out_of_fuel {A} : M A := fun _ => None.
Definition get_world : M World := fun w => Some (w, w).
Definition modify (f : World -> World) : M unit := fun w => Some (tt, f w).

Fixpoint forM {A} (f : A -> M unit) (xs : list A) : M unit :=
  match xs with [] => mret tt | x :: xs' => f x ;; forM f xs' end.

Definition when (b : bool) (m : M unit) : M unit := if b then m else mret tt.

(** ** Tables *)
Class Table (T : Type) := {
  pk : T -> string;
  table : World -> gmap string T;
  set_table : gmap string T -> World -> World;
}.

#[export] Instance defs_table : Table WorkflowDef := {
  pk := wd_name;
  table := w_defs;
  set_table m w := mkWorld m (w_execs w) (w_tasks w) (w_instances w) (w_handlers w) (w_lua w)
                     (w_ids w) (w_clock w) (w_bus w) (w_search w);
}.
#[export] Instance execs_table : Table WorkflowExecution := {
  pk := we_exec_id;
  table := w_execs;
  set_table m w := mkWorld (w_defs w) m (w_tasks w) (w_instances w) (w_handlers w) (w_lua w)
                     (w_ids w) (w_clock w) (w_bus w) (w_search w);
}.
#[export] Instance tasks_table : Table TaskDef := {
  pk := td_name;
  table := w_tasks;
  set_table m w := mkWorld (w_defs w) (w_execs w) m (w_instances w) (w_handlers w) (w_lua w)
                     (w_ids w) (w_clock w) (w_bus w) (w_search w);
}.
#[export] Instance instances_table : Table TaskInstance := {
  pk := ti_task_id;
  table := w_instances;
  set_table m w := mkWorld (w_defs w) (w_execs w) (w_tasks w) m (w_handlers w) (w_lua w)
                     (w_ids w) (w_clock w) (w_bus w) (w_search w);
}.
#[export] Instance handlers_table : Table EventHandler := {
  pk := eh_name;
  table := w_handlers;
  set_table m w := mkWorld (w_defs w) (w_execs w) (w_tasks w) (w_instances w) m (w_lua w)
                     (w_ids w) (w_clock w) (w_bus w) (w_search w);
}.

(** [core::events::publish]: subscribers run outside the engine, so it is a log. *)
Definition publish (name : string) (fields : data_map) : M unit :=
  modify (fun w => mkWorld (w_defs w) (w_execs w) (w_tasks w) (w_instances w) (w_handlers w)
                     (w_lua w) (w_ids w) (w_clock w) (w_bus w ++ [(name, fields)]) (w_search w)).

Definition fields (l : list (string * string)) : data_map := list_to_map l.

Definition find {T} `{Table T} (key : string) : M (option T) :=
  w ← get_world; mret (table w !! key).

Definition find_all {T} `{Table T} : M (list T) :=
  w ← get_world; mret (enumerate (table w)).

(** [write_through] in local mode: it succeeds. *)
Definition write {T} `{Table T} (operation : string) (value : T) : M bool :=
  modify (fun w => set_table (<[pk value := value]> (table w)) w) ;;
  publish "connector.write.completed" (fields [("operation", operation); ("backend", "local")]) ;;
  mret true.

Definition insert {T} `{Table T} (value : T) : M bool := write "insert" value.
Definition update {T} `{Table T} (value : T) : M bool := write "update" value.

(** ** Clock and identifiers *)
Definition now : M Z := fun w =>
  Some (clock (w_clock w),
        mkWorld (w_defs w) (w_execs w) (w_tasks w) (w_instances w) (w_handlers w) (w_lua w)
          (w_ids w) (S (w_clock w)) (w_bus w) (w_search w)).

Definition generate_id : M string := fun w =>
  Some (uuid (w_ids w),
        mkWorld (w_defs w) (w_execs w) (w_tasks w) (w_instances w) (w_handlers w) (w_lua w)
          (S (w_ids w)) (w_clock w) (w_bus w) (w_search w)).

(** ** Lua conditions and scripts *)
Definition set_lua (s : lua_state) : M unit :=
  modify (fun w => mkWorld (w_defs w) (w_execs w) (w_tasks w) (w_instances w) (w_handlers w)
                     (Handle s) (w_ids w) (w_clock w) (w_bus w) (w_search w)).

Definition load_and_run (expr : string) (bindings : Value) : M (option (bool * option string)) :=
  if empty expr then mret None
  else
    w ← get_world;
    match w_lua w with
    | NoBridge => publish "engine.lua_eval.no_bridge" (fields [("expr", expr)]) ;; mret None
    | NoHandle => publish "engine.lua_eval.no_native_handle" ∅ ;; mret None
    | Handle s =>
        let s1 := match to_object bindings with
                  | Some fs => foldl (fun s kv => lua_setglobal s kv.1 kv.2) s fs
                  | None => s
                  end in
        let '(s2, r) := lua_run s1 ("return (" +:+ expr +:+ ")") in
        set_lua s2 ;;
        match r with
        | LuaParseError e =>
            publish "engine.lua_eval.parse_error" (fields [("expr", expr); ("error", e)]) ;;
            mret None
        | LuaRuntimeError e =>
            publish "engine.lua_eval.runtime_error" (fields [("expr", expr); ("error", e)]) ;;
            mret None
        | LuaValue truthy text => mret (Some (truthy, text))
        end
    end.

Definition eval_condition (expr : string) (bindings : Value) : M bool :=
  r ← load_and_run expr bindings;
  mret (match r with Some (truthy, _) => truthy | None => false end).

Definition eval_value (expr : string) (bindings : Value) : M (option string) :=
  r ← load_and_run expr bindings;
  mret (match r with Some (_, text) => text | None => None end).

(** ** The search projection *)
Definition WORKFLOW_SUMMARY_COLLECTION : string := "workflow_summaries".
Definition TASK_SUMMARY_COLLECTION : string := "task_summaries".

Definition index_summary (collection id : string) (s : Summary) : M unit :=
  w ← get_world;
  match w_search w with
  | None => mret tt
  | Some docs =>
      modify (fun w => mkWorld (w_defs w) (w_execs w) (w_tasks w) (w_instances w) (w_handlers w)
                (w_lua w) (w_ids w) (w_clock w) (w_bus w)
                (Some (docs ++ [(collection, id, s)]))) ;;
      when (negb (search_accepts collection id))
        (publish "engine.search.index_failed" (fields [("collection", collection); ("id", id)]))
  end.

Definition task_failed (s : TaskStatus) : bool :=
  bool_decide (s = FAILED) || bool_decide (s = TIMED_OUT).

Definition project_workflow (exec : WorkflowExecution) : M unit :=
  index_summary WORKFLOW_SUMMARY_COLLECTION (we_exec_id exec)
    (SWorkflow {|
       ws_exec_id := we_exec_id exec;
       ws_workflow_type := we_def_name exec;
       ws_version := we_def_version exec;
       ws_status := we_status exec;
       ws_correlation_id := we_correlation_id exec;
       ws_start_time := et_started_at (we_timings exec);
       ws_end_time := et_completed_at (we_timings exec);
       ws_failed_task_names :=
         ti_def_name <$> base.filter (fun i => task_failed (ti_status i) = true)
                           (we_task_instances exec)
     |}).

(** [duration_cast] truncates toward zero and the result is converted to [std::uint64_t]. *)
Definition queue_wait (t : ExecutionTimings) : option Z :=
  match et_scheduled_at t, et_started_at t with
  | Some scheduled, Some started => Some (wrap 64 (Z.quot (started - scheduled) ticks_per_ms))
  | _, _ => None
  end.

Definition project_task (i : TaskInstance) : M unit :=
  index_summary TASK_SUMMARY_COLLECTION (ti_task_id i)
    (STask {|
       ts_task_id := ti_task_id i;
       ts_task_def_name := ti_def_name i;
       ts_workflow_exec_id := ti_workflow_exec_id i;
       ts_status := ti_status i;
       ts_scheduled_time := et_scheduled_at (ti_timings i);
       ts_start_time := et_started_at (ti_timings i);
       ts_update_time := et_completed_at (ti_timings i);
       ts_queue_wait_time_ms := queue_wait (ti_timings i)
     |}).
End Runtime.

Arguments World : clear implicits.
Arguments World {E}.
