(* ===== verification/SystemTask.v ===== *)
(** * System tasks (plugins/orchestrator/workflow_local/src/system_task.cppm)

    The task types the engine runs itself: [TERMINATE] chooses the final status of the workflow,
    [SET_VARIABLE], [NOOP], [JOIN] and [FORK] pass their input on, the script types evaluate Lua. *)

From stdpp Require Import base gmap strings list fin_maps.
From Stdlib Require Import ZArith Lia.
From S2P Require Import Prelude Model Runtime.

Open Scope string_scope.
Open Scope list_scope.
Open Scope Z_scope.

Record SystemTaskOutcome := mkOutcome {
  output_data : data_map;
  terminate_workflow : bool;
  terminate_status : WorkflowStatus;
}.

Definition outcome_default : SystemTaskOutcome := mkOutcome ∅ false WF_COMPLETED.

Definition is_system_task (type : TaskType) : bool :=
  match type with
  | TERMINATE | SET_VARIABLE | NOOP | JOIN | FORK | LAMBDA | INLINE | JSON_JQ_TRANSFORM => true
  | _ => false
  end.

Section SystemTask.
  Context {E : Env}.

(** The body of the loop of [execute_terminate]. *)
Definition terminate_entry (outcome : SystemTaskOutcome) (entry : string * string) : SystemTaskOutcome :=
  let '(key, value) := entry in
  if decide (key = "status") then
    mkOutcome (output_data outcome) (terminate_workflow outcome)
      (if decide (value = "FAILED") then WF_FAILED
       else if decide (value = "TIMED_OUT") then WF_TIMED_OUT
       else if decide (value = "TERMINATED") then WF_TERMINATED
       else terminate_status outcome)
  else
    mkOutcome (<[key := value]> (output_data outcome)) (terminate_workflow outcome)
      (terminate_status outcome).

Definition execute_terminate (input : data_map) : SystemTaskOutcome :=
  foldl terminate_entry (mkOutcome ∅ true WF_COMPLETED) (map_to_list input).

Definition execute_script (input variables : data_map) : M SystemTaskOutcome :=
  match input !! "script" with
  | None => publish "engine.system_task.missing_script_input" ∅ ;; mret outcome_default
  | Some script =>
      let bindings := base.delete "script" input ∪ variables in
      result ← eval_value script (to_value_input bindings);
      mret (mkOutcome (match result with Some r => {["result" := r]} | None => ∅ end)
              false WF_COMPLETED)
  end.

Definition execute (type : TaskType) (input variables : data_map) : M SystemTaskOutcome :=
  match type with
  | TERMINATE => mret (execute_terminate input)
  | SET_VARIABLE | NOOP | JOIN | FORK => mret (mkOutcome input false WF_COMPLETED)
  | LAMBDA | INLINE | JSON_JQ_TRANSFORM => execute_script input variables
  | _ => publish "engine.system_task.unhandled_type" ∅ ;; mret outcome_default
  end.

(** ** Lemmas *)

Definition status_of (value : option string) : WorkflowStatus :=
  match value with
  | Some v =>
      if decide (v = "FAILED") then WF_FAILED
      else if decide (v = "TIMED_OUT") then WF_TIMED_OUT
      else if decide (v = "TERMINATED") then WF_TERMINATED
      else WF_COMPLETED
  | None => WF_COMPLETED
  end.

Lemma terminate_fold l o :
  NoDup l.*1 ->
  foldl terminate_entry o l
  = mkOutcome (base.delete "status" (list_to_map l) ∪ output_data o) (terminate_workflow o)
      (match (list_to_map l : data_map) !! "status" with
       | Some v => if decide (v = "FAILED") then WF_FAILED
                   else if decide (v = "TIMED_OUT") then WF_TIMED_OUT
                   else if decide (v = "TERMINATED") then WF_TERMINATED
                   else terminate_status o
       | None => terminate_status o
       end).
Proof.
  revert o. induction l as [|[k v] l IH]; intros o Hnd.
  - cbn. rewrite delete_empty, (left_id_L ∅ (∪)), lookup_empty. by destruct o.
  - apply NoDup_cons in Hnd as [Hk Hnd]. cbn [foldl]. rewrite IH by done.
    assert (Hnone : (list_to_map l : data_map) !! k = None) by by apply not_elem_of_list_to_map.
    cbn [list_to_map terminate_entry foldr]. unfold terminate_entry. case_decide as Hs.
    + subst k. cbn. rewrite Hnone, lookup_insert_eq, delete_insert_eq, (delete_id (list_to_map l)) by done.
      done.
    + cbn. rewrite delete_insert_ne by done. rewrite lookup_insert_ne by done. f_equal.
      rewrite <- insert_union_l. symmetry. rewrite insert_union_r; [done|].
      rewrite lookup_delete_ne by done. done.
Qed.

Lemma execute_terminate_eq input :
  execute_terminate input = mkOutcome (base.delete "status" input) true (status_of (input !! "status")).
Proof.
  unfold execute_terminate, status_of.
  rewrite terminate_fold by apply NoDup_fst_map_to_list. cbn.
  rewrite list_to_map_to_list, (right_id_L ∅ (∪)). done.
Qed.
End SystemTask.
