(* ===== verification/Orchestrator.v ===== *)
(** * The workflow orchestrator (plugins/orchestrator/workflow_local/src/orchestrator.cppm)

    The methods of [engine::Orchestrator], in the direct style the source's continuations reduce
    to in local mode, where the connector calls back before it returns and every continuation is
    called in tail position: a method that takes [done] or [callback] returns the argument it
    would pass, as a [Reply] whose [None] means the continuation is dropped.

    The methods call each other without bound (a workflow can start itself), so the recursive
    calls go through a record [Self] of the four methods that cut every cycle, and [engine fuel]
    ties the knot: the model of the code is [engine fuel] for a [fuel] large enough not to give
    [None].  Scheduling.v shows that scheduling refines an abstract scheduler, Progress.v that a
    workflow which starts no other one needs only quadratically much fuel. *)

From stdpp Require Import base gmap strings list fin_maps pretty.
From Stdlib Require Import ZArith Lia.
From S2P Require Import Prelude Text Model Runtime SystemTask Schema.

Open Scope string_scope.
Open Scope list_scope.
Open Scope Z_scope.

(** ** Helpers without effects *)

Definition is_nil {A} (l : list A) : bool := match l with [] => true | _ => false end.

Definition status_name (status : WorkflowStatus) : string :=
  match status with
  | WF_RUNNING => "RUNNING"
  | WF_COMPLETED => "COMPLETED"
  | WF_FAILED => "FAILED"
  | WF_TIMED_OUT => "TIMED_OUT"
  | WF_PAUSED => "PAUSED"
  | WF_TERMINATED => "TERMINATED"
  end.

Definition find_node (def : WorkflowDef) (ref_name : string) : option TaskNode :=
  snd <$> list_find (fun n => tn_ref_name n = ref_name) (wd_nodes def).

Definition find_instance (instances : list TaskInstance) (node_ref : string) : option TaskInstance :=
  snd <$> list_find (fun i => ti_node_ref i = node_ref) instances.

(** The loop of [sync_instance]: replace the first instance with that task id, or append. *)
Fixpoint replace_instance (instance : TaskInstance) (instances : list TaskInstance) : list TaskInstance :=
  match instances with
  | [] => [instance]
  | existing :: rest =>
      if decide (ti_task_id existing = ti_task_id instance) then instance :: rest
      else existing :: replace_instance instance rest
  end.

Definition sync_instance (exec : WorkflowExecution) (instance : TaskInstance) : WorkflowExecution :=
  we_set_task_instances (replace_instance instance (we_task_instances exec)) exec.

(** The [incoming] map of [advance]: the edges that lead to a node, in the order of the nodes. *)
Definition incoming (def : WorkflowDef) (ref_name : string) : list TaskEdge :=
  base.filter (fun e => te_to e = ref_name) (wd_nodes def ≫= tn_edges).

(** A predecessor that lets its successors run. *)
Definition ok_status (s : TaskStatus) : bool :=
  bool_decide (s = COMPLETED) || bool_decide (s = SKIPPED).

Definition join_ready (instances : list TaskInstance) (node : TaskNode) : bool :=
  match tn_join_type node with
  | ALL => forallb (fun ref => match find_instance instances ref with
                               | Some i => is_terminal (ti_status i)
                               | None => false end) (tn_join_on node)
  | ANY => existsb (fun ref => match find_instance instances ref with
                               | Some i => ok_status (ti_status i)
                               | None => false end) (tn_join_on node)
  end.

(** [compute_backoff], in milliseconds: the shift is of a 32-bit [1U]. *)
Definition compute_backoff (retry : RetryPolicy) (attempt_number : Z) : Z :=
  match rp_backoff retry with
  | FIXED => rp_interval_ms retry
  | EXPONENTIAL => rp_interval_ms retry * u32 (Z.shiftl 1 (Z.min attempt_number 16))
  end.

(** The instances of a task definition that count against its concurrency limit. *)
Definition in_flight (def_name : string) (instances : list TaskInstance) : Z :=
  Z.of_nat (length (base.filter (fun i => ti_def_name i = def_name
                        /\ (ti_status i = SCHEDULED \/ ti_status i = IN_PROGRESS)) instances)).

Definition within_limit (task_def : option TaskDef) (def_name : string) (instances : list TaskInstance) : bool :=
  match task_def ≫= td_rate_limit with
  | None => true
  | Some limit => in_flight def_name instances <? rl_max_concurrent limit
  end.

(** The instances are all finished, and there are as many as nodes. *)
Definition all_done (exec : WorkflowExecution) (def : WorkflowDef) : bool :=
  negb (length (we_task_instances exec) <? length (wd_nodes def))%nat
  && forallb (fun i => ok_status (ti_status i)) (we_task_instances exec).

(** The output mappings of [maybe_complete], from the last instance. *)
Definition map_outputs (exec : WorkflowExecution) (def : WorkflowDef) : data_map :=
  match last (we_task_instances exec) with
  | None => we_variables exec
  | Some source =>
      foldl (fun vars m => match ti_output_data source !! om_source m with
                           | Some v => <[om_target m := v]> vars
                           | None => vars end)
        (we_variables exec) (wd_output_mappings def)
  end.

Section Orchestrator.
  Context {E : Env}.

(** The methods through which every cycle of calls passes. *)
Record Self := mkSelf {
  self_start : string -> data_map -> option ExecutionId -> M (Reply (option WorkflowExecution));
  self_advance : WorkflowExecution -> WorkflowDef -> M (Reply WorkflowExecution);
  self_spawn_next :
    WorkflowExecution -> WorkflowDef -> list string -> nat -> M (Reply WorkflowExecution);
  self_on_execution_terminal : WorkflowExecution -> M unit;
}.

(** A fresh instance of node [ref_name]: the five setters every spawn starts with. *)
Definition new_instance (exec : WorkflowExecution) (def_name ref_name : string) (status : TaskStatus) :
  M TaskInstance :=
  id ← generate_id;
  mret (ti_set_status status (ti_set_node_ref ref_name (ti_set_def_name def_name
          (ti_set_workflow_exec_id (we_exec_id exec) (ti_set_task_id id ti_default))))).

Definition edge_condition_ok (exec : WorkflowExecution) (edge : TaskEdge) (predecessor : TaskInstance) :
  M bool :=
  match te_condition edge with
  | None => mret true
  | Some cond =>
      let bindings := ti_output_data predecessor ∪ we_variables exec in
      eval_condition cond (to_value_input bindings)
  end.

Section Methods.
  Variable self : Self.

(** [set_status], [get_timings], [set_completed_at(now())], [set_timings]. *)
Definition finish_exec (status : WorkflowStatus) (exec : WorkflowExecution) : M WorkflowExecution :=
  t ← now;
  mret (we_set_timings (et_set_completed_at (Some t) (we_timings exec)) (we_set_status status exec)).

Definition handle_failure (instance : TaskInstance) (exec : WorkflowExecution) (def : WorkflowDef)
  (retry : RetryPolicy) : M unit :=
  if u32 (ti_retry_count instance + 1) <? rp_max_attempts retry then
    t ← now;
    let count := u32 (ti_retry_count instance + 1) in
    let instance := ti_set_next_retry_at (Some (t + compute_backoff retry count * ticks_per_ms))
                      (ti_set_retry_count count instance) in
    publish "engine.task.retry_armed"
      (fields [("task_def_name", ti_def_name instance); ("exec_id", we_exec_id exec);
               ("retry_count", pretty count)]) ;;
    let exec := sync_instance exec instance in
    update instance ;;
    update exec ;;
    mret tt
  else
    publish "engine.task.retries_exhausted"
      (fields [("task_def_name", ti_def_name instance); ("exec_id", we_exec_id exec)]) ;;
    exec ← finish_exec WF_FAILED exec;
    let exec := sync_instance exec instance in
    update instance ;;
    update exec ;;
    self_on_execution_terminal self exec ;;
    match wd_failure_workflow def with
    | Some name => self_start self name (we_variables exec) None ;; mret tt
    | None => mret tt
    end.

Definition process_terminal (instance : TaskInstance) (exec : WorkflowExecution) (def : WorkflowDef) :
  M unit :=
  let exec := sync_instance exec instance in
  project_task instance ;;
  if task_failed (ti_status instance) then
    task_def ← find (T := TaskDef) (ti_def_name instance);
    handle_failure instance exec def
      (match task_def with Some d => td_retry d | None => rp_default end)
  else if ok_status (ti_status instance) then
    r ← self_advance self exec def;
    match r with Some advanced => update advanced ;; mret tt | None => mret tt end
  else update exec ;; mret tt.

Definition on_task_terminal (instance : TaskInstance) : M unit :=
  exec ← find (T := WorkflowExecution) (ti_workflow_exec_id instance);
  match exec with
  | None => mret tt
  | Some exec =>
      if wf_is_terminal (we_status exec) then mret tt
      else
        def ← find (T := WorkflowDef) (we_def_name exec);
        match def with
        | None => mret tt
        | Some def => process_terminal instance exec def
        end
  end.

Definition complete_instance_by_ref (exec_id node_ref : string) (status : TaskStatus) (output : data_map) :
  M unit :=
  exec ← find (T := WorkflowExecution) exec_id;
  match exec ≫= (fun exec => find_instance (we_task_instances exec) node_ref) with
  | None => mret tt
  | Some found =>
      let instance := ti_set_output_data (base.delete "task_ref" (base.delete "exec_id" output))
                        (ti_set_status status found) in
      update instance ;;
      on_task_terminal instance
  end.

(** The status an event's [TERMINATE_WORKFLOW] action asks for. *)
Definition action_status (payload : data_map) : WorkflowStatus :=
  match payload !! "status" with
  | Some v =>
      if decide (v = "COMPLETED") then WF_COMPLETED
      else if decide (v = "FAILED") then WF_FAILED
      else if decide (v = "TIMED_OUT") then WF_TIMED_OUT
      else WF_TERMINATED
  | None => WF_TERMINATED
  end.

Definition execute_event_action (action : EventAction) : M unit :=
  let payload := ea_payload action in
  match ea_type action with
  | START_WORKFLOW_ACTION =>
      match payload !! "workflow_name" with
      | None => mret tt
      | Some name => self_start self name (base.delete "workflow_name" payload) None ;; mret tt
      end
  | COMPLETE_TASK | FAIL_TASK =>
      match payload !! "exec_id", payload !! "task_ref" with
      | Some exec_id, Some task_ref =>
          complete_instance_by_ref exec_id task_ref
            (match ea_type action with COMPLETE_TASK => COMPLETED | _ => FAILED end) payload
      | _, _ => mret tt
      end
  | TERMINATE_WORKFLOW =>
      match payload !! "exec_id" with
      | None => mret tt
      | Some exec_id =>
          exec ← find (T := WorkflowExecution) exec_id;
          match exec with
          | None => mret tt
          | Some exec =>
              if wf_is_terminal (we_status exec) then mret tt
              else
                exec ← finish_exec (action_status payload) exec;
                update exec ;;
                self_on_execution_terminal self exec
          end
      end
  | UPDATE_WORKFLOW_VARIABLES =>
      match payload !! "exec_id" with
      | None => mret tt
      | Some exec_id =>
          exec ← find (T := WorkflowExecution) exec_id;
          match exec with
          | None => mret tt
          | Some exec =>
              update (we_set_variables (base.delete "exec_id" payload ∪ we_variables exec) exec) ;;
              mret tt
          end
      end
  end.

Definition run_handler (event_name : string) (payload : data_map) (handler : EventHandler) : M unit :=
  if negb (eh_active handler) || bool_decide (eh_event handler <> event_name) then mret tt
  else
    go ← match eh_condition handler with
         | None => mret true
         | Some cond => eval_condition cond (to_value_input payload)
         end;
    when go (forM execute_event_action (eh_actions handler)).

Definition publish_event (event_name : string) (payload : data_map) : M unit :=
  publish event_name payload ;;
  handlers ← find_all (T := EventHandler);
  forM (run_handler event_name payload) handlers.

Definition on_execution_terminal (child : WorkflowExecution) : M unit :=
  project_workflow child ;;
  def ← find (T := WorkflowDef) (we_def_name child);
  when (match def with Some d => wd_workflow_status_listener_enabled d | None => false end)
    (publish_event "conductor:workflow_status"
       (fields [("exec_id", we_exec_id child); ("status", status_name (we_status child))])) ;;
  match we_parent_exec_id child with
  | None => mret tt
  | Some _ =>
      instances ← find_all (T := TaskInstance);
      match list_find (fun i => ti_sub_workflow_exec_id i = Some (we_exec_id child)) instances with
      | None => mret tt
      | Some (_, found) =>
          let instance :=
            ti_set_output_data (we_variables child)
              (ti_set_status
                 (if decide (we_status child = WF_COMPLETED) then COMPLETED else FAILED) found) in
          update instance ;;
          on_task_terminal instance
      end
  end.

Definition maybe_complete (exec : WorkflowExecution) (def : WorkflowDef) : M WorkflowExecution :=
  if wf_is_terminal (we_status exec) then mret exec
  else if negb (all_done exec def) then mret exec
  else
    let exec :=
      if negb (is_nil (we_task_instances exec)) && negb (is_nil (wd_output_mappings def))
      then we_set_variables (map_outputs exec def) exec else exec in
    exec ← finish_exec WF_COMPLETED exec;
    on_execution_terminal exec ;;
    mret exec.

(** *** Spawning one node: the branches of [spawn_with_def] *)

(** [exec.add_task_instance(instance); connector.insert(instance, ...)]. *)
Definition add_and_insert (exec : WorkflowExecution) (instance : TaskInstance) : M WorkflowExecution :=
  insert instance ;; mret (we_add_task_instance instance exec).

(** Timings whose given fields are all [t]. *)
Definition timings_at (scheduled started completed : option Z) : ExecutionTimings :=
  et_set_completed_at completed (et_set_started_at started (et_set_scheduled_at scheduled et_default)).

Definition spawn_human (exec : WorkflowExecution) (def : WorkflowDef) (eligible_refs : list string)
  (index : nat) (input : data_map) (ref_name def_name : string) : M (Reply WorkflowExecution) :=
  instance ← new_instance exec def_name ref_name IN_PROGRESS;
  scheduled ← now;
  started ← now;
  exec ← add_and_insert exec
    (ti_set_timings (timings_at (Some scheduled) (Some started) None)
       (ti_set_input_data (to_value_input input) instance));
  self_spawn_next self exec def eligible_refs (S index).

Definition spawn_wait (exec : WorkflowExecution) (def : WorkflowDef) (eligible_refs : list string)
  (index : nat) (input : data_map) (ref_name def_name : string) (wait_duration_ms : option Z) :
  M (Reply WorkflowExecution) :=
  instance ← new_instance exec def_name ref_name IN_PROGRESS;
  t ← now;
  let instance := ti_set_timings (timings_at (Some t) (Some t) None)
                    (ti_set_input_data (to_value_input input) instance) in
  let instance := match wait_duration_ms with
                  | Some ms => ti_set_deadline_at (Some (t + ms * ticks_per_ms)) instance
                  | None => instance
                  end in
  exec ← add_and_insert exec instance;
  self_spawn_next self exec def eligible_refs (S index).

Definition spawn_start_workflow (exec : WorkflowExecution) (def : WorkflowDef)
  (eligible_refs : list string) (index : nat) (input : data_map) (ref_name def_name : string) :
  M (Reply WorkflowExecution) :=
  match input !! "workflow_name" with
  | None => self_spawn_next self exec def eligible_refs (S index)
  | Some name =>
      child ← self_start self name (base.delete "workflow_name" input) None;
      match child with
      | None => mret None
      | Some child =>
          t ← now;
          instance ← new_instance exec def_name ref_name
            (match child with Some _ => COMPLETED | None => FAILED end);
          let instance := match child with
                          | Some c => ti_add_output_data "exec_id" (we_exec_id c) instance
                          | None => instance
                          end in
          exec ← add_and_insert exec
            (ti_set_timings (timings_at (Some t) (Some t) (Some t)) instance);
          self_advance self exec def
      end
  end.

Definition spawn_sub_workflow (exec : WorkflowExecution) (def : WorkflowDef)
  (eligible_refs : list string) (index : nat) (input : data_map) (ref_name def_name : string) :
  M (Reply WorkflowExecution) :=
  match input !! "workflow_name" with
  | None => self_spawn_next self exec def eligible_refs (S index)
  | Some name =>
      child ← self_start self name (base.delete "workflow_name" input) (Some (we_exec_id exec));
      match child with
      | None => mret None
      | Some None =>
          instance ← new_instance exec def_name ref_name FAILED;
          handle_failure instance exec def (mkRetryPolicy 1 FIXED 1) ;;
          mret None
      | Some (Some c) =>
          instance ← new_instance exec def_name ref_name IN_PROGRESS;
          scheduled ← now;
          started ← now;
          exec ← add_and_insert exec
            (ti_set_timings (timings_at (Some scheduled) (Some started) None)
               (ti_set_sub_workflow_exec_id (Some (we_exec_id c)) instance));
          self_spawn_next self exec def eligible_refs (S index)
      end
  end.

Definition spawn_event (exec : WorkflowExecution) (def : WorkflowDef) (input : data_map)
  (ref_name def_name : string) : M (Reply WorkflowExecution) :=
  match input !! "event" with
  | Some name => publish_event name (base.delete "event" input)
  | None => mret tt
  end ;;
  t ← now;
  instance ← new_instance exec def_name ref_name COMPLETED;
  exec ← add_and_insert exec
    (ti_set_timings (timings_at (Some t) (Some t) (Some t)) (ti_set_output_data input instance));
  self_advance self exec def.

Definition spawn_system (exec : WorkflowExecution) (def : WorkflowDef) (input : data_map)
  (ref_name def_name : string) (type : TaskType) : M (Reply WorkflowExecution) :=
  outcome ← execute type input (we_variables exec);
  let exec := if decide (type = SET_VARIABLE)
              then we_set_variables (output_data outcome ∪ we_variables exec) exec else exec in
  t ← now;
  instance ← new_instance exec def_name ref_name COMPLETED;
  exec ← add_and_insert exec
    (ti_set_timings (timings_at (Some t) (Some t) (Some t))
       (ti_set_output_data (output_data outcome) instance));
  if terminate_workflow outcome then
    let exec := we_set_timings (et_set_completed_at (Some t) (we_timings exec))
                  (we_set_status (terminate_status outcome) exec) in
    on_execution_terminal exec ;;
    mret (Some exec)
  else self_advance self exec def.

(** The input schema of a definition that enforces one, checked. *)
Definition schema_check (task_def : option TaskDef) (input : data_map) : expected unit :=
  match task_def with
  | Some d =>
      match td_input_schema d with
      | Some schema =>
          if td_enforce_schema d then validate (chars schema) (to_value_input input) else Expected tt
      | None => Expected tt
      end
  | None => Expected tt
  end.

Definition spawn_rejected (exec : WorkflowExecution) (def : WorkflowDef) (input : data_map)
  (ref_name def_name : string) (retry : RetryPolicy) (error : string) : M (Reply WorkflowExecution) :=
  publish "engine.task.schema_validation_failed" (fields [("node_ref", ref_name); ("error", error)]) ;;
  t ← now;
  instance ← new_instance exec def_name ref_name FAILED;
  let instance :=
    ti_set_timings (timings_at (Some t) (Some t) None)
      (ti_add_output_data "error" ("input schema validation failed: " +:+ error)
         (ti_set_input_data (to_value_input input) instance)) in
  exec ← add_and_insert exec instance;
  handle_failure instance exec def retry ;;
  mret None.

Definition spawn_worker (exec : WorkflowExecution) (def : WorkflowDef) (eligible_refs : list string)
  (index : nat) (input : data_map) (ref_name def_name : string) (task_def : option TaskDef) :
  M (Reply WorkflowExecution) :=
  exec ←
    (if within_limit task_def def_name (we_task_instances exec) then
       instance ← new_instance exec def_name ref_name SCHEDULED;
       t ← now;
       add_and_insert exec
         (ti_set_timings (timings_at (Some t) None None)
            (ti_set_input_data (to_value_input input) instance))
     else
       publish "engine.task.rate_limited"
         (fields [("node_ref", ref_name); ("exec_id", we_exec_id exec)]) ;;
       mret exec);
  self_spawn_next self exec def eligible_refs (S index).

Definition spawn_with_def (exec : WorkflowExecution) (def : WorkflowDef) (eligible_refs : list string)
  (index : nat) (input : data_map) (ref_name original_def_name : string) (task_def : option TaskDef) :
  M (Reply WorkflowExecution) :=
  let resolved_def_name := match task_def with Some d => td_name d | None => original_def_name end in
  let type := td_type <$> task_def in
  if decide (type = Some HUMAN) then
    spawn_human exec def eligible_refs index input ref_name resolved_def_name
  else if decide (type = Some WAIT) then
    spawn_wait exec def eligible_refs index input ref_name resolved_def_name
      (task_def ≫= td_wait_duration_ms)
  else if decide (type = Some START_WORKFLOW) then
    spawn_start_workflow exec def eligible_refs index input ref_name resolved_def_name
  else if decide (type = Some SUB_WORKFLOW) then
    spawn_sub_workflow exec def eligible_refs index input ref_name resolved_def_name
  else if decide (type = Some EVENT) then
    spawn_event exec def input ref_name resolved_def_name
  else
    match type with
    | Some ty =>
        if is_system_task ty then spawn_system exec def input ref_name resolved_def_name ty
        else
          match schema_check task_def input with
          | Unexpected error =>
              spawn_rejected exec def input ref_name resolved_def_name
                (match task_def with Some d => td_retry d | None => rp_default end) error
          | Expected _ =>
              spawn_worker exec def eligible_refs index input ref_name resolved_def_name task_def
          end
    | None => spawn_worker exec def eligible_refs index input ref_name resolved_def_name task_def
    end.

(** *** The scheduling loop *)

(** The inputs an edge maps from its predecessor's output. *)
Definition map_inputs (edge : TaskEdge) (predecessor : TaskInstance) (input : data_map) : data_map :=
  foldl (fun input m => match ti_output_data predecessor !! im_source m with
                        | Some v => <[im_target m := v]> input
                        | None => input end) input (te_mappings edge).

Fixpoint collect_input (exec : WorkflowExecution) (edges : list TaskEdge) (input : data_map) : M data_map :=
  match edges with
  | [] => mret input
  | edge :: rest =>
      match find_instance (we_task_instances exec) (te_from edge) with
      | None => collect_input exec rest input
      | Some predecessor =>
          if ok_status (ti_status predecessor) then
            ok ← edge_condition_ok exec edge predecessor;
            collect_input exec rest (if ok : bool then map_inputs edge predecessor input else input)
          else collect_input exec rest input
      end
  end.

Definition spawn_next (exec : WorkflowExecution) (def : WorkflowDef) (eligible_refs : list string)
  (index : nat) : M (Reply WorkflowExecution) :=
  match eligible_refs !! index with
  | None =>
      exec ← maybe_complete exec def;
      mret (Some exec)
  | Some ref =>
      match find_node def ref with
      | None => self_spawn_next self exec def eligible_refs (S index)
      | Some node =>
          input ← collect_input exec (incoming def (tn_ref_name node)) ∅;
          task_def ← find (T := TaskDef) (tn_def_name node);
          resolved ←
            match task_def with
            | Some d =>
                if decide (td_type d = DYNAMIC) then
                  match td_dynamic_task_param d ≫= (fun p => input !! p) with
                  | Some name => find (T := TaskDef) name
                  | None => mret task_def
                  end
                else mret task_def
            | None => mret task_def
            end;
          spawn_with_def exec def eligible_refs index input (tn_ref_name node) (tn_def_name node) resolved
      end
  end.

Inductive verdict := Eligible | Skip | Blocked.

(** The loop over a node's incoming edges. *)
Fixpoint judge_edges (exec : WorkflowExecution) (edges : list TaskEdge)
  (any_satisfied all_predecessors_terminal : bool) : M (bool * bool) :=
  match edges with
  | [] => mret (any_satisfied, all_predecessors_terminal)
  | edge :: rest =>
      match find_instance (we_task_instances exec) (te_from edge) with
      | None => judge_edges exec rest any_satisfied false
      | Some predecessor =>
          if is_terminal (ti_status predecessor) then
            if ok_status (ti_status predecessor) then
              ok ← edge_condition_ok exec edge predecessor;
              judge_edges exec rest (ok || any_satisfied) all_predecessors_terminal
            else judge_edges exec rest any_satisfied all_predecessors_terminal
          else judge_edges exec rest any_satisfied false
      end
  end.

Definition judge_node (exec : WorkflowExecution) (def : WorkflowDef) (node : TaskNode) : M verdict :=
  if bool_decide (tn_ref_name node ∈ ti_node_ref <$> we_task_instances exec) then mret Blocked
  else if negb (is_nil (tn_join_on node)) then
    mret (if join_ready (we_task_instances exec) node then Eligible else Blocked)
  else
    match incoming def (tn_ref_name node) with
    | [] => mret Eligible
    | edges =>
        r ← judge_edges exec edges false true;
        mret (if (r : bool * bool).1 then Eligible else if r.2 then Skip else Blocked)
    end.

(** The loop over the nodes: the eligible and the skipped references. *)
Fixpoint judge_nodes (exec : WorkflowExecution) (def : WorkflowDef) (nodes : list TaskNode) :
  M (list string * list string) :=
  match nodes with
  | [] => mret ([], [])
  | node :: rest =>
      v ← judge_node exec def node;
      r ← judge_nodes exec def rest;
      let '(eligible, skip) := r : list string * list string in
      mret (match v with
            | Eligible => (tn_ref_name node :: eligible, skip)
            | Skip => (eligible, tn_ref_name node :: skip)
            | Blocked => (eligible, skip)
            end)
  end.

(** The loop over [skip_refs]. *)
Fixpoint add_skipped (exec : WorkflowExecution) (def : WorkflowDef) (skip_refs : list string) :
  M WorkflowExecution :=
  match skip_refs with
  | [] => mret exec
  | ref :: rest =>
      match find_node def ref with
      | None => add_skipped exec def rest
      | Some node =>
          instance ← new_instance exec (tn_def_name node) ref SKIPPED;
          exec ← add_and_insert exec instance;
          add_skipped exec def rest
      end
  end.

Definition advance (exec : WorkflowExecution) (def : WorkflowDef) : M (Reply WorkflowExecution) :=
  if wf_is_terminal (we_status exec) || bool_decide (we_status exec = WF_PAUSED) then mret (Some exec)
  else
    r ← judge_nodes exec def (wd_nodes def);
    let '(eligible_refs, skip_refs) := r : list string * list string in
    if is_nil eligible_refs && is_nil skip_refs then
      exec ← maybe_complete exec def;
      mret (Some exec)
    else
      exec ← add_skipped exec def skip_refs;
      if is_nil eligible_refs then self_advance self exec def
      else spawn_next exec def eligible_refs 0.

Definition start (def_name : string) (variables : data_map) (parent_exec_id : option ExecutionId) :
  M (Reply (option WorkflowExecution)) :=
  def ← find (T := WorkflowDef) def_name;
  match def with
  | None => mret (Some None)
  | Some def =>
      id ← generate_id;
      t ← now;
      let exec :=
        we_set_timings (et_set_started_at (Some t) et_default)
          (we_set_parent_exec_id parent_exec_id
             (we_set_variables variables
                (we_set_status WF_RUNNING
                   (we_set_def_version (wd_version def)
                      (we_set_def_name (wd_name def) (we_set_exec_id id we_default)))))) in
      r ← advance exec def;
      match r with
      | None => mret None
      | Some advanced =>
          oke ← insert advanced;
          mret (Some (if oke : bool then Some advanced else None))
      end
  end.

(** *** The public operations *)

(** [advance(exec, def, [](advanced) { update(advanced, callback); })]. *)
Definition advance_and_update (exec : WorkflowExecution) (def : WorkflowDef) : M (Reply bool) :=
  r ← advance exec def;
  match r with
  | None => mret None
  | Some advanced => oke ← update advanced; mret (Some oke)
  end.

Definition sweep_advance : M unit :=
  execs ← find_all (T := WorkflowExecution);
  forM (fun exec =>
          if decide (we_status exec = WF_RUNNING) then
            def ← find (T := WorkflowDef) (we_def_name exec);
            match def with
            | None => mret tt
            | Some def => advance_and_update exec def ;; mret tt
            end
          else mret tt) execs.

Definition handle_timeout (instance : TaskInstance) : M unit :=
  task_def ← find (T := TaskDef) (ti_def_name instance);
  if decide (td_type <$> task_def = Some WAIT) then
    on_task_terminal (ti_set_status COMPLETED instance)
  else
    let action := match task_def with Some d => tp_action (td_timeout d) | None => FAIL_WORKFLOW end in
    if decide (action = ALERT_ONLY) then mret tt
    else
      let instance := ti_set_status TIMED_OUT instance in
      let retry := match task_def with Some d => td_retry d | None => rp_default end in
      exec ← find (T := WorkflowExecution) (ti_workflow_exec_id instance);
      match exec with
      | None => update instance ;; mret tt
      | Some exec =>
          if wf_is_terminal (we_status exec) then update instance ;; mret tt
          else
            def ← find (T := WorkflowDef) (we_def_name exec);
            if decide (action = RETRY) then
              handle_failure instance exec (default wd_default def) retry
            else
              exec ← finish_exec WF_FAILED exec;
              let exec := sync_instance exec instance in
              update instance ;;
              update exec ;;
              on_execution_terminal exec ;;
              match def ≫= wd_failure_workflow with
              | Some name => start name (we_variables exec) None ;; mret tt
              | None => mret tt
              end
      end.

(** An instance whose deadline has passed. *)
Definition timed_out (t : Z) (instance : TaskInstance) : bool :=
  bool_decide (ti_status instance = IN_PROGRESS)
  && match ti_deadline_at instance with Some deadline => deadline <=? t | None => false end.

Definition sweep_timeouts : M unit :=
  t ← now;
  instances ← find_all (T := TaskInstance);
  forM (fun instance => when (timed_out t instance) (handle_timeout instance)) instances.

(** An instance whose retry is due. *)
Definition retry_due (t : Z) (instance : TaskInstance) : bool :=
  match ti_next_retry_at instance with Some at_ => at_ <=? t | None => false end
  && task_failed (ti_status instance).

Definition rearm (instance : TaskInstance) : TaskInstance :=
  ti_set_output_data ∅ (ti_set_next_retry_at None (ti_set_status SCHEDULED instance)).

Definition sweep_retries : M unit :=
  t ← now;
  instances ← find_all (T := TaskInstance);
  forM (fun instance => when (retry_due t instance) (update (rearm instance) ;; mret tt)) instances.

(** The body of [on_execute], less the sleeps and the rescheduling of the handler. *)
Definition sweep (migration_ready : bool) : M unit :=
  when migration_ready (sweep_timeouts ;; sweep_retries ;; sweep_advance).

Definition pause (exec_id : string) : M (Reply bool) :=
  exec ← find (T := WorkflowExecution) exec_id;
  match exec with
  | None => mret (Some false)
  | Some exec =>
      if decide (we_status exec = WF_RUNNING) then
        oke ← update (we_set_status WF_PAUSED exec); mret (Some oke)
      else mret (Some false)
  end.

Definition resume (exec_id : string) : M (Reply bool) :=
  exec ← find (T := WorkflowExecution) exec_id;
  match exec with
  | None => mret (Some false)
  | Some exec =>
      if decide (we_status exec = WF_PAUSED) then
        let exec := we_set_status WF_RUNNING exec in
        def ← find (T := WorkflowDef) (we_def_name exec);
        match def with
        | None => oke ← update exec; mret (Some oke)
        | Some def => advance_and_update exec def
        end
      else mret (Some false)
  end.

(** The loop of [retry]: the failed instances are rescheduled and written back. *)
Definition retry_instance (instance : TaskInstance) : TaskInstance :=
  if task_failed (ti_status instance) then
    ti_set_output_data ∅ (ti_set_next_retry_at None (ti_set_retry_count 0 (ti_set_status SCHEDULED instance)))
  else instance.

Definition retry (exec_id : string) : M (Reply bool) :=
  exec ← find (T := WorkflowExecution) exec_id;
  match exec with
  | None => mret (Some false)
  | Some exec =>
      if decide (we_status exec = WF_FAILED) then
        def ← find (T := WorkflowDef) (we_def_name exec);
        match def with
        | None => mret (Some false)
        | Some def =>
            if wd_restartable def then
              forM (fun i => when (task_failed (ti_status i)) (update (retry_instance i) ;; mret tt))
                (we_task_instances exec) ;;
              advance_and_update
                (we_set_status WF_RUNNING
                   (we_set_task_instances (retry_instance <$> we_task_instances exec) exec)) def
            else mret (Some false)
        end
      else mret (Some false)
  end.

Definition restart (exec_id : string) : M (Reply bool) :=
  exec ← find (T := WorkflowExecution) exec_id;
  match exec with
  | None => mret (Some false)
  | Some exec =>
      if wf_is_terminal (we_status exec) then
        def ← find (T := WorkflowDef) (we_def_name exec);
        match def with
        | None => mret (Some false)
        | Some def =>
            if wd_restartable def then
              t ← now;
              advance_and_update
                (we_set_timings (et_set_started_at (Some t) et_default)
                   (we_set_status WF_RUNNING
                      (we_set_dynamic_nodes [] (we_set_task_instances [] exec)))) def
            else mret (Some false)
        end
      else mret (Some false)
  end.

(** The loop of [rerun]: the first instance of the node, reset with the new input. *)
Definition rerun_instance (input : Value) (instance : TaskInstance) : TaskInstance :=
  ti_set_next_retry_at None (ti_set_retry_count 0
    (ti_set_output_data ∅ (ti_set_input_data input (ti_set_status SCHEDULED instance)))).

Fixpoint rerun_first (node_ref : string) (input : Value) (instances : list TaskInstance) :
  option (TaskInstance * list TaskInstance) :=
  match instances with
  | [] => None
  | i :: rest =>
      if decide (ti_node_ref i = node_ref) then
        Some (rerun_instance input i, rerun_instance input i :: rest)
      else prod_map id (cons i) <$> rerun_first node_ref input rest
  end.

Definition rerun (exec_id node_ref : string) (input : Value) : M (Reply bool) :=
  exec ← find (T := WorkflowExecution) exec_id;
  match exec with
  | None => mret (Some false)
  | Some exec =>
      def ← find (T := WorkflowDef) (we_def_name exec);
      match def with
      | None => mret (Some false)
      | Some def =>
          if wd_restartable def then
            match rerun_first node_ref input (we_task_instances exec) with
            | None => mret (Some false)
            | Some (instance, instances) =>
                update instance ;;
                advance_and_update
                  (we_set_status WF_RUNNING (we_set_task_instances instances exec)) def
            end
          else mret (Some false)
      end
  end.

Definition signal (exec_id node_ref : string) (payload : option string) : M (Reply bool) :=
  exec ← find (T := WorkflowExecution) exec_id;
  match exec with
  | None => mret (Some false)
  | Some exec =>
      match list_find (fun i => ti_node_ref i = node_ref /\ ti_status i = IN_PROGRESS)
              (we_task_instances exec) with
      | None => mret (Some false)
      | Some (_, found) =>
          let instance := ti_set_status COMPLETED found in
          let instance := match payload with
                          | Some p => ti_add_output_data "signal_payload" p instance
                          | None => instance
                          end in
          update instance ;;
          on_task_terminal instance ;;
          mret (Some true)
      end
  end.

Definition queue_update (exec_id node_ref : string) (status : TaskStatus) (output : data_map) : M unit :=
  complete_instance_by_ref exec_id node_ref status output.

Definition terminate (exec_id : string) : M (Reply bool) :=
  exec ← find (T := WorkflowExecution) exec_id;
  match exec with
  | None => mret (Some false)
  | Some exec =>
      if wf_is_terminal (we_status exec) then mret (Some false)
      else
        exec ← finish_exec WF_TERMINATED exec;
        oke ← update exec;
        when oke (on_execution_terminal exec) ;;
        mret (Some oke)
  end.

Definition reconcile (exec_id : string) : M (Reply bool) :=
  exec ← find (T := WorkflowExecution) exec_id;
  match exec with
  | None => mret (Some false)
  | Some exec =>
      def ← find (T := WorkflowDef) (we_def_name exec);
      match def with
      | None => mret (Some false)
      | Some def => advance_and_update exec def
      end
  end.
End Methods.

(** [this], with at most [fuel] nested calls through [Self]. *)
Fixpoint engine (fuel : nat) : Self :=
  match fuel with
  | O => mkSelf (fun _ _ _ => out_of_fuel) (fun _ _ => out_of_fuel) (fun _ _ _ _ => out_of_fuel)
           (fun _ => out_of_fuel)
  | S f => let self := engine f in
           mkSelf (start self) (advance self) (spawn_next self) (on_execution_terminal self)
  end.
End Orchestrator.
