(* ===== verification/DemoEnv.v ===== *)
(** * A concrete environment and small workflows

    An [Env] with a toy interpreter (an expression is the name of a global; it is true when that
    global is the string "true"), a clock, identifiers and the order of [map_to_list], and the
    workflows on which the theorems are instantiated. *)

From stdpp Require Import base gmap strings list fin_maps pretty.
From Stdlib Require Import ZArith Lia.
From S2P Require Import Prelude Text Model Runtime SystemTask Schema Orchestrator.

Open Scope string_scope.
Open Scope list_scope.
Open Scope Z_scope.

Definition demo_lua_run (globals : list (string * Value)) (script : string) :
  list (string * Value) * lua_result :=
  (globals,
   match list_find (fun kv => "return (" +:+ kv.1 +:+ ")" = script) globals with
   | Some (_, (_, VString s)) => LuaValue (bool_decide (s = "true")) (Some s)
   | _ => LuaValue false None
   end).

#[export] Instance demo_env : Env := {
  lua_state := list (string * Value);
  lua_setglobal s k v := (k, v) :: base.filter (fun kv => kv.1 <> k) s;
  lua_run := demo_lua_run;
  clock n := 1000 * Z.of_nat n;
  ticks_per_ms := 1000;
  uuid n := "id-" +:+ pretty (N.of_nat n);
  enumerate T m := (map_to_list m).*2;
  search_accepts _ _ := true;
}.

#[export] Instance demo_env_laws : EnvLaws demo_env.
Proof.
  split; cbn.
  - intros n m H. injection H as H. change (pretty (N.of_nat n) = pretty (N.of_nat m)) in H.
    apply (inj (pretty (A := N))) in H. lia.
  - intros. lia.
  - lia.
  - done.
Qed.

Definition edge (from to : string) (condition : option string) (mappings : list InputMapping) : TaskEdge :=
  {| te_from := from; te_to := to; te_condition := condition; te_mappings := mappings |}.

Definition node (def_name ref_name : string) (edges : list TaskEdge) : TaskNode :=
  {| tn_def_name := def_name; tn_ref_name := ref_name; tn_edges := edges; tn_join_on := [];
     tn_join_type := ALL; tn_loop_body := []; tn_loop_condition := None;
     tn_dynamic_tasks_input_key := None |}.

Definition workflow (name : string) (nodes : list TaskNode) : WorkflowDef :=
  {| wd_name := name; wd_version := 1; wd_nodes := nodes; wd_input_params := [];
     wd_output_mappings := []; wd_failure_workflow := None; wd_timeout := None;
     wd_restartable := true; wd_workflow_status_listener_enabled := false |}.

Definition task (name : string) (type : TaskType) (limit : option RateLimitPolicy) : TaskDef :=
  {| td_name := name; td_type := type; td_worker_type := "worker"; td_input_keys := [];
     td_output_keys := []; td_retry := rp_default; td_timeout := tp_default; td_rate_limit := limit;
     td_dynamic_task_param := None; td_wait_duration_ms := None; td_domain := None;
     td_input_schema := None; td_output_schema := None; td_enforce_schema := false;
     td_masked_fields := [] |}.

Definition world (defs : list WorkflowDef) (tasks : list TaskDef) (handlers : list EventHandler) : World :=
  mkWorld (list_to_map ((fun d => (wd_name d, d)) <$> defs)) ∅
    (list_to_map ((fun t => (td_name t, t)) <$> tasks)) ∅
    (list_to_map ((fun h => (eh_name h, h)) <$> handlers)) (Handle []) 0 0 [] None.

(** A marker node, a conditional branch that is not taken, and two calls of one worker task whose
    limit is one. *)
Definition fan_out : WorkflowDef :=
  workflow "fan-out"
    [node "noop" "a" [edge "a" "b" None []; edge "a" "c" None []; edge "a" "d" (Some "go") []];
     node "work" "b" []; node "work" "c" []; node "work" "d" []].

Definition demo_world : World :=
  world [fan_out] [task "noop" NOOP None; task "work" SIMPLE (Some (mkRateLimitPolicy 1 100))] [].

(** Two marker nodes in sequence. *)
Definition chain : WorkflowDef := workflow "chain" [node "noop" "a" [edge "a" "b" None []]; node "noop" "b" []].

Definition chain_world : World := world [chain] [task "noop" NOOP None] [].

Definition outcome {A} (r : option (A * World)) : option A := fst <$> r.

Definition final (r : option (Reply (option WorkflowExecution) * World)) : option (WorkflowExecution * World) :=
  match r with Some (Some (Some e), w) => Some (e, w) | _ => None end.

Definition view (e : WorkflowExecution) : WorkflowStatus * list (string * TaskStatus) :=
  (we_status e, (fun i => (ti_node_ref i, ti_status i)) <$> we_task_instances e).
