(* ===== verification/Scheduling.v ===== *)
(** * Scheduling: the orchestrator refines an abstract scheduler

    [spawn_step tasks def] is the abstract scheduler: it adds one instance, of a node that has none yet,
    when the node's join or one of its incoming edges allows it, or a skipped instance when no
    edge can be satisfied any more.  The theorems show that every run of [advance], [spawn_next]
    and [start], whatever the fuel, the Lua interpreter, the clock and the other executions do, is
    a sequence of such steps, and what follows for completion and concurrency limits.

    [triple m Q] is partial correctness for the engine's monad together with the frame property
    of the definition tables; Progress.v adds that the engine answers. *)

From stdpp Require Import base gmap strings list fin_maps relations pretty.
From Stdlib Require Import ZArith Lia.
From S2P Require Import Prelude Text Model Runtime SystemTask Schema Orchestrator DemoEnv.

Open Scope string_scope.
Open Scope list_scope.
Open Scope Z_scope.

(** ** The abstract scheduler *)

Definition refs (instances : list TaskInstance) : list string := ti_node_ref <$> instances.
Definition node_refs (def : WorkflowDef) : list string := tn_ref_name <$> wd_nodes def.

(** Some incoming edge comes from a finished instance that lets its successors run. *)
Definition edge_satisfied (def : WorkflowDef) (instances : list TaskInstance) (ref : string) : Prop :=
  exists edge predecessor, edge ∈ incoming def ref
    /\ find_instance instances (te_from edge) = Some predecessor
    /\ ok_status (ti_status predecessor) = true.

(** Every incoming edge comes from a finished instance. *)
Definition edges_terminal (def : WorkflowDef) (instances : list TaskInstance) (ref : string) : Prop :=
  forall edge, edge ∈ incoming def ref ->
    exists predecessor, find_instance instances (te_from edge) = Some predecessor
      /\ is_terminal (ti_status predecessor) = true.

Definition may_run (def : WorkflowDef) (instances : list TaskInstance) (node : TaskNode) : Prop :=
  if is_nil (tn_join_on node)
  then incoming def (tn_ref_name node) = [] \/ edge_satisfied def instances (tn_ref_name node)
  else join_ready instances node = true.

Definition may_skip (def : WorkflowDef) (instances : list TaskInstance) (node : TaskNode) : Prop :=
  tn_join_on node = [] /\ incoming def (tn_ref_name node) <> []
  /\ edges_terminal def instances (tn_ref_name node).

(** The task definitions a node can resolve to: its own, or for a DYNAMIC one the definition its
    input names. *)
Definition resolves (tasks : gmap string TaskDef) (node : TaskNode) (task_def : option TaskDef) : Prop :=
  task_def = tasks !! tn_def_name node
  \/ exists d name, tasks !! tn_def_name node = Some d /\ td_type d = DYNAMIC
                    /\ task_def = tasks !! name.

Definition resolved_name (node : TaskNode) (task_def : option TaskDef) : string :=
  match task_def with Some d => td_name d | None => tn_def_name node end.

(** The status a new instance may have, by the type of its definition; a worker task is admitted
    only within the definition's concurrency limit. *)
Definition admitted (task_def : option TaskDef) (instances : list TaskInstance) (i : TaskInstance) : Prop :=
  match ti_status i with
  | SCHEDULED => within_limit task_def (ti_def_name i) instances = true
  | IN_PROGRESS => (td_type <$> task_def) ∈ [Some HUMAN; Some WAIT; Some SUB_WORKFLOW]
  | COMPLETED => (td_type <$> task_def) ∈ [Some START_WORKFLOW; Some EVENT]
                 \/ exists d, task_def = Some d /\ is_system_task (td_type d) = true
  | FAILED => td_type <$> task_def = Some START_WORKFLOW
  | _ => False
  end.

Inductive spawn_step (tasks : gmap string TaskDef) (def : WorkflowDef) : list TaskInstance -> list TaskInstance -> Prop :=
  | spawn_run instances node task_def i :
      node ∈ wd_nodes def -> ti_node_ref i = tn_ref_name node ->
      tn_ref_name node ∉ refs instances ->
      may_run def instances node ->
      resolves tasks node task_def -> ti_def_name i = resolved_name node task_def ->
      admitted task_def instances i ->
      spawn_step tasks def instances (instances ++ [i])
  | spawn_skip instances node i :
      node ∈ wd_nodes def -> ti_node_ref i = tn_ref_name node ->
      tn_ref_name node ∉ refs instances -> ti_status i = SKIPPED ->
      may_skip def instances node ->
      spawn_step tasks def instances (instances ++ [i]).

(** ** Lookups and their monotonicity *)

Lemma find_instance_app l l' ref i :
  find_instance l ref = Some i -> find_instance (l ++ l') ref = Some i.
Proof.
  unfold find_instance. intros ([k i'] & Hf & ->)%fmap_Some.
  by erewrite list_find_app_l by exact Hf.
Qed.

Lemma find_instance_Some l ref i : find_instance l ref = Some i -> i ∈ l /\ ti_node_ref i = ref.
Proof.
  unfold find_instance. intros ([k i'] & (Hk & ? & _)%list_find_Some & ->)%fmap_Some.
  split; [by eapply list_elem_of_lookup_2|done].
Qed.

Lemma find_node_Some def ref n : find_node def ref = Some n -> n ∈ wd_nodes def /\ tn_ref_name n = ref.
Proof.
  unfold find_node. intros ([k n'] & (Hk & ? & _)%list_find_Some & ->)%fmap_Some.
  split; [by eapply list_elem_of_lookup_2|done].
Qed.

Lemma find_node_is_Some def n : n ∈ wd_nodes def -> is_Some (find_node def (tn_ref_name n)).
Proof.
  intros Hn. unfold find_node. apply fmap_is_Some. by eapply list_find_elem_of.
Qed.

(** With distinct reference names a node is found under its own. *)
Lemma find_node_self def n :
  NoDup (node_refs def) -> n ∈ wd_nodes def -> find_node def (tn_ref_name n) = Some n.
Proof.
  intros Hnd Hn. destruct (find_node_is_Some def n Hn) as [n' Hn'].
  destruct (find_node_Some _ _ _ Hn') as [Hin Hr]. rewrite Hn'. f_equal.
  apply list_elem_of_lookup in Hn as [j Hj]. apply list_elem_of_lookup in Hin as [k Hk].
  assert (j = k) as ->; [|congruence].
  eapply (NoDup_lookup (node_refs def)); [done| |];
    unfold node_refs; rewrite list_lookup_fmap; [by rewrite Hj|by rewrite Hk, <- Hr].
Qed.

Lemma edge_satisfied_app def l l' ref : edge_satisfied def l ref -> edge_satisfied def (l ++ l') ref.
Proof.
  intros (e & p & ? & ? & ?). exists e, p. split_and!; [done| |done]. by apply find_instance_app.
Qed.

Lemma join_ready_app l l' node : join_ready l node = true -> join_ready (l ++ l') node = true.
Proof.
  unfold join_ready. destruct (tn_join_type node).
  - rewrite !forallb_forall. intros H ref Hr. specialize (H ref Hr).
    destruct (find_instance l ref) as [i|] eqn:Hf; [|done]. by rewrite (find_instance_app _ l' _ _ Hf).
  - rewrite !existsb_exists. intros (ref & Hr & H). exists ref. split; [done|].
    destruct (find_instance l ref) as [i|] eqn:Hf; [|done]. by rewrite (find_instance_app _ l' _ _ Hf).
Qed.

Lemma may_run_app def l l' node : may_run def l node -> may_run def (l ++ l') node.
Proof.
  unfold may_run. destruct (is_nil _); [|by apply join_ready_app].
  intros [?|?]; [by left|right]. by apply edge_satisfied_app.
Qed.

Lemma may_skip_app def l l' node : may_skip def l node -> may_skip def (l ++ l') node.
Proof.
  intros (? & ? & H). split_and!; [done..|]. intros e He.
  destruct (H e He) as (p & ? & ?). exists p. split; [by apply find_instance_app|done].
Qed.

(** ** What the abstract scheduler keeps *)

Lemma spawn_step_prefix tasks def l l' : rtc (spawn_step tasks def) l l' -> l `prefix_of` l'.
Proof.
  induction 1 as [|l l1 l' Hs _ IH]; [done|]. etransitivity; [|exact IH].
  destruct Hs; by apply prefix_app_r.
Qed.

Lemma spawn_step_refs tasks def l l' :
  spawn_step tasks def l l' -> NoDup (refs l) -> refs l ⊆ node_refs def ->
  NoDup (refs l') /\ refs l' ⊆ node_refs def.
Proof.
  intros Hs Hnd Hsub. unfold refs, node_refs in *.
  destruct Hs as [l n td i Hn Hi Hf _ _ _ _|l n i Hn Hi Hf _ _]; rewrite fmap_app; cbn;
    (split; [apply NoDup_app; split_and!; [done| |apply NoDup_singleton]|]).
  all: try (intros r Hr ->%list_elem_of_singleton; by rewrite Hi in Hr).
  all: intros r [?|Hr%list_elem_of_singleton]%elem_of_app; [by apply Hsub|];
    subst r; rewrite Hi; by apply list_elem_of_fmap_2.
Qed.

Lemma spawn_steps_refs tasks def l l' :
  rtc (spawn_step tasks def) l l' -> NoDup (refs l) -> refs l ⊆ node_refs def ->
  NoDup (refs l') /\ refs l' ⊆ node_refs def.
Proof.
  induction 1 as [|l l1 l' Hs _ IH]; [done|]. intros H1 H2.
  destruct (spawn_step_refs _ _ _ _ Hs H1 H2). by apply IH.
Qed.

(** Distinct references, no more nodes than instances: every node has an instance. *)
Lemma refs_cover def l :
  NoDup (refs l) -> refs l ⊆ node_refs def -> (length (wd_nodes def) <= length l)%nat ->
  node_refs def ⊆ refs l.
Proof.
  intros Hnd Hsub Hlen.
  assert (Hs : refs l ⊆+ node_refs def) by by apply NoDup_submseteq.
  assert (Hp : refs l ≡ₚ node_refs def).
  { apply submseteq_length_Permutation; [done|]. unfold refs, node_refs. by rewrite !length_fmap. }
  intros r Hr. by rewrite Hp.
Qed.

(** ** Partial correctness with the frame of the definition tables *)

Section Logic.
  Context {E : Env} (defs : gmap string WorkflowDef) (tasks : gmap string TaskDef)
    (handlers : gmap string EventHandler).

Definition framed (w : World) : Prop :=
  w_defs w = defs /\ w_tasks w = tasks /\ w_handlers w = handlers.

Definition triple {A} (m : M A) (Q : A -> Prop) : Prop :=
  forall w a w', framed w -> m w = Some (a, w') -> framed w' /\ Q a.

Definition trivial {A} (_ : A) : Prop := True.

Lemma triple_ret {A} (a : A) (Q : A -> Prop) : Q a -> triple (mret a) Q.
Proof. intros H w a' w' Hw [= <- <-]. done. Qed.

Lemma triple_bind {A B} (m : M A) (f : A -> M B) (P : A -> Prop) (Q : B -> Prop) :
  triple m P -> (forall a, P a -> triple (f a) Q) -> triple (m ≫= f) Q.
Proof.
  intros Hm Hf w b w' Hw. unfold mbind, M_bind.
  destruct (m w) as [[a w1]|] eqn:E1; [|done]. intros E2.
  destruct (Hm w a w1 Hw E1) as [Hw1 Ha]. by eapply Hf.
Qed.

Lemma triple_conseq {A} (m : M A) (P Q : A -> Prop) :
  triple m P -> (forall a, P a -> Q a) -> triple m Q.
Proof. intros Hm HPQ w a w' Hw Hr. destruct (Hm w a w' Hw Hr). auto. Qed.

Lemma triple_trivial {A} (m : M A) P : triple m P -> triple m trivial.
Proof. intros H. by eapply triple_conseq. Qed.

(** A computation whose result is ignored. *)
Lemma triple_seq {A B} (m : M A) (k : M B) (Q : B -> Prop) :
  triple m trivial -> triple k Q -> triple (m ;; k) Q.
Proof. intros Hm Hk. eapply triple_bind; [exact Hm|]. by intros. Qed.

Lemma triple_out_of_fuel {A} (Q : A -> Prop) : triple out_of_fuel Q.
Proof. by intros w a w' _. Qed.

Lemma triple_get (Q : World -> Prop) : (forall w, framed w -> Q w) -> triple get_world Q.
Proof. intros H w a w' Hw [= <- <-]. auto. Qed.

Lemma triple_get_world : triple get_world trivial.
Proof. by apply triple_get. Qed.

Lemma triple_modify f : (forall w, framed w -> framed (f w)) -> triple (modify f) trivial.
Proof. intros H w a w' Hw [= <- <-]. split; [auto|done]. Qed.

Lemma triple_forM {A} (f : A -> M unit) xs :
  (forall x, triple (f x) trivial) -> triple (forM f xs) trivial.
Proof.
  intros H. induction xs as [|x xs IH]; cbn; [by apply triple_ret|]. by apply triple_seq.
Qed.

Lemma triple_when b m : triple m trivial -> triple (when b m) trivial.
Proof. intros H. unfold when. destruct b; [done|by apply triple_ret]. Qed.

Lemma triple_publish name fs : triple (publish name fs) trivial.
Proof. apply triple_modify. by intros w. Qed.

Lemma triple_now : triple now trivial.
Proof. intros w a w' Hw [= <- <-]. done. Qed.

Lemma triple_generate_id : triple generate_id trivial.
Proof. intros w a w' Hw [= <- <-]. done. Qed.

Lemma triple_find {T} `{!Table T} key : triple (find (T := T) key) trivial.
Proof. eapply triple_bind; [by apply (triple_get trivial)|]. intros w _. by apply triple_ret. Qed.

Lemma triple_find_task key : triple (find (T := TaskDef) key) (fun r => r = tasks !! key).
Proof.
  eapply triple_bind; [apply (triple_get (fun w => w_tasks w = tasks)); by intros w (_ & ? & _)|].
  intros w Hw. apply triple_ret. cbn. by rewrite Hw.
Qed.

Lemma triple_find_all {T} `{!Table T} : triple (find_all (T := T)) trivial.
Proof. eapply triple_bind; [by apply (triple_get trivial)|]. intros w _. by apply triple_ret. Qed.

(** The tables the engine writes. *)
Class Mutable (T : Type) `{!Table T} :=
  mutable_frame : forall m w, framed w -> framed (set_table (T := T) m w).
#[export] Instance mutable_execs : Mutable WorkflowExecution.
Proof. by intros m w. Qed.
#[export] Instance mutable_instances : Mutable TaskInstance.
Proof. by intros m w. Qed.

Lemma triple_write {T} `{!Table T} `{!Mutable T} op (v : T) : triple (write op v) trivial.
Proof.
  unfold write. apply triple_seq; [by apply triple_modify; intros w; apply mutable_frame|].
  apply triple_seq; [apply triple_publish|by apply triple_ret].
Qed.

Lemma triple_update {T} `{!Table T} `{!Mutable T} (v : T) : triple (update v) trivial.
Proof. apply triple_write. Qed.

Lemma triple_insert {T} `{!Table T} `{!Mutable T} (v : T) : triple (insert v) trivial.
Proof. apply triple_write. Qed.
End Logic.

#[export] Hint Resolve triple_get_world triple_out_of_fuel triple_publish triple_now triple_generate_id triple_find
  triple_find_all triple_update triple_insert triple_forM triple_when mutable_execs mutable_instances
  : congelado.

(** [mstep]: one step of a triple with a trivial postcondition for what comes first; [mauto] repeats
    it, splitting on every branch. *)
Ltac mstep :=
  first
    [ progress intros
    | solve [eauto with congelado]
    | match goal with
      | |- triple _ _ _ (mret _) _ => apply triple_ret; try exact I
      | |- triple _ _ _ (?m ;; ?k) _ => apply (triple_seq _ _ _ m k)
      | |- triple _ _ _ (_ ≫= _) _ => eapply triple_bind with (P := trivial)
      | |- triple _ _ _ (when _ _) _ => apply triple_when
      | |- triple _ _ _ (forM _ _) _ => apply triple_forM
      | |- triple _ _ _ (match ?x with _ => _ end) _ => destruct x
      | |- triple _ _ _ (let _ := _ in _) _ => cbv zeta
      end ].
Ltac mauto := repeat mstep.

Section Frame.
  Context {E : Env} (defs : gmap string WorkflowDef) (tasks : gmap string TaskDef)
    (handlers : gmap string EventHandler).
  Abbreviation framing m := (triple defs tasks handlers m trivial).

Lemma frame_set_lua s : framing (set_lua s).
Proof. apply triple_modify. by intros w. Qed.
#[local] Hint Resolve frame_set_lua : congelado.

Lemma frame_load_and_run expr bindings : framing (load_and_run expr bindings).
Proof. unfold load_and_run. mauto. Qed.
#[local] Hint Resolve frame_load_and_run : congelado.

Lemma frame_eval_condition expr bindings : framing (eval_condition expr bindings).
Proof. unfold eval_condition. mauto. Qed.

Lemma frame_eval_value expr bindings : framing (eval_value expr bindings).
Proof. unfold eval_value. mauto. Qed.
#[local] Hint Resolve frame_eval_condition frame_eval_value : congelado.

Lemma frame_execute type input variables : framing (execute type input variables).
Proof. unfold execute, execute_script. mauto. Qed.

Lemma frame_index_summary c id s : framing (index_summary c id s).
Proof. unfold index_summary. mauto. apply triple_modify. by intros w. Qed.
#[local] Hint Resolve frame_execute frame_index_summary : congelado.

Lemma frame_project_workflow exec : framing (project_workflow exec).
Proof. unfold project_workflow. mauto. Qed.

Lemma frame_project_task i : framing (project_task i).
Proof. unfold project_task. mauto. Qed.

Lemma frame_new_instance exec d r s : framing (new_instance exec d r s).
Proof. unfold new_instance. mauto. Qed.

Lemma frame_edge_condition_ok exec edge p : framing (edge_condition_ok exec edge p).
Proof. unfold edge_condition_ok. mauto. Qed.

Lemma frame_finish_exec s exec : framing (finish_exec s exec).
Proof. unfold finish_exec. mauto. Qed.

Lemma frame_add_and_insert exec i : framing (add_and_insert exec i).
Proof. unfold add_and_insert. mauto. Qed.
#[local] Hint Resolve frame_project_workflow frame_project_task frame_new_instance
  frame_edge_condition_ok frame_finish_exec frame_add_and_insert : congelado.

(** The methods keep the frame if the recursive calls do. *)
Record frame_self (self : Self) : Prop := {
  frame_start n v p : framing (self_start self n v p);
  frame_advance e d : framing (self_advance self e d);
  frame_spawn_next e d r i : framing (self_spawn_next self e d r i);
  frame_on_execution_terminal e : framing (self_on_execution_terminal self e);
}.
#[local] Hint Resolve frame_start frame_advance frame_spawn_next frame_on_execution_terminal : congelado.

Section Self.
  Context (self : Self) (Hself : frame_self self).

Lemma frame_handle_failure i e d r : framing (handle_failure self i e d r).
Proof. unfold handle_failure. mauto. Qed.
#[local] Hint Resolve frame_handle_failure : congelado.

Lemma frame_process_terminal i e d : framing (process_terminal self i e d).
Proof. unfold process_terminal. mauto. Qed.
#[local] Hint Resolve frame_process_terminal : congelado.

Lemma frame_on_task_terminal i : framing (on_task_terminal self i).
Proof. unfold on_task_terminal. mauto. Qed.
#[local] Hint Resolve frame_on_task_terminal : congelado.

Lemma frame_complete_instance_by_ref e r s o : framing (complete_instance_by_ref self e r s o).
Proof. unfold complete_instance_by_ref. mauto. Qed.
#[local] Hint Resolve frame_complete_instance_by_ref : congelado.

Lemma frame_execute_event_action a : framing (execute_event_action self a).
Proof. unfold execute_event_action. mauto. Qed.
#[local] Hint Resolve frame_execute_event_action : congelado.

Lemma frame_publish_event n p : framing (publish_event self n p).
Proof. unfold publish_event, run_handler. mauto. Qed.
#[local] Hint Resolve frame_publish_event : congelado.

Lemma frame_on_terminal e : framing (on_execution_terminal self e).
Proof. unfold on_execution_terminal. mauto. Qed.
#[local] Hint Resolve frame_on_terminal : congelado.

Lemma frame_maybe_complete e d : framing (maybe_complete self e d).
Proof. unfold maybe_complete. mauto. Qed.
#[local] Hint Resolve frame_maybe_complete : congelado.

Lemma frame_spawn_with_def e d rs i inp r o t : framing (spawn_with_def self e d rs i inp r o t).
Proof.
  unfold spawn_with_def, spawn_human, spawn_wait, spawn_start_workflow, spawn_sub_workflow, spawn_event,
    spawn_system, spawn_rejected, spawn_worker. mauto.
Qed.
#[local] Hint Resolve frame_spawn_with_def : congelado.

Lemma frame_collect_input e edges input : framing (collect_input e edges input).
Proof.
  revert input. induction edges as [|edge edges IH]; intros input; cbn [collect_input]; mauto.
Qed.
#[local] Hint Resolve frame_collect_input : congelado.

Lemma frame_spawn_next_method e d rs i : framing (spawn_next self e d rs i).
Proof. unfold spawn_next. mauto. Qed.
#[local] Hint Resolve frame_spawn_next_method : congelado.

Lemma frame_judge_edges e edges any all : framing (judge_edges e edges any all).
Proof.
  revert any all. induction edges as [|edge edges IH]; intros any all; cbn [judge_edges]; mauto.
Qed.
#[local] Hint Resolve frame_judge_edges : congelado.

Lemma frame_judge_nodes e d nodes : framing (judge_nodes e d nodes).
Proof. induction nodes as [|n nodes IH]; cbn [judge_nodes]; unfold judge_node; mauto. Qed.
#[local] Hint Resolve frame_judge_nodes : congelado.

Lemma frame_add_skipped e d rs : framing (add_skipped e d rs).
Proof. revert e. induction rs as [|r rs IH]; intros e; cbn [add_skipped]; mauto. Qed.
#[local] Hint Resolve frame_add_skipped : congelado.

Lemma frame_advance_method e d : framing (advance self e d).
Proof. unfold advance. mauto. Qed.
#[local] Hint Resolve frame_advance_method : congelado.

Lemma frame_start_method n v p : framing (start self n v p).
Proof. unfold start. mauto. Qed.
End Self.

Lemma engine_frame fuel : frame_self (engine fuel).
Proof.
  induction fuel as [|fuel IH]; split; intros; cbn; eauto with congelado;
    by (apply frame_start_method || apply frame_advance_method || apply frame_spawn_next_method
        || apply frame_on_terminal).
Qed.
End Frame.

#[export] Hint Resolve frame_set_lua frame_load_and_run frame_eval_condition frame_eval_value
  frame_execute frame_index_summary frame_project_workflow frame_project_task frame_new_instance
  frame_edge_condition_ok frame_finish_exec frame_add_and_insert frame_start frame_advance
  frame_spawn_next frame_on_execution_terminal frame_handle_failure frame_process_terminal
  frame_on_task_terminal frame_complete_instance_by_ref frame_execute_event_action
  frame_publish_event frame_on_terminal frame_maybe_complete frame_spawn_with_def frame_collect_input
  frame_spawn_next_method frame_judge_edges frame_judge_nodes frame_add_skipped frame_advance_method
  frame_start_method engine_frame : congelado.

(** ** The refinement *)

Definition same_identity (e e' : WorkflowExecution) : Prop :=
  we_exec_id e' = we_exec_id e /\ we_def_name e' = we_def_name e
  /\ we_def_version e' = we_def_version e /\ we_correlation_id e' = we_correlation_id e
  /\ we_parent_exec_id e' = we_parent_exec_id e.

(** [e'] is [e] after some steps of the abstract scheduler, still with its status. *)
Definition grown (tasks : gmap string TaskDef) (def : WorkflowDef) (e e' : WorkflowExecution) : Prop :=
  rtc (spawn_step tasks def) (we_task_instances e) (we_task_instances e')
  /\ same_identity e e' /\ we_status e' = we_status e.

Definition reply {A} (P : A -> Prop) (r : Reply A) : Prop :=
  match r with Some a => P a | None => True end.

(** Nodes that may run, distinct and without an instance. *)
Definition ready (def : WorkflowDef) (l : list TaskInstance) (rs : list string) : Prop :=
  NoDup rs /\ Forall (fun r => r ∉ refs l
    /\ exists n, n ∈ wd_nodes def /\ tn_ref_name n = r /\ may_run def l n) rs.

Definition skippable (def : WorkflowDef) (l : list TaskInstance) (rs : list string) : Prop :=
  NoDup rs /\ Forall (fun r => r ∉ refs l
    /\ exists n, n ∈ wd_nodes def /\ tn_ref_name n = r /\ may_skip def l n) rs.

Lemma same_identity_refl e : same_identity e e.
Proof. by unfold same_identity. Qed.

Lemma grown_refl tasks def e : grown tasks def e e.
Proof. split_and!; [done|apply same_identity_refl|done]. Qed.

Lemma grown_trans tasks def e1 e2 e3 : grown tasks def e1 e2 -> grown tasks def e2 e3 -> grown tasks def e1 e3.
Proof.
  unfold grown, same_identity. intros (? & ? & ?) (? & ? & ?).
  split_and!; try (by etransitivity); naive_solver congruence.
Qed.
#[export] Hint Resolve grown_refl same_identity_refl : congelado.

Lemma grown_set_variables tasks def e v : grown tasks def e (we_set_variables v e).
Proof. by split_and!. Qed.

Lemma grown_run tasks def e i n td :
  n ∈ wd_nodes def -> ti_node_ref i = tn_ref_name n -> ti_node_ref i ∉ refs (we_task_instances e) ->
  may_run def (we_task_instances e) n -> resolves tasks n td -> ti_def_name i = resolved_name n td ->
  admitted td (we_task_instances e) i ->
  grown tasks def e (we_add_task_instance i e).
Proof.
  intros. split_and!; [|done..]. apply rtc_once. eapply spawn_run; eauto. congruence.
Qed.

Lemma grown_skip tasks def e i n :
  n ∈ wd_nodes def -> ti_node_ref i = tn_ref_name n -> ti_node_ref i ∉ refs (we_task_instances e) ->
  ti_status i = SKIPPED -> may_skip def (we_task_instances e) n ->
  grown tasks def e (we_add_task_instance i e).
Proof.
  intros. split_and!; [|done..]. apply rtc_once. eapply spawn_skip; eauto. congruence.
Qed.

Lemma refs_app l l' : refs (l ++ l') = refs l ++ refs l'.
Proof. apply fmap_app. Qed.

(** What is ready stays so when other nodes get instances. *)
Lemma ready_app def l l' rs :
  ready def l rs -> (forall r, r ∈ rs -> r ∉ refs l') -> ready def (l ++ l') rs.
Proof.
  intros [Hnd Hall] Hd. split; [done|]. rewrite Forall_forall in *. intros r Hr.
  destruct (Hall r Hr) as (Hf & n & ? & ? & ?). split.
  - rewrite refs_app. intros [?|?]%elem_of_app; [done|]. by eapply Hd.
  - exists n. split_and!; [done..|]. by apply may_run_app.
Qed.

Lemma ready_next def l i r rs :
  ready def l (r :: rs) -> ti_node_ref i = r -> ready def (l ++ [i]) rs.
Proof.
  intros [Hnd Hall] Hi. apply NoDup_cons in Hnd as [Hr Hnd]. apply Forall_cons in Hall as [_ Hall].
  apply ready_app; [by split|]. intros r' Hr' ->%list_elem_of_singleton. congruence.
Qed.

Lemma ready_tail def l r rs : ready def l (r :: rs) -> ready def l rs.
Proof. intros [[_ ?]%NoDup_cons [_ ?]%Forall_cons]. by split. Qed.

Lemma skippable_next def l i r rs :
  skippable def l (r :: rs) -> ti_node_ref i = r -> skippable def (l ++ [i]) rs.
Proof.
  intros [Hnd Hall] Hi. apply NoDup_cons in Hnd as [Hr Hnd]. apply Forall_cons in Hall as [_ Hall].
  split; [done|]. rewrite Forall_forall in *. intros r' Hr'.
  destruct (Hall r' Hr') as (Hf & n & ? & ? & ?). split.
  - rewrite refs_app. intros [?|?%list_elem_of_singleton]%elem_of_app; [done|]. congruence.
  - exists n. split_and!; [done..|]. by apply may_skip_app.
Qed.

Section Refinement.
  Context {E : Env} (defs : gmap string WorkflowDef) (tasks : gmap string TaskDef)
    (handlers : gmap string EventHandler).
  Abbreviation spec m Q := (triple defs tasks handlers m Q).

(** How an execution ends in [advance]: every instance is finished and every node has one, or the
    definition of a TERMINATE task has been run. *)
Definition ended (def : WorkflowDef) (e : WorkflowExecution) : Prop :=
  (we_status e = WF_COMPLETED /\ all_done e def = true)
  \/ exists name d, tasks !! name = Some d /\ td_type d = TERMINATE.

Definition advanced (def : WorkflowDef) (e e' : WorkflowExecution) : Prop :=
  rtc (spawn_step tasks def) (we_task_instances e) (we_task_instances e')
  /\ same_identity e e'
  /\ (we_status e' = we_status e \/ wf_is_terminal (we_status e') = true /\ ended def e').

Lemma grown_advanced def e e' : grown tasks def e e' -> advanced def e e'.
Proof. intros (? & ? & ?). split_and!; auto. Qed.

Lemma grown_then_advanced def e1 e2 e3 : grown tasks def e1 e2 -> advanced def e2 e3 -> advanced def e1 e3.
Proof.
  unfold grown, advanced, same_identity. intros (? & ? & Hs) (? & ? & ?). rewrite Hs in *.
  split_and!; try (by etransitivity); naive_solver congruence.
Qed.

Lemma reply_grown def e1 e2 r :
  grown tasks def e1 e2 -> reply (advanced def e2) r -> reply (advanced def e1) r.
Proof. destruct r; [apply grown_then_advanced|done]. Qed.

(** *** The helpers of the spawning code *)

Lemma spec_new_instance e d r st :
  spec (new_instance e d r st)
    (fun i => ti_node_ref i = r /\ ti_status i = st /\ ti_def_name i = d
              /\ ti_workflow_exec_id i = we_exec_id e /\ ti_retry_count i = 0).
Proof. unfold new_instance. eapply triple_bind; [apply triple_generate_id|]. intros. by apply triple_ret. Qed.

Lemma spec_add_and_insert e i : spec (add_and_insert e i) (fun e' => e' = we_add_task_instance i e).
Proof. unfold add_and_insert. apply triple_seq; [apply triple_insert, _|]. by apply triple_ret. Qed.

Lemma spec_finish_exec st e :
  spec (finish_exec st e)
    (fun e' => we_status e' = st /\ we_task_instances e' = we_task_instances e /\ same_identity e e').
Proof. unfold finish_exec. eapply triple_bind; [apply triple_now|]. intros t _. by apply triple_ret. Qed.

Section Self.
  Context (self : Self) (Hframe : frame_self defs tasks handlers self).

Lemma spec_maybe_complete e def : spec (maybe_complete self e def) (advanced def e).
Proof.
  unfold maybe_complete. destruct (wf_is_terminal _).
  { apply triple_ret, grown_advanced, grown_refl. }
  destruct (all_done e def) eqn:Hd; cbn [negb].
  2: { apply triple_ret, grown_advanced, grown_refl. }
  cbv zeta. set (e1 := if _ && _ then _ else _).
  assert (He1 : grown tasks def e e1 /\ we_task_instances e1 = we_task_instances e).
  { unfold e1. destruct (_ && _); [|split; [apply grown_refl|done]].
    split; [apply grown_set_variables|done]. }
  destruct He1 as [Hg Hi]. eapply triple_bind; [apply spec_finish_exec|]. intros e2 (Hs & Hi2 & Hid).
  apply triple_seq; [by apply frame_on_terminal|]. apply triple_ret.
  eapply grown_then_advanced; [exact Hg|]. split_and!; [by rewrite Hi2|done|right].
  rewrite Hs. split; [done|]. left. split; [done|]. unfold all_done in *. by rewrite Hi2, Hi.
Qed.

(** *** The judgement of the nodes *)

Lemma spec_judge_edges e edges any all :
  spec (judge_edges e edges any all) (fun r =>
    (r.1 = true -> any = true \/ exists edge p, edge ∈ edges
        /\ find_instance (we_task_instances e) (te_from edge) = Some p
        /\ ok_status (ti_status p) = true)
    /\ (r.2 = true -> all = true /\ forall edge, edge ∈ edges -> exists p,
        find_instance (we_task_instances e) (te_from edge) = Some p
        /\ is_terminal (ti_status p) = true)).
Proof.
  revert any all. induction edges as [|edge edges IH]; intros any all; cbn [judge_edges].
  { apply triple_ret. cbn. split; [auto|]. intros H. split; [done|]. by intros ? ?%elem_of_nil. }
  destruct (find_instance _ (te_from edge)) as [p|] eqn:Hp.
  2: { eapply triple_conseq; [apply IH|]. intros r [H1 H2]. split.
       - intros Hr. destruct (H1 Hr) as [?|(e' & p & ? & ?)]; [by left|right]. exists e', p.
         split; [by right|done].
       - intros Hr. by destruct (H2 Hr). }
  destruct (is_terminal (ti_status p)) eqn:Ht.
  2: { eapply triple_conseq; [apply IH|]. intros r [H1 H2]. split.
       - intros Hr. destruct (H1 Hr) as [?|(e' & p' & ? & ?)]; [by left|right]. exists e', p'.
         split; [by right|done].
       - intros Hr. by destruct (H2 Hr). }
  assert (Hall : forall (r : bool * bool), (r.2 = true -> all = true /\ forall edge, edge ∈ edges ->
      exists p, find_instance (we_task_instances e) (te_from edge) = Some p
        /\ is_terminal (ti_status p) = true) ->
    r.2 = true -> all = true /\ forall edge', edge' ∈ edge :: edges ->
      exists p, find_instance (we_task_instances e) (te_from edge') = Some p
        /\ is_terminal (ti_status p) = true).
  { intros r H Hr. destruct (H Hr) as [-> H']. split; [done|].
    intros edge' [->|?]%elem_of_cons; eauto. }
  destruct (ok_status (ti_status p)) eqn:Hok.
  - eapply triple_bind; [apply frame_edge_condition_ok|]. intros ok _.
    eapply triple_conseq; [apply IH|]. intros r [H1 H2]. split; [|by apply Hall].
    intros Hr. destruct (H1 Hr) as [[?|?]%orb_prop|(e' & p' & ? & ?)].
    + right. exists edge, p. split; [by left|done].
    + by left.
    + right. exists e', p'. split; [by right|done].
  - eapply triple_conseq; [apply IH|]. intros r [H1 H2]. split; [|by apply Hall].
    intros Hr. destruct (H1 Hr) as [?|(e' & p' & ? & ?)]; [by left|right]. exists e', p'.
    split; [by right|done].
Qed.

Lemma spec_judge_node e def node :
  spec (judge_node e def node) (fun v =>
    match v with
    | Eligible => tn_ref_name node ∉ refs (we_task_instances e) /\ may_run def (we_task_instances e) node
    | Skip => tn_ref_name node ∉ refs (we_task_instances e) /\ may_skip def (we_task_instances e) node
    | Blocked => True
    end).
Proof.
  unfold judge_node. case_bool_decide as Hf; [by apply triple_ret|].
  unfold may_run, may_skip. destruct (tn_join_on node) eqn:Hj; cbn [is_nil negb].
  - destruct (incoming def (tn_ref_name node)) as [|edge edges] eqn:Hin.
    { apply triple_ret. split; [done|by left]. }
    eapply triple_bind; [apply spec_judge_edges|]. intros [any all] [H1 H2]. apply triple_ret. cbn in *.
    destruct any; [|destruct all; [|done]]; (split; [done|]).
    + right. destruct (H1 eq_refl) as [?|(ed & p & ? & ?)]; [done|]. exists ed, p. by rewrite Hin.
    + split_and!; [done..|]. intros ed. rewrite Hin. by apply H2.
  - apply triple_ret. destruct (join_ready _ node) eqn:Hr; [|done]. by split.
Qed.

Lemma spec_judge_nodes e def nodes :
  NoDup (tn_ref_name <$> nodes) -> nodes ⊆ wd_nodes def ->
  spec (judge_nodes e def nodes) (fun r =>
    ready def (we_task_instances e) r.1 /\ skippable def (we_task_instances e) r.2
    /\ r.1 ⊆ tn_ref_name <$> nodes /\ r.2 ⊆ tn_ref_name <$> nodes
    /\ forall x, x ∈ r.1 -> x ∉ r.2).
Proof.
  induction nodes as [|node nodes IH]; intros Hnd Hsub; cbn [judge_nodes].
  { apply triple_ret. cbn. split_and!; [split; constructor|split; constructor|done|done|].
    by intros x ?%elem_of_nil. }
  cbn in Hnd. apply NoDup_cons in Hnd as [Hn Hnd].
  eapply triple_bind; [apply spec_judge_node|]. intros v Hv.
  eapply triple_bind; [apply IH; [done|intros x Hx; apply Hsub; by right]|].
  intros [el sk] (Hel & Hsk & Se & Ss & Hd). cbn [fst snd] in *. apply triple_ret.
  assert (Hnode : node ∈ wd_nodes def) by (apply Hsub; by left).
  assert (Hnel : tn_ref_name node ∉ el) by (intros ?; by apply Hn, Se).
  assert (Hnsk : tn_ref_name node ∉ sk) by (intros ?; by apply Hn, Ss).
  destruct v; cbn [fst snd]; rewrite fmap_cons; split_and!; try done; try (by apply list_subseteq_cons).
  - split; [apply NoDup_cons; split; [done|apply Hel]|]. constructor; [|apply Hel].
    split; [apply Hv|]. exists node. split_and!; [done..|apply Hv].
  - by apply list_subseteq_skip.
  - intros x [->|?]%elem_of_cons; [done|by apply Hd].
  - split; [apply NoDup_cons; split; [done|apply Hsk]|]. constructor; [|apply Hsk].
    split; [apply Hv|]. exists node. split_and!; [done..|apply Hv].
  - by apply list_subseteq_skip.
  - intros x Hx [->|?]%elem_of_cons; [done|by eapply Hd].
Qed.

Lemma spec_add_skipped def rs e :
  NoDup (node_refs def) -> skippable def (we_task_instances e) rs ->
  spec (add_skipped e def rs) (fun e' =>
    grown tasks def e e' /\ exists new, we_task_instances e' = we_task_instances e ++ new /\ refs new = rs).
Proof.
  intros Hnd. revert e. induction rs as [|r rs IH]; intros e Hs; cbn [add_skipped].
  { apply triple_ret. split; [apply grown_refl|]. exists []. by rewrite app_nil_r. }
  destruct Hs as [Hndl Hall] eqn:Hs'. clear Hs'. pose proof Hall as Hall'.
  apply Forall_cons in Hall as [(Hf & n & Hn & <- & Hm) _].
  rewrite find_node_self by done.
  eapply triple_bind; [apply spec_new_instance|]. intros i (Hr & Hst & _).
  eapply triple_bind; [apply spec_add_and_insert|]. intros e1 ->.
  eapply triple_conseq; [apply IH|].
  { apply skippable_next with (tn_ref_name n); [by split|done]. }
  intros e2 [Hg (new & Hi & Hrs)]. split.
  - eapply grown_trans; [|exact Hg]. apply grown_skip with n; congruence || done.
  - exists (i :: new). cbn in Hi. rewrite Hi, <- app_assoc. split; [done|].
    unfold refs in *. by rewrite fmap_cons, Hr, Hrs.
Qed.
End Self.

(** *** The branches of [spawn_with_def] *)

(** What is assumed of the recursive calls. *)
Record sched_self (self : Self) : Prop := {
  sched_frame : frame_self defs tasks handlers self;
  sched_advance e def : NoDup (node_refs def) ->
    spec (self_advance self e def) (reply (advanced def e));
  sched_spawn_next e def rs index : NoDup (node_refs def) ->
    ready def (we_task_instances e) (drop index rs) ->
    spec (self_spawn_next self e def rs index) (reply (advanced def e));
}.

Section Spawn.
  Context (self : Self) (Hself : sched_self self) (def : WorkflowDef) (Hnd : NoDup (node_refs def)).
  Context (e : WorkflowExecution) (rs : list string) (index : nat) (n : TaskNode) (td : option TaskDef).
  Context (Hr : rs !! index = Some (tn_ref_name n))
    (Hready : ready def (we_task_instances e) (drop index rs)).
  Context (Hn : n ∈ wd_nodes def) (Hres : resolves tasks n td).
  Abbreviation r := (tn_ref_name n).
  Abbreviation name := (resolved_name n td).

Let Hframe : frame_self defs tasks handlers self := sched_frame self Hself.

Lemma ready_head : ready def (we_task_instances e) (r :: drop (S index) rs).
Proof. by rewrite <- (drop_S _ _ _ Hr). Qed.

(** Adding the instance of the node is a step of the abstract scheduler. *)
Lemma grown_spawn i :
  ti_node_ref i = r -> ti_def_name i = name -> admitted td (we_task_instances e) i ->
  grown tasks def e (we_add_task_instance i e).
Proof.
  intros Hi Hd Ha. destruct ready_head as [_ [(Hf & n' & Hn' & Hrn & Hm) _]%Forall_cons].
  assert (n' = n) as -> .
  { pose proof (find_node_self def n' Hnd Hn') as H1. pose proof (find_node_self def n Hnd Hn) as H2.
    rewrite Hrn in H1. congruence. }
  apply grown_run with n td; congruence || done.
Qed.

Lemma spec_pass : spec (self_spawn_next self e def rs (S index)) (reply (advanced def e)).
Proof. apply sched_spawn_next; [done..|]. eapply ready_tail, ready_head. Qed.

(** ... and the rest of the pass goes on from there. *)
Lemma spec_continue i :
  ti_node_ref i = r -> ti_def_name i = name -> admitted td (we_task_instances e) i ->
  spec (self_spawn_next self (we_add_task_instance i e) def rs (S index)) (reply (advanced def e)).
Proof.
  intros Hi Hd Ha. eapply triple_conseq; [apply sched_spawn_next; [done..|]|].
  - cbn. eapply ready_next; [apply ready_head|done].
  - intros x. apply reply_grown. by apply grown_spawn.
Qed.

Lemma spec_again i :
  ti_node_ref i = r -> ti_def_name i = name -> admitted td (we_task_instances e) i ->
  spec (self_advance self (we_add_task_instance i e) def) (reply (advanced def e)).
Proof.
  intros Hi Hd Ha. eapply triple_conseq; [by apply sched_advance|].
  intros x. apply reply_grown. by apply grown_spawn.
Qed.

Lemma spec_spawn_human input :
  td_type <$> td = Some HUMAN ->
  spec (spawn_human self e def rs index input r name) (reply (advanced def e)).
Proof.
  intros Ht. unfold spawn_human. eapply triple_bind; [apply spec_new_instance|]. intros i (Hi & Hs & Hd & _).
  do 2 (eapply triple_bind; [apply triple_now|]; intros ? _).
  eapply triple_bind; [apply spec_add_and_insert|]. intros e1 ->.
  apply spec_continue; [done..|]. unfold admitted. cbn. rewrite Hs, Ht. by left.
Qed.

Lemma spec_spawn_wait input ms :
  td_type <$> td = Some WAIT ->
  spec (spawn_wait self e def rs index input r name ms) (reply (advanced def e)).
Proof.
  intros Ht. unfold spawn_wait. eapply triple_bind; [apply spec_new_instance|]. intros i (Hi & Hs & Hd & _).
  eapply triple_bind; [apply triple_now|]; intros t _. cbv zeta.
  eapply triple_bind; [apply spec_add_and_insert|]. intros e1 ->.
  apply spec_continue; [by destruct ms..|]. unfold admitted.
  destruct ms; cbn; rewrite Hs, Ht; by right; left.
Qed.

Lemma spec_spawn_start_workflow input :
  td_type <$> td = Some START_WORKFLOW ->
  spec (spawn_start_workflow self e def rs index input r name) (reply (advanced def e)).
Proof.
  intros Ht. unfold spawn_start_workflow. destruct (input !! "workflow_name"); [|apply spec_pass].
  eapply triple_bind; [by apply frame_start|]. intros [child|] _; [|by apply triple_ret].
  eapply triple_bind; [apply triple_now|]. intros t _.
  eapply triple_bind; [apply spec_new_instance|]. intros i (Hi & Hs & Hd & _). cbv zeta.
  eapply triple_bind; [apply spec_add_and_insert|]. intros e1 ->.
  apply spec_again; [by destruct child..|]. unfold admitted.
  destruct child; cbn; rewrite Hs, Ht; [left; by left|done].
Qed.

Lemma spec_spawn_sub_workflow input :
  td_type <$> td = Some SUB_WORKFLOW ->
  spec (spawn_sub_workflow self e def rs index input r name) (reply (advanced def e)).
Proof.
  intros Ht. unfold spawn_sub_workflow. destruct (input !! "workflow_name"); [|apply spec_pass].
  eapply triple_bind; [by apply frame_start|]. intros [[child|]|] _; [| |by apply triple_ret].
  - eapply triple_bind; [apply spec_new_instance|]. intros i (Hi & Hs & Hd & _).
    do 2 (eapply triple_bind; [apply triple_now|]; intros ? _).
    eapply triple_bind; [apply spec_add_and_insert|]. intros e1 ->.
    apply spec_continue; [done..|]. unfold admitted. cbn. rewrite Hs, Ht. by right; right; left.
  - eapply triple_bind; [apply spec_new_instance|]. intros i _.
    apply triple_seq; [by apply frame_handle_failure|by apply triple_ret].
Qed.

Lemma spec_spawn_event input :
  td_type <$> td = Some EVENT -> spec (spawn_event self e def input r name) (reply (advanced def e)).
Proof.
  intros Ht. unfold spawn_event. apply triple_seq.
  { destruct (input !! "event"); [by apply frame_publish_event|by apply triple_ret]. }
  eapply triple_bind; [apply triple_now|]. intros t _.
  eapply triple_bind; [apply spec_new_instance|]. intros i (Hi & Hs & Hd & _).
  eapply triple_bind; [apply spec_add_and_insert|]. intros e1 ->.
  apply spec_again; [done..|]. unfold admitted. cbn. rewrite Hs, Ht. left. by right; left.
Qed.

Lemma spec_spawn_rejected input retry error :
  spec (spawn_rejected self e def input r name retry error) (reply (advanced def e)).
Proof.
  unfold spawn_rejected. apply triple_seq; [apply triple_publish|].
  eapply triple_bind; [apply triple_now|]. intros t _.
  eapply triple_bind; [apply spec_new_instance|]. intros i _. cbv zeta.
  eapply triple_bind; [apply spec_add_and_insert|]. intros e1 ->.
  apply triple_seq; [by apply frame_handle_failure|by apply triple_ret].
Qed.

Lemma spec_spawn_worker input :
  spec (spawn_worker self e def rs index input r name td) (reply (advanced def e)).
Proof.
  unfold spawn_worker. destruct (within_limit _ _ _) eqn:Hw.
  - eapply triple_bind with (P := fun e1 => exists i, e1 = we_add_task_instance i e
      /\ ti_node_ref i = r /\ ti_status i = SCHEDULED /\ ti_def_name i = name).
    { eapply triple_bind; [apply spec_new_instance|]. intros i (Hi & Hs & Hd & _).
      eapply triple_bind; [apply triple_now|]. intros t _.
      eapply triple_conseq; [apply spec_add_and_insert|]. intros e1 ->. eexists. by split_and!. }
    intros e1 (i & -> & Hi & Hs & Hd). apply spec_continue; [done..|]. unfold admitted.
    by rewrite Hs, Hd.
  - eapply triple_bind with (P := fun e1 => e1 = e).
    { apply triple_seq; [apply triple_publish|by apply triple_ret]. }
    intros e1 ->. apply spec_pass.
Qed.
End Spawn.

Lemma status_of_terminal v : wf_is_terminal (status_of v) = true.
Proof. unfold status_of. destruct v; [|done]. repeat case_decide; done. Qed.

Lemma spec_execute type input variables :
  spec (execute type input variables) (fun o => terminate_workflow o = true ->
    type = TERMINATE /\ wf_is_terminal (terminate_status o) = true).
Proof.
  unfold execute, execute_script.
  destruct type; repeat case_match; try (by apply triple_ret);
    try (by apply triple_seq; [apply triple_publish|apply triple_ret]).
  { apply triple_ret. intros _. rewrite execute_terminate_eq. split; [done|apply status_of_terminal]. }
  all: eapply triple_bind; [apply frame_eval_value|]; intros; by apply triple_ret.
Qed.

Section Schedule.
  Context (self : Self) (Hself : sched_self self) (def : WorkflowDef) (Hnd : NoDup (node_refs def)).

Let Hframe : frame_self defs tasks handlers self := sched_frame self Hself.

Lemma spec_spawn_system e rs index n input d task_name :
  rs !! index = Some (tn_ref_name n) -> ready def (we_task_instances e) (drop index rs) ->
  n ∈ wd_nodes def -> resolves tasks n (Some d) -> tasks !! task_name = Some d ->
  is_system_task (td_type d) = true ->
  spec (spawn_system self e def input (tn_ref_name n) (td_name d) (td_type d)) (reply (advanced def e)).
Proof.
  intros Hr Hready Hn Hres Ht Hsys. unfold spawn_system. eapply triple_bind; [apply spec_execute|].
  intros o Ho. cbv zeta. set (e1 := if decide _ then _ else e).
  assert (He1 : grown tasks def e e1 /\ we_task_instances e1 = we_task_instances e).
  { unfold e1. case_decide; (split; [|done]); [apply grown_set_variables|apply grown_refl]. }
  destruct He1 as [Hg Hi1]. rewrite <- Hi1 in Hready.
  eapply triple_bind; [apply triple_now|]. intros t _.
  eapply triple_bind; [apply spec_new_instance|]. intros i (Hi & Hs & Hd & _).
  eapply triple_bind; [apply spec_add_and_insert|]. intros e2 ->.
  set (i' := ti_set_timings _ _).
  assert (Ha : admitted (Some d) (we_task_instances e1) i').
  { unfold admitted, i'. cbn. rewrite Hs. right. by exists d. }
  destruct (terminate_workflow o) eqn:Ho'.
  - apply triple_seq; [by apply frame_on_terminal|]. apply triple_ret. cbn.
    destruct (Ho Ho') as [Hty Hterm]. eapply grown_then_advanced; [exact Hg|].
    split_and!; [|done|right; split; [done|right; by exists task_name, d]].
    by apply (grown_spawn def Hnd e1 rs index n (Some d)).
  - eapply triple_conseq; [|intros x; apply reply_grown, Hg].
    by apply (spec_again self Hself def Hnd e1 rs index n (Some d)).
Qed.

Lemma spec_spawn_with_def e rs index n input td :
  rs !! index = Some (tn_ref_name n) -> ready def (we_task_instances e) (drop index rs) ->
  n ∈ wd_nodes def -> resolves tasks n td ->
  spec (spawn_with_def self e def rs index input (tn_ref_name n) (tn_def_name n) td)
    (reply (advanced def e)).
Proof.
  intros Hr Hready Hn Hres. unfold spawn_with_def. cbv zeta. fold (resolved_name n td).
  repeat case_decide;
    eauto using spec_spawn_human, spec_spawn_wait, spec_spawn_start_workflow,
      spec_spawn_sub_workflow, spec_spawn_event.
  destruct td as [d|]; cbn [fmap option_fmap option_map]; [|by apply spec_spawn_worker].
  destruct (is_system_task (td_type d)) eqn:Hsys.
  { assert (exists k, tasks !! k = Some d) as [k Hk].
    { destruct Hres as [Hres|(d' & k & _ & _ & Hres)]; eauto. }
    by apply spec_spawn_system with rs index k. }
  destruct (schema_check _ _); [by apply spec_spawn_worker|by apply spec_spawn_rejected].
Qed.

Lemma spec_spawn_next e rs index :
  ready def (we_task_instances e) (drop index rs) ->
  spec (spawn_next self e def rs index) (reply (advanced def e)).
Proof.
  intros Hready. unfold spawn_next. destruct (rs !! index) as [r|] eqn:Hr.
  2: { eapply triple_bind; [by apply spec_maybe_complete|]. intros e1 He1. by apply triple_ret. }
  assert (Hh := Hready). rewrite (drop_S _ _ _ Hr) in Hh. destruct Hh as [_ [(_ & n & Hn & <- & _) _]%Forall_cons].
  rewrite find_node_self by done.
  eapply triple_bind; [apply frame_collect_input|]. intros input _.
  eapply triple_bind; [apply triple_find_task|]. intros td ->.
  eapply triple_bind with (P := resolves tasks n).
  { repeat case_match; try (apply triple_ret; left; congruence).
    eapply triple_conseq; [apply triple_find_task|]. intros ? ->. right. by eexists _, _. }
  intros t Ht. by apply spec_spawn_with_def.
Qed.

Lemma spec_advance e : spec (advance self e def) (reply (advanced def e)).
Proof.
  unfold advance. destruct (_ || _); [apply triple_ret, grown_advanced, grown_refl|].
  eapply triple_bind; [by apply spec_judge_nodes|].
  intros [el sk] (Hel & Hsk & _ & _ & Hd). cbn [fst snd] in *.
  destruct (is_nil el && is_nil sk).
  { eapply triple_bind; [by apply spec_maybe_complete|]. intros e1 He1. by apply triple_ret. }
  eapply triple_bind; [by apply spec_add_skipped|]. intros e1 [Hg (new & Hi & Hrs)].
  eapply triple_conseq; [|intros x; by apply reply_grown].
  destruct (is_nil el); [by apply sched_advance|]. apply spec_spawn_next. rewrite Hi.
  apply ready_app; [done|]. intros x Hx. rewrite Hrs. by apply Hd.
Qed.
End Schedule.

Lemma engine_sched fuel : sched_self (engine fuel).
Proof.
  induction fuel as [|fuel IH]; (split; [apply engine_frame|..]); intros; cbn;
    [apply triple_out_of_fuel..|by apply spec_advance|by apply spec_spawn_next].
Qed.
End Refinement.

(** ** The theorems *)

(** The world's own tables frame every computation from it. *)
Lemma framed_self `{E : Env} (w : World) : framed (w_defs w) (w_tasks w) (w_handlers w) w.
Proof. done. Qed.

(** C1: [advance] refines the abstract scheduler.  Whatever the interpreter, the clock and the
    other executions do, the instances of the execution it hands back are those it was given plus a
    sequence of spawn steps: each new instance belongs to a node of the definition that had none,
    and is spawned only when the node's join is ready or an incoming edge comes from a completed or
    skipped instance, or is SKIPPED when all predecessors are finished.  The execution keeps its
    identity; its status is unchanged, or it is terminal and either every node is done or a
    TERMINATE task exists.  The definition tables are not modified. *)
Theorem advance_refines_scheduler `{E : Env} fuel e def w e' w' :
  NoDup (node_refs def) ->
  advance (engine fuel) e def w = Some (Some e', w') ->
  advanced (w_tasks w) def e e'
  /\ w_defs w' = w_defs w /\ w_tasks w' = w_tasks w /\ w_handlers w' = w_handlers w.
Proof.
  intros Hnd Hrun.
  destruct (spec_advance (w_defs w) (w_tasks w) (w_handlers w) (engine fuel)
              (engine_sched _ _ _ fuel) def Hnd e w _ w' (framed_self w) Hrun) as [(? & ? & ?) Hp].
  done.
Qed.

(** An execution the engine can hold: started from no instances and advanced. *)
Definition scheduled (tasks : gmap string TaskDef) (def : WorkflowDef) (instances : list TaskInstance) : Prop :=
  rtc (spawn_step tasks def) [] instances.

Lemma scheduled_refs tasks def l : scheduled tasks def l -> NoDup (refs l) /\ refs l ⊆ node_refs def.
Proof. intros H. eapply spawn_steps_refs; [exact H|constructor|by intros ? ?%elem_of_nil]. Qed.

(** [instance] is a new version of an instance that [instances] holds. *)
Definition updates (instances : list TaskInstance) (instance : TaskInstance) : Prop :=
  ti_task_id instance ∈ (ti_task_id <$> instances) /\
  forall old, old ∈ instances -> ti_task_id old = ti_task_id instance -> ti_node_ref old = ti_node_ref instance.

(** What happens to the instances of an execution: none at the start and after [restart]; the spawn steps
    of [advance]; [sync_instance] with a new version of one of them, as when a worker, a signal, a timeout or
    the end of a sub-workflow changes its status; the loops of [retry] and [rerun]. *)
Inductive history (tasks : gmap string TaskDef) (def : WorkflowDef) : list TaskInstance -> Prop :=
  | history_new : history tasks def []
  | history_spawn l l' : history tasks def l -> spawn_step tasks def l l' -> history tasks def l'
  | history_sync l i : history tasks def l -> updates l i -> history tasks def (replace_instance i l)
  | history_retry l : history tasks def l -> history tasks def (retry_instance <$> l)
  | history_rerun l node_ref input i l' :
      history tasks def l -> rerun_first node_ref input l = Some (i, l') -> history tasks def l'.

Lemma scheduled_history tasks def l : scheduled tasks def l -> history tasks def l.
Proof.
  intros Hs. assert (forall l0, rtc (spawn_step tasks def) l0 l -> history tasks def l0 -> history tasks def l) as H; [|by eapply H, history_new].
  induction 1 as [|l0 l1 l2 Hst _ IH]; [done|]. intros H0. by eapply IH, history_spawn.
Qed.

Lemma refs_replace l i : updates l i -> refs (replace_instance i l) = refs l.
Proof.
  intros [Hin Hsame]. unfold refs. induction l as [|old l IH]; [by apply elem_of_nil in Hin|]. cbn [replace_instance].
  case_decide as Hid; cbn [fmap list_fmap].
  - f_equal. symmetry. apply Hsame; [by left|done].
  - f_equal. apply IH.
    + cbn in Hin. by apply elem_of_cons in Hin as [?|Hin].
    + intros o Ho. apply Hsame. by right.
Qed.

Lemma refs_retry l : refs (retry_instance <$> l) = refs l.
Proof.
  unfold refs. rewrite <- list_fmap_compose. apply list_fmap_ext. intros _ i _. cbn. unfold retry_instance. by destruct (task_failed _).
Qed.

Lemma refs_rerun node_ref input l i l' : rerun_first node_ref input l = Some (i, l') -> refs l' = refs l.
Proof.
  revert l'. induction l as [|x l IH]; intros l'; [done|]. cbn. case_decide; [by intros [= <- <-]|].
  destruct (rerun_first node_ref input l) as [[j l1]|]; [|done]. cbn. intros [= <- <-]. unfold refs in *. cbn. f_equal. by apply IH.
Qed.

Lemma history_refs tasks def l : history tasks def l -> NoDup (refs l) /\ refs l ⊆ node_refs def.
Proof.
  induction 1 as [|l l' _ [Hnd Hsub] Hst|l i _ IH Hu|l _ IH|l node_ref input i l' _ IH Hr].
  - split; [constructor|by intros ? ?%elem_of_nil].
  - eapply spawn_steps_refs; [by apply rtc_once|done|done].
  - by rewrite refs_replace.
  - by rewrite refs_retry.
  - by rewrite (refs_rerun _ _ _ _ _ Hr).
Qed.

(** C35: Completion is complete.  Whatever has happened to an execution since it was started or restarted -
    nodes spawned, instances of its own updated by workers, signals, timeouts and sub-workflows, retries and
    reruns -, when [maybe_complete] judges it done, every node of the definition has exactly one instance, and
    it is COMPLETED or SKIPPED. *)
Theorem completion_covers_nodes tasks def e n :
  history tasks def (we_task_instances e) ->
  all_done e def = true ->
  n ∈ wd_nodes def ->
  exists i, i ∈ we_task_instances e /\ ti_node_ref i = tn_ref_name n
    /\ (ti_status i = COMPLETED \/ ti_status i = SKIPPED)
    /\ forall j, j ∈ we_task_instances e -> ti_node_ref j = tn_ref_name n -> j = i.
Proof.
  intros Hs Hd Hn. destruct (history_refs _ _ _ Hs) as [Hnd Hsub].
  unfold all_done in Hd. apply andb_prop in Hd as [Hlen Hok].
  apply negb_true_iff, Nat.ltb_ge in Hlen.
  pose proof (refs_cover def _ Hnd Hsub Hlen (tn_ref_name n) (list_elem_of_fmap_2 _ _ _ Hn)) as Hr.
  apply list_elem_of_fmap in Hr as (i & Hri & Hi). exists i. split_and!; [done..| |].
  - rewrite forallb_forall in Hok. specialize (Hok i (proj1 (list_elem_of_In _ _) Hi)).
    unfold ok_status in Hok. apply orb_prop in Hok as [?%bool_decide_eq_true|?%bool_decide_eq_true]; auto.
  - intros j Hj Hrj. apply list_elem_of_lookup in Hi as [a Ha], Hj as [b Hb].
    assert (a = b) as ->; [|congruence].
    eapply (NoDup_lookup (refs (we_task_instances e))); [done| |];
      unfold refs; rewrite list_lookup_fmap; [by rewrite Ha|by rewrite Hb; cbn; f_equal; congruence].
Qed.

(** A result of an instance that the execution no longer holds, as one of before a [restart], is appended: the
    execution is judged done with one node still without an instance. *)
Theorem stale_result_completes_early tasks def e i :
  history tasks def (we_task_instances e) -> ti_task_id i ∉ (ti_task_id <$> we_task_instances e) ->
  ok_status (ti_status i) = true -> forallb (fun j => ok_status (ti_status j)) (we_task_instances e) = true ->
  S (length (we_task_instances e)) = length (wd_nodes def) -> NoDup (node_refs def) ->
  all_done (sync_instance e i) def = true /\
  (ti_node_ref i ∈ refs (we_task_instances e) -> exists n, n ∈ wd_nodes def /\ tn_ref_name n ∉ refs (we_task_instances (sync_instance e i))).
Proof.
  intros Hh Hid Hi Hall Hlen Hnd.
  assert (replace_instance i (we_task_instances e) = we_task_instances e ++ [i]) as E.
  { clear -Hid. induction (we_task_instances e) as [|x l IH]; [done|]. cbn in *. apply not_elem_of_cons in Hid as [H1 H2].
    rewrite decide_False by congruence. f_equal. by apply IH. }
  unfold all_done, sync_instance. cbn [we_task_instances we_set_task_instances]. rewrite E. split.
  - rewrite length_app, forallb_app, Hall. cbn. rewrite Hi. apply andb_true_intro. split; [|done].
    apply negb_true_iff, Nat.ltb_ge. lia.
  - intros Hin. destruct (history_refs _ _ _ Hh) as [Hnd' Hsub].
    destruct (decide (Exists (fun r => r ∉ refs (we_task_instances e)) (node_refs def))) as [Hx|Hx].
    + apply Exists_exists in Hx as (r & Hr & Hnot). apply list_elem_of_fmap in Hr as (n & -> & Hn). exists n. split; [done|].
      rewrite refs_app, not_elem_of_app. split; [done|]. cbn. rewrite list_elem_of_singleton. intros E'. by rewrite E' in Hnot.
    + exfalso. apply not_Exists_Forall in Hx; [|apply _].
      assert (length (node_refs def) <= length (refs (we_task_instances e)))%nat as Hle.
      { apply submseteq_length, NoDup_submseteq; [done|]. intros r Hr. rewrite Forall_forall in Hx.
        specialize (Hx r Hr). by apply dec_stable in Hx. }
      unfold node_refs, refs in Hle. rewrite !length_fmap in Hle. lia.
Qed.

(** *** Concurrency limits *)

(** The rows of the definition table are stored under their names. *)
Definition keyed (tasks : gmap string TaskDef) : Prop :=
  forall k d, tasks !! k = Some d -> td_name d = k.

Lemma in_flight_snoc name l i :
  in_flight name (l ++ [i])
  = in_flight name l + (if decide (ti_def_name i = name
                          /\ (ti_status i = SCHEDULED \/ ti_status i = IN_PROGRESS)) then 1 else 0).
Proof.
  unfold in_flight. rewrite filter_app, length_app, Nat2Z.inj_add. f_equal.
  rewrite filter_cons, filter_nil. by case_decide.
Qed.

(** A node that resolves to the name of a SIMPLE definition resolves to that definition. *)
Lemma resolves_simple tasks node td name d :
  keyed tasks -> tasks !! name = Some d -> td_type d = SIMPLE ->
  resolves tasks node td -> resolved_name node td = name -> td = Some d.
Proof.
  intros Hk Hd Hs Hres Hn. destruct td as [d'|]; cbn in Hn.
  - assert (exists k, tasks !! k = Some d') as [k Hk'].
    { destruct Hres as [Hres|(? & ? & _ & _ & Hres)]; eauto. }
    pose proof (Hk _ _ Hk'). congruence.
  - destruct Hres as [Hres|(d' & k & Hd' & Hty & _)]; congruence.
Qed.

Lemma spawn_step_limit tasks def l l' name d limit :
  keyed tasks -> tasks !! name = Some d -> td_type d = SIMPLE -> td_rate_limit d = Some limit ->
  spawn_step tasks def l l' ->
  in_flight name l' <= Z.max (in_flight name l) (rl_max_concurrent limit).
Proof.
  intros Hk Hd Hty Hl Hs.
  destruct Hs as [l n td i _ _ _ _ Hres Hname Hadm|l n i _ _ _ Hst _]; rewrite in_flight_snoc;
    case_decide as Hi; try lia.
  - destruct Hi as [Hin Hst]. rewrite Hin in Hname.
    rewrite (resolves_simple _ _ _ _ _ Hk Hd Hty Hres (eq_sym Hname)) in Hadm. unfold admitted in Hadm.
    destruct Hst as [Hst|Hst]; rewrite Hst in Hadm.
    + unfold within_limit in Hadm. cbn in Hadm. rewrite Hl, Hin in Hadm. apply Z.ltb_lt in Hadm. lia.
    + cbn in Hadm. rewrite Hty in Hadm. exfalso. set_solver.
  - destruct Hi as [_ [?|?]]; congruence.
Qed.

(** C36: The concurrency limit of a worker task is respected: no run of [advance] takes the number of
    its scheduled or running instances in the execution above [max_concurrent], or above what it
    already was. *)
Theorem rate_limit_respected `{E : Env} fuel e def w e' w' name d limit :
  NoDup (node_refs def) ->
  keyed (w_tasks w) -> w_tasks w !! name = Some d -> td_type d = SIMPLE ->
  td_rate_limit d = Some limit ->
  advance (engine fuel) e def w = Some (Some e', w') ->
  in_flight name (we_task_instances e')
  <= Z.max (in_flight name (we_task_instances e)) (rl_max_concurrent limit).
Proof.
  intros Hnd Hk Hd Hty Hl Hrun.
  destruct (spec_advance (w_defs w) (w_tasks w) (w_handlers w) (engine fuel)
              (engine_sched _ _ _ fuel) def Hnd e w _ w' (framed_self w) Hrun) as [_ (Hsteps & _)].
  clear Hrun. induction Hsteps as [|l l1 l2 Hs _ IH]; [lia|].
  pose proof (spawn_step_limit _ _ _ _ _ _ _ Hk Hd Hty Hl Hs). lia.
Qed.

(** *** Starting a workflow *)

Lemma bind_inv `{E : Env} {A B} (m : M A) (f : A -> M B) w b w' :
  (m ≫= f) w = Some (b, w') -> exists a w1, m w = Some (a, w1) /\ f a w1 = Some (b, w').
Proof. unfold mbind, M_bind. destruct (m w) as [[a w1]|]; [eauto|done]. Qed.

Lemma bind_find `{E : Env} {T B} `{!Table T} key (f : option T -> M B) w :
  (find key ≫= f) w = f (table w !! key) w.
Proof. done. Qed.

Lemma bind_now `{E : Env} {B} (f : Z -> M B) w :
  (now ≫= f) w = f (clock (w_clock w))
    (mkWorld (w_defs w) (w_execs w) (w_tasks w) (w_instances w) (w_handlers w) (w_lua w)
       (w_ids w) (S (w_clock w)) (w_bus w) (w_search w)).
Proof. done. Qed.

Lemma bind_generate_id `{E : Env} {B} (f : string -> M B) w :
  (generate_id ≫= f) w = f (uuid (w_ids w))
    (mkWorld (w_defs w) (w_execs w) (w_tasks w) (w_instances w) (w_handlers w) (w_lua w)
       (S (w_ids w)) (w_clock w) (w_bus w) (w_search w)).
Proof. done. Qed.

(** A started workflow is stored under the identifier it is returned with, with the parent it was
    given, and holds a schedule of its definition: running, or already ended. *)
Lemma start_schedule `{E : Env} fuel name variables parent w e w' def :
  w_defs w !! name = Some def -> NoDup (node_refs def) ->
  start (engine fuel) name variables parent w = Some (Some (Some e), w') ->
  w_execs w' !! we_exec_id e = Some e
  /\ we_exec_id e = uuid (w_ids w) /\ we_def_name e = wd_name def /\ we_parent_exec_id e = parent
  /\ scheduled (w_tasks w) def (we_task_instances e)
  /\ (we_status e = WF_RUNNING \/ wf_is_terminal (we_status e) = true /\ ended (w_tasks w) def e).
Proof.
  intros Hdef Hnd. unfold start. rewrite bind_find. cbn [table defs_table]. rewrite Hdef.
  rewrite bind_generate_id, bind_now. cbv zeta.
  set (e0 := we_set_timings _ _). set (w0 := mkWorld _ _ _ _ _ _ _ (S _) _ _).
  intros (r & w1 & Hadv & Hrun)%bind_inv.
  destruct r as [e1|]; [|by inversion Hrun]. cbn in Hrun. injection Hrun as -> <-.
  destruct (spec_advance (w_defs w0) (w_tasks w0) (w_handlers w0) (engine fuel)
              (engine_sched _ _ _ fuel) def Hnd e0 w0 _ w1 (framed_self w0) Hadv) as [_ Hp].
  destruct Hp as (Hsteps & (Hid & Hname & _ & _ & Hpar) & Hst). cbn [w_execs set_table].
  split_and!; [by apply lookup_insert_eq|done..].
Qed.

(** *** Instances *)

(** The execution [start] builds for a definition, before it is advanced. *)
Definition fresh_exec (def : WorkflowDef) : WorkflowExecution :=
  we_set_status WF_RUNNING (we_set_def_name (wd_name def) (we_set_exec_id "x" we_default)).

Lemma fan_out_distinct : NoDup (node_refs fan_out).
Proof. apply (bool_decide_unpack (NoDup (node_refs fan_out))). vm_compute. exact I. Qed.

Lemma keyed_world defs tasks handlers : keyed (w_tasks (world defs tasks handlers)).
Proof. by intros k d (x & [= -> ->] & _)%elem_of_list_to_map_2%list_elem_of_fmap. Qed.

Lemma advance_refines_scheduler_witness :
  exists e' w', advance (engine 20) (fresh_exec fan_out) fan_out demo_world = Some (Some e', w')
    /\ advanced (w_tasks demo_world) fan_out (fresh_exec fan_out) e'
    /\ view e' = (WF_RUNNING, [("a", COMPLETED); ("d", SKIPPED); ("b", SCHEDULED)]).
Proof.
  eexists _, _. split; [vm_compute; reflexivity|]. split; [|reflexivity].
  eapply (advance_refines_scheduler 20 (fresh_exec fan_out) fan_out demo_world);
    [exact fan_out_distinct|vm_compute; reflexivity].
Defined.

Lemma rate_limit_respected_witness :
  exists e' w', advance (engine 20) (fresh_exec fan_out) fan_out demo_world = Some (Some e', w')
    /\ in_flight "work" (we_task_instances e') <= 1.
Proof.
  eexists _, _. split; [vm_compute; reflexivity|].
  etransitivity; [eapply (rate_limit_respected 20 (fresh_exec fan_out) fan_out demo_world _ _ "work"
           (task "work" SIMPLE (Some (mkRateLimitPolicy 1 100))) (mkRateLimitPolicy 1 100))|].
  - exact fan_out_distinct.
  - apply keyed_world.
  - reflexivity.
  - reflexivity.
  - reflexivity.
  - vm_compute. reflexivity.
  - vm_compute. discriminate.
Defined.

(** A marker node, then a worker task, whose worker reports success. *)
Definition job : WorkflowDef := workflow "job" [node "noop" "a" [edge "a" "b" None []]; node "work" "b" []].
Definition job_world : World := world [job] [task "noop" NOOP None; task "work" SIMPLE None] [].
Definition report (e : WorkflowExecution) : TaskInstance :=
  ti_set_status COMPLETED (default ti_default (last (we_task_instances e))).

Lemma completion_covers_nodes_witness :
  exists e w', start (engine 20) "job" ∅ None job_world = Some (Some (Some e), w')
    /\ view e = (WF_RUNNING, [("a", COMPLETED); ("b", SCHEDULED)])
    /\ exists i, i ∈ we_task_instances (sync_instance e (report e)) /\ ti_node_ref i = "b" /\ ti_status i = COMPLETED.
Proof.
  destruct (start (engine 20) "job" ∅ None job_world) as [[[[e|]|] w']|] eqn:Hrun;
    try (vm_compute in Hrun; discriminate).
  exists e, w'. split; [reflexivity|].
  destruct (start_schedule 20 "job" ∅ None job_world e w' job) as (_ & _ & _ & _ & Hs & _);
    [reflexivity|apply (bool_decide_unpack (NoDup (node_refs job))); vm_compute; exact I|exact Hrun|].
  vm_compute in Hrun. injection Hrun as <- <-. split; [reflexivity|].
  match goal with |- exists i, i ∈ we_task_instances (sync_instance ?e0 _) /\ _ => set (e := e0) in * end.
  destruct (completion_covers_nodes (w_tasks job_world) job (sync_instance e (report e)) (node "work" "b" []))
    as (i & Hi & Hr & _).
  - apply history_sync; [by apply scheduled_history|]. split; [apply (bool_decide_unpack _); vm_compute; exact I|].
    intros old Hold. repeat (apply elem_of_cons in Hold as [->|Hold]; [vm_compute; by intros|]). by apply elem_of_nil in Hold.
  - vm_compute. reflexivity.
  - by right; left.
  - exists i. split_and!; [done..|].
    repeat (apply elem_of_cons in Hi as [->|Hi]; [vm_compute; reflexivity|]). by apply elem_of_nil in Hi.
Defined.
