(* ===== verification/Progress.v ===== *)
(** * Progress: a workflow that starts no other one is started in a bounded number of calls

    The scheduling theorems say what a run of the engine does when it returns; this file shows that
    it does.  Without tasks that start workflows or publish events, and without schemas that reject
    an input, [start] answers with the execution, and the recursion of [advance] and [spawn_next] is
    at most quadratic in the number of nodes: every call either gives a node its instance or moves
    on in a list of at most as many nodes. *)

From stdpp Require Import base gmap strings list fin_maps relations.
From Stdlib Require Import ZArith Lia.
From S2P Require Import Prelude Text Model Runtime SystemTask Schema Orchestrator DemoEnv Scheduling.

Open Scope string_scope.
Open Scope list_scope.

(** ** Total correctness *)

Section Total.
  Context {E : Env} (defs : gmap string WorkflowDef) (tasks : gmap string TaskDef)
    (handlers : gmap string EventHandler).
  Abbreviation framed := (framed defs tasks handlers).
  Abbreviation spec m Q := (triple defs tasks handlers m Q).

Definition terminates {A} (m : M A) : Prop := forall w, framed w -> is_Some (m w).

Definition total {A} (m : M A) (Q : A -> Prop) : Prop :=
  forall w, framed w -> exists a w', m w = Some (a, w') /\ Q a.

Lemma terminates_bind {A B} (m : M A) (f : A -> M B) P :
  terminates m -> spec m P -> (forall a, P a -> terminates (f a)) -> terminates (m ≫= f).
Proof.
  intros Hm Hs Hf w Hw. unfold mbind, M_bind. destruct (Hm w Hw) as [[a w1] H1]. rewrite H1.
  destruct (Hs w a w1 Hw H1) as [Hw1 Ha]. by apply Hf.
Qed.

Lemma total_bind {A B} (m : M A) (f : A -> M B) P Q :
  terminates m -> spec m P -> (forall a, P a -> total (f a) Q) -> total (m ≫= f) Q.
Proof.
  intros Hm Hs Hf w Hw. unfold mbind, M_bind. destruct (Hm w Hw) as [[a w1] H1]. rewrite H1.
  destruct (Hs w a w1 Hw H1) as [Hw1 Ha]. by apply Hf.
Qed.

Lemma total_terminates {A} (m : M A) Q : total m Q -> terminates m.
Proof. intros H w Hw. destruct (H w Hw) as (a & w' & -> & _). eauto. Qed.

Lemma total_ret {A} (a : A) (Q : A -> Prop) : Q a -> total (mret a) Q.
Proof. intros H w _. by exists a, w. Qed.

Lemma terminates_seq {A B} (m : M A) (k : M B) :
  terminates m -> spec m trivial -> terminates k -> terminates (m ;; k).
Proof. intros Hm Hs Hk. by eapply terminates_bind. Qed.

Lemma terminates_ret {A} (a : A) : terminates (mret a).
Proof. intros w _. by eexists. Qed.
Lemma terminates_get : terminates get_world.
Proof. intros w _. by eexists. Qed.
Lemma terminates_modify f : terminates (modify f).
Proof. intros w _. by eexists. Qed.
Lemma terminates_publish name fs : terminates (publish name fs).
Proof. apply terminates_modify. Qed.
Lemma terminates_now : terminates now.
Proof. intros w _. by eexists. Qed.
Lemma terminates_generate_id : terminates generate_id.
Proof. intros w _. by eexists. Qed.
Lemma terminates_find {T} `{!Table T} key : terminates (find (T := T) key).
Proof. intros w _. by eexists. Qed.
Lemma terminates_insert {T} `{!Table T} (v : T) : terminates (insert v).
Proof. intros w _. by eexists. Qed.
End Total.

#[export] Hint Resolve terminates_ret terminates_get terminates_modify terminates_publish terminates_now
  terminates_generate_id terminates_find terminates_insert : progress.

(** [tstep]: one step of a termination proof; what comes first is bound with a trivial
    postcondition, whose triple the frame lemmas give. *)
Ltac tstep :=
  first
    [ progress intros
    | solve [eauto with progress]
    | match goal with
      | |- terminates _ _ _ (?m ;; ?k) => apply (terminates_seq _ _ _ m k); [|solve [mauto]|]
      | |- terminates _ _ _ (_ ≫= _) =>
          eapply terminates_bind with (P := trivial); [|solve [mauto]|]
      | |- terminates _ _ _ (match ?x with _ => _ end) => destruct x
      | |- terminates _ _ _ (let _ := _ in _) => cbv zeta
      end ].
Ltac progress_auto := repeat tstep.

Section Helpers.
  Context {E : Env} (defs : gmap string WorkflowDef) (tasks : gmap string TaskDef)
    (handlers : gmap string EventHandler).
  Abbreviation terminating m := (terminates defs tasks handlers m).

Lemma terminates_load_and_run expr bindings : terminating (load_and_run expr bindings).
Proof. unfold load_and_run. progress_auto. all: unfold set_lua; progress_auto. Qed.
#[local] Hint Resolve terminates_load_and_run : progress.

Lemma terminates_eval_condition expr bindings : terminating (eval_condition expr bindings).
Proof. unfold eval_condition. progress_auto. Qed.
Lemma terminates_eval_value expr bindings : terminating (eval_value expr bindings).
Proof. unfold eval_value. progress_auto. Qed.
#[local] Hint Resolve terminates_eval_condition terminates_eval_value : progress.

Lemma terminates_execute type input variables : terminating (execute type input variables).
Proof. unfold execute, execute_script. progress_auto. Qed.

Lemma terminates_project_workflow e : terminating (project_workflow e).
Proof.
  unfold project_workflow, index_summary, when. intros w _. unfold mbind, M_bind. cbn.
  repeat case_match; by eexists.
Qed.

Lemma terminates_new_instance e d r s : terminating (new_instance e d r s).
Proof. unfold new_instance. progress_auto. Qed.
Lemma terminates_edge_condition_ok e edge p : terminating (edge_condition_ok e edge p).
Proof. unfold edge_condition_ok. progress_auto. Qed.
Lemma terminates_finish_exec s e : terminating (finish_exec s e).
Proof. unfold finish_exec. progress_auto. Qed.
Lemma terminates_add_and_insert e i : terminating (add_and_insert e i).
Proof. unfold add_and_insert. progress_auto. Qed.
#[local] Hint Resolve terminates_new_instance terminates_edge_condition_ok terminates_finish_exec
  terminates_add_and_insert : progress.

Lemma terminates_collect_input e edges input : terminating (collect_input e edges input).
Proof. revert input. induction edges; intros input; cbn [collect_input]; progress_auto. Qed.

Lemma terminates_judge_edges e edges any all : terminating (judge_edges e edges any all).
Proof. revert any all. induction edges; intros any all; cbn [judge_edges]; progress_auto. Qed.
#[local] Hint Resolve terminates_judge_edges : progress.

Lemma terminates_judge_nodes e d nodes : terminating (judge_nodes e d nodes).
Proof. induction nodes; cbn [judge_nodes]; unfold judge_node; progress_auto. Qed.

Lemma terminates_add_skipped e d rs : terminating (add_skipped e d rs).
Proof. revert e. induction rs; intros e; cbn [add_skipped]; progress_auto. Qed.
End Helpers.

#[export] Hint Resolve terminates_load_and_run terminates_eval_condition terminates_eval_value
  terminates_execute terminates_project_workflow terminates_new_instance terminates_edge_condition_ok
  terminates_finish_exec terminates_add_and_insert terminates_collect_input terminates_judge_edges
  terminates_judge_nodes terminates_add_skipped : progress.

(** ** The measure *)

(** The nodes that have no instance yet. *)
Definition missing (def : WorkflowDef) (l : list TaskInstance) : nat :=
  length (base.filter (fun r => r ∉ refs l) (node_refs def)).

Lemma missing_add def l i :
  ti_node_ref i ∈ node_refs def -> ti_node_ref i ∉ refs l -> (missing def (l ++ [i]) < missing def l)%nat.
Proof.
  unfold missing. intros Hin Hf.
  assert (Hsub : forall r, r ∉ refs (l ++ [i]) <-> r ∉ refs l /\ r <> ti_node_ref i).
  { intros r. rewrite refs_app, elem_of_app. cbn. rewrite list_elem_of_singleton. naive_solver. }
  induction (node_refs def) as [|r rs IH]; [by apply elem_of_nil in Hin|].
  assert (Hle : (length (base.filter (fun r => r ∉ refs (l ++ [i])) rs)
                 <= length (base.filter (fun r => r ∉ refs l) rs))%nat).
  { clear -Hsub. induction rs as [|x rs IH]; [done|]. rewrite !filter_cons.
    repeat case_decide; cbn; try lia. naive_solver. }
  rewrite !filter_cons. apply elem_of_cons in Hin as [Heq|Hin].
  - rewrite decide_False by (rewrite Hsub, Heq; naive_solver). rewrite decide_True by by rewrite <- Heq.
    cbn. lia.
  - specialize (IH Hin). repeat case_decide; cbn; try lia. naive_solver.
Qed.

Lemma missing_grows tasks def l l' : rtc (spawn_step tasks def) l l' -> (missing def l' <= missing def l)%nat.
Proof.
  induction 1 as [|l l1 l' Hs _ IH]; [lia|]. etransitivity; [exact IH|].
  destruct Hs as [l n td i Hn Hi Hf _ _ _ _|l n i Hn Hi Hf _ _]; apply Nat.lt_le_incl, missing_add;
    rewrite ?Hi; try done; by apply list_elem_of_fmap_2.
Qed.

Lemma missing_app def l l' : (missing def (l ++ l') <= missing def l)%nat.
Proof.
  unfold missing. induction (node_refs def) as [|r rs IH]; [done|]. rewrite !filter_cons.
  repeat case_decide; cbn; try lia.
  match goal with H : _ ∉ refs (_ ++ _) |- _ => rewrite refs_app, not_elem_of_app in H; tauto end.
Qed.

Lemma missing_le def l : (missing def l <= length (wd_nodes def))%nat.
Proof.
  unfold missing. etransitivity; [apply length_filter|]. unfold node_refs. by rewrite length_fmap.
Qed.

(** ** The bound *)

(** A task that starts no workflow, publishes no event and rejects no input. *)
Definition plain (d : TaskDef) : Prop :=
  td_type d ∉ [START_WORKFLOW; SUB_WORKFLOW; EVENT] /\ td_enforce_schema d = false.

Section Progress.
  Context {E : Env} (defs : gmap string WorkflowDef) (tasks : gmap string TaskDef)
    (handlers : gmap string EventHandler).
  Context (def : WorkflowDef)
    (Hquiet : forall d, defs !! wd_name def = Some d -> wd_workflow_status_listener_enabled d = false)
    (Hplain : forall node d, node ∈ wd_nodes def -> resolves tasks node (Some d) -> plain d).
  Abbreviation spec m Q := (triple defs tasks handlers m Q).
  Abbreviation terminating m := (terminates defs tasks handlers m).
  Abbreviation answers m := (total defs tasks handlers m is_Some).

(** An execution of the definition that no other one started. *)
Definition own (e : WorkflowExecution) : Prop := we_parent_exec_id e = None /\ we_def_name e = wd_name def.

Lemma triple_find_def key : spec (find (T := WorkflowDef) key) (fun r => r = defs !! key).
Proof.
  eapply triple_bind; [apply (triple_get _ _ _ (fun w => w_defs w = defs)); by intros w (? & _)|].
  intros w Hw. apply triple_ret. cbn. by rewrite Hw.
Qed.

Lemma terminates_on_terminal self e :
  own e -> terminating (on_execution_terminal self e).
Proof.
  intros [Hp Hname]. unfold on_execution_terminal.
  apply terminates_seq; [eauto with progress|mauto|].
  eapply terminates_bind; [eauto with progress|apply triple_find_def|]. intros found ->. rewrite Hp.
  assert (Hq : match defs !! we_def_name e with
               | Some d => wd_workflow_status_listener_enabled d | None => false end = false)
    by (rewrite Hname; destruct (defs !! _) eqn:?; eauto).
  rewrite Hq. unfold when. progress_auto.
Qed.

Lemma own_same e e' : own e -> same_identity e e' -> own e'.
Proof. unfold own, same_identity. intros [] ?. intuition congruence. Qed.

Lemma terminates_maybe_complete self e :
  frame_self defs tasks handlers self -> own e ->
  terminating (maybe_complete self e def).
Proof.
  intros Hself Hp. unfold maybe_complete. destruct (wf_is_terminal _); [tstep|].
  destruct (negb _); [tstep|]. cbv zeta. set (e1 := if _ && _ then _ else _).
  assert (own e1) as [Hp1 Hname1] by (unfold e1; by destruct (_ && _)).
  eapply terminates_bind; [eauto with progress|apply spec_finish_exec|].
  intros e2 (_ & _ & Hid).
  apply terminates_seq; [apply terminates_on_terminal, (own_same e1 e2); done|mauto|tstep].
Qed.

Section Bound.
  Context (Hnd : NoDup (node_refs def)).
  Abbreviation N := (length (wd_nodes def)).
  Abbreviation left e := (missing def (we_task_instances e)).

(** The recursive calls answer when [n] exceeds the calls they may need. *)
Record progressing (n : nat) (self : Self) : Prop := {
  prog_sched : sched_self defs tasks handlers self;
  prog_advance e : own e -> (S (left e) * N < n)%nat ->
    answers (self_advance self e def);
  prog_spawn_next e rs index : own e ->
    ready def (we_task_instances e) (drop index rs) ->
    (left e * N + (length rs - index) < n)%nat ->
    answers (self_spawn_next self e def rs index);
}.

Section Spawn.
  Context (n : nat) (self : Self) (Hself : progressing n self) (e : WorkflowExecution)
    (rs : list string) (index : nat) (node : TaskNode).
  Context (Hp : own e) (Hr : rs !! index = Some (tn_ref_name node))
    (Hready : ready def (we_task_instances e) (drop index rs)) (Hn : node ∈ wd_nodes def)
    (Hfuel : (left e * N + (length rs - index) <= n)%nat).

Let Hframe : frame_self defs tasks handlers self := sched_frame _ _ _ _ (prog_sched _ _ Hself).

Lemma index_lt : (index < length rs)%nat.
Proof. by eapply lookup_lt_Some. Qed.

Lemma spawn_decreases i :
  ti_node_ref i = tn_ref_name node -> (missing def (we_task_instances e ++ [i]) < left e)%nat.
Proof.
  intros Hi. apply missing_add; rewrite Hi; [by apply list_elem_of_fmap_2|].
  rewrite (drop_S _ _ _ Hr) in Hready. by destruct Hready as [_ [(? & _) _]%Forall_cons].
Qed.

Lemma answers_pass : answers (self_spawn_next self e def rs (S index)).
Proof.
  pose proof index_lt. eapply prog_spawn_next; [done..| |lia].
  rewrite (drop_S _ _ _ Hr) in Hready. by eapply ready_tail.
Qed.

Lemma answers_continue i :
  ti_node_ref i = tn_ref_name node ->
  answers (self_spawn_next self (we_add_task_instance i e) def rs (S index)).
Proof.
  intros Hi. pose proof index_lt. pose proof (spawn_decreases i Hi).
  eapply prog_spawn_next; [done..| |cbn; nia]. rewrite (drop_S _ _ _ Hr) in Hready. by eapply ready_next.
Qed.

Lemma answers_again e1 i :
  own e1 -> we_task_instances e1 = we_task_instances e ++ [i] ->
  ti_node_ref i = tn_ref_name node -> answers (self_advance self e1 def).
Proof.
  intros Hp1 He1 Hi. pose proof index_lt. pose proof (spawn_decreases i Hi).
  eapply prog_advance; [done..|]. rewrite He1. nia.
Qed.

Lemma answers_human input name : answers (spawn_human self e def rs index input (tn_ref_name node) name).
Proof.
  unfold spawn_human. eapply total_bind; [eauto with progress|apply spec_new_instance|]. intros i (Hi & _).
  do 2 (eapply total_bind; [eauto with progress|apply triple_now|]; intros ? _).
  eapply total_bind; [eauto with progress|apply spec_add_and_insert|]. intros e1 ->.
  by apply answers_continue.
Qed.

Lemma answers_wait input name ms :
  answers (spawn_wait self e def rs index input (tn_ref_name node) name ms).
Proof.
  unfold spawn_wait. eapply total_bind; [eauto with progress|apply spec_new_instance|]. intros i (Hi & _).
  eapply total_bind; [eauto with progress|apply triple_now|]. intros t _. cbv zeta.
  eapply total_bind; [eauto with progress|apply spec_add_and_insert|]. intros e1 ->.
  apply answers_continue. by destruct ms.
Qed.

Lemma answers_worker input name td :
  answers (spawn_worker self e def rs index input (tn_ref_name node) name td).
Proof.
  unfold spawn_worker. destruct (within_limit _ _ _).
  - eapply total_bind with (P := fun e1 => exists i, e1 = we_add_task_instance i e
      /\ ti_node_ref i = tn_ref_name node); [progress_auto| |].
    + eapply triple_bind; [apply spec_new_instance|]. intros i (Hi & _).
      eapply triple_bind; [apply triple_now|]. intros t _.
      eapply triple_conseq; [apply spec_add_and_insert|]. intros e1 ->. by eexists.
    + intros e1 (i & -> & Hi). by apply answers_continue.
  - eapply total_bind with (P := fun e1 => e1 = e); [progress_auto| |].
    + apply triple_seq; [apply triple_publish|by apply triple_ret].
    + intros e1 ->. apply answers_pass.
Qed.

Lemma answers_system input name type :
  answers (spawn_system self e def input (tn_ref_name node) name type).
Proof.
  unfold spawn_system. eapply total_bind; [eauto with progress|apply frame_execute|]. intros o _. cbv zeta.
  set (e1 := if decide _ then _ else e).
  assert (He1 : own e1 /\ we_task_instances e1 = we_task_instances e)
    by (unfold e1; by case_decide). destruct He1 as [Hp1 Hi1].
  eapply total_bind; [eauto with progress|apply triple_now|]. intros t _.
  eapply total_bind; [eauto with progress|apply spec_new_instance|]. intros i (Hi & _).
  eapply total_bind; [eauto with progress|apply spec_add_and_insert|]. intros e2 ->.
  destruct (terminate_workflow o).
  - eapply total_bind; [by apply terminates_on_terminal|by apply frame_on_terminal|].
    intros _ _. by apply total_ret.
  - eapply answers_again; [done|cbn; by rewrite Hi1|done].
Qed.

Lemma answers_spawn_with_def input td :
  resolves tasks node td ->
  answers (spawn_with_def self e def rs index input (tn_ref_name node) (tn_def_name node) td).
Proof.
  intros Hres. unfold spawn_with_def. cbv zeta.
  destruct td as [d|]; cbn [fmap option_fmap option_map]; [|by apply answers_worker].
  assert (plain d) as [Hty Henf].
  { by apply (Hplain node). }
  rewrite !not_elem_of_cons in Hty. destruct Hty as (? & ? & ? & _).
  case_decide; [apply answers_human|]. case_decide; [apply answers_wait|].
  do 3 (rewrite decide_False by by intros [= ?]).
  destruct (is_system_task _); [apply answers_system|]. unfold schema_check. rewrite Henf.
  destruct (td_input_schema d); apply answers_worker.
Qed.
End Spawn.

Section Pass.
  Context (n : nat) (self : Self) (Hself : progressing n self).

Let Hframe : frame_self defs tasks handlers self := sched_frame _ _ _ _ (prog_sched _ _ Hself).

Lemma answers_spawn_next e rs index :
  own e -> ready def (we_task_instances e) (drop index rs) ->
  (left e * N + (length rs - index) <= n)%nat -> answers (spawn_next self e def rs index).
Proof.
  intros Hp Hready Hfuel. unfold spawn_next. destruct (rs !! index) as [r|] eqn:Hr.
  2: { eapply total_bind; [by apply terminates_maybe_complete|by apply frame_maybe_complete|].
       intros e1 _. by apply total_ret. }
  assert (Hh := Hready). rewrite (drop_S _ _ _ Hr) in Hh.
  destruct Hh as [_ [(_ & node & Hn & <- & _) _]%Forall_cons]. rewrite find_node_self by done.
  eapply total_bind; [eauto with progress|apply frame_collect_input|]. intros input _.
  eapply total_bind; [eauto with progress|apply triple_find_task|]. intros td ->.
  eapply total_bind with (P := resolves tasks node); [progress_auto| |].
  { repeat case_match; try (apply triple_ret; left; congruence).
    eapply triple_conseq; [apply triple_find_task|]. intros ? ->. right. by eexists _, _. }
  intros td Htd. by eapply answers_spawn_with_def.
Qed.

(** A pass spawns at most the nodes of the definition. *)
Lemma ready_length l rs : ready def l rs -> (length rs <= N)%nat.
Proof.
  intros [Hrs Hall]. etransitivity; [apply (submseteq_length rs (node_refs def))|].
  - apply NoDup_submseteq; [done|]. intros r Hr. rewrite Forall_forall in Hall.
    destruct (Hall r Hr) as (_ & m & ? & <- & _). by apply list_elem_of_fmap_2.
  - unfold node_refs. by rewrite length_fmap.
Qed.

Lemma answers_advance e :
  own e -> (S (left e) * N <= n)%nat -> answers (advance self e def).
Proof.
  intros Hp Hfuel. unfold advance. destruct (_ || _); [by apply total_ret|].
  eapply total_bind; [eauto with progress|by apply spec_judge_nodes|].
  intros [el sk] (Hel & Hsk & _ & _ & Hd). cbn [fst snd] in *.
  destruct (is_nil el && is_nil sk) eqn:Hnil.
  { eapply total_bind; [by apply terminates_maybe_complete|by apply frame_maybe_complete|].
    intros e1 _. by apply total_ret. }
  eapply total_bind; [eauto with progress|by apply spec_add_skipped|].
  intros e1 [(Hsteps & Hid & _) (new & Hi & Hrs)]. pose proof (own_same e e1 Hp Hid) as Hp1.
  pose proof (missing_grows _ _ _ _ Hsteps) as Hm. pose proof (ready_length _ _ Hel) as Hlen.
  destruct (is_nil el) eqn:Hel'.
  - destruct sk as [|r sk]; [done|]. destruct new as [|i new]; [done|].
    eapply prog_advance; [done..|]. destruct Hsk as [_ [(Hf & m & Hm' & <- & _) _]%Forall_cons].
    injection Hrs as Hir _. rewrite Hi, cons_middle, app_assoc.
    assert (missing def (we_task_instances e ++ [i]) < left e)%nat
      by (apply missing_add; rewrite Hir; [by apply list_elem_of_fmap_2|done]).
    assert (N <> 0)%nat by (destruct (wd_nodes def); [by apply elem_of_nil in Hm'|done]).
    assert (missing def ((we_task_instances e ++ [i]) ++ new) <= missing def (we_task_instances e ++ [i]))%nat
      by apply missing_app. nia.
  - apply answers_spawn_next; [done| |nia]. rewrite Hi. apply ready_app; [done|].
    intros x Hx. rewrite Hrs. by apply Hd.
Qed.
End Pass.

Lemma engine_progressing n : progressing n (engine n).
Proof.
  induction n as [|n IH]; (split; [apply engine_sched|..]); intros; try lia; cbn.
  - apply (answers_advance n); [done..|lia].
  - apply (answers_spawn_next n); [done..|lia].
Qed.
End Bound.
End Progress.

(** *** The theorem *)

(** C13: A workflow is started with at most quadratically many nested calls, and the caller is answered: the
    execution is stored under its identifier and holds a schedule of its definition, running or already
    ended.  Its reference names are unique; the tasks its nodes can resolve to, those that a DYNAMIC task may
    choose included, start no other workflow, publish no event and enforce no schema; and the listener for its
    own status is off. *)
Theorem start_answers `{E : Env} fuel name variables w def :
  w_defs w !! name = Some def -> NoDup (node_refs def) ->
  (forall d, w_defs w !! wd_name def = Some d -> wd_workflow_status_listener_enabled d = false) ->
  (forall node d, node ∈ wd_nodes def -> resolves (w_tasks w) node (Some d) -> plain d) ->
  (length (wd_nodes def) * S (length (wd_nodes def)) <= fuel)%nat ->
  exists e w', start (engine fuel) name variables None w = Some (Some (Some e), w')
    /\ w_execs w' !! we_exec_id e = Some e /\ scheduled (w_tasks w) def (we_task_instances e)
    /\ (we_status e = WF_RUNNING \/ wf_is_terminal (we_status e) = true /\ ended (w_tasks w) def e).
Proof.
  intros Hdef Hnd Hq Hpl Hfuel.
  assert (Hans : exists e w', start (engine fuel) name variables None w = Some (Some (Some e), w')).
  { unfold start. rewrite bind_find. cbn [table defs_table]. rewrite Hdef.
    rewrite bind_generate_id, bind_now. cbv zeta.
    set (e0 := we_set_timings _ _). set (w0 := mkWorld _ _ _ _ _ _ _ (S _) _ _).
    destruct (answers_advance (w_defs w0) (w_tasks w0) (w_handlers w0) def Hq Hpl Hnd fuel (engine fuel)
                (engine_progressing _ _ _ def Hq Hpl Hnd fuel) e0 (conj eq_refl eq_refl)) with (w := w0)
      as (r & w1 & Hadv & [e1 ->]); [|apply framed_self|].
    - pose proof (missing_le def (we_task_instances e0)). nia.
    - unfold mbind, M_bind. rewrite Hadv. by eexists _, _. }
  destruct Hans as (e & w' & Hrun). exists e, w'. split; [done|].
  destruct (start_schedule _ _ _ _ _ _ _ _ Hdef Hnd Hrun) as (? & _ & _ & _ & ? & ?). done.
Qed.

Lemma world_plain defs tasks handlers :
  Forall plain tasks -> forall k d, w_tasks (world defs tasks handlers) !! k = Some d -> plain d.
Proof.
  intros Hall k d (x & [= -> ->] & Hx)%elem_of_list_to_map_2%list_elem_of_fmap.
  rewrite Forall_forall in Hall. by apply Hall.
Qed.

Lemma resolves_table tasks node d : resolves tasks node (Some d) -> exists k, tasks !! k = Some d.
Proof. intros [H|(d' & k & _ & _ & H)]; by eexists. Qed.

Lemma start_answers_witness :
  exists e w', start (engine 20) "fan-out" ∅ None demo_world = Some (Some (Some e), w')
    /\ scheduled (w_tasks demo_world) fan_out (we_task_instances e).
Proof.
  destruct (start_answers 20 "fan-out" ∅ demo_world fan_out) as (e & w' & Hrun & _ & Hs & _).
  - reflexivity.
  - exact fan_out_distinct.
  - by intros d (x & [= Hk ->] & ->%list_elem_of_singleton)%elem_of_list_to_map_2%list_elem_of_fmap.
  - intros node d _ [k Hk]%resolves_table. revert k d Hk. apply world_plain. repeat constructor; cbn; rewrite !not_elem_of_cons; repeat split; try discriminate;
      apply not_elem_of_nil.
  - apply (bool_decide_unpack (4 * 5 <= 20)%nat). vm_compute. exact I.
  - exists e, w'. split; [exact Hrun|exact Hs].
Defined.
