(* ===== verification/Calendar.v ===== *)
(** * The civil calendar behind [std::chrono::year_month_day] and [std::chrono::weekday]

    The conversion of a day count since 1970-01-01 to a civil date, as the standard library does it
    (eras of 400 years that start on 1 March), and the rules of the Gregorian calendar it has to
    follow: [civil_from_days_succ] shows that consecutive day counts are consecutive dates. *)

From stdpp Require Import base tactics list.
From Stdlib Require Import ZArith Lia.
From S2P Require Import Prelude.

Open Scope Z_scope.

Record year_month_day := Ymd { year : Z; month : Z; day : Z }.

(** The year, counted from 1 March, and the day of it, of a day of a 400-year era. *)
Definition year_of_era (doe : Z) : Z := (doe - doe / 1460 + doe / 36524 - doe / 146096) / 365.
Definition era_year_start (yoe : Z) : Z := 365 * yoe + yoe / 4 - yoe / 100.

(** Month and day of a day of such a year; January and February belong to the next civil year. *)
Definition month_of_year (doy : Z) : Z :=
  let mp := (5 * doy + 2) / 153 in if mp <? 10 then mp + 3 else mp - 9.
Definition day_of_month (doy : Z) : Z := doy - (153 * ((5 * doy + 2) / 153) + 2) / 5 + 1.

Definition civil (era yoe doy : Z) : year_month_day :=
  let m := month_of_year doy in
  Ymd (yoe + era * 400 + (if m <=? 2 then 1 else 0)) m (day_of_month doy).

Definition civil_from_days (days : Z) : year_month_day :=
  let z := days + 719468 in
  let doe := z mod 146097 in
  let yoe := year_of_era doe in
  civil (z / 146097) yoe (doe - era_year_start yoe).

(** [weekday::c_encoding()]: Sunday is 0, and 1970-01-01 was a Thursday. *)
Definition weekday_from_days (days : Z) : Z := (days + 4) mod 7.

(** ** The Gregorian calendar *)

Definition is_leap (y : Z) : bool :=
  (y mod 4 =? 0) && (negb (y mod 100 =? 0) || (y mod 400 =? 0)).

Definition month_length (leap : bool) (m : Z) : Z :=
  if m =? 2 then (if leap then 29 else 28)
  else if (m =? 4) || (m =? 6) || (m =? 9) || (m =? 11) then 30 else 31.
Definition days_in_month (y m : Z) : Z := month_length (is_leap y) m.

Definition next_day (c : year_month_day) : year_month_day :=
  if day c <? days_in_month (year c) (month c) then Ymd (year c) (month c) (day c + 1)
  else if month c <? 12 then Ymd (year c) (month c + 1) 1 else Ymd (year c + 1) 1 1.

(** ** The conversion follows it *)

(** The length of the year that starts on 1 March of year [yoe] of an era. *)
Definition era_year_length (yoe : Z) : Z := if is_leap (yoe + 1) then 366 else 365.

Lemma era_year_length_start yoe :
  0 <= yoe < 399 -> era_year_start (yoe + 1) = era_year_start yoe + era_year_length yoe.
Proof.
  unfold era_year_start, era_year_length, is_leap. intros H.
  destruct (Z.eqb_spec ((yoe + 1) mod 4) 0), (Z.eqb_spec ((yoe + 1) mod 100) 0),
    (Z.eqb_spec ((yoe + 1) mod 400) 0); cbn; mlia.
Qed.

Lemma year_of_era_range doe : 0 <= doe < 146097 -> 0 <= year_of_era doe < 400.
Proof. unfold year_of_era. intros. mlia. Qed.

Lemma era_year_length_400 : era_year_length 399 = 366.
Proof. reflexivity. Qed.

Lemma day_of_year_range doe :
  0 <= doe < 146097 ->
  0 <= doe - era_year_start (year_of_era doe) < era_year_length (year_of_era doe).
Proof.
  intros H. pose proof (year_of_era_range doe H) as Hy.
  assert (Hl : era_year_length (year_of_era doe)
    = 365 + (year_of_era doe + 1) / 4 - year_of_era doe / 4
      - ((year_of_era doe + 1) / 100 - year_of_era doe / 100) + (year_of_era doe + 1) / 400).
  { revert Hy. generalize (year_of_era doe). intros y Hy. unfold era_year_length, is_leap.
    destruct (Z.eqb_spec ((y + 1) mod 4) 0), (Z.eqb_spec ((y + 1) mod 100) 0),
      (Z.eqb_spec ((y + 1) mod 400) 0); cbn; mlia. }
  rewrite Hl. clear Hl Hy. unfold era_year_start, year_of_era. mlia.
Qed.

Lemma era_year_start_mono y y' :
  0 <= y -> y < y' -> y' < 400 -> era_year_start y + era_year_length y <= era_year_start y'.
Proof.
  intros H0 Hlt H1.
  assert (era_year_start (y + 1) <= era_year_start y') by (unfold era_year_start; mlia).
  rewrite <- era_year_length_start by lia. done.
Qed.

(** A day of an era is one day of one of its years. *)
Lemma year_of_era_unique doe y :
  0 <= doe < 146097 -> 0 <= y < 400 ->
  0 <= doe - era_year_start y < era_year_length y -> year_of_era doe = y.
Proof.
  intros H Hy Hd. pose proof (year_of_era_range doe H). pose proof (day_of_year_range doe H).
  destruct (Z.lt_trichotomy (year_of_era doe) y) as [Hlt|[?|Hlt]]; [|done|].
  - pose proof (era_year_start_mono (year_of_era doe) y). lia.
  - pose proof (era_year_start_mono y (year_of_era doe)). lia.
Qed.

Lemma is_leap_shift y era : is_leap (y + era * 400) = is_leap y.
Proof.
  unfold is_leap.
  assert ((y + era * 400) mod 4 = y mod 4) as -> by mlia.
  assert ((y + era * 400) mod 100 = y mod 100) as -> by mlia.
  by assert ((y + era * 400) mod 400 = y mod 400) as -> by mlia.
Qed.

(** The months of a year that starts on 1 March, checked day by day: one day on, the day is the
    next one of the month, or the first of the next month. *)
Definition month_step_ok (leap : bool) (doy : Z) : bool :=
  let m := month_of_year doy in let d := day_of_month doy in
  let m' := month_of_year (doy + 1) in let d' := day_of_month (doy + 1) in
  if d <? month_length leap m then (m' =? m) && (d' =? d + 1)
  else if m <? 12 then negb (m =? 2) && (m' =? m + 1) && (d' =? 1) else (m' =? 1) && (d' =? 1).

(** The day is not the last of a February, which ends the year. *)
Lemma month_steps (leap : bool) (doy : Z) :
  0 <= doy -> doy + 1 < (if leap then 366 else 365) -> month_step_ok leap doy = true.
Proof.
  intros H0 H1.
  assert (H : forallb (month_step_ok leap)
                (Z.of_nat <$> seq 0 (if leap then 365 else 364)) = true)
    by (destruct leap; vm_compute; reflexivity).
  rewrite forallb_forall in H. apply H, list_elem_of_In, list_elem_of_fmap.
  exists (Z.to_nat doy). split; [lia|]. apply elem_of_seq. destruct leap; lia.
Qed.

Lemma civil_same_year era yoe doy :
  0 <= doy -> doy + 1 < era_year_length yoe ->
  civil era yoe (doy + 1) = next_day (civil era yoe doy).
Proof.
  intros Hd Hl. pose proof (month_steps (is_leap (yoe + 1)) doy Hd Hl) as H. revert H.
  unfold month_step_ok, civil, next_day, days_in_month. cbn [year month day].
  generalize (month_of_year doy), (day_of_month doy), (month_of_year (doy + 1)),
    (day_of_month (doy + 1)). intros m d m' d'.
  assert (Hdim : month_length (is_leap (yoe + era * 400 + (if m <=? 2 then 1 else 0))) m
    = month_length (is_leap (yoe + 1)) m).
  { unfold month_length. destruct (Z.eqb_spec m 2) as [->|]; [|done].
    change (2 <=? 2) with true. cbv iota.
    replace (yoe + era * 400 + 1) with (yoe + 1 + era * 400) by lia. by rewrite is_leap_shift. }
  rewrite Hdim. destruct (d <? _).
  - intros [->%Z.eqb_eq ->%Z.eqb_eq]%andb_prop. done.
  - destruct (Z.ltb_spec m 12).
    + intros [[?%negb_true_iff%Z.eqb_neq ->%Z.eqb_eq]%andb_prop ->%Z.eqb_eq]%andb_prop. f_equal.
      destruct (Z.leb_spec (m + 1) 2), (Z.leb_spec m 2); lia.
    + intros [->%Z.eqb_eq ->%Z.eqb_eq]%andb_prop. f_equal.
      destruct (Z.leb_spec 1 2), (Z.leb_spec m 2); lia.
Qed.

Lemma civil_year_end era yoe :
  next_day (civil era yoe (era_year_length yoe - 1)) = Ymd (yoe + 1 + era * 400) 3 1.
Proof.
  unfold era_year_length, next_day, days_in_month. pose proof (is_leap_shift (yoe + 1) era) as H.
  destruct (is_leap (yoe + 1)); unfold civil; cbn [year month day].
  - change (month_of_year (366 - 1)) with 2. change (day_of_month (366 - 1)) with 29.
    change (2 <=? 2) with true. cbv iota.
    replace (yoe + era * 400 + 1) with (yoe + 1 + era * 400) by lia. by rewrite H.
  - change (month_of_year (365 - 1)) with 2. change (day_of_month (365 - 1)) with 28.
    change (2 <=? 2) with true. cbv iota.
    replace (yoe + era * 400 + 1) with (yoe + 1 + era * 400) by lia. by rewrite H.
Qed.

Lemma civil_year_start era yoe : civil era yoe 0 = Ymd (yoe + era * 400) 3 1.
Proof. unfold civil. change (month_of_year 0) with 3. change (3 <=? 2) with false. cbv iota. by rewrite Z.add_0_r. Qed.

Theorem civil_from_days_succ days : civil_from_days (days + 1) = next_day (civil_from_days days).
Proof.
  unfold civil_from_days. replace (days + 1 + 719468) with (days + 719468 + 1) by lia.
  generalize (days + 719468). intros z.
  pose proof (Z.mod_pos_bound z 146097 ltac:(lia)) as Hdoe.
  pose proof (year_of_era_range _ Hdoe) as Hy. pose proof (day_of_year_range _ Hdoe) as Hd.
  revert Hdoe Hy Hd. set (doe := z mod 146097). set (y := year_of_era doe). intros Hdoe Hy Hd.
  destruct (Z.eq_dec doe 146096) as [Hlast|Hnot].
  { replace ((z + 1) mod 146097) with 0 by (unfold doe in *; mlia).
    replace ((z + 1) / 146097) with (z / 146097 + 1) by (unfold doe in *; mlia).
    assert (y = 399) as -> by (unfold y; by rewrite Hlast).
    rewrite Hlast. change (146096 - era_year_start 399) with (era_year_length 399 - 1).
    rewrite civil_year_end, civil_year_start. change (year_of_era 0) with 0. f_equal. lia. }
  replace ((z + 1) mod 146097) with (doe + 1) by (unfold doe in *; mlia).
  replace ((z + 1) / 146097) with (z / 146097) by (unfold doe in *; mlia).
  destruct (Z.eq_dec (doe + 1 - era_year_start y) (era_year_length y)) as [Hend|Hin].
  - assert (y <> 399).
    { intros Hy9. rewrite Hy9 in Hend. change (era_year_start 399) with 145731 in Hend.
      rewrite era_year_length_400 in Hend. lia. }
    assert (Hy' : year_of_era (doe + 1) = y + 1).
    { apply year_of_era_unique; [lia..|]. rewrite era_year_length_start by lia.
      assert (0 < era_year_length (y + 1)) by (unfold era_year_length; destruct (is_leap _); lia).
      lia. }
    rewrite Hy', era_year_length_start by lia.
    replace (doe + 1 - (era_year_start y + era_year_length y)) with 0 by lia.
    replace (doe - era_year_start y) with (era_year_length y - 1) by lia.
    rewrite civil_year_end, civil_year_start. done.
  - rewrite (year_of_era_unique (doe + 1) y) by lia.
    replace (doe + 1 - era_year_start y) with (doe - era_year_start y + 1) by lia.
    apply civil_same_year; lia.
Qed.

Lemma civil_from_days_epoch : civil_from_days 0 = Ymd 1970 1 1.
Proof. reflexivity. Qed.

Lemma civil_ranges days :
  1 <= month (civil_from_days days) <= 12 /\ 1 <= day (civil_from_days days) <= 31.
Proof.
  unfold civil_from_days. pose proof (Z.mod_pos_bound (days + 719468) 146097 ltac:(lia)) as H.
  pose proof (day_of_year_range _ H) as Hd. revert Hd.
  generalize ((days + 719468) mod 146097 - era_year_start (year_of_era ((days + 719468) mod 146097))).
  intros doy Hd. assert (0 <= doy < 366) by (unfold era_year_length in Hd; destruct is_leap; lia).
  unfold civil. cbn [month day]. unfold month_of_year, day_of_month.
  destruct (Z.ltb_spec ((5 * doy + 2) / 153) 10); mlia.
Qed.

Lemma weekday_range days : 0 <= weekday_from_days days <= 6.
Proof. unfold weekday_from_days. mlia. Qed.
