(* ===== verification/Cron.v ===== *)
(** * The local cron backend (plugins/cron/local/bin/local_cron.cc)

    [CronExpression] parses a five-field expression into the sets of values of its fields and
    searches, minute by minute, for the next time that all of them match; [LocalCron] keeps the
    registered jobs and fires the ones that are due on each [tick].

    - A time point is a number of clock ticks; [ticks_per_minute] is the period of
      [system_clock], which the standard leaves open.  Time points are unbounded integers: the overflow
      of a 64-bit count when a candidate is converted back, which a base within four years of the end of
      the clock can cause, is not modelled.
    - [parse_token] is a [result]: the step loop [value += step] overflows [int] on a large step,
      which is undefined, and the model keeps that outcome apart from a rejected token.
    - The jobs are a [gmap]; the iteration order of the [unordered_map] is the parameter [order].
    - [next_after] runs with a fuel of one step per minute of its four-year horizon, the number of
      iterations of its loop, so it is the whole loop.
    - The fire callback is the log [lc_fired]; that it must not call back into the registry (the
      mutex is held) is not modelled. *)

From stdpp Require Import base gmap strings list sorting fin_maps sets.
From Stdlib Require Import ZArith Lia Ascii.
From S2P Require Import Prelude Text Calendar.

Open Scope string_scope.
Open Scope list_scope.
Open Scope Z_scope.

(** ** Expressions *)

Record CronExpression := {
  m_minutes : list Z;
  m_hours : list Z;
  m_days : list Z;
  m_months : list Z;
  m_weekdays : list Z;
}.

(** [std::from_chars] on the whole text. *)
Definition parse_int (t : text) : option Z :=
  match from_chars INT_MIN INT_MAX t with Some (value, []) => Some value | _ => None end.

(** [for (int value = lo; value <= hi; ++value) out.push_back(value);] *)
Definition push_range (lo hi : Z) (out : list Z) : list Z := out ++ seqZ lo (hi - lo + 1).

(** [for (int value = min; value <= max; value += step) out.push_back(value);] *)
Fixpoint push_steps (fuel : nat) (value max step : Z) (out : list Z) : result (list Z) :=
  match fuel with
  | O => Ok out
  | S fuel' =>
      if value <=? max then
        if value + step <=? INT_MAX then push_steps fuel' (value + step) max step (out ++ [value])
        else Err UndefinedBehaviour
      else Ok out
  end.

(** [None] is a rejected token, [Some out] the values collected so far with those of the token. *)
Definition parse_token (token : text) (min max : Z) (out : list Z) : result (option (list Z)) :=
  if bool_decide (token = []) then Ok None
  else if bool_decide (token = chars "*") then Ok (Some (push_range min max out))
  else if is_prefix (chars "*/") token then
    match parse_int (drop 2 token) with
    | None => Ok None
    | Some step =>
        if step <=? 0 then Ok None
        else out' ← push_steps (Z.to_nat (max - min + 2)) min max step out; Ok (Some out')
    end
  else match find_char "-"%char token with
  | Some dash =>
      match parse_int (take dash token), parse_int (drop (S dash) token) with
      | Some lo, Some hi =>
          if hi <? lo then Ok None
          else Ok (Some (push_range (Z.max lo min) (Z.min hi max) out))
      | _, _ => Ok None
      end
  | None =>
      match parse_int token with
      | Some value => if (value <? min) || (max <? value) then Ok None else Ok (Some (out ++ [value]))
      | None => Ok None
      end
  end.

Fixpoint parse_tokens (tokens : list text) (min max : Z) (values : list Z) : result (option (list Z)) :=
  match tokens with
  | [] => Ok (Some values)
  | token :: tokens' =>
      r ← parse_token token min max values;
      match r with None => Ok None | Some values' => parse_tokens tokens' min max values' end
  end.

(** [std::ranges::unique]: drops an element equal to the one before it. *)
Fixpoint unique (values : list Z) : list Z :=
  match values with
  | x :: ((y :: _) as rest) => if x =? y then unique rest else x :: unique rest
  | _ => values
  end.

Definition parse_field (field : text) (min max : Z) : result (option (list Z)) :=
  r ← parse_tokens (split_on ","%char field) min max [];
  match r with
  | None => Ok None
  | Some [] => Ok None
  | Some values => Ok (Some (unique (merge_sort Z.le values)))
  end.

(** The loop that cuts the expression at runs of spaces. *)
Fixpoint skip_spaces (t : text) : text :=
  match t with c :: t' => if eqc c " "%char then skip_spaces t' else t | [] => [] end.

Fixpoint words (fuel : nat) (t : text) : list text :=
  match fuel with
  | O => []
  | S fuel' =>
      match skip_spaces t with
      | [] => []
      | t1 =>
          let stop := default (length t1) (find_char " "%char t1) in
          take stop t1 :: words fuel' (drop stop t1)
      end
  end.

Definition parse (expr : text) : result (option CronExpression) :=
  match words (S (length expr)) expr with
  | [f0; f1; f2; f3; f4] =>
      minutes ← parse_field f0 0 59;
      hours ← parse_field f1 0 23;
      days ← parse_field f2 1 31;
      months ← parse_field f3 1 12;
      weekdays ← parse_field f4 0 6;
      Ok match minutes, hours, days, months, weekdays with
         | Some minutes, Some hours, Some days, Some months, Some weekdays =>
             Some {| m_minutes := minutes; m_hours := hours; m_days := days; m_months := months;
                     m_weekdays := weekdays |}
         | _, _, _, _, _ => None
         end
  | _ => Ok None
  end.

(** ** Matching a minute *)

Definition contains (values : list Z) (value : Z) : bool := bool_decide (value ∈ values).

(** [candidate] counts minutes since the epoch. *)
Definition matches (e : CronExpression) (candidate : Z) : bool :=
  let days_point := candidate / 1440 in
  let ymd := civil_from_days days_point in
  let time_of_day := candidate mod 1440 in
  contains (m_minutes e) (time_of_day mod 60) && contains (m_hours e) (time_of_day / 60)
  && contains (m_days e) (day ymd) && contains (m_months e) (month ymd)
  && contains (m_weekdays e) (weekday_from_days days_point).

Definition horizon : Z := 4 * 366 * 24 * 60.

Fixpoint scan (fuel : nat) (e : CronExpression) (candidate : Z) : option Z :=
  match fuel with
  | O => None
  | S fuel' => if matches e candidate then Some candidate else scan fuel' e (candidate + 1)
  end.

Section Clock.
Variable ticks_per_minute : Z.

(** [next_after], on unbounded time points: the product overflows the clock's count only for a base within
    the horizon of its end. *)
Definition expr_next_after (e : CronExpression) (base : Z) : option Z :=
  let candidate := base / ticks_per_minute + 1 in
  minutes ← scan (Z.to_nat horizon) e candidate;
  Some (minutes * ticks_per_minute).

(** ** The job registry *)

Record Job := { j_expr : CronExpression; j_last_fired : Z }.

Record LocalCron := {
  lc_jobs : gmap string Job;
  lc_fire : bool;            (** a fire callback is set *)
  lc_fired : list string;    (** the calls of the callback *)
}.

Definition new_cron : LocalCron := {| lc_jobs := ∅; lc_fire := false; lc_fired := [] |}.

Definition validate (cron_expression : string) : result bool :=
  r ← parse (chars cron_expression); Ok (bool_decide (is_Some r)).

Definition next_after (cron_expression : string) (base : Z) : result (option Z) :=
  r ← parse (chars cron_expression);
  Ok (e ← r; expr_next_after e base).

Definition set_fire_callback (callback : bool) (c : LocalCron) : LocalCron :=
  {| lc_jobs := lc_jobs c; lc_fire := callback; lc_fired := lc_fired c |}.

Definition upsert_job (name cron_expression : string) (now : Z) (c : LocalCron) : result LocalCron :=
  r ← parse (chars cron_expression);
  Ok match r with
     | None => c
     | Some e =>
         let job := match lc_jobs c !! name with
                    | Some found => {| j_expr := e; j_last_fired := j_last_fired found |}
                    | None => {| j_expr := e; j_last_fired := now - ticks_per_minute |}
                    end in
         {| lc_jobs := <[name := job]> (lc_jobs c); lc_fire := lc_fire c; lc_fired := lc_fired c |}
     end.

Definition remove_job (name : string) (c : LocalCron) : LocalCron :=
  {| lc_jobs := delete name (lc_jobs c); lc_fire := lc_fire c; lc_fired := lc_fired c |}.

Definition due (job : Job) (now : Z) : bool :=
  match expr_next_after (j_expr job) (j_last_fired job) with
  | Some next => next <=? now
  | None => false
  end.

(** One iteration of the loop of [tick]. *)
Definition tick_job (now : Z) (c : LocalCron) (name : string) : LocalCron :=
  match lc_jobs c !! name with
  | None => c
  | Some job =>
      if due job now then
        {| lc_jobs := <[name := {| j_expr := j_expr job; j_last_fired := now |}]> (lc_jobs c);
           lc_fire := lc_fire c; lc_fired := lc_fired c ++ [name] |}
      else c
  end.

Variable order : gmap string Job -> list string.

Definition tick (now : Z) (c : LocalCron) : LocalCron :=
  if lc_fire c then foldl (tick_job now) c (order (lc_jobs c)) else c.

(** [CronTickHandler::on_execute]: each run of the contract ticks, sleeps and reschedules itself;
    [nows] are the clock readings of the runs. *)
Definition run_ticks (nows : list Z) (c : LocalCron) : LocalCron :=
  foldl (fun c now => tick now c) c nows.
End Clock.

(** [CronLocalPlugin::on_load]: whether the tick contract is registered. *)
Definition on_load (contract_group contract_registry : bool) : bool :=
  contract_group && contract_registry.

(** ** What a token denotes *)

Definition token_denotes (token : text) (min max v : Z) : Prop :=
  min <= v <= max /\
  if bool_decide (token = chars "*") then True
  else if is_prefix (chars "*/") token then
    exists step, parse_int (drop 2 token) = Some step /\ (step | v - min)
  else match find_char "-"%char token with
  | Some dash =>
      exists lo hi, parse_int (take dash token) = Some lo
        /\ parse_int (drop (S dash) token) = Some hi /\ lo <= v <= hi
  | None => parse_int token = Some v
  end.

Lemma elem_of_push_range v lo hi out : v ∈ push_range lo hi out <-> v ∈ out \/ lo <= v <= hi.
Proof. unfold push_range. rewrite elem_of_app, elem_of_seqZ. intuition lia. Qed.

(** The step loop collects the values [value], [value + step], ... up to [max]. *)
Lemma push_steps_spec fuel value max step out out' :
  0 < step -> max - value < Z.of_nat fuel -> push_steps fuel value max step out = Ok out' ->
  forall v, v ∈ out' <-> v ∈ out \/ (value <= v <= max /\ (step | v - value)).
Proof.
  intros Hstep. revert value out. induction fuel as [|fuel IH]; intros value out Hf H v; cbn in H.
  { injection H as <-. assert (max < value) by lia. intuition lia. }
  destruct (Z.leb_spec value max) as [Hle|Hgt]; [|injection H as <-; intuition lia].
  destruct (value + step <=? INT_MAX); [|done].
  rewrite (IH (value + step) _ ltac:(lia) H), elem_of_app, list_elem_of_singleton. split.
  - intros [[?| ->]|[Hv [k Hk]]]; [by left|right; split; [lia|exists 0; lia]|].
    right. split; [lia|]. exists (k + 1). lia.
  - intros [?|[Hv [k Hk]]]; [tauto|].
    destruct (decide (v = value)) as [->|]; [tauto|]. right.
    assert (0 < k) by nia. split; [nia|]. exists (k - 1). lia.
Qed.

Lemma parse_token_spec token min max out out' :
  parse_token token min max out = Ok (Some out') ->
  forall v, v ∈ out' <-> v ∈ out \/ token_denotes token min max v.
Proof.
  unfold parse_token, token_denotes. intros H v.
  destruct (bool_decide (token = [])); [done|].
  destruct (bool_decide (token = chars "*")).
  { injection H as <-. rewrite elem_of_push_range. tauto. }
  destruct (is_prefix _ token).
  { destruct (parse_int (drop 2 token)) as [step|]; [|done].
    destruct (Z.leb_spec step 0); [done|].
    destruct (push_steps _ _ _ _ _) as [o|] eqn:E; [|done]. injection H as <-.
    rewrite (push_steps_spec (Z.to_nat (max - min + 2)) min max step out o ltac:(done) ltac:(lia) E).
    split; (intros [?|H']; [by left|right]).
    - destruct H'. split; [done|]. by exists step.
    - destruct H' as (Hv & ? & [= <-] & Hs). done. }
  destruct (find_char "-"%char token) as [dash|].
  { destruct (parse_int (take dash token)) as [lo|]; [|done].
    destruct (parse_int (drop (S dash) token)) as [hi|]; [|done].
    destruct (hi <? lo); [done|]. injection H as <-. rewrite elem_of_push_range.
    split; (intros [?|H']; [by left|right]).
    - split; [lia|]. exists lo, hi. split_and!; [done..|lia|lia].
    - destruct H' as (Hv & ? & ? & [= <-] & [= <-] & Hr). lia. }
  destruct (parse_int token) as [value|]; [|done].
  destruct (Z.ltb_spec value min), (Z.ltb_spec max value); cbn in H; try done.
  injection H as <-. rewrite elem_of_app, list_elem_of_singleton.
  split; (intros [?|H']; [by left|right]); [subst; split; [lia|done]|by destruct H' as (_ & [= ->])].
Qed.

Lemma parse_tokens_spec tokens min max values values' :
  parse_tokens tokens min max values = Ok (Some values') ->
  forall v, v ∈ values' <->
    v ∈ values \/ exists token, token ∈ tokens /\ token_denotes token min max v.
Proof.
  revert values. induction tokens as [|token tokens IH]; intros values H v; cbn in H.
  { injection H as <-. split; [tauto|]. intros [?|(t & ?%elem_of_nil & _)]; done. }
  destruct (parse_token token min max values) as [[values1|]|] eqn:E; [|done..].
  rewrite (IH _ H), (parse_token_spec _ _ _ _ _ E). setoid_rewrite elem_of_cons.
  split.
  - intros [[?|?]|(t & ? & ?)]; eauto 6.
  - intros [?|(t & [-> |?] & ?)]; eauto 6.
Qed.

(** *** Sorting *)

Lemma elem_of_unique v values : v ∈ unique values <-> v ∈ values.
Proof.
  induction values as [|x [|y rest] IH]; [done..|].
  change (unique (x :: y :: rest)) with (if x =? y then unique (y :: rest) else x :: unique (y :: rest)).
  destruct (Z.eqb_spec x y) as [->|].
  - rewrite IH, !elem_of_cons. tauto.
  - rewrite elem_of_cons, IH, !elem_of_cons. tauto.
Qed.

Lemma unique_sorted values : Sorted.StronglySorted Z.le values -> Sorted.StronglySorted Z.lt (unique values).
Proof.
  induction values as [|x [|y rest] IH]; intros H; [constructor|repeat constructor|].
  change (unique (x :: y :: rest)) with (if x =? y then unique (y :: rest) else x :: unique (y :: rest)).
  apply Sorted.StronglySorted_inv in H as [H Hx].
  destruct (Z.eqb_spec x y) as [->|Hne]; [by apply IH|].
  constructor; [by apply IH|]. apply List.Forall_forall. intros v Hv.
  apply list_elem_of_In in Hv. rewrite elem_of_unique in Hv.
  rewrite List.Forall_forall in Hx. pose proof (Hx y ltac:(by left)).
  apply Sorted.StronglySorted_inv in H as [_ Hy]. rewrite List.Forall_forall in Hy.
  apply elem_of_cons in Hv as [->|Hv]; [lia|]. specialize (Hy v ltac:(by apply list_elem_of_In)). lia.
Qed.

Definition field_values (min max : Z) (values : list Z) : Prop :=
  values <> [] /\ Sorted.StronglySorted Z.lt values /\ Forall (fun v => min <= v <= max) values.

Lemma parse_field_elem field min max values :
  parse_field field min max = Ok (Some values) ->
  forall v, v ∈ values <-> exists token, token ∈ split_on ","%char field /\ token_denotes token min max v.
Proof.
  unfold parse_field. intros H v.
  destruct (parse_tokens _ _ _ _) as [[vs|]|] eqn:E; [|done..].
  destruct vs as [|x vs]; [done|]. injection H as <-.
  rewrite elem_of_unique, merge_sort_Permutation, (parse_tokens_spec _ _ _ _ _ E).
  rewrite elem_of_nil. tauto.
Qed.

Lemma parse_field_wf field min max values :
  parse_field field min max = Ok (Some values) -> field_values min max values.
Proof.
  intros H. pose proof (parse_field_elem _ _ _ _ H) as Helem. revert H. unfold parse_field.
  destruct (parse_tokens _ _ _ _) as [[vs|]|] eqn:E; [|done..].
  destruct vs as [|x vs]; [done|]. intros [= <-]. split_and!.
  - intros Hnil. pose proof (elem_of_unique x (merge_sort Z.le (x :: vs))) as Hx.
    rewrite Hnil, merge_sort_Permutation in Hx. apply (not_elem_of_nil x), Hx. by left.
  - apply unique_sorted, StronglySorted_merge_sort; apply _.
  - apply Forall_forall. intros v Hv. apply Helem in Hv as (token & _ & Hd & _). done.
Qed.

(** The word loop ends with the fuel it is given, and cuts at every run of spaces. *)
Lemma skip_spaces_split t :
  exists n, t = repeat " "%char n ++ skip_spaces t.
Proof.
  induction t as [|c t [n IH]]; [by exists 0%nat|]. cbn. destruct (eqc c " "%char) eqn:E.
  - apply eqc_true in E as ->. exists (S n). cbn. by rewrite <- IH.
  - by exists 0%nat.
Qed.

Lemma split_on_spaces n t :
  base.filter (.≠ []) (split_on " "%char (repeat " "%char n ++ t)) = base.filter (.≠ []) (split_on " "%char t).
Proof.
  induction n as [|n IH]; [done|]. cbn [repeat app split_on]. rewrite eqc_refl.
  by rewrite filter_cons_False by naive_solver.
Qed.

Lemma words_split fuel t :
  (length t < fuel)%nat -> words fuel t = base.filter (.≠ []) (split_on " "%char t).
Proof.
  revert t. induction fuel as [|fuel IH]; intros t Hf; [lia|]. cbn [words].
  destruct (skip_spaces_split t) as [n Ht].
  assert (Hhead : forall c, head (skip_spaces t) = Some c -> c <> " "%char).
  { clear. induction t as [|d t IH]; [done|]. cbn. destruct (eqc d _) eqn:E; [done|].
    intros c [= <-]. by apply eqc_false. }
  rewrite Ht, split_on_spaces, <- Ht.
  assert (Hlen : (length (skip_spaces t) <= length t)%nat) by (rewrite Ht at 2; rewrite length_app; lia).
  destruct (skip_spaces t) as [|c t1]; [done|]. set (u := c :: t1) in *.
  assert (Hne : forall k, (0 < k)%nat -> take k u <> []) by (intros [|k] ?; cbn; [lia|done]).
  destruct (find_char " "%char u) as [stop|] eqn:Hstop; cbn [from_option]; unfold id.
  - apply find_char_Some in Hstop as [Hat Hbefore].
    destruct stop as [|stop]. { injection Hat as Hat. by destruct (Hhead c eq_refl). }
    pose proof (lookup_lt_Some _ _ _ Hat) as Hlt.
    rewrite <- (take_drop_middle u (S stop) " "%char Hat) at 3.
    rewrite split_on_app, filter_cons_True by (auto with lia).
    rewrite IH by (rewrite length_drop; lia). f_equal.
    rewrite (drop_S u " "%char (S stop)) by done.
    cbn [split_on]. rewrite eqc_refl. by rewrite filter_cons_False by naive_solver.
  - apply find_char_None in Hstop. rewrite firstn_all, drop_all.
    rewrite split_on_none, filter_cons_True by done.
    by rewrite (IH []) by (cbn in *; lia).
Qed.

(** *** The invariant of a parsed expression *)

Definition wf (e : CronExpression) : Prop :=
  field_values 0 59 (m_minutes e) /\ field_values 0 23 (m_hours e)
  /\ field_values 1 31 (m_days e) /\ field_values 1 12 (m_months e)
  /\ field_values 0 6 (m_weekdays e).

Lemma parse_inv expr e :
  parse expr = Ok (Some e) ->
  exists f0 f1 f2 f3 f4, words (S (length expr)) expr = [f0; f1; f2; f3; f4]
    /\ parse_field f0 0 59 = Ok (Some (m_minutes e)) /\ parse_field f1 0 23 = Ok (Some (m_hours e))
    /\ parse_field f2 1 31 = Ok (Some (m_days e)) /\ parse_field f3 1 12 = Ok (Some (m_months e))
    /\ parse_field f4 0 6 = Ok (Some (m_weekdays e)).
Proof.
  unfold parse. destruct (words _ _) as [|f0 [|f1 [|f2 [|f3 [|f4 [|? ?]]]]]]; try done.
  destruct (parse_field f0 0 59) as [[minutes|]|] eqn:E0; cbn; [| |done];
  destruct (parse_field f1 0 23) as [[hours|]|] eqn:E1; cbn; try done;
  destruct (parse_field f2 1 31) as [[days|]|] eqn:E2; cbn; try done;
  destruct (parse_field f3 1 12) as [[months|]|] eqn:E3; cbn; try done;
  destruct (parse_field f4 0 6) as [[weekdays|]|] eqn:E4; cbn; try done.
  intros [= <-]. by exists f0, f1, f2, f3, f4.
Qed.

Lemma parse_wf expr e : parse expr = Ok (Some e) -> wf e.
Proof.
  intros (f0 & f1 & f2 & f3 & f4 & _ & ? & ? & ? & ? & ?)%parse_inv.
  unfold wf. eauto 10 using parse_field_wf.
Qed.

(** ** The search for the next time *)

Lemma scan_Some fuel e candidate t :
  scan fuel e candidate = Some t <->
  matches e t = true /\ candidate <= t < candidate + Z.of_nat fuel
  /\ forall t', candidate <= t' < t -> matches e t' = false.
Proof.
  revert candidate. induction fuel as [|fuel IH]; intros candidate; cbn [scan].
  { split; [done|]. lia. }
  destruct (matches e candidate) eqn:E.
  - split.
    + intros [= <-]. split_and!; [done|lia|lia|]. intros t' ?. lia.
    + intros (Hm & Hr & Hmin). f_equal. destruct (decide (candidate = t)) as [|]; [done|].
      rewrite Hmin in E by lia. done.
  - rewrite IH. split; intros (Hm & Hr & Hmin); split_and!; try done; try lia.
    + intros t' Ht'. destruct (decide (t' = candidate)) as [->|]; [done|]. apply Hmin. lia.
    + destruct (decide (t = candidate)) as [->|]; [by rewrite Hm in E|lia].
    + intros t' Ht'. apply Hmin. lia.
Qed.

Lemma scan_None fuel e candidate :
  scan fuel e candidate = None <->
  forall t, candidate <= t < candidate + Z.of_nat fuel -> matches e t = false.
Proof.
  revert candidate. induction fuel as [|fuel IH]; intros candidate; cbn [scan].
  { split; [|done]. lia. }
  destruct (matches e candidate) eqn:E.
  - split; [done|]. intros H. rewrite H in E by lia. done.
  - rewrite IH. split; intros H t Ht.
    + destruct (decide (t = candidate)) as [->|]; [done|]. apply H. lia.
    + apply H. lia.
Qed.

(** The calendar part of [matches]. *)
Definition matches_day (e : CronExpression) (d : Z) : bool :=
  contains (m_days e) (day (civil_from_days d)) && contains (m_months e) (month (civil_from_days d))
  && contains (m_weekdays e) (weekday_from_days d).

Lemma matches_split e t :
  matches e t = contains (m_minutes e) (t mod 1440 mod 60) && contains (m_hours e) (t mod 1440 / 60)
                && matches_day e (t / 1440).
Proof. unfold matches, matches_day. by rewrite <- !andb_assoc. Qed.

(** A day that matches has a minute that does. *)
Lemma matching_minute e d :
  wf e -> matches_day e d = true -> exists t, t / 1440 = d /\ matches e t = true.
Proof.
  intros ((Hm & _ & Hmr) & (Hh & _ & Hhr) & _) Hd.
  destruct (m_minutes e) as [|mi mis] eqn:Em; [done|].
  destruct (m_hours e) as [|ho hos] eqn:Eh; [done|].
  apply Forall_cons_1 in Hmr as [Hmr _]. apply Forall_cons_1 in Hhr as [Hhr _].
  exists (d * 1440 + ho * 60 + mi). rewrite matches_split, Em, Eh. unfold contains.
  assert ((d * 1440 + ho * 60 + mi) / 1440 = d) as E1 by mlia.
  assert ((d * 1440 + ho * 60 + mi) mod 1440 = ho * 60 + mi) as E2 by mlia.
  rewrite E1, E2.
  assert ((ho * 60 + mi) mod 60 = mi) as -> by mlia.
  assert ((ho * 60 + mi) / 60 = ho) as -> by mlia.
  rewrite !bool_decide_true by (by left). by rewrite Hd.
Qed.

Section ClockTheory.
Context (ticks_per_minute : Z) (ticks_pos : 0 < ticks_per_minute).

Lemma expr_next_after_Some e base t :
  expr_next_after ticks_per_minute e base = Some t <->
  exists m, t = m * ticks_per_minute /\ scan (Z.to_nat horizon) e (base / ticks_per_minute + 1) = Some m.
Proof.
  unfold expr_next_after. destruct (scan _ _ _) as [m|]; cbn.
  - split; [intros [= <-]; eauto|]. by intros (? & -> & [= ->]).
  - split; [done|]. by intros (? & _ & ?).
Qed.

(** The minute boundaries after a time point. *)
Lemma minute_after base m : base / ticks_per_minute + 1 <= m <-> base < m * ticks_per_minute.
Proof.
  pose proof (Z.div_mod base ticks_per_minute ltac:(lia)).
  pose proof (Z.mod_pos_bound base ticks_per_minute ticks_pos).
  revert H H0. generalize (base / ticks_per_minute), (base mod ticks_per_minute). intros q r ? ?.
  split; intros Hm; nia.
Qed.

Lemma next_after_later e base t : expr_next_after ticks_per_minute e base = Some t -> base < t.
Proof.
  intros (m & -> & H%scan_Some)%expr_next_after_Some. apply minute_after. lia.
Qed.

(** *** Ticks *)

Context (order : gmap string Job -> list string)
        (order_keys : forall m, order m ≡ₚ (map_to_list m).*1).

Definition stamp (now : Z) (job : Job) : Job :=
  if due ticks_per_minute job now then {| j_expr := j_expr job; j_last_fired := now |} else job.

Definition due_name (jobs : gmap string Job) (now : Z) (name : string) : bool :=
  match jobs !! name with Some job => due ticks_per_minute job now | None => false end.

Lemma order_NoDup m : NoDup (order m).
Proof. rewrite order_keys. apply NoDup_fst_map_to_list. Qed.

Lemma elem_of_order m name : name ∈ order m <-> is_Some (m !! name).
Proof.
  rewrite order_keys, list_elem_of_fmap. split.
  - intros ([k j] & -> & H%elem_of_map_to_list). eauto.
  - intros [j H%elem_of_map_to_list]. by exists (name, j).
Qed.

(** One sweep over distinct names. *)
Lemma sweep_spec now names c :
  NoDup names ->
  let c' := foldl (tick_job ticks_per_minute now) c names in
  lc_fire c' = lc_fire c
  /\ lc_fired c' = lc_fired c ++ base.filter (fun n => due_name (lc_jobs c) now n = true) names
  /\ forall name, lc_jobs c' !! name
       = (if decide (name ∈ names) then stamp now else id) <$> lc_jobs c !! name.
Proof.
  revert c. induction names as [|n names IH]; intros c Hnd; cbn [foldl].
  { split_and!; [done|by rewrite app_nil_r|]. intros name.
    rewrite decide_False by apply not_elem_of_nil. by rewrite option_fmap_id. }
  apply NoDup_cons in Hnd as [Hn Hnd].
  destruct (IH (tick_job ticks_per_minute now c n) Hnd) as (Hf & Hlog & Hjobs).
  assert (Hothers : forall name, name <> n ->
    lc_jobs (tick_job ticks_per_minute now c n) !! name = lc_jobs c !! name).
  { intros name Hne. unfold tick_job. destruct (lc_jobs c !! n) as [job|]; [|done].
    destruct (due _ _ _); [|done]. cbn. by rewrite lookup_insert_ne. }
  assert (Hself : lc_jobs (tick_job ticks_per_minute now c n) !! n = stamp now <$> lc_jobs c !! n).
  { unfold tick_job. destruct (lc_jobs c !! n) as [job|] eqn:E; cbn; [|by rewrite E].
    unfold stamp. destruct (due _ _ _); cbn; [|done]. by rewrite lookup_insert_eq. }
  split_and!.
  - rewrite Hf. unfold tick_job. by destruct (lc_jobs c !! n); [destruct (due _ _ _)|].
  - rewrite Hlog. rewrite (filter_agree _ (fun m => due_name (lc_jobs c) now m = true) names).
    2: { intros m Hm. unfold due_name. rewrite Hothers; [done|]. by intros ->. }
    rewrite filter_cons. generalize (base.filter (fun m => due_name (lc_jobs c) now m = true) names).
    intros later. unfold due_name, tick_job.
    destruct (lc_jobs c !! n) as [job|]; [|by rewrite decide_False].
    destruct (due ticks_per_minute job now) eqn:E; [|by rewrite decide_False].
    rewrite decide_True by done. cbn. by rewrite <- app_assoc.
  - intros name. rewrite Hjobs. destruct (decide (name = n)) as [->|Hne].
    + rewrite decide_False by done. rewrite decide_True by by left.
      by rewrite option_fmap_id, Hself.
    + rewrite Hothers by done.
      destruct (decide (name ∈ names)).
      * by rewrite decide_True by by right.
      * rewrite decide_False; [done|]. by intros [?|?]%elem_of_cons.
Qed.

Lemma tick_spec now c :
  lc_fire c = true ->
  let c' := tick ticks_per_minute order now c in
  lc_fire c' = true
  /\ lc_fired c' = lc_fired c ++ base.filter (fun n => due_name (lc_jobs c) now n = true) (order (lc_jobs c))
  /\ lc_jobs c' = stamp now <$> lc_jobs c.
Proof.
  intros Hfire. unfold tick. rewrite Hfire.
  destruct (sweep_spec now (order (lc_jobs c)) c (order_NoDup _)) as (H1 & H2 & H3).
  split_and!; [by rewrite H1|done|]. apply map_eq. intros name.
  rewrite H3, lookup_fmap. destruct (lc_jobs c !! name) as [job|] eqn:E; [|done].
  rewrite decide_True; [done|]. apply elem_of_order. rewrite E. eauto.
Qed.

(** A job whose last fire lies in the current minute, or later, is not due. *)
Lemma not_due_same_minute job now :
  now / ticks_per_minute <= j_last_fired job / ticks_per_minute -> due ticks_per_minute job now = false.
Proof.
  intros H. unfold due. destruct (expr_next_after _ _ _) as [next|] eqn:E; [|done].
  apply expr_next_after_Some in E as (m & -> & Hm%scan_Some). apply Z.leb_gt.
  apply minute_after. lia.
Qed.

(** Over ticks within one minute, a job is fired at most once. *)
Lemma run_ticks_once minute nows c :
  Forall (fun now => now / ticks_per_minute = minute) nows ->
  exists fired, lc_fired (run_ticks ticks_per_minute order nows c) = lc_fired c ++ fired
    /\ NoDup fired
    /\ forall name, name ∈ fired -> exists job, lc_jobs c !! name = Some job
         /\ j_last_fired job / ticks_per_minute < minute.
Proof.
  revert c. induction nows as [|now nows IH]; intros c Hn.
  { exists []. split_and!; [by rewrite app_nil_r|by constructor|set_solver]. }
  apply Forall_cons_1 in Hn as [Hnow Hn]. cbn [run_ticks foldl].
  destruct (lc_fire c) eqn:Hfire.
  2: { unfold tick at 2. rewrite Hfire. by apply IH. }
  destruct (tick_spec now c Hfire) as (_ & Hlog & Hjobs).
  destruct (IH (tick ticks_per_minute order now c) Hn) as (fired & Hfired & Hnd & Hin).
  unfold run_ticks in Hfired. rewrite Hfired, Hlog, <- app_assoc.
  eexists. split; [done|].
  assert (Hdue : forall name job, lc_jobs c !! name = Some job -> due ticks_per_minute job now = true ->
    j_last_fired job / ticks_per_minute < minute).
  { intros name job _ Hd. apply Z.lt_nge. intros Hge. by rewrite not_due_same_minute in Hd by lia. }
  split.
  - apply NoDup_app. split_and!; [apply NoDup_filter, order_NoDup| |done].
    intros name [Hd _]%list_elem_of_filter (job & Hj & Hlt)%Hin.
    rewrite Hjobs, lookup_fmap in Hj. unfold due_name in Hd.
    destruct (lc_jobs c !! name) as [job0|]; [|done]. injection Hj as <-.
    unfold stamp in Hlt. rewrite Hd in Hlt. cbn in Hlt. lia.
  - intros name [[Hd Ho]%list_elem_of_filter|(job & Hj & Hlt)%Hin]%elem_of_app.
    + unfold due_name in Hd. destruct (lc_jobs c !! name) as [job|] eqn:E; [|done]. eauto.
    + rewrite Hjobs, lookup_fmap in Hj. destruct (lc_jobs c !! name) as [job0|]; [|done].
      exists job0. split; [done|]. injection Hj as <-. revert Hlt. unfold stamp.
      destruct (due ticks_per_minute job0 now) eqn:E; [|done]. cbn. lia.
Qed.
End ClockTheory.

(** ** The properties *)

Definition any_order (m : gmap string Job) : list string := (map_to_list m).*1.

(** C28: An expression that parses matches exactly the minutes its text describes: each of the five
    space-separated fields, cut at its commas, has a token that denotes the corresponding calendar
    value of that minute. *)
Theorem parse_denotes expr e m :
  parse expr = Ok (Some e) ->
  exists f0 f1 f2 f3 f4, base.filter (.≠ []) (split_on " "%char expr) = [f0; f1; f2; f3; f4] /\
  let denotes f min max v := exists token, token ∈ split_on ","%char f /\ token_denotes token min max v in
  let date := civil_from_days (m / 1440) in
  matches e m = true <->
    denotes f0 0 59 (m mod 60) /\ denotes f1 0 23 (m / 60 mod 24)
    /\ denotes f2 1 31 (day date) /\ denotes f3 1 12 (month date)
    /\ denotes f4 0 6 (weekday_from_days (m / 1440)).
Proof.
  intros (f0 & f1 & f2 & f3 & f4 & Hw & H0 & H1 & H2 & H3 & H4)%parse_inv.
  exists f0, f1, f2, f3, f4. split; [by rewrite <- Hw, words_split by lia|]. cbv zeta.
  unfold matches, contains. rewrite !andb_true_iff, !bool_decide_eq_true.
  rewrite (parse_field_elem _ _ _ _ H0), (parse_field_elem _ _ _ _ H1), (parse_field_elem _ _ _ _ H2),
    (parse_field_elem _ _ _ _ H3), (parse_field_elem _ _ _ _ H4).
  replace (m mod 1440 mod 60) with (m mod 60) by mlia.
  replace (m mod 1440 / 60) with (m / 60 mod 24) by mlia. tauto.
Qed.

Lemma parse_denotes_witness :
  exists f0 f1 f2 f3 f4,
    base.filter (.≠ []) (split_on " "%char (chars "*/20 9 * * 1-5")) = [f0; f1; f2; f3; f4] /\
  let denotes f min max v := exists token, token ∈ split_on ","%char f /\ token_denotes token min max v in
  matches {| m_minutes := [0; 20; 40]; m_hours := [9]; m_days := seqZ 1 31; m_months := seqZ 1 12;
             m_weekdays := [1; 2; 3; 4; 5] |} 540 = true <->
    denotes f0 0 59 (540 mod 60) /\ denotes f1 0 23 (540 / 60 mod 24)
    /\ denotes f2 1 31 (day (civil_from_days (540 / 1440))) /\ denotes f3 1 12 (month (civil_from_days (540 / 1440)))
    /\ denotes f4 0 6 (weekday_from_days (540 / 1440)).
Proof. apply (parse_denotes (chars "*/20 9 * * 1-5")). vm_compute. reflexivity. Defined.

(** C6: [next_after] returns the earliest minute boundary strictly after [base] that matches,
    among those of the four-year horizon, and [nullopt] only when none of them does. *)
Theorem next_after_least ticks_per_minute e base :
  0 < ticks_per_minute ->
  let in_horizon m := base < m * ticks_per_minute /\ m <= base / ticks_per_minute + horizon in
  match expr_next_after ticks_per_minute e base with
  | Some t => exists m, t = m * ticks_per_minute /\ in_horizon m /\ matches e m = true
      /\ forall m', in_horizon m' -> m' < m -> matches e m' = false
  | None => forall m, in_horizon m -> matches e m = false
  end.
Proof.
  intros Hp in_horizon.
  assert (Hin : forall m, in_horizon m <->
    base / ticks_per_minute + 1 <= m < base / ticks_per_minute + 1 + Z.of_nat (Z.to_nat horizon)).
  { intros m. unfold in_horizon. rewrite <- minute_after by done. unfold horizon. lia. }
  unfold expr_next_after. destruct (scan _ _ _) as [m|] eqn:E; cbn.
  - apply scan_Some in E as (Hm & Hr & Hmin). exists m. split_and!; [done|by apply Hin|done|].
    intros m' Hm' Hlt. apply Hmin. apply Hin in Hm'. lia.
  - intros m Hm. apply Hin in Hm. revert m Hm. by apply scan_None.
Qed.

Definition half_past_nine : CronExpression :=
  {| m_minutes := [30]; m_hours := [9]; m_days := seqZ 1 31; m_months := seqZ 1 12;
     m_weekdays := seqZ 0 7 |}.

Lemma next_after_least_witness :
  exists m, 34200000 = m * 60000 /\ matches half_past_nine m = true
    /\ forall m', 12345 < m' * 60000 /\ m' <= 12345 / 60000 + horizon -> m' < m ->
         matches half_past_nine m' = false.
Proof.
  pose proof (next_after_least 60000 half_past_nine 12345 ltac:(lia)) as H. cbv zeta in H.
  assert (E : expr_next_after 60000 half_past_nine 12345 = Some 34200000) by (vm_compute; reflexivity).
  rewrite E in H. destruct H as (m & Ht & _ & Hm & Hmin). exists m. exact (conj Ht (conj Hm Hmin)).
Defined.

(** C31: A schedule does fire: when a day of the four years after [base] matches the day, month and
    weekday fields of an accepted expression, [next_after] returns a time no later than the end of
    that day. *)
Theorem next_after_finds_day ticks_per_minute cron_expression e base d :
  0 < ticks_per_minute -> parse (chars cron_expression) = Ok (Some e) ->
  base / ticks_per_minute / 1440 < d <= base / ticks_per_minute / 1440 + 1463 ->
  matches_day e d = true ->
  exists t, next_after ticks_per_minute cron_expression base = Ok (Some t)
    /\ base < t < (d + 1) * 1440 * ticks_per_minute.
Proof.
  intros Hp Hparse Hd Hm.
  destruct (matching_minute e d (parse_wf _ _ Hparse) Hm) as (m & Hday & Hmm).
  assert (Hb : base / ticks_per_minute + 1 <= m < base / ticks_per_minute + 1 + Z.of_nat (Z.to_nat horizon)).
  { revert Hd. generalize (base / ticks_per_minute). intros q Hd. unfold horizon. mlia. }
  unfold next_after. rewrite Hparse. cbn.
  destruct (expr_next_after ticks_per_minute e base) as [t|] eqn:E.
  - exists t. split; [done|]. split; [by eapply next_after_later|].
    apply expr_next_after_Some in E as (m' & -> & (_ & _ & Hmin)%scan_Some).
    assert (m' <= m). { apply Z.le_ngt. intros Hlt. rewrite Hmin in Hmm by lia. done. }
    assert (m' < (d + 1) * 1440) by mlia. nia.
  - exfalso. unfold expr_next_after in E. destruct (scan _ _ _) eqn:Es; [done|].
    rewrite (proj1 (scan_None _ _ _) Es m Hb) in Hmm. done.
Qed.

Lemma next_after_finds_day_witness :
  exists t, next_after 60 "15 10 29 2 *" 0 = Ok (Some t) /\ 0 < t < (789 + 1) * 1440 * 60.
Proof.
  eapply (next_after_finds_day 60 "15 10 29 2 *" _ 0 789);
    [lia|vm_compute; reflexivity|vm_compute; split; congruence|vm_compute; reflexivity].
Defined.

(** One tick with a callback set fires exactly the registered jobs whose next occurrence after
    their last fire has come, each once, stamps those with the current time and leaves the others
    alone. *)
Theorem tick_fires_due ticks_per_minute order now c :
  (forall m, order m ≡ₚ (map_to_list m).*1) -> lc_fire c = true ->
  let c' := tick ticks_per_minute order now c in
  (exists fired, lc_fired c' = lc_fired c ++ fired /\ NoDup fired
     /\ forall name, name ∈ fired <->
          exists job, lc_jobs c !! name = Some job /\ due ticks_per_minute job now = true)
  /\ forall name, lc_jobs c' !! name = match lc_jobs c !! name with
       | Some job => Some (if due ticks_per_minute job now
                           then {| j_expr := j_expr job; j_last_fired := now |} else job)
       | None => None
       end.
Proof.
  intros Ho Hfire c'. destruct (tick_spec ticks_per_minute order Ho now c Hfire) as (_ & Hlog & Hjobs).
  split.
  - eexists. split; [exact Hlog|]. split; [by apply NoDup_filter, order_NoDup|].
    intros name. rewrite list_elem_of_filter, (elem_of_order order Ho). unfold due_name.
    destruct (lc_jobs c !! name) as [job|]; split.
    + intros [? _]. eauto.
    + intros (? & [= <-] & ?). eauto.
    + by intros [? _].
    + by intros (? & ? & _).
  - intros name. unfold c'. rewrite Hjobs, lookup_fmap. by destruct (lc_jobs c !! name).
Qed.

(** Two jobs, of which one is due at minute 540 (09:00 on 1970-01-01). *)
Definition demo_jobs : result LocalCron :=
  c ← upsert_job 60 "nine" "0 9 * * *" 0 (set_fire_callback true new_cron);
  upsert_job 60 "noon" "0 12 * * *" 0 c.

Definition demo_cron : LocalCron := match demo_jobs with Ok c => c | Err _ => new_cron end.

Lemma tick_fires_due_witness :
  lc_fired (tick 60 any_order 32400 demo_cron) = ["nine"]
  /\ exists fired, lc_fired (tick 60 any_order 32400 demo_cron) = lc_fired demo_cron ++ fired /\ NoDup fired.
Proof.
  split; [vm_compute; reflexivity|].
  destruct (tick_fires_due 60 any_order 32400 demo_cron ltac:(reflexivity) ltac:(reflexivity))
    as [(fired & H & Hnd & _) _].
  exists fired. exact (conj H Hnd).
Defined.

(** However many times the tick contract runs within one minute, whatever the jobs are, no job
    is fired twice in that minute. *)
Theorem fires_once_per_minute ticks_per_minute order minute nows c :
  0 < ticks_per_minute -> (forall m, order m ≡ₚ (map_to_list m).*1) ->
  Forall (fun now => now / ticks_per_minute = minute) nows ->
  exists fired, lc_fired (run_ticks ticks_per_minute order nows c) = lc_fired c ++ fired /\ NoDup fired.
Proof.
  intros Hp Ho Hn. destruct (run_ticks_once _ Hp order Ho minute nows c Hn) as (fired & ? & ? & _). eauto.
Qed.

Lemma fires_once_per_minute_witness :
  exists fired, lc_fired (run_ticks 60 any_order [32400; 32401; 32459] demo_cron) = [] ++ fired /\ NoDup fired.
Proof.
  apply (fires_once_per_minute 60 any_order 540 [32400; 32401; 32459] demo_cron); [lia|reflexivity|].
  repeat (apply Forall_cons; split; [reflexivity|]). constructor.
Defined.

(** The four-year horizon does not cover an expression for 29 February alone: from
    2096-02-29 00:00 the next one is in 2104, since 2100 is not a leap year, and [next_after]
    reports that there is none, whatever the clock's period. *)
Theorem leap_day_missed ticks_per_minute :
  0 < ticks_per_minute ->
  civil_from_days 46080 = Ymd 2096 2 29 /\ matches_day {| m_minutes := [0]; m_hours := [0];
     m_days := [29]; m_months := [2]; m_weekdays := seqZ 0 7 |} 49001 = true
  /\ next_after ticks_per_minute "0 0 29 2 *" (46080 * 1440 * ticks_per_minute) = Ok None.
Proof.
  intros Hp. split; [reflexivity|]. split; [vm_compute; reflexivity|].
  unfold next_after.
  assert (parse (chars "0 0 29 2 *") = Ok (Some {| m_minutes := [0]; m_hours := [0];
     m_days := [29]; m_months := [2]; m_weekdays := seqZ 0 7 |})) as -> by (vm_compute; reflexivity).
  cbn [mbind result_bind option_bind]. f_equal. set (e := {| m_minutes := _ |}).
  unfold expr_next_after. rewrite Z.div_mul by lia.
  assert (scan (Z.to_nat horizon) e (46080 * 1440 + 1) = None) as ->; [|done].
  apply scan_None. intros t Ht. rewrite matches_split.
  assert (Hdays : forallb (fun i => negb (matches_day e (46081 + Z.of_nat i))) (seq 0 1464) = true)
    by (vm_compute; reflexivity).
  rewrite forallb_forall in Hdays.
  destruct (decide (t / 1440 = 46080)) as [Hfirst|Hlater].
  - (* still on the leap day: the hour or the minute is not 0 *)
    assert (t mod 1440 <> 0) by (unfold horizon in Ht; mlia).
    unfold contains, e. cbn [m_minutes m_hours].
    destruct (decide (t mod 1440 mod 60 = 0)) as [Hm|Hm].
    + rewrite (bool_decide_false (t mod 1440 / 60 ∈ [0])); [by rewrite andb_false_r|].
      rewrite list_elem_of_singleton. mlia.
    + rewrite (bool_decide_false (t mod 1440 mod 60 ∈ [0])); [done|].
      by rewrite list_elem_of_singleton.
  - specialize (Hdays (Z.to_nat (t / 1440 - 46081))).
    replace (46081 + Z.of_nat (Z.to_nat (t / 1440 - 46081))) with (t / 1440) in Hdays by mlia.
    apply negb_true_iff in Hdays as ->; [by rewrite andb_false_r|].
    apply list_elem_of_In, elem_of_seq. unfold horizon in Ht. mlia.
Qed.

Lemma leap_day_missed_witness : next_after 60 "0 0 29 2 *" (46080 * 1440 * 60) = Ok None.
Proof. apply (leap_day_missed 60). lia. Defined.

(** A step as large as [INT_MAX] overflows the loop counter of a field that starts at 1: the
    behaviour of parsing such an expression is undefined, although the same step is accepted in a
    field that starts at 0. *)
Theorem step_overflow :
  parse_field (chars "*/2147483647") 0 59 = Ok (Some [0])
  /\ parse_field (chars "*/2147483646") 1 31 = Ok (Some [1])
  /\ parse_field (chars "*/2147483647") 1 31 = Err UndefinedBehaviour
  /\ validate "0 0 */2147483647 * *" = Err UndefinedBehaviour.
Proof. by vm_compute. Qed.
