(* ===== verification/Json.v ===== *)
(** * JSON text: the reference the hand-written JSON producers are held against

    The plugins that talk to a database or a search node assemble and cut JSON text by hand.  This
    file has the values, a printer and a reader of JSON (the subset with integers), the proof that
    the reader inverts the printer, and the brace scanner lemma the extractors rely on. *)

From stdpp Require Import base strings list.
From Stdlib Require Import ZArith Lia Ascii.
From S2P Require Import Prelude Text.

Open Scope string_scope.
Open Scope list_scope.
Open Scope Z_scope.

Inductive json :=
  | JNull
  | JBool (b : bool)
  | JInt (z : Z)
  | JStr (s : text)
  | JArr (items : list json)
  | JObj (fields : list (text * json)).

Definition control (c : ascii) : bool := (N_of_ascii c <? 0x20)%N.
Definition newline : ascii := "010"%char.
Definition carriage_return : ascii := "013"%char.
Definition tab : ascii := "009"%char.

Definition hex_digit (n : Z) : ascii :=
  if n <? 10 then digit n else ascii_of_N (Z.to_N (87 + n)).
Definition hex_val (c : ascii) : option Z :=
  let n := Z.of_N (N_of_ascii c) in
  if (48 <=? n) && (n <=? 57) then Some (n - 48)
  else if (97 <=? n) && (n <=? 102) then Some (n - 87)
  else if (65 <=? n) && (n <=? 70) then Some (n - 55) else None.

(** [std::format("\\u{:04x}", c)] of a character below 256. *)
Definition unicode_escape (c : ascii) : text :=
  let n := Z.of_N (N_of_ascii c) in
  backslash :: chars "u00" ++ [hex_digit (n / 16); hex_digit (n mod 16)].

(** The canonical escape of one character. *)
Definition escape_char (c : ascii) : text :=
  if eqc c quote_char then [backslash; quote_char]
  else if eqc c backslash then [backslash; backslash]
  else if eqc c newline then [backslash; "n"%char]
  else if eqc c carriage_return then [backslash; "r"%char]
  else if eqc c tab then [backslash; "t"%char]
  else if control c then unicode_escape c
  else [c].

Definition print_str (s : text) : text := quote_char :: (s ≫= escape_char) ++ [quote_char].

(** [out += sep] between the elements of a list. *)
Fixpoint join (sep : text) (l : list text) : text :=
  match l with
  | [] => []
  | [x] => x
  | x :: l' => x ++ sep ++ join sep l'
  end.

Definition print_field (print : json -> text) (field : text * json) : text :=
  print_str field.1 ++ ":"%char :: print field.2.

Fixpoint print (j : json) : text :=
  match j with
  | JNull => chars "null"
  | JBool true => chars "true"
  | JBool false => chars "false"
  | JInt z => to_text z
  | JStr s => print_str s
  | JArr items => open_bracket :: join [","%char] (map print items) ++ [close_bracket]
  | JObj fields => open_brace :: join [","%char] (map (print_field print) fields) ++ [close_brace]
  end.

(** ** Reading *)

(** The rest of a string after its opening quote. *)
Fixpoint read_string (t : text) : option (text * text) :=
  let cons_to c r := match r with Some (s, rest) => Some (c :: s, rest) | None => None end in
  match t with
  | [] => None
  | c :: t' =>
      if eqc c quote_char then Some ([], t')
      else if eqc c backslash then
        match t' with
        | d :: t2 =>
            if eqc d quote_char || eqc d backslash || eqc d "/"%char then cons_to d (read_string t2)
            else if eqc d "n"%char then cons_to newline (read_string t2)
            else if eqc d "r"%char then cons_to carriage_return (read_string t2)
            else if eqc d "t"%char then cons_to tab (read_string t2)
            else if eqc d "u"%char then
              match t2 with
              | h3 :: h2 :: h1 :: h0 :: t3 =>
                  match hex_val h3, hex_val h2, hex_val h1, hex_val h0 with
                  | Some 0, Some 0, Some n1, Some n0 =>
                      cons_to (ascii_of_N (Z.to_N (n1 * 16 + n0))) (read_string t3)
                  | _, _, _, _ => None
                  end
              | _ => None
              end
            else None
        | [] => None
        end
      else if control c then None
      else cons_to c (read_string t')
  end.

Definition eat (c : ascii) (t : text) : option text :=
  match t with d :: t' => if eqc c d then Some t' else None | [] => None end.

Fixpoint eat_all (s t : text) : option text :=
  match s with [] => Some t | c :: s' => t' ← eat c t; eat_all s' t' end.

Fixpoint read (fuel : nat) (t : text) : option (json * text) :=
  match fuel with
  | O => None
  | S fuel =>
      match t with
      | [] => None
      | c :: t' =>
          if eqc c quote_char then '(s, rest) ← read_string t'; Some (JStr s, rest)
          else if eqc c open_bracket then
            match eat close_bracket t' with
            | Some rest => Some (JArr [], rest)
            | None => '(items, rest) ← read_items fuel t'; Some (JArr items, rest)
            end
          else if eqc c open_brace then
            match eat close_brace t' with
            | Some rest => Some (JObj [], rest)
            | None => '(fields, rest) ← read_fields fuel t'; Some (JObj fields, rest)
            end
          else if eqc c "n"%char then rest ← eat_all (chars "ull") t'; Some (JNull, rest)
          else if eqc c "t"%char then rest ← eat_all (chars "rue") t'; Some (JBool true, rest)
          else if eqc c "f"%char then rest ← eat_all (chars "alse") t'; Some (JBool false, rest)
          else '(z, rest) ← read_int true t; Some (JInt z, rest)
      end
  end
with read_items (fuel : nat) (t : text) : option (list json * text) :=
  match fuel with
  | O => None
  | S fuel =>
      '(item, rest) ← read fuel t;
      match eat ","%char rest with
      | Some rest' => '(items, rest2) ← read_items fuel rest'; Some (item :: items, rest2)
      | None => rest2 ← eat close_bracket rest; Some ([item], rest2)
      end
  end
with read_fields (fuel : nat) (t : text) : option (list (text * json) * text) :=
  match fuel with
  | O => None
  | S fuel =>
      t1 ← eat quote_char t;
      '(key, t2) ← read_string t1;
      t3 ← eat ":"%char t2;
      '(value, rest) ← read fuel t3;
      match eat ","%char rest with
      | Some rest' => '(fields, rest2) ← read_fields fuel rest'; Some ((key, value) :: fields, rest2)
      | None => rest2 ← eat close_brace rest; Some ([(key, value)], rest2)
      end
  end.

Definition parse (t : text) : option json :=
  match read (S (length t)) t with Some (j, []) => Some j | _ => None end.

(** ** The reader inverts the printer *)

Section JsonInd.
  Variable P : json -> Prop.
  Hypothesis P_null : P JNull.
  Hypothesis P_bool : forall b, P (JBool b).
  Hypothesis P_int : forall z, P (JInt z).
  Hypothesis P_str : forall s, P (JStr s).
  Hypothesis P_arr : forall items, Forall P items -> P (JArr items).
  Hypothesis P_obj : forall fields, Forall (fun f => P f.2) fields -> P (JObj fields).

Fixpoint json_nested_ind (j : json) : P j :=
  match j with
  | JNull => P_null
  | JBool b => P_bool b
  | JInt z => P_int z
  | JStr s => P_str s
  | JArr items =>
      P_arr items ((fix go l := match l return Forall P l with
                    | [] => Forall_nil_2 P
                    | x :: l' => Forall_cons_2 P x l' (json_nested_ind x) (go l')
                    end) items)
  | JObj fields =>
      P_obj fields ((fix go l := match l return Forall (fun f => P f.2) l with
                     | [] => Forall_nil_2 _
                     | x :: l' => Forall_cons_2 (fun f => P f.2) x l' (json_nested_ind x.2) (go l')
                     end) fields)
  end.
End JsonInd.

Lemma read_string_char c t :
  read_string (escape_char c ++ t)
  = match read_string t with Some (s, rest) => Some (c :: s, rest) | None => None end.
Proof. destruct c as [[] [] [] [] [] [] [] []]; reflexivity. Qed.

Lemma read_string_escape s rest :
  read_string ((s ≫= escape_char) ++ quote_char :: rest) = Some (s, rest).
Proof.
  induction s as [|c s IH]; [done|]. cbn [mbind list_bind]. rewrite <- app_assoc.
  by rewrite read_string_char, IH.
Qed.

Lemma eat_refl c t : eat c (c :: t) = Some t.
Proof. cbn. by rewrite eqc_refl. Qed.

Lemma eat_ne c d t : c <> d -> eat c (d :: t) = None.
Proof. intros H. cbn. by rewrite (proj2 (eqc_false c d)). Qed.

Lemma no_digit_cons c t : digit_val c = None -> no_digit (c :: t).
Proof. by intros H d [= <-]. Qed.

Lemma to_text_head z : exists c t, to_text z = c :: t /\ (c = "-"%char \/ is_Some (digit_val c)).
Proof.
  unfold to_text. destruct (z <? 0) eqn:E; [eauto|].
  destruct (print_nonneg_read z []) as [_ (c & t & Ht & Hd)]; [lia|done|].
  rewrite app_nil_r in Ht. eauto.
Qed.

Lemma print_nonempty j : (0 < length (print j))%nat.
Proof.
  destruct j as [|[]|z|s|items|fields]; cbn; try lia.
  destruct (to_text_head z) as (c & t & -> & _). cbn. lia.
Qed.

Lemma join_cons sep x y l : join sep (x :: y :: l) = x ++ sep ++ join sep (y :: l).
Proof. done. Qed.

(** The value does not start with the bracket that closes an empty array or object. *)
Lemma print_head_no_close j rest :
  eat close_bracket (print j ++ rest) = None /\ eat close_brace (print j ++ rest) = None.
Proof.
  destruct j as [|[]|z|s|items|fields]; [done..| |done|done|done].
  cbn [print]. destruct (to_text_head z) as (c & t & -> & Hc). cbn [app].
  assert (c <> close_bracket /\ c <> close_brace) as [? ?]
    by (destruct Hc as [->|[d Hd]]; [done|split; intros ->; done]).
  by rewrite !eat_ne.
Qed.

Definition reads_back (j : json) : Prop :=
  forall fuel rest, (length (print j) < fuel)%nat -> no_digit rest ->
    read fuel (print j ++ rest) = Some (j, rest).

Lemma read_items_back items fuel rest :
  items <> [] -> Forall reads_back items ->
  (S (length (join [","%char] (map print items))) < fuel)%nat ->
  read_items fuel (join [","%char] (map print items) ++ close_bracket :: rest) = Some (items, rest).
Proof.
  revert fuel. induction items as [|j items IH]; intros fuel Hne Hall Hf; [done|].
  apply Forall_cons_1 in Hall as [Hj Hall]. destruct fuel as [|fuel]; [lia|].
  destruct items as [|j' items].
  - cbn [map join] in *. cbn [read_items].
    rewrite Hj; [|lia|by apply no_digit_cons]. cbn [mbind option_bind].
    by rewrite (eat_ne ","%char), eat_refl by done.
  - cbn [map] in *. rewrite join_cons in *. rewrite !length_app in Hf. cbn [length] in Hf.
    pose proof (print_nonempty j). rewrite <- !app_assoc. cbn [read_items].
    rewrite Hj; [|lia|by apply no_digit_cons]. cbn [mbind option_bind app].
    rewrite eat_refl, IH by (done || lia). done.
Qed.

Lemma read_fields_back fields fuel rest :
  fields <> [] -> Forall (fun f => reads_back f.2) fields ->
  (S (length (join [","%char] (map (print_field print) fields))) < fuel)%nat ->
  read_fields fuel (join [","%char] (map (print_field print) fields) ++ close_brace :: rest)
  = Some (fields, rest).
Proof.
  revert fuel. induction fields as [|[k j] fields IH]; intros fuel Hne Hall Hf; [done|].
  apply Forall_cons_1 in Hall as [Hj Hall]. destruct fuel as [|fuel]; [lia|]. cbn [snd] in Hj.
  assert (Hstep : forall tail, (length (print j) < fuel)%nat -> no_digit tail ->
    read_fields (S fuel) (print_field print (k, j) ++ tail) =
      match eat ","%char tail with
      | Some rest' => '(fields, rest2) ← read_fields fuel rest'; Some ((k, j) :: fields, rest2)
      | None => rest2 ← eat close_brace tail; Some ([(k, j)], rest2)
      end).
  { intros tail Hl Ht. unfold print_field, print_str. cbn [fst snd app read_fields].
    rewrite eat_refl. cbn [mbind option_bind]. rewrite <- !app_assoc. cbn [app].
    rewrite read_string_escape. cbn [mbind option_bind]. rewrite eat_refl. cbn [mbind option_bind]. by rewrite Hj. }
  assert (Hlen : (length (print j) < length (print_field print (k, j)))%nat)
    by (unfold print_field; rewrite length_app; cbn; lia).
  destruct fields as [|f fields].
  - cbn [map join] in *. rewrite Hstep; [|lia|by apply no_digit_cons].
    by rewrite (eat_ne ","%char), eat_refl by done.
  - cbn [map] in *. rewrite join_cons in *. rewrite !length_app in Hf. cbn [length] in Hf.
    rewrite <- !app_assoc. rewrite Hstep; [|lia|by apply no_digit_cons]. cbn [app].
    rewrite eat_refl, IH by (done || lia). done.
Qed.

Lemma read_print j : reads_back j.
Proof.
  induction j as [|[]|z|s|items IH|fields IH] using json_nested_ind; intros [|fuel] rest Hf Hr; try lia;
    try done.
  - cbn [print] in *. pose proof (read_int_to_text true z rest ltac:(done) Hr) as E.
    destruct (to_text_head z) as (c & t & Ht & Hc). rewrite Ht in *. cbn [app read] in *.
    assert (eqc c quote_char = false /\ eqc c open_bracket = false /\ eqc c open_brace = false
      /\ eqc c "n"%char = false /\ eqc c "t"%char = false /\ eqc c "f"%char = false)
      as (-> & -> & -> & -> & -> & ->)
      by (destruct Hc as [->|[d Hd]]; [done|split_and!; apply eqc_false; intros ->; done]).
    by rewrite E.
  - cbn [print]. unfold print_str. cbn [app read]. rewrite eqc_refl, <- app_assoc. cbn [app].
    by rewrite read_string_escape.
  - cbn [print app read]. change (eqc open_bracket quote_char) with false. rewrite eqc_refl.
    rewrite <- app_assoc. cbn [app]. destruct items as [|j items]; [done|].
    assert (eat close_bracket (join [","%char] (map print (j :: items)) ++ close_bracket :: rest) = None) as ->.
    { destruct items as [|j' items]; cbn [map join]; rewrite <- ?app_assoc; apply print_head_no_close. }
    cbn [print length] in Hf. rewrite length_app in Hf. cbn [length] in Hf.
    by rewrite read_items_back by (done || lia).
  - cbn [print app read]. change (eqc open_brace quote_char) with false.
    change (eqc open_brace open_bracket) with false. rewrite eqc_refl.
    rewrite <- app_assoc. cbn [app]. destruct fields as [|f fields]; [done|].
    assert (eat close_brace (join [","%char] (map (print_field print) (f :: fields)) ++ close_brace :: rest) = None) as ->.
    { destruct fields as [|f' fields]; cbn [map join]; rewrite <- ?app_assoc; done. }
    cbn [print length] in Hf. rewrite length_app in Hf. cbn [length] in Hf.
    by rewrite read_fields_back by (done || lia).
Qed.

Lemma parse_print j : parse (print j) = Some j.
Proof.
  unfold parse. pose proof (read_print j (S (length (print j))) [] ltac:(lia) ltac:(done)) as H.
  rewrite app_nil_r in H. by rewrite H.
Qed.

(** ** Brace scanning *)

(** The loop of a matching-brace search, from index [index] on. *)
Fixpoint scan_brace (t : text) (index : nat) (depth : Z) (in_string : bool) : option nat :=
  match t with
  | [] => None
  | character :: rest =>
      if in_string then
        if eqc character backslash then
          match rest with [] => None | _ :: rest' => scan_brace rest' (S (S index)) depth true end
        else scan_brace rest (S index) depth (negb (eqc character quote_char))
      else if eqc character quote_char then scan_brace rest (S index) depth true
      else if eqc character open_brace then scan_brace rest (S index) (depth + 1) false
      else if eqc character close_brace then
        if depth - 1 =? 0 then Some index else scan_brace rest (S index) (depth - 1) false
      else scan_brace rest (S index) depth false
  end.

(** A text the scan passes over without leaving the current object. *)
Definition passes (x : text) : Prop :=
  forall rest index depth, 1 <= depth ->
    scan_brace (x ++ rest) index depth false = scan_brace rest (length x + index) depth false.

Lemma passes_app x y : passes x -> passes y -> passes (x ++ y).
Proof.
  intros Hx Hy rest index depth Hd. rewrite <- app_assoc, Hx, Hy by done. f_equal.
  rewrite length_app. lia.
Qed.

Definition plain (c : ascii) : Prop := c <> quote_char /\ c <> open_brace /\ c <> close_brace.

Lemma passes_plain x : Forall plain x -> passes x.
Proof.
  induction x as [|c x IH]; intros H rest index depth Hd; [done|].
  apply Forall_cons_1 in H as [(Hq & Ho & Hc) H]. cbn [app scan_brace].
  rewrite (proj2 (eqc_false _ _) Hq), (proj2 (eqc_false _ _) Ho), (proj2 (eqc_false _ _) Hc).
  rewrite IH by done. f_equal. cbn. lia.
Qed.

Lemma passes_join sep l : passes sep -> Forall passes l -> passes (join sep l).
Proof.
  intros Hs. induction l as [|x [|y l] IH]; intros H.
  - apply passes_plain. constructor.
  - by apply Forall_cons_1 in H as [? _].
  - apply Forall_cons_1 in H as [Hx H]. rewrite join_cons. auto using passes_app.
Qed.

Lemma scan_escape s rest index depth :
  scan_brace ((s ≫= escape_char) ++ rest) index depth true
  = scan_brace rest (length (s ≫= escape_char) + index) depth true.
Proof.
  assert (Hc : forall c t i, scan_brace (escape_char c ++ t) i depth true
    = scan_brace t (length (escape_char c) + i) depth true)
    by (intros [[] [] [] [] [] [] [] []] t i; reflexivity).
  revert index. induction s as [|c s IH]; intros index; [done|]. cbn [mbind list_bind].
  rewrite <- app_assoc, Hc, IH. f_equal. rewrite length_app. lia.
Qed.

Lemma passes_str s : passes (print_str s).
Proof.
  intros rest index depth Hd. unfold print_str. cbn [app scan_brace]. rewrite eqc_refl, <- app_assoc.
  rewrite scan_escape. cbn [app scan_brace]. change (eqc quote_char backslash) with false.
  rewrite eqc_refl. cbn [negb]. f_equal. cbn. rewrite length_app. cbn. lia.
Qed.

Lemma to_text_plain z : Forall plain (to_text z).
Proof.
  apply to_text_Forall; [done|]. intros d Hd. unfold plain. split_and!; by apply digit_not.
Qed.

(** An object that closes at [depth]: the scan continues there, or ends when it was the outermost. *)
Lemma scan_object fields rest index depth :
  0 <= depth -> Forall (fun f => passes (print f.2)) fields ->
  scan_brace (print (JObj fields) ++ rest) index depth false
  = if depth =? 0 then Some (length (print (JObj fields)) - 1 + index)%nat
    else scan_brace rest (length (print (JObj fields)) + index) depth false.
Proof.
  intros Hd H. cbn [print app scan_brace]. change (eqc open_brace quote_char) with false.
  rewrite eqc_refl, <- app_assoc.
  assert (Hj : passes (join [","%char] (map (print_field print) fields))).
  { apply passes_join; [by apply passes_plain; repeat constructor|].
    apply Forall_fmap. eapply Forall_impl; [exact H|]. intros [k v] Hv. cbn [snd] in Hv.
    change (passes (print_field print (k, v))). unfold print_field. apply passes_app; [apply passes_str|].
    apply (passes_app [":"%char]); [by apply passes_plain; repeat constructor|done]. }
  rewrite Hj by lia. cbn [app scan_brace]. change (eqc close_brace quote_char) with false.
  change (eqc close_brace open_brace) with false. rewrite eqc_refl.
  replace (depth + 1 - 1) with depth by lia. destruct (depth =? 0).
  - f_equal. cbn [length]. rewrite length_app. cbn. lia.
  - f_equal. cbn [length]. rewrite length_app. cbn. lia.
Qed.

Lemma print_passes j : passes (print j).
Proof.
  induction j as [|[]|z|s|items IH|fields IH] using json_nested_ind;
    try (apply passes_plain; repeat constructor; done).
  - apply passes_plain, to_text_plain.
  - apply passes_str.
  - cbn [print]. apply (passes_app [open_bracket]); [by apply passes_plain; repeat constructor|].
    apply passes_app; [|by apply passes_plain; repeat constructor].
    apply passes_join; [by apply passes_plain; repeat constructor|]. by apply Forall_fmap.
  - intros rest index depth Hd. rewrite scan_object by (done || lia).
    by rewrite (proj2 (Z.eqb_neq depth 0)) by lia.
Qed.

(** The scan from the opening brace of a printed object finds its closing brace. *)
Lemma scan_outer_object fields rest index :
  scan_brace (print (JObj fields) ++ rest) index 0 false
  = Some (length (print (JObj fields)) - 1 + index)%nat.
Proof.
  rewrite scan_object; [done|lia|]. apply Forall_true. intros f. apply print_passes.
Qed.
