(* ===== verification/SqlPostgres.v ===== *)
(** * The Postgres SQL generator (plugins/serde/sql_postgres/bin/sql_postgres_plugin.cc)

    The plugin turns a [SqlRequest] into SQL text, one builder per operation.  What the text means
    to the server is given by [literals], the string literals of a statement by the standard
    quoting rule (a doubled quote inside a literal is one quote): the properties state which values
    reach the statement as a literal of their own, whatever characters they contain.

    [rfl::from_generic], which reads the request out of a generic value, is not part of the
    repository and is the parameter of [encode].  The numbers of [std::size_t] are non-negative
    integers; the log calls are left out. *)

From stdpp Require Import base strings list sets.
From Stdlib Require Import ZArith Lia Ascii.
From S2P Require Import Prelude Text Model Json.

Open Scope string_scope.
Open Scope list_scope.
Open Scope Z_scope.

Inductive ValueKind :=
  | KSTRING | KBOOLEAN | KINT64 | KUINT64 | KINT32 | KUINT32 | KDOUBLE | KFLOAT | KTIMESTAMP | KUUID
  | KOTHER.

Record SqlColumnDesc := {
  col_name : text;
  col_kind : ValueKind;
  col_primary_key : bool;
  col_nullable : bool;
  col_unique : bool;
  col_skip_update : bool;
  col_ref_table : text;
  col_ref_column : text;
}.

Record SqlQueryOptions := {
  opt_joins : list text;
  opt_where_conditions : list text;
  opt_order_by_clauses : list (text * bool);
  opt_limit : option Z;
}.

Record SqlRequest := {
  op : string;
  table_name : text;
  columns : list SqlColumnDesc;
  pk_column : text;
  key : text;
  keys : list text;
  json_payload : text;
  json_array_payload : text;
  set_columns : list text;
  update_columns : list text;
  options : SqlQueryOptions;
}.

Definition postgres_type_of (kind : ValueKind) : text :=
  match kind with
  | KSTRING => chars "TEXT"
  | KBOOLEAN => chars "BOOLEAN"
  | KINT64 => chars "BIGINT"
  | KUINT64 => chars "BIGINT"
  | KTIMESTAMP => chars "BIGINT"
  | KINT32 => chars "INTEGER"
  | KUINT32 => chars "INTEGER"
  | KDOUBLE => chars "DOUBLE PRECISION"
  | KFLOAT => chars "REAL"
  | KUUID => chars "UUID"
  | KOTHER => chars "JSONB"
  end.

(** [if (character == '\'') escaped += '\''; escaped += character;] *)
Definition double_quotes (value : text) : text :=
  value ≫= fun character =>
    if eqc character apostrophe then [apostrophe; character] else [character].

Definition in_quotes (value : text) : text := apostrophe :: value ++ [apostrophe].

Definition quoted_list (values : list text) : text :=
  join [","%char] ((fun value => in_quotes (double_quotes value)) <$> values).

(** A loop that writes [first] before the first element and [next] before the others. *)
Definition clauses (first next : text) (l : list text) : text :=
  match l with [] => [] | x :: l' => first ++ x ++ (l' ≫= fun y => next ++ y) end.

Definition build_inner_query (table : text) (o : SqlQueryOptions) : text :=
  chars "SELECT " ++ table ++ chars ".* FROM " ++ table
  ++ (opt_joins o ≫= fun join => " "%char :: join)
  ++ clauses (chars " WHERE ") (chars " AND ") (opt_where_conditions o)
  ++ clauses (chars " ORDER BY ") (chars ", ")
       ((fun c : text * bool => c.1 ++ (if c.2 then chars " ASC" else chars " DESC"))
          <$> opt_order_by_clauses o)
  ++ match opt_limit o with Some limit => chars " LIMIT " ++ to_text limit | None => [] end.

Definition column_sql (column : SqlColumnDesc) : text :=
  col_name column ++ " "%char :: postgres_type_of (col_kind column)
  ++ (if col_primary_key column then chars " PRIMARY KEY"
      else if negb (col_nullable column) then chars " NOT NULL" else [])
  ++ (if col_unique column && negb (col_primary_key column) then chars " UNIQUE" else [])
  ++ match col_ref_table column with
     | [] => []
     | ref_table => chars " REFERENCES " ++ ref_table ++ "("%char :: col_ref_column column ++ chars ")"
     end.

Definition build_create_sql (r : SqlRequest) : text :=
  chars "CREATE TABLE IF NOT EXISTS " ++ table_name r ++ chars " ("
  ++ join (chars ", ") (column_sql <$> columns r) ++ chars ")".

Definition build_select_sql (r : SqlRequest) : text :=
  chars "SELECT row_to_json(row) FROM (SELECT * FROM " ++ table_name r ++ chars " WHERE "
  ++ pk_column r ++ chars " = " ++ in_quotes (key r) ++ chars ") row".

Definition build_select_many_sql (r : SqlRequest) : text :=
  chars "SELECT json_agg(row_to_json(row)) FROM (SELECT * FROM " ++ table_name r ++ chars " WHERE "
  ++ pk_column r ++ chars " IN (" ++ quoted_list (keys r) ++ chars ")) row".

Definition build_select_all_sql (r : SqlRequest) : text :=
  chars "SELECT json_agg(row_to_json(row)) FROM " ++ table_name r ++ chars " row".

Definition build_insert_sql (r : SqlRequest) : text :=
  chars "INSERT INTO " ++ table_name r ++ chars " SELECT * FROM json_populate_record(NULL::"
  ++ table_name r ++ chars ", " ++ in_quotes (json_payload r) ++ chars ")".

Definition build_insert_many_sql (r : SqlRequest) : text :=
  chars "INSERT INTO " ++ table_name r ++ chars " SELECT * FROM json_populate_recordset(NULL::"
  ++ table_name r ++ chars ", " ++ in_quotes (json_array_payload r) ++ chars ")".

Definition build_update_sql (r : SqlRequest) : text :=
  chars "UPDATE " ++ table_name r ++ chars " AS target SET "
  ++ join (chars ", ") ((fun column => column ++ chars " = src." ++ column) <$> set_columns r)
  ++ chars " FROM json_populate_record(NULL::" ++ table_name r ++ chars ", "
  ++ in_quotes (json_payload r) ++ chars ") AS src WHERE target." ++ pk_column r
  ++ chars " = src." ++ pk_column r.

Definition build_upsert_sql (r : SqlRequest) : text :=
  chars "INSERT INTO " ++ table_name r ++ chars " SELECT * FROM json_populate_record(NULL::"
  ++ table_name r ++ chars ", " ++ in_quotes (json_payload r) ++ chars ") ON CONFLICT ("
  ++ pk_column r ++ chars ") DO UPDATE SET "
  ++ join (chars ", ") ((fun column => column ++ chars " = EXCLUDED." ++ column) <$> update_columns r).

Definition build_delete_sql (r : SqlRequest) : text :=
  chars "DELETE FROM " ++ table_name r ++ chars " WHERE " ++ pk_column r ++ chars " = "
  ++ in_quotes (key r).

Definition build_delete_many_sql (r : SqlRequest) : text :=
  chars "DELETE FROM " ++ table_name r ++ chars " WHERE " ++ pk_column r ++ chars " IN ("
  ++ quoted_list (keys r) ++ chars ")".

Definition build_query_sql (r : SqlRequest) : text :=
  chars "SELECT json_agg(row_to_json(row)) FROM (" ++ build_inner_query (table_name r) (options r)
  ++ chars ") row".

Definition build_query_first_sql (r : SqlRequest) : text :=
  chars "SELECT row_to_json(row) FROM (" ++ build_inner_query (table_name r) (options r)
  ++ chars " LIMIT 1) row".

(** The builder of an operation, by its name. *)
Definition builder (operation : string) : option (SqlRequest -> text) :=
  if bool_decide (operation = "create_table") then Some build_create_sql
  else if bool_decide (operation = "select") then Some build_select_sql
  else if bool_decide (operation = "select_many") then Some build_select_many_sql
  else if bool_decide (operation = "select_all") then Some build_select_all_sql
  else if bool_decide (operation = "insert") then Some build_insert_sql
  else if bool_decide (operation = "insert_many") then Some build_insert_many_sql
  else if bool_decide (operation = "update") then Some build_update_sql
  else if bool_decide (operation = "upsert") then Some build_upsert_sql
  else if bool_decide (operation = "delete") then Some build_delete_sql
  else if bool_decide (operation = "delete_many") then Some build_delete_many_sql
  else if bool_decide (operation = "query") then Some build_query_sql
  else if bool_decide (operation = "query_first") then Some build_query_first_sql
  else None.

(** An event published while encoding, and the outcome. *)
Definition encode (from_generic : Value -> expected SqlRequest) (value : Value)
    : list (string * list (string * string)) * expected text :=
  match from_generic value with
  | Unexpected error =>
      ([("serde.sql_postgres.encode_failed", [("error", error)])], Unexpected error)
  | Expected request =>
      match builder (op request) with
      | Some build => ([], Expected (build request))
      | None =>
          ([("serde.sql_postgres.unrecognized_op", [("op", op request)])],
           Unexpected ("sql_postgres: unrecognized op '" +:+ op request +:+ "'"))
      end
  end.

Definition decode (data : text) : expected Value :=
  Unexpected "sql_postgres format is write-only, decode is not supported".

(** ** The string literals of a statement *)

(** [inside] tells whether the scan is in a literal, of which [current] has been read. *)
Fixpoint lex (t : text) (inside : bool) (current : text) : option (list text) :=
  match t with
  | [] => if inside then None else Some []
  | c :: t' =>
      if inside then
        if eqc c apostrophe then
          match t' with
          | d :: t2 =>
              if eqc d apostrophe then lex t2 true (current ++ [apostrophe])
              else cons current <$> lex t' false []
          | [] => Some [current]
          end
        else lex t' true (current ++ [c])
      else lex t' (eqc c apostrophe) []
  end.

(** [None] is a statement that ends within a literal. *)
Definition literals (sql : text) : option (list text) := lex sql false [].

Definition unquoted (t : text) : Prop := apostrophe ∉ t.
Definition no_quote_next (t : text) : Prop := forall c, head t = Some c -> c <> apostrophe.

Lemma lex_unquoted x rest : unquoted x -> lex (x ++ rest) false [] = lex rest false [].
Proof.
  induction x as [|c x IH]; intros H; [done|]. unfold unquoted in *. cbn [app lex].
  rewrite (proj2 (eqc_false c apostrophe)) by set_solver. apply IH. set_solver.
Qed.

(** A literal written with its quotes doubled is read as the value. *)
Lemma lex_doubled value rest current :
  no_quote_next rest ->
  lex (double_quotes value ++ apostrophe :: rest) true current = cons (current ++ value) <$> lex rest false [].
Proof.
  intros Hr. revert current. induction value as [|c value IH]; intros current.
  - cbn. rewrite app_nil_r. destruct rest as [|d rest]; [done|].
    by rewrite (proj2 (eqc_false d apostrophe)) by (by apply Hr).
  - cbn [double_quotes mbind list_bind]. destruct (eqc c apostrophe) eqn:E.
    + apply eqc_true in E as ->. cbn [app lex]. rewrite !eqc_refl. rewrite IH, <- app_assoc. done.
    + cbn [app lex]. rewrite E, IH, <- app_assoc. done.
Qed.

Lemma lex_literal value rest :
  no_quote_next rest ->
  lex (in_quotes (double_quotes value) ++ rest) false [] = cons value <$> lex rest false [].
Proof.
  intros H. unfold in_quotes. cbn [app lex]. rewrite eqc_refl, <- app_assoc. by apply lex_doubled.
Qed.

Lemma double_quotes_unquoted value : unquoted value -> double_quotes value = value.
Proof.
  induction value as [|c value IH]; intros H; [done|]. unfold unquoted in *.
  cbn [double_quotes mbind list_bind]. rewrite (proj2 (eqc_false c apostrophe)) by set_solver.
  cbn. f_equal. apply IH. set_solver.
Qed.

Lemma lex_quoted_list values rest :
  no_quote_next rest ->
  lex (quoted_list values ++ rest) false [] = app values <$> lex rest false [].
Proof.
  intros Hr. unfold quoted_list. induction values as [|v [|w values] IH].
  - cbn. by destruct (lex rest false []).
  - cbn [fmap list_fmap join]. by rewrite lex_literal.
  - cbn [fmap list_fmap] in *. rewrite join_cons, <- !app_assoc, lex_literal by (by intros c [= <-]).
    rewrite (lex_unquoted [","%char]) by (unfold unquoted; set_solver).
    change (join [","%char] _) with (join [","%char]
      (in_quotes (double_quotes w) :: ((fun value => in_quotes (double_quotes value)) <$> values))).
    rewrite IH. by destruct (lex rest false []).
Qed.

(** *** Values written without doubling *)

Definition quotes (t : text) : nat := length (base.filter (fun c => c = apostrophe) t).

Lemma quotes_cons c t : quotes (c :: t) = ((if eqc c apostrophe then 1 else 0) + quotes t)%nat.
Proof.
  unfold quotes. rewrite filter_cons. destruct (eqc c apostrophe) eqn:E.
  - apply eqc_true in E. by rewrite decide_True.
  - apply eqc_false in E. by rewrite decide_False.
Qed.

Lemma quotes_app x y : quotes (x ++ y) = (quotes x + quotes y)%nat.
Proof. unfold quotes. by rewrite filter_app, length_app. Qed.

Lemma quotes_unquoted t : quotes t = 0%nat <-> unquoted t.
Proof.
  unfold quotes, unquoted. split.
  - intros H%nil_length_inv Hin.
    assert (apostrophe ∈ base.filter (fun c => c = apostrophe) t) as Hf
      by (by apply list_elem_of_filter).
    rewrite H in Hf. by apply not_elem_of_nil in Hf.
  - intros H. destruct (base.filter (fun c => c = apostrophe) t) as [|c l] eqn:E; [done|].
    assert (c ∈ base.filter (fun c => c = apostrophe) t) as [-> ?]%list_elem_of_filter
      by (rewrite E; by left). done.
Qed.

(** Every two quotes in the text lose a character of the literals, and a statement whose literals
    are closed has an even number of quotes. *)
Lemma lex_bound n t inside current l :
  (length t <= n)%nat -> lex t inside current = Some l ->
  (2 * length (concat l) + quotes t <= 2 * (length current + length t))%nat
  /\ Nat.even (quotes t) = negb inside.
Proof.
  revert t inside current l. induction n as [|n IH]; intros t inside current l Hn H.
  { destruct t; [|cbn in Hn; lia]. destruct inside; [done|]. injection H as <-. cbn. split; [lia|done]. }
  destruct t as [|c t]; [destruct inside; [done|]; injection H as <-; cbn; split; [lia|done]|].
  rewrite quotes_cons. cbn [lex length] in *. destruct inside, (eqc c apostrophe) eqn:E.
  - destruct t as [|d t].
    { injection H as <-. cbn. rewrite app_nil_r. split; [lia|done]. }
    cbn [length] in *. destruct (eqc d apostrophe) eqn:Ed.
    + apply IH in H as [Hb He]; [|lia]. rewrite quotes_cons, Ed. rewrite length_app in Hb. cbn in *.
      split; [lia|]. by rewrite He.
    + destruct (lex (d :: t) false []) as [l'|] eqn:El; [|done]. injection H as <-.
      apply IH in El as [Hb He]; [|cbn; lia]. cbn [length concat] in *. rewrite length_app.
      split; [lia|]. cbn [negb] in He. change (1 + quotes (d :: t))%nat with (S (quotes (d :: t))).
      by rewrite Nat.even_succ, <- Nat.negb_even, He.
  - apply IH in H as [Hb He]; [|lia]. rewrite length_app in Hb. cbn in *. split; [lia|done].
  - apply IH in H as [Hb He]; [|lia]. cbn [length] in *. split; [lia|].
    change (1 + quotes t)%nat with (S (quotes t)). by rewrite Nat.even_succ, <- Nat.negb_even, He.
  - apply IH in H as [Hb He]; [|lia]. cbn in *. split; [lia|done].
Qed.

Lemma lex_unquoted_end t : unquoted t -> lex t false [] = Some [].
Proof. intros H. rewrite <- (app_nil_r t). by rewrite lex_unquoted. Qed.

Lemma lex_open t current : unquoted t -> lex t true current = None.
Proof.
  revert current. induction t as [|c t IH]; intros current H; [done|]. unfold unquoted in *. cbn.
  rewrite (proj2 (eqc_false c apostrophe)) by set_solver. apply IH. set_solver.
Qed.

(** Text without quotes after the last quote does not matter. *)
Lemma lex_tail n x rest inside current :
  (length x <= n)%nat -> unquoted rest ->
  lex (x ++ apostrophe :: rest) inside current = lex (x ++ [apostrophe]) inside current.
Proof.
  intros Hn Hr. revert x inside current Hn.
  induction n as [|n IH]; intros [|c x] inside current Hn; cbn [length] in Hn; try lia.
  1, 2: cbn [app lex]; rewrite eqc_refl; destruct inside; [|by apply lex_open];
    destruct rest as [|d rest]; [done|];
    rewrite (proj2 (eqc_false d apostrophe)) by (unfold unquoted in Hr; set_solver);
    by rewrite (lex_unquoted_end (d :: rest)).
  cbn [app lex]. destruct inside; [|apply IH; lia]. destruct (eqc c apostrophe); [|apply IH; lia].
  destruct x as [|d x]; cbn [app].
  - rewrite eqc_refl. by apply lex_open.
  - cbn [length] in Hn. destruct (eqc d apostrophe); [apply IH; lia|].
    by rewrite (IH (d :: x)) by (cbn; lia).
Qed.

(** Between bare quotes, exactly the values without a quote are read back. *)
Lemma lex_bare value rest :
  unquoted rest ->
  lex (in_quotes value ++ rest) false [] = Some [value] <-> unquoted value.
Proof.
  intros Hr. split.
  - unfold in_quotes. cbn [app lex]. rewrite eqc_refl, <- app_assoc. cbn [app].
    rewrite (lex_tail (length value)) by done. intros H.
    destruct (lex_bound _ _ _ _ _ (le_n _) H) as [Hb He].
    rewrite quotes_app, quotes_cons, eqc_refl in Hb, He. apply quotes_unquoted.
    assert (Hc : length (concat [value]) = length value) by (cbn; by rewrite app_nil_r).
    rewrite Hc, length_app in Hb. cbn in Hb, He.
    destruct (quotes value) as [|[|k]]; [done|done|lia].
  - intros H. rewrite <- (double_quotes_unquoted value H) at 1. rewrite lex_literal.
    + by rewrite lex_unquoted_end.
    + intros c Hc ->. apply Hr. by apply head_Some_elem_of.
Qed.

(** ** The properties *)

(** The identifiers of a request, which come from the program's own tables, have no quotes. *)
Definition plain_names (r : SqlRequest) : Prop :=
  unquoted (table_name r) /\ unquoted (pk_column r) /\ Forall unquoted (set_columns r)
  /\ Forall unquoted (update_columns r).

Lemma unquoted_app x y : unquoted x -> unquoted y -> unquoted (x ++ y).
Proof. unfold unquoted. set_solver. Qed.

Lemma unquoted_join sep l : unquoted sep -> Forall unquoted l -> unquoted (join sep l).
Proof.
  intros Hs. induction l as [|x [|y l] IH]; intros H; [by apply not_elem_of_nil| |].
  - by apply Forall_cons_1 in H as [? _].
  - apply Forall_cons_1 in H as [Hx H]. rewrite join_cons. auto using unquoted_app.
Qed.

Lemma unquoted_nil : unquoted [].
Proof. apply not_elem_of_nil. Qed.

Lemma unquoted_number n : unquoted (to_text n).
Proof.
  intros Hin. assert (Forall (fun c => c <> apostrophe) (to_text n)) as H
    by (apply to_text_Forall; [done|]; intros; by apply digit_not).
  rewrite Forall_forall in H. by apply (H apostrophe).
Qed.

Create HintDb sql.
#[export] Hint Resolve unquoted_app unquoted_join unquoted_nil unquoted_number : sql.
#[export] Hint Extern 1 (unquoted (chars _)) => (apply quotes_unquoted; reflexivity) : sql.

(** Passes over the text before the first quote of a statement. *)
Ltac skip_unquoted :=
  unfold literals; repeat (rewrite lex_unquoted by eauto with sql).

(** C10: Whatever characters the keys have, the [IN] list of a select or delete of many rows has
    one string literal per key, with the key as its value: no key can end its literal. *)
Theorem key_lists_are_literals r :
  plain_names r ->
  literals (build_select_many_sql r) = Some (keys r)
  /\ literals (build_delete_many_sql r) = Some (keys r).
Proof.
  intros (Ht & Hp & _). unfold build_select_many_sql, build_delete_many_sql. split; skip_unquoted.
  all: rewrite lex_quoted_list by (by intros c [= <-]).
  all: change (Some (keys r ++ []) = Some (keys r)); by rewrite app_nil_r.
Qed.

Definition demo_request : SqlRequest :=
  {| op := "delete_many"; table_name := chars "users"; columns := []; pk_column := chars "id";
     key := chars "O'Brien"; keys := [chars "O'Brien"; chars "'; DROP TABLE users; --"];
     json_payload := chars "{}"; json_array_payload := []; set_columns := [chars "name"];
     update_columns := [chars "name"];
     options := {| opt_joins := []; opt_where_conditions := [chars "age > 18"];
                   opt_order_by_clauses := [(chars "name", true)]; opt_limit := Some 5 |} |}.

Lemma key_lists_are_literals_witness :
  literals (build_delete_many_sql demo_request)
  = Some [chars "O'Brien"; chars "'; DROP TABLE users; --"].
Proof.
  apply (key_lists_are_literals demo_request). unfold plain_names.
  repeat split; repeat constructor; apply quotes_unquoted; reflexivity.
Defined.

(** The single-row statements do not escape: the key of a select or delete, and the record of
    an insert, update or upsert, reaches the server as one literal with its value exactly when it
    has no single quote. *)
Theorem single_values_unescaped r :
  plain_names r ->
  (literals (build_select_sql r) = Some [key r] <-> unquoted (key r))
  /\ (literals (build_delete_sql r) = Some [key r] <-> unquoted (key r))
  /\ (literals (build_insert_sql r) = Some [json_payload r] <-> unquoted (json_payload r))
  /\ (literals (build_update_sql r) = Some [json_payload r] <-> unquoted (json_payload r))
  /\ (literals (build_upsert_sql r) = Some [json_payload r] <-> unquoted (json_payload r)).
Proof.
  intros (Ht & Hp & Hs & Hu).
  assert (Hset : unquoted (join (chars ", ") ((fun column => column ++ chars " = src." ++ column) <$> set_columns r))).
  { apply unquoted_join; [auto with sql|]. apply Forall_fmap. eapply Forall_impl; [exact Hs|].
    intros column Hc. cbn beta. apply unquoted_app; [done|]. auto with sql. }
  assert (Hupd : unquoted (join (chars ", ") ((fun column => column ++ chars " = EXCLUDED." ++ column) <$> update_columns r))).
  { apply unquoted_join; [auto with sql|]. apply Forall_fmap. eapply Forall_impl; [exact Hu|].
    intros column Hc. cbn beta. apply unquoted_app; [done|]. auto with sql. }
  unfold build_select_sql, build_delete_sql, build_insert_sql, build_update_sql, build_upsert_sql.
  split_and!; skip_unquoted.
  2: rewrite <- (app_nil_r (in_quotes (key r))).
  all: apply lex_bare; eauto 10 with sql.
Qed.

Lemma single_values_unescaped_witness :
  literals (build_delete_sql demo_request) <> Some [chars "O'Brien"]
  /\ literals (build_insert_sql demo_request) = Some [chars "{}"].
Proof.
  assert (Hp : plain_names demo_request).
  { unfold plain_names. repeat split; repeat constructor; apply quotes_unquoted; reflexivity. }
  destruct (single_values_unescaped demo_request Hp) as (_ & Hd & Hi & _). split.
  - intros H. apply (proj1 Hd) in H. apply quotes_unquoted in H. discriminate H.
  - apply (proj2 Hi), quotes_unquoted. reflexivity.
Defined.

Definition no_limit (o : SqlQueryOptions) : SqlQueryOptions :=
  {| opt_joins := opt_joins o; opt_where_conditions := opt_where_conditions o;
     opt_order_by_clauses := opt_order_by_clauses o; opt_limit := None |}.

Lemma inner_query_limit table o n :
  opt_limit o = Some n ->
  build_inner_query table o = build_inner_query table (no_limit o) ++ chars " LIMIT " ++ to_text n.
Proof.
  intros H. unfold build_inner_query. rewrite H. cbn [opt_limit no_limit].
  by rewrite app_nil_r, <- !app_assoc.
Qed.

(** A [query_first] request that carries a limit gets two [LIMIT] clauses, which is not a
    statement. *)
Theorem query_first_two_limits r n :
  opt_limit (options r) = Some n ->
  build_query_first_sql r
  = chars "SELECT row_to_json(row) FROM (" ++ build_inner_query (table_name r) (no_limit (options r))
    ++ chars " LIMIT " ++ to_text n ++ chars " LIMIT 1) row".
Proof.
  intros H. unfold build_query_first_sql. rewrite (inner_query_limit _ _ n H).
  by rewrite <- !app_assoc.
Qed.

Lemma query_first_two_limits_witness :
  build_query_first_sql demo_request
  = chars "SELECT row_to_json(row) FROM (SELECT users.* FROM users WHERE age > 18 ORDER BY name ASC LIMIT 5 LIMIT 1) row".
Proof. rewrite (query_first_two_limits demo_request 5); reflexivity. Defined.
