(* ===== verification/Search.v ===== *)
(** * The search provider interface (interfaces::ISearchProvider)

    What the engine relies on from a search backend, as a class: every call reports to its
    callback exactly once.  [Postgres] and [Elastic] are its instances.  A callback's calls are the
    list of texts it was given. *)

From stdpp Require Import base strings list.
From Stdlib Require Import ZArith Lia Ascii.
From S2P Require Import Prelude Text.

Open Scope Z_scope.

Record SearchQuery := {
  query : text;
  free_text : text;
  start : Z;
  size : Z;
  sort : text;
}.

Class SearchProvider (S : Type) := {
  sp_index : text -> text -> text -> S -> S * list text;
  sp_remove : text -> text -> S -> S * list text;
  sp_search : text -> SearchQuery -> S -> S * list text;
}.

Class SearchProviderLaws (S : Type) `{SearchProvider S} := {
  sp_index_once collection id document s : length (sp_index collection id document s).2 = 1%nat;
  sp_remove_once collection id s : length (sp_remove collection id s).2 = 1%nat;
  sp_search_once collection q s : length (sp_search collection q s).2 = 1%nat;
}.

(** Indexes a batch of documents, as a client of the interface does, and collects the replies. *)
Fixpoint index_all {S} `{SearchProvider S} (collection : text) (docs : list (text * text)) (s : S)
    : S * list text :=
  match docs with
  | [] => (s, [])
  | (id, document) :: docs' =>
      let '(s1, replies) := sp_index collection id document s in
      let '(s2, replies') := index_all collection docs' s1 in
      (s2, replies ++ replies')
  end.

Lemma index_all_replies {S} `{SearchProviderLaws S} collection docs (s : S) :
  length (index_all collection docs s).2 = length docs.
Proof.
  revert s. induction docs as [|[id document] docs IH]; intros s; [done|]. cbn [index_all].
  pose proof (sp_index_once collection id document s) as H1.
  destruct (sp_index collection id document s) as [s1 replies]. specialize (IH s1).
  destruct (index_all collection docs s1) as [s2 replies']. cbn in *.
  rewrite length_app. lia.
Qed.
