(* ===== verification/Postgres.v ===== *)
(** * The Postgres backend (plugins/database/postgres/bin/postgres_plugin.cc)

    [PostgresPlugin] opens a libpq connection from its configuration, runs statements on it and
    hands the outcome to a callback as one string, and keeps a [search_documents] table as a search
    provider.

    - libpq and the server are not part of the repository: they are the class [PgClient].
      [PQresultStatus] and the accessors of a result are the constructors of [PGresult]; a result's
      rows have one cell per column.
    - [c_str] is the text libpq sees: a C string ends at the first NUL.
    - A callback may throw; [exec] catches and calls it again, so a call has a list of replies.
      Other exceptions (allocation failure) are not modelled.
    - [core::events::publish] and [host.log] append to logs; [core::logger] is left out. *)

From stdpp Require Import base strings list sets.
From Stdlib Require Import ZArith Lia Ascii.
From S2P Require Import Prelude Text Json SqlPostgres Search.

Open Scope string_scope.
Open Scope list_scope.
Open Scope Z_scope.

(** ** libpq *)

Inductive PGresult :=
  | PGRES_TUPLES_OK (names : list text) (rows : list (list (option text)))
  | PGRES_COMMAND_OK (tuples : text)
  | PGRES_FATAL_ERROR (message : text).

Class PgClient := {
  pg_conn : Type;
  (** The connection, or the message of [PQerrorMessage]. *)
  PQconnectdb : text -> pg_conn + text;
  PQexec : pg_conn -> text -> pg_conn * PGresult;
}.

(** ** Text helpers of the plugin *)

Definition escape_sql_literal (value : text) : text :=
  value ≫= fun character =>
    if eqc character apostrophe then [apostrophe; apostrophe] else [character].

Definition escape_json (value : text) : text :=
  value ≫= fun character =>
    if eqc character quote_char then [backslash; quote_char]
    else if eqc character backslash then [backslash; backslash]
    else if eqc character newline then [backslash; "n"%char]
    else if eqc character carriage_return then [backslash; "r"%char]
    else if eqc character tab then [backslash; "t"%char]
    else if (byte_of_char character <? 0x20) then unicode_escape character
    else [character].

Definition cell_json (cell : option text) : text :=
  match cell with
  | None => chars "null"
  | Some value => quote_char :: escape_json value ++ [quote_char]
  end.

Definition row_json (names : list text) (row : list (option text)) : text :=
  open_brace
  :: join [","%char]
       (zip_with (fun name cell => quote_char :: escape_json name ++ quote_char :: ":"%char :: cell_json cell)
          names row)
  ++ [close_brace].

Definition rows_to_json (names : list text) (rows : list (list (option text))) : text :=
  open_bracket :: join [","%char] (row_json names <$> rows) ++ [close_bracket].

Section Plugin.
Context `{PgClient}.

Record PostgresPlugin := {
  m_conn : option pg_conn;
  pg_events : list (string * list (string * text));
  pg_host_log : list (Z * text);
}.

Definition new_plugin : PostgresPlugin := {| m_conn := None; pg_events := []; pg_host_log := [] |}.

Definition with_conn (c : option pg_conn) (p : PostgresPlugin) : PostgresPlugin :=
  {| m_conn := c; pg_events := pg_events p; pg_host_log := pg_host_log p |}.
Definition publish (event : string * list (string * text)) (p : PostgresPlugin) : PostgresPlugin :=
  {| m_conn := m_conn p; pg_events := pg_events p ++ [event]; pg_host_log := pg_host_log p |}.
(** [host.log], when the host has one. *)
Definition host_log (has_log : bool) (level : Z) (message : text) (p : PostgresPlugin) : PostgresPlugin :=
  if has_log
  then {| m_conn := m_conn p; pg_events := pg_events p; pg_host_log := pg_host_log p ++ [(level, message)] |}
  else p.

(** The callback inside the [try]: when it throws, the handler publishes and calls it with [""]. *)
Definition call_or_catch (throws : text -> bool) (reply : text) (event : string * list (string * text))
    (p : PostgresPlugin) : PostgresPlugin * list text :=
  if throws reply then (publish event p, [reply; []]) else (p, [reply]).

Definition exec (throws : text -> bool) (sql : text) (p : PostgresPlugin) : PostgresPlugin * list text :=
  match m_conn p with
  | None => (p, [[]])
  | Some conn =>
      let '(conn', result) := PQexec conn (c_str sql) in
      let p1 := with_conn (Some conn') p in
      let threw := ("postgres.exec.exception", [("sql", sql)]) in
      match result with
      | PGRES_TUPLES_OK names rows => call_or_catch throws (rows_to_json names rows) threw p1
      | PGRES_COMMAND_OK _ => call_or_catch throws (chars "ok") threw p1
      | PGRES_FATAL_ERROR message =>
          call_or_catch throws [] threw
            (publish ("postgres.exec.failed", [("sql", sql); ("error", message)]) p1)
      end
  end.

Definition CREATE_SEARCH_TABLE : text :=
  chars "CREATE TABLE IF NOT EXISTS search_documents (collection TEXT NOT NULL, id TEXT NOT NULL, data JSONB NOT NULL, updated_at TIMESTAMPTZ NOT NULL DEFAULT now(), PRIMARY KEY (collection, id))".

Definition ensure_search_tables (p : PostgresPlugin) : PostgresPlugin :=
  (exec (fun _ => false) CREATE_SEARCH_TABLE p).1.

Definition connstr (host port dbname user password : text) : text :=
  chars "host=" ++ in_quotes host ++ chars " port=" ++ in_quotes port ++ chars " dbname="
  ++ in_quotes dbname ++ chars " user=" ++ in_quotes user ++ chars " password=" ++ in_quotes password.

(** [config_get] of the plugin's configuration is [cfg]. *)
Definition on_load (has_log : bool) (cfg : string -> option text) (p : PostgresPlugin) : PostgresPlugin :=
  let get k d := default (chars d) (cfg k) in
  let user := get "user" "postgres" in
  let password := get "password" "" in
  let host := get "host" "localhost" in
  let dbname := get "dbname" "congelado" in
  let port := get "port" "5432" in
  let where_ := [("host", host); ("port", port); ("dbname", dbname)] in
  match PQconnectdb (c_str (connstr host port dbname user password)) with
  | inr error =>
      with_conn None
        (publish ("postgres.connection.failed", where_)
           (host_log has_log 3 (chars "postgres: " ++ error) p))
  | inl conn =>
      ensure_search_tables
        (publish ("postgres.connection.established", where_)
           (host_log has_log 2 (chars "postgres plugin loaded") (with_conn (Some conn) p)))
  end.

Definition on_unload (p : PostgresPlugin) : PostgresPlugin :=
  match m_conn p with Some _ => with_conn None p | None => p end.

Definition is_connected (p : PostgresPlugin) : bool := bool_decide (is_Some (m_conn p)).

(** [query], [insert], [update] and [remove] of [IDatabase]. *)
Definition db_query := exec.
Definition db_insert := exec.
Definition db_update := exec.
Definition db_remove := exec.

Definition index_sql (collection id document_json : text) : text :=
  chars "INSERT INTO search_documents (collection, id, data, updated_at) VALUES ("
  ++ in_quotes (escape_sql_literal collection) ++ chars ", " ++ in_quotes (escape_sql_literal id)
  ++ chars ", " ++ in_quotes (escape_sql_literal document_json)
  ++ chars "::jsonb, now()) ON CONFLICT (collection, id) DO UPDATE SET data = excluded.data, updated_at = excluded.updated_at".

Definition index (throws : text -> bool) (collection id document_json : text) (p : PostgresPlugin)
    : PostgresPlugin * list text :=
  exec throws (index_sql collection id document_json) p.

Definition remove_sql (collection id : text) : text :=
  chars "DELETE FROM search_documents WHERE collection = "
  ++ in_quotes (escape_sql_literal collection) ++ chars " AND id = " ++ in_quotes (escape_sql_literal id).

Definition remove (throws : text -> bool) (collection id : text) (p : PostgresPlugin)
    : PostgresPlugin * list text :=
  exec throws (remove_sql collection id) p.

(** [PQgetisnull(result, row, 0) != 0 ? "null" : PQgetvalue(result, row, 0)] *)
Definition document_text (row : list (option text)) : text :=
  match row with Some value :: _ => value | _ => chars "null" end.

Definition select_documents (throws : text -> bool) (sql : text) (conn : pg_conn) (p : PostgresPlugin)
    : PostgresPlugin * list text :=
  let '(conn', result) := PQexec conn (c_str sql) in
  let p1 := with_conn (Some conn') p in
  let threw := ("postgres.search.exception", [("sql", sql)]) in
  match result with
  | PGRES_TUPLES_OK names rows =>
      call_or_catch throws (open_bracket :: join [","%char] (document_text <$> rows) ++ [close_bracket]) threw p1
  | PGRES_COMMAND_OK _ =>
      call_or_catch throws [] threw (publish ("postgres.search.failed", [("sql", sql); ("error", [])]) p1)
  | PGRES_FATAL_ERROR message =>
      call_or_catch throws [] threw (publish ("postgres.search.failed", [("sql", sql); ("error", message)]) p1)
  end.

Definition search_sql (collection : text) (q : SearchQuery) : text :=
  chars "SELECT data FROM search_documents WHERE collection = "
  ++ in_quotes (escape_sql_literal collection)
  ++ (if bool_decide (free_text q = []) then []
      else chars " AND data::text ILIKE '%" ++ escape_sql_literal (free_text q) ++ chars "%'")
  ++ (if bool_decide (query q = []) then [] else chars " AND (" ++ query q ++ chars ")")
  ++ chars " ORDER BY updated_at DESC LIMIT " ++ to_text (size q) ++ chars " OFFSET " ++ to_text (start q).

Definition search (throws : text -> bool) (collection : text) (q : SearchQuery) (p : PostgresPlugin)
    : PostgresPlugin * list text :=
  match m_conn p with
  | None => (p, [[]])
  | Some conn => select_documents throws (search_sql collection q) conn p
  end.

#[export] Instance postgres_provider : SearchProvider PostgresPlugin := {
  sp_index := index (fun _ => false);
  sp_remove := remove (fun _ => false);
  sp_search := search (fun _ => false);
}.
End Plugin.
Arguments PostgresPlugin : clear implicits.
Arguments PostgresPlugin {_}.

(** ** Escaping *)

Lemma escape_sql_literal_doubles value : escape_sql_literal value = double_quotes value.
Proof.
  unfold escape_sql_literal, double_quotes. apply list_bind_ext; [|done].
  intros c. destruct (eqc c apostrophe) eqn:E; [|done]. by apply eqc_true in E as ->.
Qed.

Lemma escape_json_canonical value : escape_json value = value ≫= escape_char.
Proof.
  unfold escape_json. apply list_bind_ext; [|done].
  intros [[] [] [] [] [] [] [] []]; reflexivity.
Qed.

(** ** Result sets *)

Definition cell_value (cell : option text) : json :=
  match cell with None => JNull | Some value => JStr value end.
Definition row_value (names : list text) (row : list (option text)) : json :=
  JObj (zip names (cell_value <$> row)).

Lemma cell_json_print cell : cell_json cell = print (cell_value cell).
Proof. destruct cell as [value|]; [|done]. cbn. by rewrite escape_json_canonical. Qed.

Lemma row_json_print names row : row_json names row = print (row_value names row).
Proof.
  unfold row_json, row_value. cbn [print]. f_equal. f_equal. f_equal.
  revert row. induction names as [|name names IH]; intros [|cell row]; [done..|].
  cbn [zip_with zip fmap list_fmap map]. rewrite IH. f_equal.
  unfold print_field, print_str. cbn [fst snd app].
  by rewrite escape_json_canonical, cell_json_print, <- app_assoc.
Qed.

Lemma rows_to_json_print names rows : rows_to_json names rows = print (JArr (row_value names <$> rows)).
Proof.
  unfold rows_to_json. cbn [print]. f_equal. f_equal. f_equal.
  induction rows as [|row rows IH]; [done|]. cbn [fmap list_fmap map]. by rewrite row_json_print, IH.
Qed.

(** ** Replies *)

Section Theory.
Context `{PgClient}.

Lemma call_once throws reply event p :
  (call_or_catch throws reply event p).2 = reply :: (if throws reply then [[]] else []).
Proof. unfold call_or_catch. by destruct (throws reply). Qed.

(** A statement has one reply; a second, empty one follows only when the callback threw on it. *)
Lemma exec_replies throws sql p :
  exists reply, (exec throws sql p).2 = [reply]
    \/ (throws reply = true /\ (exec throws sql p).2 = [reply; []]).
Proof.
  unfold exec. destruct (m_conn p) as [conn|]; [|by exists []; left].
  destruct (PQexec conn (c_str sql)) as [conn' [names rows|tuples|message]];
    eexists; rewrite call_once; match goal with |- context [throws ?r] => destruct (throws r) eqn:E end;
    eauto.
Qed.

#[export] Instance postgres_laws : SearchProviderLaws PostgresPlugin.
Proof.
  assert (Hexec : forall sql p, length (exec (fun _ => false) sql p).2 = 1%nat).
  { intros sql p. by destruct (exec_replies (fun _ => false) sql p) as [r [->|[? _]]]. }
  split; intros; cbn; [apply Hexec..|].
  unfold search. destruct (m_conn s) as [conn|]; [|done]. unfold select_documents.
  by destruct (PQexec conn _) as [conn' [names rows|tuples|message]].
Qed.
End Theory.

(** ** The properties *)

(** The reply to a query is JSON text that reads back as its result set: one object per row,
    with every column name and cell intact whatever characters they contain, and NULL as null. *)
Theorem rows_round_trip names rows :
  parse (rows_to_json names rows) = Some (JArr (row_value names <$> rows)).
Proof. rewrite rows_to_json_print. apply parse_print. Qed.

Lemma like_clause ft :
  chars " AND data::text ILIKE '%" ++ double_quotes ft ++ chars "%'"
  = chars " AND data::text ILIKE " ++ in_quotes (double_quotes (chars "%" ++ ft ++ chars "%")).
Proof.
  unfold double_quotes, in_quotes. rewrite !bind_app. cbn. rewrite <- !app_assoc. done.
Qed.

(** The statements of the search provider carry exactly the caller's values as their string
    literals, whatever characters those have: nothing in a collection, an id, a document or a free
    text can end its literal. *)
Theorem search_statements_literals collection id document ft start size sort :
  literals (index_sql collection id document) = Some [collection; id; document]
  /\ literals (remove_sql collection id) = Some [collection; id]
  /\ literals (search_sql collection
       {| query := []; free_text := ft; start := start; size := size; sort := sort |})
     = Some (collection :: if bool_decide (ft = []) then [] else [chars "%" ++ ft ++ chars "%"]).
Proof.
  unfold index_sql, remove_sql, search_sql. rewrite !escape_sql_literal_doubles. split_and!.
  - skip_unquoted. rewrite lex_literal by (by intros c [= <-]). skip_unquoted.
    rewrite lex_literal by (by intros c [= <-]). skip_unquoted.
    by rewrite lex_literal by (by intros c [= <-]).
  - skip_unquoted. rewrite lex_literal by (by intros c [= <-]). skip_unquoted.
    rewrite <- (app_nil_r (in_quotes (double_quotes id))). by rewrite lex_literal.
  - skip_unquoted. cbn [Search.query free_text Search.size Search.start].
    rewrite !(bool_decide_true (@nil ascii = [])) by done. rewrite app_nil_l.
    case_bool_decide as Ht.
    + rewrite lex_literal by (by intros c [= <-]). rewrite app_nil_l.
      by rewrite lex_unquoted_end by auto with sql.
    + rewrite like_clause.
      rewrite lex_literal by (by intros c [= <-]). rewrite <- app_assoc.
      skip_unquoted. rewrite lex_literal by (by intros c [= <-]).
      by rewrite lex_unquoted_end by auto with sql.
Qed.

(** The reply to the single-row select of the SQL generator is not the row: the server's JSON
    object comes back as the text of a cell, inside an object, inside an array.  A reader of the
    reply as the row object never gets it. *)
Theorem select_reply_is_not_the_row `{PgClient} r conn conn' fields p throws :
  m_conn p = Some conn ->
  PQexec conn (c_str (build_select_sql r))
    = (conn', PGRES_TUPLES_OK [chars "row_to_json"] [[Some (print (JObj fields))]]) ->
  let reply := rows_to_json [chars "row_to_json"] [[Some (print (JObj fields))]] in
  throws reply = false ->
  (db_query throws (build_select_sql r) p).2 = [reply]
  /\ parse reply = Some (JArr [JObj [(chars "row_to_json", JStr (print (JObj fields)))]])
  /\ parse reply <> Some (JObj fields).
Proof.
  intros Hc He reply Ht. assert (parse reply = Some (JArr [JObj [(chars "row_to_json", JStr (print (JObj fields)))]])) as E
    by (unfold reply; rewrite rows_to_json_print; apply parse_print).
  split; [|split; [done|by rewrite E]].
  unfold db_query, exec. rewrite Hc, He. rewrite call_once. fold reply. by rewrite Ht.
Qed.

(** A server with one row. *)
Definition demo_client : PgClient := {|
  pg_conn := unit;
  PQconnectdb _ := inl tt;
  PQexec _ sql :=
    (tt, if is_prefix (chars "SELECT row_to_json") sql
         then PGRES_TUPLES_OK [chars "row_to_json"] [[Some (print (JObj [(chars "id", JInt 7)]))]]
         else PGRES_COMMAND_OK (chars "1"))
|}.

Lemma select_reply_is_not_the_row_witness :
  let p := @on_load demo_client true (fun _ => None) (@new_plugin demo_client) in
  is_connected p = true
  /\ parse (rows_to_json [chars "row_to_json"] [[Some (print (JObj [(chars "id", JInt 7)]))]])
     <> Some (JObj [(chars "id", JInt 7)]).
Proof.
  cbv zeta. split; [reflexivity|].
  apply (@select_reply_is_not_the_row demo_client demo_request tt tt [(chars "id", JInt 7)]
    (@on_load demo_client true (fun _ => None) (@new_plugin demo_client)) (fun _ => false)); reflexivity.
Defined.
