(* ===== verification/Elastic.v ===== *)
(** * The Elasticsearch backend (plugins/search/elasticsearch/bin/elasticsearch_plugin.cc)

    [ElasticsearchPlugin] is a search provider over the REST interface of one node: it builds URLs
    and JSON bodies by hand, and cuts the matched documents out of the response text.

    - libcurl and the node are not part of the repository: they are the class [Curl], whose
      [curl_perform] takes the options the plugin sets and returns the outcome.
    - [extract_sources] scans with [find]; the model cuts the text at the position the code
      continues from.  Its fuel is the length of the response plus one, and every round consumes
      at least one character ([sources_fuel]). *)

From stdpp Require Import base strings list.
From Stdlib Require Import ZArith Lia Ascii.
From S2P Require Import Prelude Text Json Search Postgres.

Open Scope string_scope.
Open Scope list_scope.
Open Scope Z_scope.

(** The options of a request that depend on the call; the rest (timeout, content type, write
    callback) are the same for all. *)
Record http_request := {
  rq_method : string;
  rq_url : text;
  rq_body : option text;
  rq_auth : option (text * text);
}.

Inductive curl_outcome :=
  | CURLE_OK (status : Z) (response : text)
  | CURLE_ERROR (message : text) (partial : text).

Class Curl := {
  es_node : Type;
  curl_easy_init : es_node -> bool;
  curl_perform : es_node -> http_request -> es_node * curl_outcome;
}.

(** ** Text helpers of the plugin *)

Definition escape_json (value : text) : text :=
  value ≫= fun character =>
    if eqc character quote_char then [backslash; quote_char]
    else if eqc character backslash then [backslash; backslash]
    else if eqc character newline then [backslash; "n"%char]
    else [character].

Definition matching_brace (t : text) (open : nat) : option nat := scan_brace (drop open t) open 0 false.

Definition MARKER : text := quoted "'_source':".

(** The loop of [extract_sources] on the text from [pos] on: the documents found. *)
Fixpoint sources (fuel : nat) (response : text) : list text :=
  match fuel with
  | O => []
  | S fuel' =>
      match find_sub MARKER response with
      | None => []
      | Some marker_pos =>
          match find_char open_brace (drop (marker_pos + length MARKER) response) with
          | None => []
          | Some off =>
              let brace_start := (marker_pos + length MARKER + off)%nat in
              match matching_brace response brace_start with
              | None => []
              | Some brace_end =>
                  take (brace_end - brace_start + 1) (drop brace_start response)
                  :: sources fuel' (drop (S brace_end) response)
              end
          end
      end
  end.

Definition extract_sources (response : text) : text :=
  open_bracket :: join [","%char] (sources (S (length response)) response) ++ [close_bracket].

Section Plugin.
Context `{Curl}.

Record ElasticsearchPlugin := {
  m_base_url : text;
  m_index_prefix : text;
  m_username : text;
  m_password : text;
  es_state : es_node;
  es_events : list (string * list (string * text));
}.

Definition with_node (n : es_node) (p : ElasticsearchPlugin) : ElasticsearchPlugin :=
  {| m_base_url := m_base_url p; m_index_prefix := m_index_prefix p; m_username := m_username p;
     m_password := m_password p; es_state := n; es_events := es_events p |}.
Definition es_publish (event : string * list (string * text)) (p : ElasticsearchPlugin) : ElasticsearchPlugin :=
  {| m_base_url := m_base_url p; m_index_prefix := m_index_prefix p; m_username := m_username p;
     m_password := m_password p; es_state := es_state p; es_events := es_events p ++ [event] |}.

Definition request (method : string) (url body : text) (p : ElasticsearchPlugin)
    : ElasticsearchPlugin * (Z * text) :=
  if negb (curl_easy_init (es_state p)) then (p, (0, []))
  else
    let '(node, outcome) := curl_perform (es_state p)
      {| rq_method := method; rq_url := c_str url;
         rq_body := if bool_decide (body = []) then None else Some body;
         rq_auth := if bool_decide (m_username p = []) then None
                    else Some (c_str (m_username p), c_str (m_password p)) |} in
    let p1 := with_node node p in
    match outcome with
    | CURLE_OK status response => (p1, (status, response))
    | CURLE_ERROR message partial =>
        (es_publish ("elasticsearch.request_failed",
                     [("method", chars method); ("url", url); ("error", message)]) p1,
         (0, partial))
    end.

(** [None] is the exception thrown when the node does not answer; the state is then abandoned. *)
Definition on_load (cfg : string -> option text) (node : es_node) : option ElasticsearchPlugin :=
  let get k d := default (chars d) (cfg k) in
  let p := {| m_base_url := get "hosts" "http://localhost:9200"; m_index_prefix := get "index_prefix" "congelado_";
              m_username := get "username" ""; m_password := get "password" "";
              es_state := node; es_events := [] |} in
  let '(p1, (status, _)) := request "GET" (m_base_url p) [] p in
  if status =? 0 then None else Some p1.

Definition success (status : Z) : bool := (200 <=? status) && (status <? 300).

Definition document_url (p : ElasticsearchPlugin) (collection id : text) : text :=
  m_base_url p ++ "/"%char :: m_index_prefix p ++ collection ++ chars "/_doc/" ++ id.

Definition index (collection id document_json : text) (p : ElasticsearchPlugin)
    : ElasticsearchPlugin * list text :=
  let '(p1, (status, _)) := request "PUT" (document_url p collection id) document_json p in
  (p1, [if success status then chars "ok" else []]).

Definition remove (collection id : text) (p : ElasticsearchPlugin) : ElasticsearchPlugin * list text :=
  let '(p1, (status, _)) := request "DELETE" (document_url p collection id) [] p in
  (p1, [if success status || (status =? 404) then chars "ok" else []]).

Definition search_body (q : SearchQuery) : text :=
  let clause := if bool_decide (query q = []) then quoted "{'match_all':{}}" else query q in
  let clause := if bool_decide (free_text q = []) then clause
                else quoted "{'bool':{'must':[" ++ clause ++ quoted ",{'query_string':{'query':'"
                     ++ escape_json (free_text q) ++ quoted "'}}]}}" in
  quoted "{'from':" ++ to_text (start q) ++ quoted ",'size':" ++ to_text (size q)
  ++ quoted ",'query':" ++ clause ++ chars "}".

Definition search (collection : text) (q : SearchQuery) (p : ElasticsearchPlugin)
    : ElasticsearchPlugin * list text :=
  let url := m_base_url p ++ "/"%char :: m_index_prefix p ++ collection ++ chars "/_search" in
  let '(p1, (status, response)) := request "POST" url (search_body q) p in
  (p1, [if negb (success status) then [] else extract_sources response]).

#[export] Instance elastic_provider : SearchProvider ElasticsearchPlugin := {
  sp_index := index;
  sp_remove := remove;
  sp_search := search;
}.

#[export] Instance elastic_laws : SearchProviderLaws ElasticsearchPlugin.
Proof.
  split; intros; cbn; unfold index, remove, search;
    match goal with |- context [request ?m ?u ?b ?p] => by destruct (request m u b p) as [? [? ?]] end.
Qed.
End Plugin.
Arguments ElasticsearchPlugin : clear implicits.
Arguments ElasticsearchPlugin {_}.

(** ** Extraction *)

Lemma find_sub_bound needle t i : find_sub needle t = Some i -> (i + length needle <= length t)%nat.
Proof.
  assert (Hp : forall n u, is_prefix n u = true -> (length n <= length u)%nat).
  { intros n. induction n as [|c n IH]; intros [|d u] Hp; cbn in *; try lia; try done.
    apply andb_prop in Hp as [_ ?%IH]. lia. }
  revert i. induction t as [|c t IH]; intros i H; cbn [find_sub] in H.
  - destruct (is_prefix needle []) eqn:E; [|done]. injection H as <-. by apply Hp in E.
  - destruct (is_prefix needle (c :: t)) eqn:E.
    + injection H as <-. by apply Hp in E.
    + destruct (find_sub needle t) as [j|]; [|done]. injection H as <-.
      specialize (IH j eq_refl). cbn. lia.
Qed.

Lemma scan_brace_bound t index depth in_string i :
  scan_brace t index depth in_string = Some i -> (index <= i < index + length t)%nat.
Proof.
  assert (exists n, (length t <= n)%nat) as [n Hle] by eauto.
  revert t index depth in_string Hle. induction n as [|n IH]; intros [|c t] index depth in_string Hle H;
    cbn [length] in *; try done; try lia.
  cbn [scan_brace] in H.
  repeat match type of H with
  | (if ?b then _ else _) = _ => destruct b
  | match t with [] => None | _ :: _ => _ end = _ => destruct t as [|d t]; [done|]; cbn [length] in *
  end;
  try (apply IH in H; lia); injection H as <-; lia.
Qed.

(** Fuel beyond the length of the text changes nothing. *)
Lemma sources_fuel fuel fuel' t :
  (length t < fuel)%nat -> (length t < fuel')%nat -> sources fuel t = sources fuel' t.
Proof.
  revert fuel' t. induction fuel as [|fuel IH]; intros [|fuel'] t Hf Hf'; try lia. cbn [sources].
  destruct (find_sub MARKER t) as [m|] eqn:Em; [|done].
  destruct (find_char _ _) as [off|]; [|done].
  destruct (matching_brace t _) as [e|] eqn:Ee; [|done]. f_equal.
  apply scan_brace_bound in Ee. rewrite length_drop in Ee.
  apply IH; rewrite length_drop; lia.
Qed.

(** A response: texts, each followed by the marker and a document, and a last text. *)
Definition response_text (hits : list (text * list (text * json))) (tail : text) : text :=
  foldr (fun hit rest => hit.1 ++ MARKER ++ print (JObj hit.2) ++ rest) tail hits.

Definition no_marker (pre : text) : Prop := forall rest, not_before MARKER pre (MARKER ++ rest).

Lemma sources_response hits tail fuel :
  Forall (fun hit => no_marker hit.1) hits -> find_sub MARKER tail = None ->
  (length (response_text hits tail) < fuel)%nat ->
  sources fuel (response_text hits tail) = (fun hit => print (JObj hit.2)) <$> hits.
Proof.
  intros Hpre Htail. revert fuel. induction hits as [|[pre fields] hits IH]; intros [|fuel] Hf; try lia.
  { cbn [response_text foldr sources fmap list_fmap]. by rewrite Htail. }
  apply Forall_cons_1 in Hpre as [Hpre Hpres]. cbn [response_text foldr fst snd] in *.
  fold (response_text hits tail) in *. set (rest := response_text hits tail) in *.
  set (doc := print (JObj fields)) in *. cbn [sources].
  rewrite find_sub_app by (done || apply Hpre).
  rewrite (drop_app_add' pre), drop_app_length by done.
  change doc with (open_brace :: drop 1 doc) at 1. cbn [app find_char]. rewrite eqc_refl.
  rewrite Nat.add_0_r. unfold matching_brace.
  rewrite !(drop_app_add' pre), !drop_app_length by done.
  assert (Hscan : scan_brace (doc ++ rest) (length pre + length MARKER) 0 false
    = Some (length doc - 1 + (length pre + length MARKER))%nat) by apply scan_outer_object.
  rewrite Hscan. pose proof (print_nonempty (JObj fields)) as Hne. fold doc in Hne.
  cbn [fmap list_fmap snd]. f_equal.
  - replace (length doc - 1 + (length pre + length MARKER) - (length pre + length MARKER) + 1)%nat
      with (length doc) by lia. apply take_app_length.
  - replace (S (length doc - 1 + (length pre + length MARKER)))
      with (length pre + (length MARKER + length doc))%nat by lia.
    rewrite (drop_app_add' pre), (drop_app_add' MARKER), drop_app_length by done.
    apply IH; [done|]. rewrite !length_app in Hf. lia.
Qed.

(** ** The properties *)

(** A [_search] response yields the array of its documents, in order: the reply reads back as
    the JSON array of the [_source] objects, whatever braces, quotes or nested [_source] fields the
    documents contain. *)
Theorem extract_sources_documents hits tail :
  Forall (fun hit => no_marker hit.1) hits -> find_sub MARKER tail = None ->
  parse (extract_sources (response_text hits tail)) = Some (JArr ((fun hit => JObj hit.2) <$> hits)).
Proof.
  intros Hpre Htail. unfold extract_sources. rewrite sources_response by (done || lia).
  replace ((fun hit : text * list (text * json) => print (JObj hit.2)) <$> hits)
    with (map print ((fun hit : text * list (text * json) => JObj hit.2) <$> hits)).
  - apply (parse_print (JArr _)).
  - change (@map json text) with (@fmap list _ json text). by rewrite <- list_fmap_compose.
Qed.

Definition demo_hits : list (text * list (text * json)) :=
  [(quoted "{'hits':{'hits':[{'_id':'1',", [(chars "a}", JStr (quoted "x'}{"))]);
   (quoted "},{'_id':'2',", [(chars "_source", JObj [(chars "b", JInt (-3))])])].

Lemma no_marker_dec pre :
  forallb (fun i => negb (is_prefix (take (length pre - i) MARKER) (drop i pre))) (seq 0 (length pre)) = true ->
  no_marker pre.
Proof.
  intros H rest i Hi. rewrite forallb_forall in H.
  specialize (H i ltac:(apply list_elem_of_In, elem_of_seq; lia)).
  apply negb_true_iff in H. apply not_true_is_false. intros Hp. apply not_true_iff_false in H. apply H.
  clear H. rewrite drop_app_le in Hp by lia.
  assert (Hl : length (drop i pre) = (length pre - i)%nat) by apply length_drop.
  revert Hl Hp. generalize (drop i pre), (length pre - i)%nat. intros u n Hl Hp.
  revert u n Hl Hp. generalize MARKER at 1 3. intros needle.
  induction needle as [|c needle IH]; intros [|d u] [|n] Hl Hp; try done.
  cbn in *. apply andb_prop in Hp as [-> Hp]. cbn. apply IH; [lia|done].
Qed.

Lemma extract_sources_documents_witness :
  parse (extract_sources (response_text demo_hits (quoted "}]}}")))
  = Some (JArr [JObj [(chars "a}", JStr (quoted "x'}{"))];
                JObj [(chars "_source", JObj [(chars "b", JInt (-3))])]]).
Proof.
  apply (extract_sources_documents demo_hits (quoted "}]}}")); [|reflexivity].
  repeat (apply Forall_cons_2; [apply no_marker_dec; reflexivity|]). apply Forall_nil_2.
Defined.

(** *** Escaping *)

Definition escapable (c : ascii) : bool := negb (control c) || eqc c newline.

Lemma es_escape_json_canonical value :
  Forall (fun c => escapable c = true) value -> escape_json value = value ≫= escape_char.
Proof.
  induction value as [|c value IH]; intros H; [done|]. apply Forall_cons_1 in H as [Hc H].
  unfold escape_json in *. cbn [mbind list_bind] in *. rewrite IH by done. f_equal.
  destruct c as [[] [] [] [] [] [] [] []]; done.
Qed.

(** An escaped text is a JSON string that reads back as the text exactly when its only control
    characters are newlines: the others, tabs and carriage returns included, are left raw, which
    JSON does not allow. *)
Theorem escape_json_reads_back value :
  read_string (escape_json value ++ [quote_char]) = Some (value, [])
  <-> Forall (fun c => escapable c = true) value.
Proof.
  split.
  - induction value as [|c value IH]; intros H; [constructor|].
    unfold escape_json in *. cbn [mbind list_bind] in *. rewrite <- app_assoc in H.
    destruct (escapable c) eqn:E.
    + constructor; [done|]. apply IH.
      assert (Hc : forall t, read_string ((if eqc c quote_char then [backslash; quote_char]
        else if eqc c backslash then [backslash; backslash]
        else if eqc c newline then [backslash; "n"%char] else [c]) ++ t)
        = match read_string t with Some (s, rest) => Some (c :: s, rest) | None => None end)
        by (intros t; destruct c as [[] [] [] [] [] [] [] []]; done).
      rewrite Hc in H. destruct (read_string _) as [[s rest]|]; [|done]. by injection H as -> ->.
    + exfalso. destruct c as [[] [] [] [] [] [] [] []]; done.
  - intros H. rewrite es_escape_json_canonical by done. apply (read_string_escape value []).
Qed.

Definition match_all : json := JObj [(chars "match_all", JObj [])].

(** The query clause of a search without a raw clause. *)
Definition query_value (ft : text) : json :=
  if bool_decide (ft = []) then match_all
  else JObj [(chars "bool", JObj [(chars "must", JArr [match_all;
         JObj [(chars "query_string", JObj [(chars "query", JStr ft)])]])])].

(** The body of a search without a raw clause is JSON: the page and the free text read back
    from it, for every text whose only control characters are newlines. *)
Theorem search_body_reads_back ft start size sort :
  Forall (fun c => escapable c = true) ft ->
  parse (search_body {| query := []; free_text := ft; start := start; size := size; sort := sort |})
  = Some (JObj [(chars "from", JInt start); (chars "size", JInt size); (chars "query", query_value ft)]).
Proof.
  intros H. rewrite <- parse_print. f_equal. unfold search_body, query_value.
  cbn [query free_text Search.start Search.size].
  rewrite (bool_decide_true (@nil ascii = [])) by done. rewrite es_escape_json_canonical by done.
  assert (Hq : forall clause, quoted "{'from':" ++ to_text start ++ quoted ",'size':" ++ to_text size
     ++ quoted ",'query':" ++ print clause ++ chars "}"
     = print (JObj [(chars "from", JInt start); (chars "size", JInt size); (chars "query", clause)])).
  { intros clause. cbn [print join map]. unfold print_field. cbn [fst snd print].
    rewrite <- !app_assoc. reflexivity. }
  rewrite <- Hq. do 5 f_equal. case_bool_decide; [reflexivity|].
  assert (Hs : print (JObj [(chars "query_string", JObj [(chars "query", JStr ft)])])
    = quoted "{'query_string':{'query':'" ++ (ft ≫= escape_char) ++ quoted "'}}").
  { cbn [print join map]. unfold print_field. cbn [fst snd print join map].
    unfold print_field, print_str. cbn [fst snd print]. unfold print_str.
    do 4 (rewrite <- ?app_assoc; cbn [app]). reflexivity. }
  change (print (JObj [(chars "bool", JObj [(chars "must", JArr [match_all;
    JObj [(chars "query_string", JObj [(chars "query", JStr ft)])]])])]))
    with (quoted "{'bool':{'must':[{'match_all':{}}," ++
      ((print (JObj [(chars "query_string", JObj [(chars "query", JStr ft)])]) ++ [close_bracket]) ++ [close_brace]) ++ [close_brace]).
  rewrite Hs, <- !app_assoc. reflexivity.
Qed.

Lemma search_body_reads_back_witness :
  parse (search_body {| query := []; free_text := quoted "say 'hi'"; start := 0; size := 100; sort := [] |})
  = Some (JObj [(chars "from", JInt 0); (chars "size", JInt 100);
                (chars "query", query_value (quoted "say 'hi'"))]).
Proof.
  apply search_body_reads_back. repeat (apply Forall_cons_2; [reflexivity|]). apply Forall_nil_2.
Defined.
