(* ===== verification/Caches.v ===== *)
(** * The cache backends (plugins/cache/local, plugins/cache/redis)

    Both plugins implement [ICache], and both discharge [Connector.Local.CacheLaws], what the
    connector's coherence proof relies on.  [RedisEventsPlugin] is also an event sink.

    - hiredis and the server are the class [Redis]: a command is its argument list ([%b] is the
      bytes as they are, [%s] a C string), a reply the constructors of [redis_reply], and no reply
      at all (a broken connection) is [None].
    - [RedisStore] states what the cache theorems rely on: a server that answers, and does to its
      store what GET, SET and DEL document.
    - A callback's calls are the list of texts it was given; one that throws is called again from
      the handler.
    - [core::events::publish] appends to [r_events]; [core::logger] is left out. *)

From stdpp Require Import base gmap strings list.
From Stdlib Require Import ZArith Lia Ascii.
From S2P Require Import Prelude Text Connector Postgres.

Open Scope string_scope.
Open Scope list_scope.
Open Scope Z_scope.

(** ** The in-process cache *)

Module LocalCache.

Record LocalCachePlugin := { m_store : gmap string string }.

(** The new state and the replies. *)
Definition get (key : string) (p : LocalCachePlugin) : LocalCachePlugin * list string :=
  match m_store p !! key with
  | None => (p, [""])
  | Some value => (p, [value])
  end.

Definition set (key value : string) (p : LocalCachePlugin) : LocalCachePlugin * list string :=
  ({| m_store := <[key := value]> (m_store p) |}, [""]).

Definition remove (key : string) (p : LocalCachePlugin) : LocalCachePlugin * list string :=
  ({| m_store := delete key (m_store p) |}, [""]).

#[export] Instance cache_ops : Local.CacheOps LocalCachePlugin := {
  cache_get p key := default "" (head (get key p).2);
  cache_set p key value := (set key value p).1;
  cache_remove p key := (remove key p).1;
}.

Lemma cache_get_lookup p key : Local.cache_get p key = default "" (m_store p !! key).
Proof. cbn. unfold get. by destruct (m_store p !! key). Qed.

#[export] Instance cache_laws : Local.CacheLaws LocalCachePlugin.
Proof.
  split; intros; rewrite !cache_get_lookup; cbn; try left;
    rewrite ?lookup_insert_eq, ?lookup_delete_eq, ?lookup_insert_ne, ?lookup_delete_ne by done; done.
Qed.
End LocalCache.

(** ** Redis *)

Module RedisCache.

Inductive redis_reply :=
  | REDIS_REPLY_STRING (s : string)
  | REDIS_REPLY_STATUS (s : string)
  | REDIS_REPLY_INTEGER (z : Z)
  | REDIS_REPLY_NIL
  | REDIS_REPLY_ERROR (message : option string).

Class Redis := {
  redis_ctx : Type;
  (** The context and its error, if it has one; [None] is a null context. *)
  redisConnect : string -> Z -> option (redis_ctx * option string);
  redisCommand : redis_ctx -> list string -> redis_ctx * option redis_reply;
  (** A command given as a format string with no arguments for it. *)
  redisCommandFormat : redis_ctx -> string -> redis_ctx * option redis_reply;
  errstr : redis_ctx -> string;
}.

Section Plugin.
Context `{Redis}.

Record RedisEventsPlugin := {
  m_ctx : option redis_ctx;
  m_channel_prefix : string;
  m_key_prefix : string;
  r_events : list (string * list (string * string));
}.

Definition with_ctx (c : option redis_ctx) (p : RedisEventsPlugin) : RedisEventsPlugin :=
  {| m_ctx := c; m_channel_prefix := m_channel_prefix p; m_key_prefix := m_key_prefix p;
     r_events := r_events p |}.
Definition event (name : string) (fields : list (string * string)) (p : RedisEventsPlugin)
    : RedisEventsPlugin :=
  {| m_ctx := m_ctx p; m_channel_prefix := m_channel_prefix p; m_key_prefix := m_key_prefix p;
     r_events := r_events p ++ [(name, fields)] |}.

Definition run_command (command : string) (p : RedisEventsPlugin) : RedisEventsPlugin :=
  match m_ctx p with
  | None => p
  | Some ctx => with_ctx (Some (redisCommandFormat ctx (str (c_str (chars command)))).1) p
  end.

Definition on_load (cfg : string -> option string) (p : RedisEventsPlugin) : RedisEventsPlugin :=
  let get k d := default d (cfg k) in
  let host := get "host" "localhost" in
  let password := get "password" "" in
  let db := get "db" "" in
  let port := default 6379 (stoi (chars (get "port" "6379"))) in
  let p := {| m_ctx := None; m_channel_prefix := get "channel_prefix" ""; m_key_prefix := get "key_prefix" "";
              r_events := r_events p |} in
  let failed error := event "redis.connect_failed" [("host", host); ("port", to_string port); ("error", error)] p in
  match redisConnect (str (c_str (chars host))) port with
  | None => failed "null context"
  | Some (ctx, Some error) => failed error
  | Some (ctx, None) =>
      let p1 := with_ctx (Some ctx) p in
      let p2 := if bool_decide (password = "") then p1 else run_command ("AUTH " +:+ password) p1 in
      if bool_decide (db = "") then p2 else run_command ("SELECT " +:+ db) p2
  end.

Definition on_unload (p : RedisEventsPlugin) : RedisEventsPlugin :=
  match m_ctx p with Some _ => with_ctx None p | None => p end.

Definition publish (event_name payload_json : string) (p : RedisEventsPlugin) : RedisEventsPlugin :=
  match m_ctx p with
  | None => p
  | Some ctx =>
      let arg s := str (c_str (chars s)) in
      with_ctx
        (Some (redisCommand ctx ["PUBLISH"; arg (m_channel_prefix p) +:+ arg event_name; arg payload_json]).1) p
  end.

(** The callback inside the [try]. *)
Definition answer (throws : string -> bool) (name key reply : string) (p : RedisEventsPlugin)
    : RedisEventsPlugin * list string :=
  if throws reply then (event ("redis.cache." +:+ name +:+ "_exception") [("key", key)] p, [reply; ""])
  else (p, [reply]).

Definition or_unknown (message : option string) : string := default "unknown" message.

Definition get (throws : string -> bool) (key : string) (p : RedisEventsPlugin)
    : RedisEventsPlugin * list string :=
  match m_ctx p with
  | None => (event "redis.cache.get_skipped" [("key", key)] p, [""])
  | Some ctx =>
      let '(ctx', reply) := redisCommand ctx ["GET"; m_key_prefix p +:+ key] in
      let p1 := with_ctx (Some ctx') p in
      match reply with
      | None =>
          answer throws "get" key ""
            (event "redis.cache.get_failed" [("key", key); ("error", errstr ctx')] p1)
      | Some (REDIS_REPLY_STRING s) => answer throws "get" key s p1
      | Some (REDIS_REPLY_ERROR message) =>
          answer throws "get" key ""
            (event "redis.cache.get_error" [("key", key); ("error", or_unknown message)] p1)
      | Some _ => answer throws "get" key "" p1
      end
  end.

(** [set] and [remove] differ in the command, the name of their events and the reply that is a
    success. *)
Definition store_command (throws : string -> bool) (name : string) (ok : redis_reply -> bool)
    (key : string) (command : list string) (p : RedisEventsPlugin) : RedisEventsPlugin * list string :=
  match m_ctx p with
  | None => (event ("redis.cache." +:+ name +:+ "_skipped") [("key", key)] p, [""])
  | Some ctx =>
      let '(ctx', reply) := redisCommand ctx command in
      let p1 := with_ctx (Some ctx') p in
      match reply with
      | None =>
          answer throws name key ""
            (event ("redis.cache." +:+ name +:+ "_failed") [("key", key); ("error", errstr ctx')] p1)
      | Some (REDIS_REPLY_ERROR message) =>
          answer throws name key ""
            (event ("redis.cache." +:+ name +:+ "_error") [("key", key); ("error", or_unknown message)] p1)
      | Some r => answer throws name key (if ok r then "ok" else "") p1
      end
  end.

Definition set (throws : string -> bool) (key value : string) (p : RedisEventsPlugin)
    : RedisEventsPlugin * list string :=
  store_command throws "set" (fun r => match r with REDIS_REPLY_STATUS _ => true | _ => false end)
    key ["SET"; m_key_prefix p +:+ key; value] p.

Definition remove (throws : string -> bool) (key : string) (p : RedisEventsPlugin)
    : RedisEventsPlugin * list string :=
  store_command throws "remove"
    (fun r => match r with REDIS_REPLY_INTEGER _ | REDIS_REPLY_STATUS _ => true | _ => false end)
    key ["DEL"; m_key_prefix p +:+ key] p.

#[export] Instance cache_ops : Local.CacheOps RedisEventsPlugin := {
  cache_get p key := default "" (head (get (fun _ => false) key p).2);
  cache_set p key value := (set (fun _ => false) key value p).1;
  cache_remove p key := (remove (fun _ => false) key p).1;
}.
End Plugin.
Arguments RedisEventsPlugin : clear implicits.
Arguments RedisEventsPlugin {_}.

(** A server that answers, and keeps a store of strings. *)
Class RedisStore `(R : Redis) := {
  redis_store : redis_ctx -> gmap string string;
  redis_get ctx k :
    exists ctx', redis_store ctx' = redis_store ctx /\
    redisCommand ctx ["GET"; k]
      = (ctx', Some (match redis_store ctx !! k with Some v => REDIS_REPLY_STRING v | None => REDIS_REPLY_NIL end));
  redis_set ctx k v :
    exists ctx', redis_store ctx' = <[k := v]> (redis_store ctx) /\
    redisCommand ctx ["SET"; k; v] = (ctx', Some (REDIS_REPLY_STATUS "OK"));
  redis_del ctx k :
    exists ctx' n, redis_store ctx' = delete k (redis_store ctx) /\
    redisCommand ctx ["DEL"; k] = (ctx', Some (REDIS_REPLY_INTEGER n));
}.

Section Theory.
Context `{RS : RedisStore}.

(** The cache a plugin shows: the entries under its prefix, nothing without a connection. *)
Definition view (p : RedisEventsPlugin) (key : string) : option string :=
  ctx ← m_ctx p; redis_store ctx !! (m_key_prefix p +:+ key).

Lemma get_spec throws key p :
  (get throws key p).2 = (let v := default "" (view p key) in
     if bool_decide (is_Some (m_ctx p)) && throws v then [v; ""] else [v])
  /\ forall k, view (get throws key p).1 k = view p k.
Proof.
  unfold get, view. destruct (m_ctx p) as [ctx|] eqn:E; cbn [mbind option_bind].
  2: { split; [done|]. intros k. cbn. by rewrite E. }
  destruct (redis_get ctx (m_key_prefix p +:+ key)) as (ctx' & Hs & ->).
  rewrite bool_decide_true by eauto. unfold answer.
  destruct (redis_store ctx !! (m_key_prefix p +:+ key)) as [v|]; cbn;
    destruct (throws _); (split; [done|intros k; cbn; by rewrite Hs]).
Qed.

Lemma prefix_inj (p : RedisEventsPlugin) k k' : m_key_prefix p +:+ k = m_key_prefix p +:+ k' -> k = k'.
Proof. apply (inj (String.app (m_key_prefix p))). Qed.

Lemma set_view throws key value p ctx :
  m_ctx p = Some ctx ->
  (set throws key value p).2 = (if throws "ok" then ["ok"; ""] else ["ok"])
  /\ forall k, view (set throws key value p).1 k = if decide (k = key) then Some value else view p k.
Proof.
  intros E. unfold set, store_command, view. rewrite E.
  destruct (redis_set ctx (m_key_prefix p +:+ key) value) as (ctx' & Hs & ->).
  unfold answer. destruct (throws "ok"); cbn; (split; [done|]); intros k; cbn; rewrite Hs;
    (destruct (decide (k = key)) as [->|Hne]; [by rewrite lookup_insert_eq|
     rewrite lookup_insert_ne; [done|]; intros ?%prefix_inj; by subst]).
Qed.

Lemma remove_view throws key p ctx :
  m_ctx p = Some ctx ->
  (remove throws key p).2 = (if throws "ok" then ["ok"; ""] else ["ok"])
  /\ forall k, view (remove throws key p).1 k = if decide (k = key) then None else view p k.
Proof.
  intros E. unfold remove, store_command, view. rewrite E.
  destruct (redis_del ctx (m_key_prefix p +:+ key)) as (ctx' & n & Hs & ->).
  unfold answer. destruct (throws "ok"); cbn; (split; [done|]); intros k; cbn; rewrite Hs;
    (destruct (decide (k = key)) as [->|Hne]; [by rewrite lookup_delete_eq|
     rewrite lookup_delete_ne; [done|]; intros ?%prefix_inj; by subst]).
Qed.

(** The laws the connector relies on, for every state of the plugin. *)
#[export] Instance cache_laws : Local.CacheLaws RedisEventsPlugin.
Proof.
  assert (Hget : forall p k, Local.cache_get p k = default "" (view p k)).
  { intros p k. cbn. destruct (get_spec (fun _ => false) k p) as [-> _]. by rewrite andb_false_r. }
  assert (Hnone : forall p k, m_ctx p = None -> view p k = None).
  { intros p k E. unfold view. by rewrite E. }
  assert (Hset : forall p k v k', Local.cache_get (Local.cache_set p k v) k'
    = match m_ctx p with None => "" | Some _ => if decide (k' = k) then v else Local.cache_get p k' end).
  { intros p k v k'. rewrite !Hget. cbn. destruct (m_ctx p) as [ctx|] eqn:E.
    - destruct (set_view (fun _ => false) k v p ctx E) as [_ ->]. by destruct (decide (k' = k)).
    - rewrite Hnone; [done|]. unfold set, store_command. by rewrite E. }
  assert (Hrem : forall p k k', Local.cache_get (Local.cache_remove p k) k'
    = match m_ctx p with None => "" | Some _ => if decide (k' = k) then "" else Local.cache_get p k' end).
  { intros p k k'. rewrite !Hget. cbn. destruct (m_ctx p) as [ctx|] eqn:E.
    - destruct (remove_view (fun _ => false) k p ctx E) as [_ ->]. by destruct (decide (k' = k)).
    - rewrite Hnone; [done|]. unfold remove, store_command. by rewrite E. }
  split; intros.
  - rewrite Hset. destruct (m_ctx c); [|by right]. rewrite decide_True by done. by left.
  - rewrite Hset. destruct (m_ctx c); [|by right]. rewrite decide_False by congruence. by left.
  - rewrite Hrem. destruct (m_ctx c); [|done]. by rewrite decide_True.
  - rewrite Hrem. destruct (m_ctx c); [|by right]. rewrite decide_False by congruence. by left.
Qed.
End Theory.

(** C33: On a server that answers, a connected cache behaves as a map from keys to values, under
    its own prefix of the server's store: [get] replies with the value under the key, or the empty
    string, and changes nothing; [set] and [remove] reply ["ok"] and change the entry of their key
    only. *)
Theorem redis_refines_map `{RS : RedisStore} (p : RedisEventsPlugin) ctx key value :
  m_ctx p = Some ctx ->
  let quiet := fun _ : string => false in
  (get quiet key p).2 = [default "" (view p key)]
  /\ (forall k, view (get quiet key p).1 k = view p k)
  /\ (set quiet key value p).2 = ["ok"]
  /\ (forall k, view (set quiet key value p).1 k = if decide (k = key) then Some value else view p k)
  /\ (remove quiet key p).2 = ["ok"]
  /\ (forall k, view (remove quiet key p).1 k = if decide (k = key) then None else view p k).
Proof.
  intros E quiet. destruct (get_spec quiet key p) as [Hg Hgv].
  destruct (set_view quiet key value p ctx E) as [Hs Hsv].
  destruct (remove_view quiet key p ctx E) as [Hr Hrv].
  split_and!; try done. rewrite Hg. cbv zeta. change (quiet _) with false. by rewrite andb_false_r.
Qed.

(** A server of one client, as a map. *)
Definition map_redis : Redis := {|
  redis_ctx := gmap string string;
  redisConnect _ _ := Some (∅, None);
  redisCommand m args :=
    match args with
    | [cmd; k] =>
        if bool_decide (cmd = "GET")
        then (m, Some (match m !! k with Some v => REDIS_REPLY_STRING v | None => REDIS_REPLY_NIL end))
        else if bool_decide (cmd = "DEL") then (delete k m, Some (REDIS_REPLY_INTEGER 1))
        else (m, Some (REDIS_REPLY_ERROR None))
    | [cmd; k; v] =>
        if bool_decide (cmd = "SET") then (<[k := v]> m, Some (REDIS_REPLY_STATUS "OK"))
        else (m, Some (REDIS_REPLY_ERROR None))
    | _ => (m, Some (REDIS_REPLY_ERROR None))
    end;
  redisCommandFormat m _ := (m, Some (REDIS_REPLY_STATUS "OK"));
  errstr _ := "";
|}.

#[export] Instance map_redis_store : @RedisStore map_redis.
Proof.
  refine {| redis_store := fun m : @redis_ctx map_redis => (m : gmap string string) |}.
  - intros m k. by exists m.
  - intros m k v. by exists (<[k := v]> m).
  - intros m k. by exists (delete k m), 1.
Defined.

Definition demo_redis : @RedisEventsPlugin map_redis :=
  @on_load map_redis (fun k => if bool_decide (k = "key_prefix") then Some "app:" else None)
    {| m_ctx := None; m_channel_prefix := ""; m_key_prefix := ""; r_events := [] |}.

Lemma redis_refines_map_witness :
  (@get map_redis (fun _ => false) "k" (@set map_redis (fun _ => false) "k" "v" demo_redis).1).2 = ["v"]
  /\ (@get map_redis (fun _ => false) "k" demo_redis).2 = [""].
Proof.
  split.
  - destruct (@redis_refines_map map_redis map_redis_store
      (@set map_redis (fun _ => false) "k" "v" demo_redis).1 (<["app:k" := "v"]> ∅) "k" "" eq_refl) as [Hg _].
    exact Hg.
  - destruct (@redis_refines_map map_redis map_redis_store demo_redis ∅ "k" "" eq_refl) as [Hg _].
    exact Hg.
Defined.
End RedisCache.
