(* ===== verification/EventSinks.v ===== *)
(** * The event sinks (plugins/events/memory, plugins/events/kafka, plugins/events/rabbitmq)

    The three [IEventSink] plugins: a bounded buffer of the last events, and producers for two
    message brokers.

    - librdkafka and librabbitmq are the classes [Kafka] and [Amqp]; they are stateful, so a call
      returns the new handle.
    - A handle that the plugin has released is [None]; using it is [UndefinedBehaviour].
    - [on_load] returns the state and whether it threw; [core::events::publish] appends to a log;
      [core::logger] is left out. *)

From stdpp Require Import base strings list.
From Stdlib Require Import ZArith Lia Ascii.
From S2P Require Import Prelude Text Postgres.

Open Scope string_scope.
Open Scope list_scope.
Open Scope Z_scope.

Abbreviation Event := (string * string)%type.

(** ** The in-memory sink *)

Module Memory.

Record MemoryEventsPlugin := { m_recent : list Event; m_max_events : Z }.

Definition new_sink : MemoryEventsPlugin := {| m_recent := []; m_max_events := 200 |}.

Definition on_load (cfg : string -> option string) (p : MemoryEventsPlugin) : MemoryEventsPlugin :=
  {| m_recent := m_recent p;
     m_max_events := default 200 (stoul (chars (default "200" (cfg "max_events")))) |}.

(** [while (m_recent.size() > m_max_events) m_recent.pop_front();] *)
Fixpoint trim (max : Z) (recent : list Event) : list Event :=
  match recent with
  | [] => []
  | _ :: rest => if max <? Z.of_nat (length recent) then trim max rest else recent
  end.

Definition publish (event_name payload_json : string) (p : MemoryEventsPlugin) : MemoryEventsPlugin :=
  {| m_recent := trim (m_max_events p) (m_recent p ++ [(event_name, payload_json)]);
     m_max_events := m_max_events p |}.

Definition publish_all (events : list Event) (p : MemoryEventsPlugin) : MemoryEventsPlugin :=
  foldl (fun p e => publish e.1 e.2 p) p events.

Lemma trim_drop max l : 0 <= max -> trim max l = drop (length l - Z.to_nat max) l.
Proof.
  intros Hm. induction l as [|e l IH]; [by destruct (_ - _)%nat|]. cbn [trim].
  destruct (Z.ltb_spec max (Z.of_nat (length (e :: l)))) as [Hlt|Hge].
  - rewrite IH. cbn [length] in *. replace (S (length l) - Z.to_nat max)%nat
      with (S (length l - Z.to_nat max)) by lia. done.
  - replace (length (e :: l) - Z.to_nat max)%nat with 0%nat by lia. done.
Qed.

(** What a run of publications leaves in the buffer. *)
Lemma publish_all_drop events p :
  0 <= m_max_events p -> Z.of_nat (length (m_recent p)) <= m_max_events p ->
  m_max_events (publish_all events p) = m_max_events p
  /\ m_recent (publish_all events p)
     = drop (length (m_recent p ++ events) - Z.to_nat (m_max_events p)) (m_recent p ++ events).
Proof.
  revert p. induction events as [|[name payload] events IH]; intros p Hp Hl; cbn [publish_all foldl].
  - split; [done|]. rewrite app_nil_r.
    replace (length (m_recent p) - Z.to_nat (m_max_events p))%nat with 0%nat by lia. done.
  - assert (Hq : m_recent (publish name payload p) = drop (length (m_recent p ++ [(name, payload)])
      - Z.to_nat (m_max_events p)) (m_recent p ++ [(name, payload)])) by by apply trim_drop.
    destruct (IH (publish name payload p) Hp) as [IHm IHr].
    { rewrite Hq, length_drop, length_app. cbn. lia. }
    split; [done|]. unfold publish_all in IHr. cbn [fst snd]. rewrite IHr, Hq. cbn [m_max_events publish].
    clear. set (q := m_recent p ++ [(name, payload)]).
    replace (m_recent p ++ (name, payload) :: events) with (q ++ events)
      by (unfold q; by rewrite <- app_assoc).
    rewrite <- (drop_app_le q events) by lia. rewrite drop_drop, length_drop, length_app.
    f_equal. lia.
Qed.

(** After any publications the buffer holds exactly the most recent [max_events] of them, in
    order (all of them while there are no more than that): it never grows past its bound, and it
    only ever drops the oldest. *)
Theorem memory_keeps_last cfg events :
  let p := publish_all events (on_load cfg new_sink) in
  m_recent p = drop (length events - Z.to_nat (m_max_events p)) events
  /\ Z.of_nat (length (m_recent p)) <= m_max_events p.
Proof.
  cbv zeta. set (p0 := on_load cfg new_sink).
  assert (Hmax : 0 <= m_max_events p0).
  { unfold p0, on_load. cbn [m_max_events]. destruct (stoul _) as [z|] eqn:E; cbn; [|lia].
    by apply stoul_range in E as [? _]. }
  destruct (publish_all_drop events p0 Hmax ltac:(done)) as [Hm Hr].
  change (m_recent p0 ++ events) with events in Hr. rewrite Hm, Hr. split; [done|].
  rewrite length_drop. lia.
Qed.
End Memory.

(** ** Kafka *)

Module KafkaSink.

Class Kafka := {
  producer : Type;
  (** The error of [rd_kafka_conf_set], if any. *)
  rd_kafka_conf_set : string -> option string;
  rd_kafka_new : string -> producer + string;
  rd_kafka_producev : producer -> string -> string -> string -> producer * bool;
  rd_kafka_poll : producer -> producer;
}.

Section Plugin.
Context `{Kafka}.

Record KafkaEventsPlugin := {
  m_producer : option producer;
  m_topic : string;
  k_events : list (string * list (string * string));
}.

Definition new_sink : KafkaEventsPlugin := {| m_producer := None; m_topic := ""; k_events := [] |}.

(** The second component is the message of the exception thrown, if one is. *)
Definition on_load (cfg : string -> option string) (p : KafkaEventsPlugin)
    : KafkaEventsPlugin * option string :=
  let topic := default "congelado-events" (cfg "topic") in
  let brokers := default "localhost:9092" (cfg "bootstrap_servers") in
  let state producer events := {| m_producer := producer; m_topic := topic; k_events := k_events p ++ events |} in
  match rd_kafka_conf_set (c_string brokers) with
  | Some error =>
      (state (m_producer p) [("kafka.config_failed", [("error", error)])],
       Some ("kafka: conf_set bootstrap.servers failed: " +:+ error))
  | None =>
      match rd_kafka_new (c_string brokers) with
      | inr error =>
          (state None [("kafka.producer_create_failed", [("error", error)])],
           Some ("kafka: producer creation failed: " +:+ error))
      | inl handle => (state (Some handle) [], None)
      end
  end.

Definition with_producer (h : option producer) (p : KafkaEventsPlugin) : KafkaEventsPlugin :=
  {| m_producer := h; m_topic := m_topic p; k_events := k_events p |}.

(** Flushes and destroys the producer. *)
Definition on_unload (p : KafkaEventsPlugin) : KafkaEventsPlugin :=
  match m_producer p with Some _ => with_producer None p | None => p end.

Definition publish (event_name payload_json : string) (p : KafkaEventsPlugin) : result KafkaEventsPlugin :=
  match m_producer p with
  | None => Ok p
  | Some handle =>
      let '(handle', ok) := rd_kafka_producev handle (c_string (m_topic p)) event_name payload_json in
      Ok (with_producer (Some (if ok then rd_kafka_poll handle' else handle')) p)
  end.
End Plugin.
Arguments KafkaEventsPlugin : clear implicits.
Arguments KafkaEventsPlugin {_}.
End KafkaSink.

(** ** RabbitMQ *)

Module RabbitSink.

Class Amqp := {
  amqp_conn : Type;
  amqp_new_connection : amqp_conn;
  (** Opens a socket on the connection; [false] when there is none or it does not open. *)
  amqp_open : amqp_conn -> string -> Z -> amqp_conn * bool;
  amqp_login : amqp_conn -> string -> string -> string -> amqp_conn * bool;
  amqp_channel_open : amqp_conn -> amqp_conn * bool;
  amqp_basic_publish : amqp_conn -> string -> string -> string -> amqp_conn * Z;
  amqp_close : amqp_conn -> amqp_conn;
}.

Section Plugin.
Context `{Amqp}.

Record RabbitMqEventsPlugin := {
  m_conn : option amqp_conn;
  m_channel_open : bool;
  m_exchange : string;
  a_events : list (string * list (string * string));
}.

Definition new_sink : RabbitMqEventsPlugin :=
  {| m_conn := None; m_channel_open := false; m_exchange := ""; a_events := [] |}.

Definition on_load (cfg : string -> option string) (p : RabbitMqEventsPlugin)
    : RabbitMqEventsPlugin * option string :=
  let get k d := default d (cfg k) in
  let host := get "host" "localhost" in
  let vhost := get "vhost" "/" in
  let user := get "user" "guest" in
  let password := get "password" "guest" in
  let port := default 5672 (stoi (chars (get "port" "5672"))) in
  let state conn channel_open events :=
    {| m_conn := Some conn; m_channel_open := channel_open; m_exchange := get "exchange" "";
       a_events := a_events p ++ events |} in
  let '(c1, opened) := amqp_open amqp_new_connection (c_string host) port in
  if negb opened then
    (state c1 (m_channel_open p) [("rabbitmq.connect_failed", [("host", host); ("port", to_string port)])],
     Some ("rabbitmq: connect to " +:+ host +:+ ":" +:+ to_string port +:+ " failed"))
  else
    let '(c2, logged_in) := amqp_login c1 (c_string vhost) (c_string user) (c_string password) in
    if negb logged_in then
      (state c2 (m_channel_open p)
         [("rabbitmq.login_failed", [("host", host); ("port", to_string port); ("vhost", vhost)])],
       Some ("rabbitmq: login to " +:+ host +:+ ":" +:+ to_string port +:+ vhost +:+ " failed"))
    else
      let '(c3, channel) := amqp_channel_open c2 in
      if negb channel then
        (state c3 (m_channel_open p) [("rabbitmq.channel_open_failed", [])],
         Some "rabbitmq: channel open failed")
      else (state c3 true [], None).

(** A call on the connection; a null connection is undefined. *)
Definition on_conn {A} (f : amqp_conn -> A) (p : RabbitMqEventsPlugin) : result A :=
  match m_conn p with Some conn => Ok (f conn) | None => Err UndefinedBehaviour end.

Definition on_unload (p : RabbitMqEventsPlugin) : result RabbitMqEventsPlugin :=
  _ ← (if m_channel_open p then on_conn amqp_close p else Ok amqp_new_connection);
  Ok {| m_conn := None; m_channel_open := m_channel_open p; m_exchange := m_exchange p;
        a_events := a_events p |}.

Definition publish (event_name payload_json : string) (p : RabbitMqEventsPlugin)
    : result RabbitMqEventsPlugin :=
  if negb (m_channel_open p) then Ok p
  else
    r ← on_conn (fun conn => amqp_basic_publish conn (c_string (m_exchange p)) (c_string event_name)
                               (c_string payload_json)) p;
    Ok {| m_conn := Some r.1; m_channel_open := true; m_exchange := m_exchange p; a_events := a_events p |}.
End Plugin.
Arguments RabbitMqEventsPlugin : clear implicits.
Arguments RabbitMqEventsPlugin {_}.

(** A loaded sink publishes without touching a released connection, but after [on_unload] the
    channel still counts as open while the connection is gone: publishing, or unloading again, uses
    a null connection. *)
Theorem rabbit_unload_keeps_channel `{Amqp} cfg p e payload :
  on_load cfg new_sink = (p, None) ->
  (exists p', publish e payload p = Ok p')
  /\ exists q, on_unload p = Ok q /\ m_conn q = None
       /\ publish e payload q = Err UndefinedBehaviour
       /\ on_unload q = Err UndefinedBehaviour.
Proof.
  unfold on_load. intros Hload.
  destruct (amqp_open _ _ _) as [c1 []]; [|done]. cbn [negb] in Hload.
  destruct (amqp_login _ _ _ _) as [c2 []]; [|done]. cbn [negb] in Hload.
  destruct (amqp_channel_open c2) as [c3 []]; [|done]. injection Hload as <-.
  split; [by eexists|]. eexists. split; [done|]. done.
Qed.

Definition demo_amqp : Amqp := {|
  amqp_conn := unit; amqp_new_connection := tt; amqp_open c _ _ := (c, true);
  amqp_login c _ _ _ := (c, true); amqp_channel_open c := (c, true);
  amqp_basic_publish c _ _ _ := (c, 0); amqp_close c := c;
|}.

Lemma rabbit_unload_keeps_channel_witness :
  exists q, @on_unload demo_amqp (@on_load demo_amqp (fun _ => None) (@new_sink demo_amqp)).1 = Ok q
    /\ @publish demo_amqp "e" "{}" q = Err UndefinedBehaviour.
Proof.
  destruct (@rabbit_unload_keeps_channel demo_amqp (fun _ => None) _ "e" "{}" eq_refl)
    as (_ & q & Hu & _ & Hp & _).
  exists q. exact (conj Hu Hp).
Defined.
End RabbitSink.
