(* ===== verification/Otel.v ===== *)
(** * The OpenTelemetry exporter (plugins/extensions/otel_otlp/bin/otel_otlp_plugin.cc)

    [OtelOtlpPlugin] turns the spans, metrics and log records of the process into calls of the
    opentelemetry SDK, and refuses to load unless all three endpoints answer.

    - [Module Probe]: [EndpointProbe], over the sockets of one attempt.  What the operating system
      answers is the class [Net], by address: the code opens one socket per address and closes it
      before the next.  Every system call is in the trace.
    - [Module Backend]: the wrappers the host calls; a wrapper's effect is the SDK call it makes.  An
      exception of the SDK is swallowed by the wrappers that are [noexcept], so they have no other
      outcome.
    - [Module Plugin]: loading and unloading, with the SDK calls in order.
    - The formatting of a double is a parameter; [core::logger] is left out; [core::events::publish]
      appends to a log. *)

From stdpp Require Import base gmap strings list.
From Stdlib Require Import ZArith Lia Ascii.
From S2P Require Import Prelude Text.

Open Scope string_scope.
Open Scope list_scope.
Open Scope Z_scope.

(** ** The endpoint probe *)

Module Probe.

Record UrlParts := { host : text; port : text; path : text; is_https : bool }.

(** [std::string_view::rfind] of a character. *)
Fixpoint rfind_char (c : ascii) (t : text) : option nat :=
  match t with
  | [] => None
  | d :: t' =>
      match rfind_char c t' with
      | Some i => Some (S i)
      | None => if eqc d c then Some O else None
      end
  end.

Definition colon : ascii := ":"%char.
Definition slash : ascii := "/"%char.
Definition space : ascii := " "%char.

Definition parse_url (url : text) : UrlParts :=
  let is_https := is_prefix (chars "https://") url in
  let view := match find_sub (chars "://") url with Some scheme => drop (scheme + 3) url | None => url end in
  let '(authority, path) :=
    match find_char slash view with
    | Some i => (take i view, drop i view)
    | None => (view, [slash])
    end in
  match rfind_char colon authority with
  | Some i => {| host := take i authority; port := drop (S i) authority; path := path; is_https := is_https |}
  | None =>
      {| host := authority; port := chars (if is_https then "443" else "80"); path := path;
         is_https := is_https |}
  end.

(** [to_timeval], of a number of milliseconds: seconds and microseconds. *)
Definition to_timeval (timeout : Z) : Z * Z := (Z.quot timeout 1000, Z.rem timeout 1000 * 1000).

#[local] Arguments to_timeval : simpl never.

(** ** The operating system *)

(** [connect] on a socket that does not block. *)
Inductive connecting := Connected | InProgress | Refused.

Class Net := {
  addrinfo : Type;
  getaddrinfo : text -> text -> option (list addrinfo);
  socket : addrinfo -> bool;
  connect : addrinfo -> connecting;
  (** What [select] returns, and the pending error of [getsockopt], unless that call fails. *)
  select : addrinfo -> Z * Z -> Z;
  getsockopt : addrinfo -> option Z;
  send : addrinfo -> text -> Z;
  (** The octets the first [recv] finds; none for a failure, a timeout or the end of the stream. *)
  recv : addrinfo -> text;
}.

Inductive syscall {N : Net} :=
  | Getaddrinfo
  | Socket (a : addrinfo)
  | SetNonblocking (a : addrinfo)
  | Connect (a : addrinfo)
  | Select (a : addrinfo) (deadline : Z * Z)
  | Getsockopt (a : addrinfo)
  | SetBlocking (a : addrinfo)
  | SetDeadlines (a : addrinfo) (deadline : Z * Z)
  | Send (a : addrinfo) (request : text)
  | Recv (a : addrinfo)
  | Close (a : addrinfo)
  | Freeaddrinfo.

Section Reachable.
Context {N : Net}.

Definition connect_with_timeout (a : addrinfo) (timeout : Z) : bool * list syscall :=
  let calls := [SetNonblocking a; Connect a] in
  match connect a with
  | Connected => (true, calls)
  | Refused => (false, calls)
  | InProgress =>
      let deadline := to_timeval timeout in
      let calls := calls ++ [Select a deadline] in
      if select a deadline <=? 0 then (false, calls)
      else
        let calls := calls ++ [Getsockopt a] in
        match getsockopt a with
        | None => (false, calls)
        | Some socket_error => (socket_error =? 0, calls)
        end
  end.

Definition crlf : text := ["013"%char; "010"%char].

Definition request_text (parts : UrlParts) : text :=
  chars "POST " ++ path parts ++ chars " HTTP/1.1" ++ crlf
  ++ chars "Host: " ++ host parts ++ crlf
  ++ chars "Content-Type: application/x-protobuf" ++ crlf
  ++ chars "Content-Length: 0" ++ crlf
  ++ chars "Connection: close" ++ crlf ++ crlf.

(** The verdict on what was received; the buffer has 64 octets and the last one stays zero. *)
Definition status_ok (received : text) : bool :=
  let response := take 63 received in
  match find_char space response with
  | None => false
  | Some i =>
      if (length response <? i + 4)%nat then false
      else negb (bool_decide (take 3 (drop (S i) response) = chars "404"))
  end.

Definition http_ok (a : addrinfo) (parts : UrlParts) (timeout : Z) : bool * list syscall :=
  let deadline := to_timeval timeout in
  let request := request_text parts in
  let calls := [SetBlocking a; SetDeadlines a deadline; Send a request] in
  if send a request <? 0 then (false, calls)
  else
    let calls := calls ++ [Recv a] in
    if bool_decide (recv a = []) then (false, calls) else (status_ok (recv a), calls).

(** One round of the loop over the addresses: [None] when there is no socket. *)
Definition try_address (parts : UrlParts) (timeout : Z) (a : addrinfo) : bool * list syscall :=
  if socket a then
    let '(connected, calls) := connect_with_timeout a timeout in
    let '(ok, calls') :=
      if connected then if is_https parts then (true, []) else http_ok a parts timeout else (false, []) in
    (ok, Socket a :: calls ++ calls' ++ [Close a])
  else (false, [Socket a]).

Fixpoint try_addresses (parts : UrlParts) (timeout : Z) (addrs : list addrinfo) : bool * list syscall :=
  match addrs with
  | [] => (false, [])
  | a :: rest =>
      let '(ok, calls) := try_address parts timeout a in
      if ok then (true, calls)
      else let '(ok', calls') := try_addresses parts timeout rest in (ok', calls ++ calls')
  end.

Definition reachable (url : text) (timeout : Z) : bool * list syscall :=
  let parts := parse_url url in
  if bool_decide (host parts = []) || bool_decide (port parts = []) then (false, [])
  else
    match getaddrinfo (c_str (host parts)) (c_str (port parts)) with
    | None => (false, [Getaddrinfo])
    | Some addrs =>
        let '(ok, calls) := try_addresses parts timeout addrs in
        (ok, Getaddrinfo :: calls ++ [Freeaddrinfo])
    end.
End Reachable.

#[local] Arguments request_text : simpl never.

(** ** What the probe decides *)

(** An address behind which something answers. *)
Definition accepts {N : Net} (parts : UrlParts) (timeout : Z) (a : addrinfo) : Prop :=
  socket a = true
  /\ (connect a = Connected
      \/ connect a = InProgress /\ 0 < select a (to_timeval timeout) /\ getsockopt a = Some 0)
  /\ (is_https parts = true
      \/ 0 <= send a (request_text parts) /\ recv a <> [] /\ status_ok (recv a) = true).

Lemma connect_with_timeout_true {N : Net} a timeout :
  (connect_with_timeout a timeout).1 = true <->
  connect a = Connected \/ connect a = InProgress /\ 0 < select a (to_timeval timeout) /\ getsockopt a = Some 0.
Proof.
  unfold connect_with_timeout. destruct (connect a) eqn:Ec; cbn; [naive_solver| |naive_solver].
  destruct (Z.leb_spec (select a (to_timeval timeout)) 0); cbn;
    [split; [done|intros [?|(_ & ? & _)]; [done|lia]]|].
  destruct (getsockopt a) as [e|]; cbn; [|naive_solver]. rewrite Z.eqb_eq. naive_solver.
Qed.

Lemma http_ok_true {N : Net} a parts timeout :
  (http_ok a parts timeout).1 = true <->
  0 <= send a (request_text parts) /\ recv a <> [] /\ status_ok (recv a) = true.
Proof.
  unfold http_ok. destruct (Z.ltb_spec (send a (request_text parts)) 0); cbn; [split; [done|intros [? _]; lia]|].
  case_bool_decide; cbn; naive_solver.
Qed.

Lemma try_address_true {N : Net} parts timeout a :
  (try_address parts timeout a).1 = true <-> accepts parts timeout a.
Proof.
  unfold try_address, accepts. rewrite <- connect_with_timeout_true, <- (http_ok_true a parts timeout).
  destruct (socket a); [|split; [done|by intros (? & _)]].
  destruct (connect_with_timeout a timeout) as [[|] calls], (http_ok a parts timeout) as [ok calls'],
    (is_https parts); cbn; naive_solver.
Qed.

Lemma try_addresses_true {N : Net} parts timeout addrs :
  (try_addresses parts timeout addrs).1 = true <-> exists a, a ∈ addrs /\ accepts parts timeout a.
Proof.
  induction addrs as [|a addrs IH]; cbn.
  { split; [done|]. intros (a & Ha & _). by apply not_elem_of_nil in Ha. }
  pose proof (try_address_true parts timeout a) as Ht.
  destruct (try_address parts timeout a) as [[|] calls]; cbn in *.
  - split; [intros _; exists a; split; [by left|by apply Ht]|done].
  - destruct (try_addresses parts timeout addrs) as [ok calls']; cbn in *. rewrite IH. split.
    + intros (b & Hb & Hacc). exists b. split; [by right|done].
    + intros (b & [->|Hb]%elem_of_cons & Hacc); [by apply Ht in Hacc|]. by exists b.
Qed.

(** The probe reports an endpoint reachable exactly when its URL names a host and a port, the
    name resolves, and one of its addresses accepts a connection in time and, unless the scheme is
    https, answers the request with a status line whose code is not 404. *)
Theorem reachable_iff_answers {N : Net} url timeout :
  let parts := parse_url url in
  (reachable url timeout).1 = true <->
  host parts <> [] /\ port parts <> []
  /\ exists addrs a, getaddrinfo (c_str (host parts)) (c_str (port parts)) = Some addrs
       /\ a ∈ addrs /\ accepts parts timeout a.
Proof.
  cbv zeta. unfold reachable. do 2 case_bool_decide; cbn; [naive_solver..|].
  destruct (getaddrinfo _ _) as [addrs|]; cbn; [|naive_solver].
  pose proof (try_addresses_true (parse_url url) timeout addrs) as Ht.
  destruct (try_addresses _ _ _) as [ok calls]; cbn in *. rewrite Ht. naive_solver.
Qed.

(** ** URLs and status lines *)

Lemma rfind_char_none c t : c ∉ t -> rfind_char c t = None.
Proof.
  induction t as [|d t IH]; intros H; cbn; [done|]. apply not_elem_of_cons in H as [Hd Ht].
  rewrite IH by done. by rewrite (proj2 (eqc_false _ _)) by congruence.
Qed.

Lemma rfind_char_app c pre rest : c ∉ rest -> rfind_char c (pre ++ c :: rest) = Some (length pre).
Proof.
  intros H. induction pre as [|d pre IH]; cbn.
  - by rewrite rfind_char_none, eqc_refl.
  - by rewrite IH.
Qed.

Lemma drop_past (c : ascii) pre rest : drop (S (length pre)) (pre ++ c :: rest) = rest.
Proof. by induction pre. Qed.

(** A URL as it is written: the port and the path may be left out. *)
Definition url_text (https : bool) (h : text) (p : option text) (rest : text) : text :=
  chars (if https then "https" else "http") ++ chars "://" ++ h
  ++ match p with Some p => colon :: p | None => [] end ++ rest.

(** A URL is split into what it was written from: the scheme, the host, the port - the
    scheme's own when it is left out - and the path, [/] when there is none.  A host that contains
    colons needs its port. *)
Theorem parse_url_written https h p rest :
  slash ∉ h -> (forall port, p = Some port -> colon ∉ port /\ slash ∉ port) -> (p = None -> colon ∉ h) ->
  (rest = [] \/ head rest = Some slash) ->
  parse_url (url_text https h p rest)
  = {| host := h; port := default (chars (if https then "443" else "80")) p;
       path := if decide (rest = []) then [slash] else rest; is_https := https |}.
Proof.
  intros Hh Hp Hnone Hrest. set (authority := h ++ match p with Some p => colon :: p | None => [] end).
  assert (Ha : slash ∉ authority).
  { unfold authority. rewrite elem_of_app. intros [?|Hin]; [done|]. destruct p as [p|].
    - apply elem_of_cons in Hin as [?|Hin]; [done|]. by destruct (Hp p eq_refl).
    - by apply not_elem_of_nil in Hin. }
  assert (Hu : url_text https h p rest = chars (if https then "https" else "http") ++ chars "://" ++ authority ++ rest)
    by (unfold url_text, authority; by rewrite <- !app_assoc).
  assert (Hs : is_prefix (chars "https://") (url_text https h p rest) = https) by (rewrite Hu; by destruct https).
  assert (Hv : match find_sub (chars "://") (url_text https h p rest) with
               | Some scheme => drop (scheme + 3) (url_text https h p rest)
               | None => url_text https h p rest end = authority ++ rest) by (rewrite Hu; by destruct https).
  unfold parse_url. rewrite Hs, Hv.
  assert (Hcut : match find_char slash (authority ++ rest) with
                 | Some i => (take i (authority ++ rest), drop i (authority ++ rest))
                 | None => (authority ++ rest, [slash])
                 end = (authority, if decide (rest = []) then [slash] else rest)).
  { destruct Hrest as [->|Hrest].
    - rewrite app_nil_r, decide_True by done. by rewrite (proj2 (find_char_None _ _)).
    - destruct rest as [|d rest]; [done|]. injection Hrest as ->.
      rewrite find_char_app, take_app_length, drop_app_length by done. by rewrite decide_False. }
  rewrite Hcut. unfold authority. destruct p as [p|].
  - destruct (Hp p eq_refl) as [Hc _]. rewrite rfind_char_app by done.
    by rewrite take_app_length, drop_past.
  - rewrite app_nil_r, rfind_char_none by by apply Hnone. done.
Qed.

Lemma parse_url_written_witness :
  parse_url (url_text false (chars "loki") (Some (chars "3100")) (chars "/otlp/v1/logs"))
  = {| host := chars "loki"; port := chars "3100"; path := chars "/otlp/v1/logs"; is_https := false |}.
Proof.
  apply (parse_url_written false (chars "loki") (Some (chars "3100")) (chars "/otlp/v1/logs")).
  - by apply find_char_None.
  - intros port [= <-]. split; by apply find_char_None.
  - done.
  - by right.
Defined.

(** A host with colons and no port loses its last group to the port. *)
Example bare_ipv6_host :
  parse_url (chars "http://[::1]/v1") = {| host := chars "[:"; port := chars "1]"; path := chars "/v1"; is_https := false |}.
Proof. reflexivity. Qed.

(** A status line that arrives in one piece is judged by its code alone. *)
Lemma status_ok_line version status rest :
  space ∉ version -> length status = 3%nat -> (length version + 4 <= 63)%nat ->
  status_ok (version ++ space :: status ++ rest) = negb (bool_decide (status = chars "404")).
Proof.
  intros Hv Hs Hl. unfold status_ok.
  assert (Ht : take 63 (version ++ space :: status ++ rest)
               = version ++ space :: status ++ take (63 - (length version + 4)) rest).
  { rewrite take_app_ge by lia. f_equal. replace (63 - length version)%nat with (S (62 - length version)) by lia.
    cbn. f_equal. rewrite take_app_ge by lia. do 2 f_equal. lia. }
  rewrite Ht, find_char_app by done. rewrite (proj2 (Nat.ltb_ge _ _)) by (rewrite length_app; cbn; rewrite length_app; lia).
  rewrite drop_past. by rewrite <- Hs, take_app_length.
Qed.

(** A response whose first octets end before the code is not believed. *)
Example short_read : status_ok (chars "HTTP/1.1 20") = false.
Proof. reflexivity. Qed.

(** ** How the probe uses the system *)

(** What is held: the address list, and a socket with its mode. *)
Inductive held {N : Net} :=
  | Nothing
  | Addresses
  | Fresh (a : addrinfo)
  | Nonblocking (a : addrinfo)
  | Unbounded (a : addrinfo)
  | Bounded (a : addrinfo).

(** The discipline: a call that can wait needs a socket that does not block or has the deadlines of
    the probe, and one socket is closed before the next is opened. *)
Inductive use {N : Net} (timeout : Z) : held -> syscall -> held -> Prop :=
  | use_lookup : use timeout Nothing Getaddrinfo Addresses
  | use_lookup_failed : use timeout Nothing Getaddrinfo Nothing
  | use_free : use timeout Addresses Freeaddrinfo Nothing
  | use_socket a : use timeout Addresses (Socket a) (Fresh a)
  | use_no_socket a : socket a = false -> use timeout Addresses (Socket a) Addresses
  | use_nonblocking a : use timeout (Fresh a) (SetNonblocking a) (Nonblocking a)
  | use_connect a : use timeout (Nonblocking a) (Connect a) (Nonblocking a)
  | use_select a : use timeout (Nonblocking a) (Select a (to_timeval timeout)) (Nonblocking a)
  | use_getsockopt a : use timeout (Nonblocking a) (Getsockopt a) (Nonblocking a)
  | use_blocking a : use timeout (Nonblocking a) (SetBlocking a) (Unbounded a)
  | use_deadlines a : use timeout (Unbounded a) (SetDeadlines a (to_timeval timeout)) (Bounded a)
  | use_send a request : use timeout (Bounded a) (Send a request) (Bounded a)
  | use_recv a : use timeout (Bounded a) (Recv a) (Bounded a)
  | use_close_nonblocking a : use timeout (Nonblocking a) (Close a) Addresses
  | use_close a : use timeout (Bounded a) (Close a) Addresses.

Inductive uses {N : Net} (timeout : Z) : held -> list syscall -> held -> Prop :=
  | uses_nil h : uses timeout h [] h
  | uses_cons h h' h'' c calls :
      use timeout h c h' -> uses timeout h' calls h'' -> uses timeout h (c :: calls) h''.

#[local] Hint Constructors use uses : probe.

Lemma uses_app {N : Net} timeout h h' h'' calls calls' :
  uses timeout h calls h' -> uses timeout h' calls' h'' -> uses timeout h (calls ++ calls') h''.
Proof. induction 1; cbn; eauto with probe. Qed.

Lemma connect_uses {N : Net} timeout a :
  uses timeout (Fresh a) (connect_with_timeout a timeout).2 (Nonblocking a).
Proof.
  unfold connect_with_timeout. destruct (connect a); cbn; eauto with probe.
  destruct (_ <=? 0); cbn; [eauto 6 with probe|]. destruct (getsockopt a); cbn; eauto 8 with probe.
Qed.

Lemma http_uses {N : Net} timeout a parts :
  uses timeout (Nonblocking a) (http_ok a parts timeout).2 (Bounded a).
Proof.
  unfold http_ok. destruct (_ <? 0); cbn; [eauto 6 with probe|].
  case_bool_decide; cbn; eauto 8 with probe.
Qed.

Lemma try_address_uses {N : Net} timeout parts a :
  uses timeout Addresses (try_address parts timeout a).2 Addresses.
Proof.
  unfold try_address. destruct (socket a) eqn:Hs; [|cbn; eauto with probe].
  pose proof (connect_uses timeout a) as Hc. pose proof (http_uses timeout a parts) as Hh.
  destruct (connect_with_timeout a timeout) as [[|] calls], (is_https parts),
    (http_ok a parts timeout) as [ok calls']; cbn in *;
    (eapply uses_cons; [constructor|]; eapply uses_app; [done|]); cbn; eauto with probe.
  eapply uses_app; eauto with probe.
Qed.

Lemma try_addresses_uses {N : Net} timeout parts addrs :
  uses timeout Addresses (try_addresses parts timeout addrs).2 Addresses.
Proof.
  induction addrs as [|a addrs IH]; cbn; [constructor|].
  pose proof (try_address_uses timeout parts a) as Ha.
  destruct (try_address parts timeout a) as [[|] calls]; [done|].
  destruct (try_addresses parts timeout addrs) as [ok calls']. by eapply uses_app.
Qed.

(** Whatever the network answers, the probe waits only in calls its timeout bounds, has at most
    one socket open at a time, and ends with every socket closed and the address list freed. *)
Theorem probe_disciplined {N : Net} url timeout :
  uses timeout Nothing (reachable url timeout).2 Nothing.
Proof.
  unfold reachable. destruct (_ || _); [constructor|].
  destruct (getaddrinfo _ _) as [addrs|]; [|cbn; eauto with probe].
  pose proof (try_addresses_uses timeout (parse_url url) addrs) as Ht.
  destruct (try_addresses _ _ _) as [ok calls]. cbn in *.
  eapply uses_cons; [constructor|]. eapply uses_app; [done|]. eauto with probe.
Qed.
End Probe.

(** ** What the host records *)

Module Backend.

Inductive SpanKind := INTERNAL | SERVER | CLIENT | PRODUCER | CONSUMER.
Inductive SpanStatus := UNSET | OK | ERROR.
(** [SEVERE] and [kErrorLog] are the severities named [ERROR] and [kError]. *)
Inductive LogSeverity := DEBUG | INFO | WARN | SEVERE | FATAL.

(** The SDK's own enumerations. *)
Inductive OtelKind := kInternal | kServer | kClient | kProducer | kConsumer.
Inductive OtelStatus := kUnset | kOk | kError.
Inductive OtelSeverity := kDebug | kInfo | kWarn | kErrorLog | kFatal.

Definition to_otel_kind (kind : SpanKind) : OtelKind :=
  match kind with
  | SERVER => kServer
  | CLIENT => kClient
  | PRODUCER => kProducer
  | CONSUMER => kConsumer
  | INTERNAL => kInternal
  end.

Definition to_otel_status (status : SpanStatus) : OtelStatus :=
  match status with OK => kOk | ERROR => kError | UNSET => kUnset end.

Definition to_otel_severity (severity : LogSeverity) : OtelSeverity :=
  match severity with
  | DEBUG => kDebug
  | INFO => kInfo
  | WARN => kWarn
  | SEVERE => kErrorLog
  | FATAL => kFatal
  end.

Inductive AttributeValue :=
  | AString (s : string)
  | AInt (z : Z)
  | ADouble (bits : Z)
  | ABool (b : bool).

Record Attribute := { key : string; value : AttributeValue }.

(** Octets of the identifiers; all zero stands for none. *)
Record SpanContext := { trace_id : list Z; span_id : list Z; parent_span_id : list Z; sampled : bool }.

Record LogRecord := {
  body : string; severity : LogSeverity; attrs : list Attribute; log_trace_id : list Z;
  log_span_id : list Z;
}.

(** [trace_api::SpanContext]. *)
Record OtelContext := { o_trace_id : list Z; o_span_id : list Z; o_flags : Z; o_is_remote : bool }.

Abbreviation labels := (gmap string string).

Inductive sdk_call :=
  | SetAttribute (key value : string)
  | AddEvent (name : string) (attrs : labels)
  | SetStatus (status : OtelStatus) (description : string)
  | End
  | StartSpan (name : string) (attrs : labels) (kind : OtelKind) (parent : option OtelContext)
  | Add (value : Z) (attrs : labels)
  | RecordValue (value : Z) (attrs : labels)
  | CreateDoubleCounter (name description unit : string)
  | CreateDoubleHistogram (name description unit : string)
  | Log (severity : OtelSeverity) (body : string)
  | EmitLogRecord (severity : OtelSeverity) (context : OtelContext) (body : string).

Definition ZERO_TRACE : list Z := replicate 16 0.
Definition ZERO_SPAN : list Z := replicate 8 0.

(** [std::to_integer<std::uint8_t>] of every octet. *)
Definition to_u8 (bytes : list Z) : list Z := u8 <$> bytes.

Section Backend.
Context (format_double : Z -> string).

Definition attribute_to_string (v : AttributeValue) : string :=
  match v with
  | AString held => held
  | ABool held => if held then "true" else "false"
  | AInt held => to_string held
  | ADouble held => format_double held
  end.

Definition to_label_map (attrs : list Attribute) : labels :=
  foldl (fun out attr => <[key attr := attribute_to_string (value attr)]> out) ∅ attrs.

(** [SpanWrapper]. *)
Definition set_attribute (key : string) (value : AttributeValue) : sdk_call :=
  SetAttribute key (attribute_to_string value).
Definition add_event (name : string) (attrs : list Attribute) : sdk_call :=
  AddEvent name (to_label_map attrs).
Definition set_status (status : SpanStatus) (description : string) : sdk_call :=
  SetStatus (to_otel_status status) description.
Definition end_ : sdk_call := End.

(** [TracerBackend::start_span]. *)
Definition start_span (name : string) (kind : SpanKind) (ctx : SpanContext) (attrs : list Attribute) :
  sdk_call :=
  let parent :=
    if bool_decide (parent_span_id ctx = ZERO_SPAN) then None
    else Some {| o_trace_id := to_u8 (trace_id ctx); o_span_id := to_u8 (parent_span_id ctx);
                 o_flags := if sampled ctx then 1 else 0; o_is_remote := true |} in
  StartSpan name (to_label_map attrs) (to_otel_kind kind) parent.

(** [CounterBackend], [HistogramBackend] and [MeterBackend]. *)
Definition add (value : Z) (attrs : list Attribute) : sdk_call := Add value (to_label_map attrs).
Definition record (value : Z) (attrs : list Attribute) : sdk_call := RecordValue value (to_label_map attrs).
Definition create_counter (name description unit : string) : sdk_call :=
  CreateDoubleCounter name description unit.
Definition create_histogram (name description unit : string) : sdk_call :=
  CreateDoubleHistogram name description unit.

(** [LogBackend::emit]; a default [TraceFlags] has no bit set. *)
Definition emit (r : LogRecord) : sdk_call :=
  if bool_decide (log_trace_id r = ZERO_TRACE) then Log (to_otel_severity (severity r)) (body r)
  else
    EmitLogRecord (to_otel_severity (severity r))
      {| o_trace_id := to_u8 (log_trace_id r); o_span_id := to_u8 (log_span_id r); o_flags := 0;
         o_is_remote := true |} (body r).

(** ** The logging exporters *)

Abbreviation Event := (string * list (string * string))%type.

Definition kSuccess : Z := 0.

(** [Export] of the three decorators; [result] is the inner exporter's. *)
Definition export (event : string) (count result : Z) : Z * list Event :=
  (result,
   if result =? kSuccess then []
   else [(event, [("count", to_string count); ("result", to_string result)])]).

Definition export_spans (count : Z) : Z -> Z * list Event := export "otel_otlp.traces_export_failed" count.
(** The metrics of a batch are counted over its scopes. *)
Definition export_metrics (scopes : list nat) : Z -> Z * list Event :=
  export "otel_otlp.metrics_export_failed" (Z.of_nat (foldl Nat.add 0%nat scopes)).
Definition export_logs (count : Z) : Z -> Z * list Event := export "otel_otlp.logs_export_failed" count.

(** ** Theory *)

(** An attribute list becomes one label per key, with the text of the last attribute that has
    the key. *)
Theorem to_label_map_last attrs k :
  to_label_map attrs !! k
  = attribute_to_string ∘ value <$> last (base.filter (fun a => key a = k) attrs).
Proof.
  unfold to_label_map. induction attrs as [|a attrs IH] using rev_ind; [done|].
  rewrite foldl_app, filter_app. cbn [foldl]. destruct (decide (key a = k)) as [<-|Hk].
  - rewrite lookup_insert_eq, filter_cons_True, filter_nil by done. by rewrite last_snoc.
  - by rewrite lookup_insert_ne, filter_cons_False, filter_nil, app_nil_r by done.
Qed.

(** The attributes of a log record do not reach the SDK. *)
Lemma emit_drops_attributes b sev attrs attrs' t s :
  emit {| body := b; severity := sev; attrs := attrs; log_trace_id := t; log_span_id := s |}
  = emit {| body := b; severity := sev; attrs := attrs'; log_trace_id := t; log_span_id := s |}.
Proof. reflexivity. Qed.

(** A span with a parent carries its trace and the decision to sample it. *)
Lemma start_span_parent name kind ctx attrs :
  Forall is_byte (trace_id ctx) -> Forall is_byte (parent_span_id ctx) -> parent_span_id ctx <> ZERO_SPAN ->
  start_span name kind ctx attrs
  = StartSpan name (to_label_map attrs) (to_otel_kind kind)
      (Some {| o_trace_id := trace_id ctx; o_span_id := parent_span_id ctx;
               o_flags := Z.b2z (sampled ctx); o_is_remote := true |}).
Proof.
  assert (Hu : forall l, Forall is_byte l -> to_u8 l = l).
  { intros l Hl. unfold to_u8. rewrite <- (list_fmap_id l) at 2. apply list_fmap_ext.
    intros i x Hx. apply u8_small. by eapply Forall_lookup_1. }
  intros Ht Hp Hz. unfold start_span. rewrite bool_decide_false, !Hu by done. by destruct (sampled ctx).
Qed.

(** A root span is started under no identifier: the trace and span identifiers it was given,
    and whether it is sampled, do not reach the SDK, so the spans of different providers cannot
    agree on them. *)
Theorem root_span_ignores_ids name kind attrs ctx ctx' :
  parent_span_id ctx = ZERO_SPAN -> parent_span_id ctx' = ZERO_SPAN ->
  start_span name kind ctx attrs = start_span name kind ctx' attrs.
Proof. intros H H'. unfold start_span. by rewrite H, H'. Qed.
End Backend.

Lemma root_span_ignores_ids_witness :
  start_span (fun _ => "") "op" SERVER
    {| trace_id := replicate 16 1; span_id := replicate 8 2; parent_span_id := ZERO_SPAN; sampled := true |} []
  = start_span (fun _ => "") "op" SERVER
    {| trace_id := replicate 16 3; span_id := replicate 8 4; parent_span_id := ZERO_SPAN; sampled := false |} [].
Proof. by apply root_span_ignores_ids. Defined.
End Backend.

(** ** Loading and unloading *)

Module Plugin.

Inductive signal := Traces | Metrics | Logs.

#[export] Instance signal_eq_dec : EqDecision signal.
Proof. solve_decision. Defined.

Definition signal_name (s : signal) : string :=
  match s with Traces => "traces" | Metrics => "metrics" | Logs => "logs" end.
Definition config_key (s : signal) : string :=
  match s with Traces => "traces_endpoint" | Metrics => "metrics_endpoint" | Logs => "logs_endpoint" end.
Definition suffix (s : signal) : string :=
  match s with Traces => "/v1/traces" | Metrics => "/v1/metrics" | Logs => "/v1/logs" end.

(** A provider of the SDK: where it exports to, and the service it reports as. *)
Record Provider := { p_url : string; p_service : string }.

(** The provider of a signal and the backend built on it. *)
Record Pipeline := { m_provider : option Provider; m_backend : bool }.

Record OtelOtlpPlugin := { m_tracer : Pipeline; m_meter : Pipeline; m_logger : Pipeline }.

Definition no_pipeline : Pipeline := {| m_provider := None; m_backend := false |}.
Definition new_plugin : OtelOtlpPlugin :=
  {| m_tracer := no_pipeline; m_meter := no_pipeline; m_logger := no_pipeline |}.

Definition pipeline (p : OtelOtlpPlugin) (s : signal) : Pipeline :=
  match s with Traces => m_tracer p | Metrics => m_meter p | Logs => m_logger p end.

(** [get_tracer_provider], [get_meter_provider], [get_log_provider]: whether there is one. *)
Definition get_provider (p : OtelOtlpPlugin) (s : signal) : bool := m_backend (pipeline p s).

Inductive sdk_event :=
  | SetLogHandler
  | SetLogLevelWarning
  | CreateProvider (s : signal) (provider : Provider)
  | CreateBackend (s : signal)
  | ForceFlush (s : signal) (timeout_s : Z)
  | Shutdown (s : signal) (timeout_s : Z)
  | ReleaseBackend (s : signal)
  | ReleaseProvider (s : signal).

Definition release_backend (s : signal) (l : Pipeline) : list sdk_event :=
  if m_backend l then [ReleaseBackend s] else [].
Definition release_provider (s : signal) (l : Pipeline) : list sdk_event :=
  match m_provider l with Some _ => [ReleaseProvider s] | None => [] end.

(** [setup_traces], [setup_metrics], [setup_logs]: an assignment to a smart pointer releases what it
    held, after the new value was made. *)
Definition setup (s : signal) (endpoint service : string) (l : Pipeline) : Pipeline * list sdk_event :=
  let provider := {| p_url := endpoint; p_service := service |} in
  ({| m_provider := Some provider; m_backend := true |},
   CreateProvider s provider :: release_provider s l ++ CreateBackend s :: release_backend s l).

(** What [on_unload] does for one signal. *)
Definition TIMEOUT : Z := 5.
Definition teardown (s : signal) (l : Pipeline) : Pipeline * list sdk_event :=
  match m_provider l with
  | None => (l, [])
  | Some _ =>
      (no_pipeline, [ForceFlush s TIMEOUT; Shutdown s TIMEOUT] ++ release_backend s l ++ [ReleaseProvider s])
  end.

Definition on_unload (p : OtelOtlpPlugin) : OtelOtlpPlugin * list sdk_event :=
  let '(tracer, calls1) := teardown Traces (m_tracer p) in
  let '(meter, calls2) := teardown Metrics (m_meter p) in
  let '(logger, calls3) := teardown Logs (m_logger p) in
  ({| m_tracer := tracer; m_meter := meter; m_logger := logger |}, calls1 ++ calls2 ++ calls3).

Definition PROBE_TIMEOUT : Z := 2000.

Section Load.
(** The network as each signal's probe finds it. *)
Context (net : signal -> Probe.Net) (cfg : string -> option string).

Definition endpoint : string := default "http://localhost:4318" (cfg "endpoint").
Definition service_name : string := default "congelado" (cfg "service_name").

Definition signal_endpoint (s : signal) : string :=
  default (endpoint +:+ suffix s) (cfg (config_key s)).

Definition probe (s : signal) : bool :=
  (@Probe.reachable (net s) (chars (signal_endpoint s)) PROBE_TIMEOUT).1.

Definition message (s : signal) : string :=
  "otel_otlp: " +:+ signal_name s +:+ " endpoint unreachable: " +:+ signal_endpoint s.

(** [require_signal] of each signal: the message of the first exception. *)
Fixpoint require_signals (signals : list signal) : option string :=
  match signals with
  | [] => None
  | s :: rest => if probe s then require_signals rest else Some (message s)
  end.

(** The plugin, the calls of the SDK and what was thrown. *)
Definition on_load (p : OtelOtlpPlugin) : OtelOtlpPlugin * list sdk_event * option string :=
  let calls := [SetLogHandler; SetLogLevelWarning] in
  match require_signals [Traces; Metrics; Logs] with
  | Some error => (p, calls, Some error)
  | None =>
      let '(tracer, calls1) := setup Traces (signal_endpoint Traces) service_name (m_tracer p) in
      let '(meter, calls2) := setup Metrics (signal_endpoint Metrics) service_name (m_meter p) in
      let '(logger, calls3) := setup Logs (signal_endpoint Logs) service_name (m_logger p) in
      ({| m_tracer := tracer; m_meter := meter; m_logger := logger |},
       calls ++ calls1 ++ calls2 ++ calls3, None)
  end.
End Load.

(** ** Theory *)

(** The calls about one signal. *)
Definition about (s : signal) (e : sdk_event) : Prop :=
  match e with
  | SetLogHandler | SetLogLevelWarning => False
  | CreateProvider s' _ | CreateBackend s' | ForceFlush s' _ | Shutdown s' _
  | ReleaseBackend s' | ReleaseProvider s' => s' = s
  end.

#[local] Instance about_dec s e : Decision (about s e).
Proof. destruct e; cbn; apply _. Defined.

Lemma require_signals_spec net cfg signals :
  match require_signals net cfg signals with
  | None => forall s, s ∈ signals -> probe net cfg s = true
  | Some error => exists before s after, signals = before ++ s :: after
      /\ (forall s', s' ∈ before -> probe net cfg s' = true) /\ probe net cfg s = false
      /\ error = message cfg s
  end.
Proof.
  induction signals as [|s signals IH]; cbn; [by intros s ?%not_elem_of_nil|].
  destruct (probe net cfg s) eqn:Hs.
  - destruct (require_signals net cfg signals).
    + destruct IH as (before & s' & after & -> & Hb & Hs' & ->). exists (s :: before), s', after.
      split_and!; [done| |done|done]. intros s'' [->|?]%elem_of_cons; [done|by apply Hb].
    + intros s' [->|?]%elem_of_cons; [done|by apply IH].
  - exists [], s, signals. split_and!; [done|by intros s' ?%not_elem_of_nil|done|done].
Qed.

(** The plugin loads all of its pipelines or none: when every signal's endpoint is reachable,
    each signal has a provider that exports to its own endpoint under the configured service name;
    otherwise loading throws, names an unreachable endpoint all of whose predecessors are reachable,
    creates nothing and leaves the plugin as it was. *)
Theorem on_load_all_or_nothing net cfg p :
  match on_load net cfg p with
  | (p', calls, None) =>
      forall s, probe net cfg s = true /\ get_provider p' s = true
        /\ m_provider (pipeline p' s)
           = Some {| p_url := signal_endpoint cfg s; p_service := service_name cfg |}
  | (p', calls, Some error) =>
      p' = p /\ (forall s, base.filter (about s) calls = [])
      /\ exists before s after, [Traces; Metrics; Logs] = before ++ s :: after
           /\ (forall s', s' ∈ before -> probe net cfg s' = true) /\ probe net cfg s = false
           /\ error = message cfg s
  end.
Proof.
  unfold on_load. pose proof (require_signals_spec net cfg [Traces; Metrics; Logs]) as Hr.
  destruct (require_signals _ _ _); [split_and!; [done|by intros []|done]|].
  cbn. intros s. split; [apply Hr; destruct s; set_solver|by destruct s].
Qed.

(** A plugin that was loaded, or failed to, and is then unloaded holds nothing.  The calls about
    a signal are none when loading failed; otherwise its provider and backend were created, flushed,
    shut down and released, each once and in this order.  Unloading again does nothing. *)
Theorem load_unload_balanced net cfg :
  let '(p, calls, error) := on_load net cfg new_plugin in
  let '(p', calls') := on_unload p in
  p' = new_plugin /\ on_unload p' = (p', [])
  /\ forall s, base.filter (about s) (calls ++ calls')
     = match error with
       | Some _ => []
       | None => [CreateProvider s {| p_url := signal_endpoint cfg s; p_service := service_name cfg |};
                  CreateBackend s; ForceFlush s TIMEOUT; Shutdown s TIMEOUT; ReleaseBackend s; ReleaseProvider s]
       end.
Proof.
  unfold on_load. generalize (signal_endpoint cfg) (service_name cfg). intros url service.
  destruct (require_signals _ _ _); lazy beta iota zeta delta [on_unload teardown setup new_plugin m_tracer
    m_meter m_logger no_pipeline m_provider m_backend release_backend release_provider app];
    (split_and!; [reflexivity|reflexivity|intros []; reflexivity]).
Qed.
End Plugin.
