(* ===== verification/WorkerManager.v ===== *)
(** * The external worker manager (plugins/manager/worker_external)

    A worker polls the engine for tasks, runs them and posts the results.  [ExternalWorkerManager]
    does so one task at a time ([poll_once]) or in concurrency slots ([poll_slot]), where a task
    may complete later, on another thread.

    - [Module Manager]: the manager's calls to the engine and its workers.  The HTTP client, the
      codecs and the workers themselves are the class [Engine]; the calls are logged.
    - [Module Slot]: one slot as a step relation.  A step is a critical section of the slot's mutex
      or a call between two of them; the completion of a task interleaves with the poller.  The
      functions of the steps are executable and are the code's sections.
    - [core::logger] is left out; the sleep between scans has no state. *)

From stdpp Require Import base gmap strings list relations.
From Stdlib Require Import ZArith Lia.
From S2P Require Import Prelude Text Model.

Open Scope string_scope.
Open Scope list_scope.
Open Scope Z_scope.

Abbreviation output_map := (gmap string string).

(** [interfaces::WorkerResult]: the output, or the message of the error. *)
Abbreviation WorkerResult := (output_map + string)%type.

(** [SKIPPED] is also the name of a task status. *)
Inductive TaskResult := SUCCESS | FAILURE | TIMEOUT | RESULT_SKIPPED.

#[export] Instance TaskResult_eq_dec : EqDecision TaskResult.
Proof. solve_decision. Defined.

Record SubmitResultBody := { result_ : TaskResult; output_data : output_map }.

(** The body that reports a worker's result. *)
Definition has_value (r : WorkerResult) : bool := match r with inl _ => true | inr _ => false end.
Definition result_output (r : WorkerResult) : output_map :=
  match r with inl output => output | inr message => {["error" := message]} end.

(** ** Running a task (plugins/manager/worker_external/src/context.cppm) *)

(** What [execute_async] does with its callback: calls it, any number of times, and possibly
    throws in the end. *)
Record AsyncRun := { calls : list WorkerResult; throws : option string }.

(** [run_task_async]: the results the completion is called with, and the flag it returns. *)
Definition run_task_async (worker : option AsyncRun) : list WorkerResult * bool :=
  match worker with
  | None => ([inr "unregistered worker type"], true)
  | Some run =>
      let '(completed, finished) :=
        foldl (fun '(completed, finished) output =>
                 if finished : bool then (completed, finished) else (completed ++ [output], true))
              ([], false) (calls run) in
      match throws run with
      | None => (completed, finished)
      | Some error => if finished then (completed, true) else (completed ++ [inr error], true)
      end
  end.

(** ** The manager *)

Module Manager.

Class Engine := {
  engine_state : Type;
  (** The response's status and body, or the message of an exception. *)
  call_engine : engine_state -> string -> string -> string -> engine_state * ((Z * string) + string);
  deserialize_task : string -> option (string * output_map);
  serialize_submit : SubmitResultBody -> string;
  run_task : string -> output_map -> WorkerResult;
}.

Record WorkerInfo := { worker_id : string; worker_type : string; alive : bool }.

Section Manager.
Context `{Engine}.

Record State := {
  types : list string;                           (** [get_task_types], in the map's order *)
  engine : engine_state;
  requests : list (string * string * string);    (** method, path and body of the calls *)
}.

Definition call (method path body : string) (s : State) : State * ((Z * string) + string) :=
  let '(e, r) := call_engine (engine s) method path body in
  ({| types := types s; engine := e; requests := requests s ++ [(method, path, body)] |}, r).

(** The poll of one task type: the task handed out, if there is one that parses. *)
Definition poll_type (type : string) (s : State) : State * option (string * output_map) :=
  let '(s1, r) := call "GET" ("/api/v1/tasks/queue/" +:+ type) "" s in
  match r with
  | inr _ => (s1, None)
  | inl (status, body) =>
      if status =? 204 then (s1, None)
      else if negb (status =? 200) then (s1, None)
      else (s1, deserialize_task body)
  end.

Definition submit_result (task_id : string) (success : bool) (output : output_map) (s : State) : State :=
  (call "POST" ("/api/v1/tasks/" +:+ task_id +:+ "/result")
     (serialize_submit {| result_ := if success then SUCCESS else FAILURE; output_data := output |}) s).1.

Definition poll_one (s : State) (type : string) : State :=
  let '(s1, polled) := poll_type type s in
  match polled with
  | None => s1
  | Some (task_id, input) =>
      let output := run_task type input in
      submit_result task_id (has_value output) (result_output output) s1
  end.

Definition poll_once (s : State) : State := foldl poll_one s (types s).

Definition register_defs (path : string) (defs_json : list string) (s : State) : State :=
  foldl (fun s def_json => (call "POST" path def_json s).1) s defs_json.

Definition register_task_defs := register_defs "/api/v1/tasks".
Definition register_workflow_defs := register_defs "/api/v1/workflows".

(** Lifecycle and health. *)
Definition spawn : option string := None.
Definition start (worker_id : string) : bool := true.
Definition stop (worker_id : string) : bool := true.
Definition restart (worker_id : string) : bool := true.

Definition list_workers (s : State) : list WorkerInfo :=
  (fun type => {| worker_id := type; worker_type := type; alive := true |}) <$> types s.

Definition status (id : string) (s : State) : option WorkerInfo :=
  if bool_decide (id ∈ types s) then Some {| worker_id := id; worker_type := id; alive := true |}
  else None.
End Manager.

(** ** The inbound server *)

Record WorkerConfig := {
  c_worker_id : string; c_bind_host : string; c_bind_port : Z; c_engine_cert : string; c_engine_key : string;
}.

Record Server := {
  sv_worker_id : option string;
  sv_fields : list (string * string);
  sv_endpoint : string * Z;
  sv_listening : bool;
}.

(** [start_server]: [None] when the host gave no contract group or leverager; [binds] tells
    whether the listening socket of an endpoint can be opened. *)
Definition start_server (has_group has_leverager : bool) (cfg : option WorkerConfig)
    (binds : string -> Z -> bool) : option Server :=
  if negb has_group || negb has_leverager then None
  else
    let or_default s d := if bool_decide (s = "") then d else s in
    let bind_host := match cfg with Some c => c_bind_host c | None => "0.0.0.0" end in
    let bind_port := match cfg with Some c => c_bind_port c | None => 9091 end in
    let cert := match cfg with Some c => or_default (c_engine_cert c) "server.crt" | None => "server.crt" end in
    let key := match cfg with Some c => or_default (c_engine_key c) "server.key" | None => "server.key" end in
    Some {| sv_worker_id := c_worker_id <$> cfg;
            sv_fields := [("host", bind_host); ("port", to_string bind_port); ("cert", cert); ("key", key)];
            sv_endpoint := (bind_host, wrap 16 bind_port);
            sv_listening := binds bind_host (wrap 16 bind_port) |}.
End Manager.

(** ** Slots *)

Module Slot.

Inductive SlotPhase := POLLING | AWAITING | RESUMING.

#[export] Instance SlotPhase_eq_dec : EqDecision SlotPhase.
Proof. solve_decision. Defined.

Record PollSlot := {
  m_wake : bool;                 (** a wake callback is registered *)
  m_phase : SlotPhase;
  m_on_stack : bool;
  m_success : bool;
  m_task_id : string;
  m_output : output_map;
}.

Definition new_slot : PollSlot :=
  {| m_wake := false; m_phase := POLLING; m_on_stack := false; m_success := false; m_task_id := "";
     m_output := ∅ |}.

Definition set_wake (wake : bool) (s : PollSlot) : PollSlot :=
  {| m_wake := wake; m_phase := m_phase s; m_on_stack := m_on_stack s; m_success := m_success s;
     m_task_id := m_task_id s; m_output := m_output s |}.
Definition set_phase (phase : SlotPhase) (s : PollSlot) : PollSlot :=
  {| m_wake := m_wake s; m_phase := phase; m_on_stack := m_on_stack s; m_success := m_success s;
     m_task_id := m_task_id s; m_output := m_output s |}.
Definition set_task_id (task_id : string) (s : PollSlot) : PollSlot :=
  {| m_wake := m_wake s; m_phase := m_phase s; m_on_stack := m_on_stack s; m_success := m_success s;
     m_task_id := task_id; m_output := m_output s |}.
Definition set_on_stack (on_stack : bool) (s : PollSlot) : PollSlot :=
  {| m_wake := m_wake s; m_phase := m_phase s; m_on_stack := on_stack; m_success := m_success s;
     m_task_id := m_task_id s; m_output := m_output s |}.
Definition set_result (success : bool) (output : output_map) (s : PollSlot) : PollSlot :=
  {| m_wake := m_wake s; m_phase := m_phase s; m_on_stack := m_on_stack s; m_success := success;
     m_task_id := m_task_id s; m_output := output |}.
(** The moved-from map is empty. *)
Definition take_output (s : PollSlot) : PollSlot * output_map :=
  ({| m_wake := m_wake s; m_phase := m_phase s; m_on_stack := m_on_stack s; m_success := m_success s;
      m_task_id := m_task_id s; m_output := ∅ |}, m_output s).

(** [register_poll_slot]: grows the slots to hold the index. *)
Definition register_poll_slot (slot_index : nat) (slots : list PollSlot) : list PollSlot :=
  let slots := if (slot_index <? length slots)%nat then slots
               else slots ++ replicate (S slot_index - length slots) new_slot in
  alter (set_wake true) slot_index slots.

(** A result to report: task, success and output. *)
Abbreviation Report := (string * bool * output_map)%type.

(** The critical sections of [poll_slot].  The first takes a landed result. *)
Definition take_resumed (s : PollSlot) : PollSlot * option Report :=
  if bool_decide (m_phase s = RESUMING) then
    let '(s1, output) := take_output s in
    (set_phase POLLING s1, Some (m_task_id s, m_success s, output))
  else (s, None).

(** The second marks the slot before the task is started. *)
Definition await (task_id : string) (s : PollSlot) : PollSlot :=
  set_on_stack true (set_task_id task_id (set_phase AWAITING s)).

(** The completion callback: the slot, and whether it has to wake the contract. *)
Definition complete (output : WorkerResult) (s : PollSlot) : PollSlot * bool :=
  let s1 := set_phase RESUMING (set_result (has_value output) (result_output output) s) in
  (s1, negb (m_on_stack s1)).

(** The third, after the task was started: the result, if it has landed meanwhile. *)
Definition take_inline (task_id : string) (s : PollSlot) : PollSlot * option Report :=
  let s1 := set_on_stack false s in
  if bool_decide (m_phase s1 = RESUMING) then
    let '(s2, output) := take_output s1 in
    (set_phase POLLING s2, Some (task_id, m_success s1, output))
  else (s1, None).

(** ** The slot's threads *)

(** Where the poller is in [poll_slot]. *)
Inductive Pc :=
  | Scheduled                                   (** about to run [poll_slot] *)
  | Resumed (r : Report)                        (** holds a landed result *)
  | Scanning (todo : list string)               (** in the loop over the task types *)
  | Starting (task_id : string) (todo : list string)   (** has called [run_task_async] *)
  | Inline (r : Report) (todo : list string)    (** holds an inline result *)
  | Parked.                                     (** returned without rescheduling *)

Record Machine := {
  slot : PollSlot;
  pc : Pc;
  running : option string;      (** a started task whose completion has not been called *)
  waking : bool;                (** a completion is about to call [wake] *)
  handed : list string;         (** the tasks the engine handed out *)
  completed : list Report;      (** the completions, with the task they are of *)
  submitted : list Report;      (** the results posted to the engine *)
}.

Definition initial (wake : bool) : Machine :=
  {| slot := set_wake wake new_slot; pc := Scheduled; running := None; waking := false; handed := [];
     completed := []; submitted := [] |}.

Section Steps.
Variable types : list string.

Inductive step (m : Machine) : Machine -> Prop :=
  | step_take_resumed s r :
      pc m = Scheduled -> take_resumed (slot m) = (s, Some r) ->
      step m {| slot := s; pc := Resumed r; running := running m; waking := waking m; handed := handed m;
                completed := completed m; submitted := submitted m |}
  | step_scan s :
      pc m = Scheduled -> take_resumed (slot m) = (s, None) ->
      step m {| slot := s; pc := Scanning types; running := running m; waking := waking m; handed := handed m;
                completed := completed m; submitted := submitted m |}
  (** Posts the result and reschedules. *)
  | step_submit_resumed r :
      pc m = Resumed r ->
      step m {| slot := slot m; pc := Scheduled; running := running m; waking := waking m; handed := handed m;
                completed := completed m; submitted := submitted m ++ [r] |}
  (** No task of this type, or a failed poll. *)
  | step_skip type todo :
      pc m = Scanning (type :: todo) ->
      step m {| slot := slot m; pc := Scanning todo; running := running m; waking := waking m; handed := handed m;
                completed := completed m; submitted := submitted m |}
  | step_start type todo task_id :
      pc m = Scanning (type :: todo) ->
      step m {| slot := await task_id (slot m); pc := Starting task_id todo; running := Some task_id;
                waking := waking m; handed := handed m ++ [task_id]; completed := completed m;
                submitted := submitted m |}
  (** The completion's critical section, on any thread. *)
  | step_complete task_id output s wake :
      running m = Some task_id -> complete output (slot m) = (s, wake) ->
      step m {| slot := s; pc := pc m; running := None; waking := wake; handed := handed m;
                completed := completed m ++ [(task_id, has_value output, result_output output)];
                submitted := submitted m |}
  (** [woken_slot.wake()], which schedules the contract when a callback is registered. *)
  | step_wake :
      waking m = true ->
      step m {| slot := slot m; pc := if m_wake (slot m) then Scheduled else pc m; running := running m;
                waking := false; handed := handed m; completed := completed m; submitted := submitted m |}
  | step_take_inline task_id todo s r :
      pc m = Starting task_id todo -> take_inline task_id (slot m) = (s, Some r) ->
      step m {| slot := s; pc := Inline r todo; running := running m; waking := waking m; handed := handed m;
                completed := completed m; submitted := submitted m |}
  | step_park task_id todo s :
      pc m = Starting task_id todo -> take_inline task_id (slot m) = (s, None) ->
      step m {| slot := s; pc := Parked; running := running m; waking := waking m; handed := handed m;
                completed := completed m; submitted := submitted m |}
  | step_submit_inline r todo :
      pc m = Inline r todo ->
      step m {| slot := slot m; pc := Scanning todo; running := running m; waking := waking m; handed := handed m;
                completed := completed m; submitted := submitted m ++ [r] |}
  (** The end of the scan: sleeps and reschedules. *)
  | step_rest :
      pc m = Scanning [] ->
      step m {| slot := slot m; pc := Scheduled; running := running m; waking := waking m; handed := handed m;
                completed := completed m; submitted := submitted m |}.

Definition reachable (wake : bool) : Machine -> Prop := rtc step (initial wake).

(** The result that has landed in the slot. *)
Definition landed_report (s : PollSlot) : Report := (m_task_id s, m_success s, m_output s).

(** The task in flight and the result waiting to be posted, by where the poller is. *)
Definition located (m : Machine) (held : option string) (landed : option Report) : Prop :=
  let s := slot m in
  let nothing := held = None /\ landed = None /\ running m = None in
  let waiting t := held = Some t /\ landed = None /\ running m = Some t /\ m_phase s = AWAITING in
  let arrived := held = Some (m_task_id s) /\ landed = Some (landed_report s) /\ running m = None
                 /\ m_phase s = RESUMING in
  let holding r := held = Some r.1.1 /\ landed = Some r /\ running m = None /\ m_phase s = POLLING in
  match pc m with
  | Scheduled => m_on_stack s = false /\ waking m = false /\ (m_phase s = POLLING /\ nothing \/ arrived)
  | Resumed r => m_on_stack s = false /\ waking m = false /\ holding r
  | Scanning _ => m_on_stack s = false /\ waking m = false /\ m_phase s = POLLING /\ nothing
  | Starting t _ => m_on_stack s = true /\ waking m = false /\ m_task_id s = t /\ (waiting t \/ arrived)
  | Inline r _ => m_on_stack s = false /\ waking m = false /\ holding r
  | Parked => m_on_stack s = false
      /\ (waking m = false /\ waiting (m_task_id s) \/ waking m = true /\ arrived)
  end.

Definition inv (m : Machine) : Prop :=
  exists held landed, located m held landed
    /\ handed m = (submitted m).*1.*1 ++ option_list held
    /\ completed m = submitted m ++ option_list landed.

Lemma slot_inv_initial : inv (initial true).
Proof. exists None, None. by repeat split; left. Qed.

(** Unfolds the critical section a step ran. *)
Ltac section_cases E :=
  unfold take_resumed, take_inline, complete in E; cbn in E;
  try match type of E with context [bool_decide ?P] =>
    let Hp := fresh "Hp" in
    destruct (decide P) as [Hp|Hp]; [rewrite (bool_decide_true P Hp) in E|rewrite (bool_decide_false P Hp) in E]
  end; simplify_eq/=.

Lemma wake_kept m m' : step m m' -> m_wake (slot m') = m_wake (slot m).
Proof.
  destruct 1 as [s r Hpc E|s Hpc E|r Hpc|ty todo Hpc|ty todo t Hpc|t output s wake Hrun E|Hwaking
    |t todo s r Hpc E|t todo s Hpc E|r todo Hpc|Hpc]; try done; section_cases E; done.
Qed.

(** A step that keeps the logs keeps the invariant if the places are right. *)
Lemma inv_intro m held landed :
  located m held landed -> handed m = (submitted m).*1.*1 ++ option_list held ->
  completed m = submitted m ++ option_list landed -> inv m.
Proof. unfold inv. eauto. Qed.

(** Posting the result in hand. *)
Lemma inv_submit m r p :
  (exists todo, p = Scanning todo) \/ p = Scheduled ->
  m_on_stack (slot m) = false -> waking m = false -> running m = None -> m_phase (slot m) = POLLING ->
  handed m = (submitted m).*1.*1 ++ [r.1.1] -> completed m = submitted m ++ [r] ->
  inv {| slot := slot m; pc := p; running := running m; waking := waking m; handed := handed m;
         completed := completed m; submitted := submitted m ++ [r] |}.
Proof.
  intros Hpc Hst Hwk Hr Hp Hh Hc. apply (inv_intro _ None None).
  - destruct Hpc as [[todo ->]| ->]; unfold located; cbn; naive_solver.
  - cbn. by rewrite !fmap_app, app_nil_r.
  - cbn. by rewrite app_nil_r.
Qed.

Lemma inv_step m m' : m_wake (slot m) = true -> inv m -> step m m' -> inv m'.
Proof.
  intros Hw (held & landed & Hloc & Hh & Hc) Hs.
  destruct Hs as [s r Hpc E|s Hpc E|r Hpc|ty todo Hpc|ty todo t Hpc|t output s wake Hrun E|Hwaking
    |t todo s r Hpc E|t todo s Hpc E|r todo Hpc|Hpc]; unfold located in Hloc; try rewrite Hpc in Hloc.
  - section_cases E. destruct Hloc as (Hst & Hwk & [[? _]|(-> & -> & Hr & _)]); [congruence|].
    eapply inv_intro; [|exact Hh|exact Hc]. unfold located. cbn. by rewrite Hwk, Hr.
  - section_cases E. destruct Hloc as (Hst & Hwk & [[? (-> & -> & Hr)]|(_ & _ & _ & ?)]); [|congruence].
    eapply inv_intro; [|exact Hh|exact Hc]. unfold located. cbn. naive_solver.
  - destruct Hloc as (Hst & Hwk & (-> & -> & Hr & Hp)). apply inv_submit; auto.
  - eapply inv_intro; [|exact Hh|exact Hc]. unfold located. by cbn.
  - destruct Hloc as (Hst & Hwk & Hp & (-> & -> & Hr)).
    apply (inv_intro _ (Some t) None); [unfold located; cbn; naive_solver| |done].
    cbn. by rewrite Hh, app_nil_r.
  - section_cases E. destruct (pc m) as [| | |t' todo| |] eqn:Hpc; try naive_solver.
    + destruct Hloc as (Hst & Hwk & Ht & [(-> & -> & Hr & Hp)|(_ & _ & ? & _)]); [|congruence].
      simplify_eq. apply (inv_intro _ (Some (m_task_id (slot m)))
        (Some (m_task_id (slot m), has_value output, result_output output))); cbn.
      * unfold located. cbn. rewrite Hst. cbn. naive_solver.
      * done.
      * by rewrite Hc, app_nil_r.
    + destruct Hloc as (Hst & [(Hwk & -> & -> & Hr & Hp)|(_ & _ & _ & ? & _)]); [|congruence].
      simplify_eq. apply (inv_intro _ (Some (m_task_id (slot m)))
        (Some (m_task_id (slot m), has_value output, result_output output))); cbn.
      * unfold located. cbn. rewrite Hst. cbn. naive_solver.
      * done.
      * by rewrite Hc, app_nil_r.
  - destruct (pc m) eqn:Hpc; try (destruct Hloc as (_ & ? & _); congruence).
    destruct Hloc as (Hst & [(Hwk & _)|(_ & (-> & -> & Hr & Hp))]); [congruence|].
    eapply inv_intro; [|exact Hh|exact Hc]. unfold located. cbn. rewrite Hw. naive_solver.
  - section_cases E. destruct Hloc as (Hst & Hwk & Ht & [(_ & _ & _ & ?)|(-> & -> & Hr & _)]); [congruence|].
    eapply inv_intro; [|exact Hh|exact Hc]. unfold located, landed_report. cbn. subst. naive_solver.
  - section_cases E. destruct Hloc as (Hst & Hwk & Ht & [(-> & -> & Hr & ?)|(_ & _ & _ & ?)]); [|congruence].
    eapply inv_intro; [|exact Hh|exact Hc]. unfold located. cbn. subst. naive_solver.
  - destruct Hloc as (Hst & Hwk & (-> & -> & Hr & Hp)). apply inv_submit; eauto.
  - eapply inv_intro; [|exact Hh|exact Hc]. unfold located. cbn. naive_solver.
Qed.

Lemma reachable_inv m : reachable true m -> m_wake (slot m) = true /\ inv m.
Proof.
  intros H. apply (rtc_ind_r (R := step) (fun m => m_wake (slot m) = true /\ inv m) (initial true)); [|..|exact H].
  - split; [done|apply slot_inv_initial].
  - intros m1 m2 _ Hs [Hw Hi]. split; [by rewrite (wake_kept _ _ Hs)|by eapply inv_step].
Qed.

(** Some step is possible unless the poller is parked on a running task. *)
Lemma inv_progress m :
  m_wake (slot m) = true -> inv m -> running m = None -> exists m', step m m'.
Proof.
  intros Hw (held & landed & Hloc & _) Hr. unfold located in Hloc.
  destruct (pc m) as [|r|[|ty todo]|t todo|r todo|] eqn:Hpc.
  - destruct (take_resumed (slot m)) as [s [r|]] eqn:E; eexists;
      [by eapply step_take_resumed|by eapply step_scan].
  - eexists. by eapply step_submit_resumed.
  - eexists. by eapply step_rest.
  - eexists. by eapply step_skip.
  - destruct (take_inline t (slot m)) as [s [r|]] eqn:E; eexists;
      [by eapply step_take_inline|by eapply step_park].
  - eexists. by eapply step_submit_inline.
  - destruct Hloc as (_ & [(_ & _ & _ & ? & _)|(Hwk & _)]); [congruence|].
    eexists. by eapply step_wake.
Qed.

(** The steps left until a landed result is posted. *)
Definition distance (m : Machine) : nat :=
  match pc m with Parked => 3 | Scheduled | Starting _ _ => 2 | Resumed _ | Inline _ _ => 1 | Scanning _ => 0 end.

Definition awaited (m : Machine) : Prop := running m = None /\ completed m <> submitted m.

(** A result that waits gets one step closer to the engine. *)
Lemma awaited_step m m' :
  m_wake (slot m) = true -> inv m -> awaited m -> step m m' ->
  completed m' = completed m
  /\ (completed m' = submitted m' \/ (awaited m' /\ (distance m' < distance m)%nat)).
Proof.
  intros Hw (held & landed & Hloc & _ & Hc) (Hr & Hne) Hs.
  assert (Hl : landed <> None) by (intros ->; apply Hne; by rewrite Hc, app_nil_r).
  unfold located in Hloc. unfold awaited, distance.
  destruct Hs as [s r Hpc E|s Hpc E|r Hpc|ty todo Hpc|ty todo t Hpc|t output s wake Hrun E|Hwaking
    |t todo s r Hpc E|t todo s Hpc E|r todo Hpc|Hpc]; try rewrite Hpc in Hloc |- *; cbn.
  - split; [done|]. right. split; [done|lia].
  - section_cases E. naive_solver.
  - destruct Hloc as (_ & _ & _ & -> & _). split; [done|by left].
  - naive_solver.
  - naive_solver.
  - congruence.
  - destruct (pc m); try (destruct Hloc as (_ & ? & _); congruence). rewrite Hw.
    split; [done|]. right. split; [done|lia].
  - split; [done|]. right. split; [done|lia].
  - section_cases E. naive_solver.
  - destruct Hloc as (_ & _ & _ & -> & _). split; [done|by left].
  - naive_solver.
Qed.
End Steps.

(** ** The properties *)

(** C3: In every interleaving of the poller and the completions, the tasks a slot took from the
    engine are posted back in order and at most once each, every posted result is the one its own
    completion gave, and at most one task is in flight. *)
Theorem slot_submits_once types m :
  reachable types true m ->
  exists held, (length held <= 1)%nat /\ handed m = (submitted m).*1.*1 ++ held
    /\ submitted m `prefix_of` completed m.
Proof.
  intros (_ & held & landed & _ & Hh & Hc)%reachable_inv.
  exists (option_list held). split_and!; [by destruct held; cbn; lia|done|].
  by exists (option_list landed).
Qed.

(** A run: a task completes on another thread after the poller has parked. *)
Definition demo_machine : Machine :=
  {| slot := {| m_wake := true; m_phase := RESUMING; m_on_stack := false; m_success := true;
                m_task_id := "t1"; m_output := {["x" := "1"]} |};
     pc := Parked; running := None; waking := true; handed := ["t1"];
     completed := [("t1", true, {["x" := "1"]})]; submitted := [] |}.

Lemma demo_reachable : reachable ["ty"] true demo_machine.
Proof.
  unfold reachable.
  eapply rtc_l; [apply step_scan; reflexivity|].
  eapply rtc_l; [apply (step_start _ _ "ty" [] "t1"); reflexivity|].
  eapply rtc_l; [eapply step_park; reflexivity|].
  eapply rtc_l; [eapply (step_complete _ _ "t1" (inl {["x" := "1"]})); reflexivity|].
  apply rtc_refl.
Defined.

Lemma slot_submits_once_witness :
  exists held, (length held <= 1)%nat /\ ["t1"] = [] ++ held.
Proof.
  destruct (slot_submits_once ["ty"] demo_machine demo_reachable) as (held & Hl & Hh & _).
  exists held. exact (conj Hl Hh).
Defined.

(** C29: No wake-up is lost: once a task's completion has been called, the slot is never stuck, and
    whatever steps it takes, its result has been posted after at most three of them. *)
Theorem slot_posts_result types m :
  reachable types true m -> running m = None ->
  (exists m', step types m m')
  /\ forall m', nsteps (step types) 3 m m' -> completed m `prefix_of` submitted m'.
Proof.
  intros [Hw Hi]%reachable_inv Hr. split; [by apply inv_progress|].
  assert (Hgrow : forall m m', step types m m' -> submitted m `prefix_of` submitted m').
  { destruct 1; cbn; solve [reflexivity | by apply prefix_app_r]. }
  assert (Hsteps : forall n m m', nsteps (step types) n m m' -> submitted m `prefix_of` submitted m').
  { intros n x y. intros Hn. induction Hn as [|n a b c Hab _ IH]; [reflexivity|]. etrans; [by eapply Hgrow|exact IH]. }
  assert (Hmain : forall n m m', m_wake (slot m) = true -> inv m -> awaited m ->
    (distance m <= n)%nat -> nsteps (step types) n m m' -> completed m `prefix_of` submitted m').
  { intros n. induction n as [|n IH]; intros x y Hwx Hix Hax Hd Hn.
    - exfalso. destruct Hix as (held & landed & Hloc & _ & Hc). destruct Hax as [_ Hne].
      unfold located, distance in *. destruct (pc x); try lia.
      destruct Hloc as (_ & _ & _ & _ & -> & _). apply Hne. by rewrite Hc, app_nil_r.
    - inversion Hn as [|? ? z ? Hxz Hzy]; subst.
      destruct (awaited_step types x z Hwx Hix Hax Hxz) as [<- [->|[Haz Hdz]]]; [by eapply Hsteps|].
      eapply IH; [|by eapply inv_step|done|lia|done]. by rewrite (wake_kept _ _ _ Hxz). }
  intros m' Hn. destruct (decide (length (completed m) = length (submitted m))) as [Hl|Hl].
  - assert (completed m = submitted m) as ->; [|by eapply Hsteps].
    destruct Hi as (held & [r|] & _ & _ & Hc); rewrite Hc in *; [|by rewrite app_nil_r].
    rewrite length_app in Hl. cbn in Hl. lia.
  - apply (Hmain 3%nat); [done|done| |by unfold distance; destruct (pc m); lia|done].
    split; [done|]. intros E. by rewrite E in Hl.
Qed.

Lemma slot_posts_result_witness :
  exists m', step ["ty"] demo_machine m'.
Proof. apply (slot_posts_result ["ty"] demo_machine demo_reachable). reflexivity. Defined.

(** The completion of a task is called exactly once, whatever the worker does with its
    callback: calls it several times, throws, or calls it and then throws (a worker that does none
    of these has not completed). *)
Theorem completion_called_once worker :
  match worker with
  | Some run => calls run = [] /\ throws run = None
  | None => False
  end \/ exists output, run_task_async worker = ([output], true)
       /\ match worker with
          | Some run => match calls run with first :: _ => output = first | [] => throws run = match output with inr e => Some e | inl _ => None end end
          | None => output = inr "unregistered worker type"
          end.
Proof.
  destruct worker as [[cs th]|]; [|by right; eexists].
  unfold run_task_async.
  cbn. destruct cs as [|first rest].
  - destruct th as [e|]; [|by left]. right. by eexists.
  - right. exists first. cbn [foldl].
    assert (Hf : foldl (fun '(completed, finished) output =>
        if finished : bool then (completed, finished) else (completed ++ [output], true))
        ([] ++ [first], true) rest = ([first], true)) by (induction rest; done).
    rewrite Hf. by destruct th.
Qed.
End Slot.
