(* ===== verification/PluginAbi.v ===== *)
(** * The plugin C interface (include/core/manager/abi.h, sdk/plugin/include/congelado/plugin.h)

    The values that cross the C interface of a plugin, the capability mask, and the symbols that
    [CONGELADO_PLUGIN(T)] generates around the one lazily constructed instance of a plugin class,
    with the dispatcher of capability calls.

    - The plugin class is a parameter: [PluginClass] has its constructor and virtual functions.  A
      constructor or function that throws gives [None].
    - A pointer is [0] or a positive number; the interface pointers of a plugin are those its
      [*_get] functions return.
    - [requires] and [load_before_types] each have a static cache, which outlives the instance.
    - The symbols are called one after the other.  The accessor constructs the instance under a mutex;
      [congelado_on_unload] takes no lock, so nothing is said of a call that runs concurrently with it. *)

From stdpp Require Import base strings list.
From Stdlib Require Import ZArith Lia.
From S2P Require Import Prelude.

Open Scope string_scope.
Open Scope list_scope.
Open Scope Z_scope.

(** ** The values of the interface *)

Definition CG_NONE : Z := 0.
Definition CG_INT : Z := 1.
Definition CG_BOOL : Z := 2.
Definition CG_FLOAT : Z := 3.
Definition CG_PTR : Z := 4.
Definition CG_STR : Z := 5.
Definition CG_MAP : Z := 64.
Definition CG_ARRAY : Z := 69.
Definition CG_MAP_HANDLE : Z := 70.
Definition CG_ARRAY_HANDLE : Z := 71.

(** The union, by the member it was written through; a double is its bit pattern. *)
Inductive any_payload :=
  | v_int64 (z : Z)
  | v_float64 (bits : Z)
  | v_ptr (p : Z)
  | v_cstr (s : string).

Record CongeladoAny := { type_index : Z; zero_padding : Z; payload : any_payload }.

(** [CongeladoAny{}]. *)
Definition any_zero : CongeladoAny := {| type_index := 0; zero_padding := 0; payload := v_int64 0 |}.
Definition any_ptr (p : Z) : CongeladoAny := {| type_index := CG_PTR; zero_padding := 0; payload := v_ptr p |}.

Inductive CongeladoRunType :=
  | RUN_LOGGER | RUN_SERDE | RUN_STORAGE | RUN_PROTOCOL | RUN_BRIDGE | RUN_OTEL | RUN_OPENAPI
  | RUN_SEARCH | RUN_EVENTS | RUN_CACHE | RUN_CRON | RUN_WORKER_MANAGER | RUN_WORKER | RUN_APP_DEFS
  | RUN_WORKER_ORCHESTRATOR | RUN_WORKFLOW_ORCHESTRATOR | RUN_PAYLOAD_STORAGE.

#[export] Instance CongeladoRunType_eq_dec : EqDecision CongeladoRunType.
Proof. solve_decision. Defined.

Definition run_type_code (t : CongeladoRunType) : Z :=
  match t with
  | RUN_LOGGER => 0 | RUN_SERDE => 1 | RUN_STORAGE => 2 | RUN_PROTOCOL => 3 | RUN_BRIDGE => 4
  | RUN_OTEL => 5 | RUN_OPENAPI => 6 | RUN_SEARCH => 7 | RUN_EVENTS => 8 | RUN_CACHE => 9
  | RUN_CRON => 10 | RUN_WORKER_MANAGER => 11 | RUN_WORKER => 12 | RUN_APP_DEFS => 13
  | RUN_WORKER_ORCHESTRATOR => 14 | RUN_WORKFLOW_ORCHESTRATOR => 15 | RUN_PAYLOAD_STORAGE => 16
  end.

Inductive CongeladoRunAction := ACTION_WRITE | ACTION_ERROR | ACTION_GET | ACTION_GET_NATIVE_HANDLE.

#[export] Instance CongeladoRunAction_eq_dec : EqDecision CongeladoRunAction.
Proof. solve_decision. Defined.

(** A null pointer is 0. *)
Record CongeladoHostCallbacks := {
  h_log : Z; h_schedule : Z; h_router_ctx : Z; h_controller_ctx : Z; h_registry_ctx : Z;
  h_leverager_ctx : Z; h_database_ctx : Z; h_lua_bridge_ctx : Z; h_ctx : Z; h_search_ctx : Z;
  h_cache_ctx : Z; h_connector_ctx : Z; h_cron_ctx : Z; h_worker_manager_ctx : Z;
  h_worker_orchestrator_ctx : Z; h_workflow_orchestrator_ctx : Z; h_payload_storage_ctx : Z;
  h_curl_multi_ctx : Z; h_client_protocol_ctx : Z;
}.

Definition no_host : CongeladoHostCallbacks :=
  {| h_log := 0; h_schedule := 0; h_router_ctx := 0; h_controller_ctx := 0; h_registry_ctx := 0;
     h_leverager_ctx := 0; h_database_ctx := 0; h_lua_bridge_ctx := 0; h_ctx := 0; h_search_ctx := 0;
     h_cache_ctx := 0; h_connector_ctx := 0; h_cron_ctx := 0; h_worker_manager_ctx := 0;
     h_worker_orchestrator_ctx := 0; h_workflow_orchestrator_ctx := 0; h_payload_storage_ctx := 0;
     h_curl_multi_ctx := 0; h_client_protocol_ctx := 0 |}.

(** Keys and values, in order. *)
Definition CongeladoConfigView := list (string * string).

(** ** Capabilities *)

Inductive Capability :=
  | CAP_LOGGER | CAP_PROTOCOL | CAP_STORAGE | CAP_CUSTOM | CAP_SERDE | CAP_BRIDGE | CAP_OTEL
  | CAP_OPENAPI | CAP_SEARCH | CAP_EVENTS | CAP_CACHE | CAP_CRON | CAP_WORKER_MANAGER | CAP_WORKER
  | CAP_APP_DEFS | CAP_WORKER_ORCHESTRATOR | CAP_WORKFLOW_ORCHESTRATOR | CAP_PAYLOAD_STORAGE.

#[export] Instance Capability_eq_dec : EqDecision Capability.
Proof. solve_decision. Defined.

Definition cap_flag (c : Capability) : Z :=
  match c with
  | CAP_LOGGER => 1 | CAP_PROTOCOL => 2 | CAP_STORAGE => 4 | CAP_CUSTOM => 8 | CAP_SERDE => 16
  | CAP_BRIDGE => 32 | CAP_OTEL => 64 | CAP_OPENAPI => 128 | CAP_SEARCH => 256 | CAP_EVENTS => 512
  | CAP_CACHE => 1024 | CAP_CRON => 2048 | CAP_WORKER_MANAGER => 4096 | CAP_WORKER => 8192
  | CAP_APP_DEFS => 16384 | CAP_WORKER_ORCHESTRATOR => 32768 | CAP_WORKFLOW_ORCHESTRATOR => 65536
  | CAP_PAYLOAD_STORAGE => 131072
  end.

(** [A | B | ...], and the host's test of a flag. *)
Definition mask (caps : list Capability) : Z := foldr (fun c m => Z.lor (cap_flag c) m) 0 caps.
Definition has_capability (m : Z) (c : Capability) : bool := negb (Z.land m (cap_flag c) =? 0).

(** ** The plugin class *)

Class PluginClass := {
  obj : Type;
  (** The [n]-th construction. *)
  construct : nat -> option obj;
  get_name : obj -> string;
  get_version : obj -> string;
  capabilities : obj -> Z;
  get_type : obj -> string;
  get_worker_type : obj -> string;
  get_unique_type : obj -> string;
  get_requires : obj -> list string;
  get_load_before_types : obj -> list string;
  on_load : obj -> CongeladoHostCallbacks -> CongeladoConfigView -> obj * bool;
  execute_worker : obj -> option CongeladoConfigView -> obj * option CongeladoConfigView;
  on_ready : obj -> obj;
  on_shutdown_requested : obj -> obj;
  on_reload_requested : obj -> obj * option bool;
  logger_write : obj -> Z -> string -> obj;
  (** The [*_get] function of a run type, [bridge_native_handle] included; 0 if there is none. *)
  interface : CongeladoRunType -> obj -> Z;
  bridge_native_handle : obj -> Z;
}.

Section Plugin.
Context `{PluginClass}.

(** The static variables, with counts of the constructed and the deleted instances. *)
Record Statics := {
  s_plugin : option obj;
  s_requires : option (list string);
  s_load_before : option (list string);
  constructed : nat;
  deleted : nat;
  attempts : nat;
}.

Definition unloaded : Statics :=
  {| s_plugin := None; s_requires := None; s_load_before := None; constructed := 0; deleted := 0;
     attempts := 0 |}.

Definition with_plugin (p : option obj) (s : Statics) : Statics :=
  {| s_plugin := p; s_requires := s_requires s; s_load_before := s_load_before s;
     constructed := constructed s; deleted := deleted s; attempts := attempts s |}.

Definition plugin_instance (s : Statics) : Statics * option obj :=
  match s_plugin s with
  | Some p => (s, Some p)
  | None =>
      match construct (attempts s) with
      | Some p =>
          ({| s_plugin := Some p; s_requires := s_requires s; s_load_before := s_load_before s;
              constructed := S (constructed s); deleted := deleted s; attempts := S (attempts s) |}, Some p)
      | None =>
          ({| s_plugin := None; s_requires := s_requires s; s_load_before := s_load_before s;
              constructed := constructed s; deleted := deleted s; attempts := S (attempts s) |}, None)
      end
  end.

(** A symbol that reads the instance, with its value for no instance. *)
Definition with_instance {A} (none : A) (f : obj -> obj * A) (s : Statics) : Statics * A :=
  let '(s1, p) := plugin_instance s in
  match p with
  | None => (s1, none)
  | Some p => let '(p', a) := f p in (with_plugin (Some p') s1, a)
  end.

Definition getter {A} (none : A) (f : obj -> A) : Statics -> Statics * A :=
  with_instance none (fun p => (p, f p)).

Definition congelado_plugin_name := getter "" get_name.
Definition congelado_plugin_version := getter "" get_version.
Definition congelado_capabilities := getter 0 capabilities.
Definition congelado_type := getter "" get_type.
Definition congelado_worker_type := getter "" get_worker_type.
Definition congelado_unique_type := getter "" get_unique_type.
Definition congelado_requires_count := getter 0%nat (fun p => length (get_requires p)).
Definition congelado_load_before_types_count := getter 0%nat (fun p => length (get_load_before_types p)).

Definition congelado_init (host : option CongeladoHostCallbacks) (cfg : option CongeladoConfigView)
    : Statics -> Statics * Z :=
  with_instance (-1) (fun p =>
    let '(p', threw) := on_load p (default no_host host) (default [] cfg) in (p', if threw then -1 else 0)).

Definition congelado_worker_execute (input : option CongeladoConfigView) : Statics -> Statics * CongeladoConfigView :=
  with_instance [] (fun p => let '(p', r) := execute_worker p input in (p', default [] r)).

(** The [on_unload] of the instance runs, whatever it does, before the instance is deleted. *)
Definition congelado_on_unload (s : Statics) : Statics * unit :=
  match s_plugin s with
  | None => (s, tt)
  | Some _ =>
      ({| s_plugin := None; s_requires := s_requires s; s_load_before := s_load_before s;
          constructed := constructed s; deleted := S (deleted s); attempts := attempts s |}, tt)
  end.

Definition congelado_on_ready := with_instance tt (fun p => (on_ready p, tt)).
Definition congelado_on_shutdown := with_instance tt (fun p => (on_shutdown_requested p, tt)).
Definition congelado_on_reload_requested :=
  with_instance 0 (fun p => let '(p', r) := on_reload_requested p in
                            (p', match r with Some true => 1 | _ => 0 end)).

(** [_cap_dispatch::call]. *)
Definition dispatch (p : obj) (type : CongeladoRunType) (action : CongeladoRunAction) (args : list CongeladoAny)
    : obj * CongeladoAny :=
  match type with
  | RUN_LOGGER =>
      let text a := match payload a with v_cstr s => s | _ => "" end in
      let level a := match payload a with v_int64 z => z | _ => 0 end in
      (match action, args with
       | ACTION_WRITE, a :: b :: _ => logger_write p (level a) (text b)
       | ACTION_ERROR, a :: _ => logger_write p 4 (text a)
       | _, _ => p
       end, any_zero)
  | RUN_BRIDGE =>
      (p, if bool_decide (action = ACTION_GET_NATIVE_HANDLE) then any_ptr (bridge_native_handle p)
          else any_ptr (interface RUN_BRIDGE p))
  | _ => (p, any_ptr (interface type p))
  end.

Definition congelado_call (type : CongeladoRunType) (action : CongeladoRunAction) (args : list CongeladoAny)
    : Statics -> Statics * CongeladoAny :=
  with_instance any_zero (fun p => dispatch p type action args).

(** The cached lists; [None] is the null pointer. *)
Definition congelado_requires (s : Statics) : Statics * option (list string) :=
  let '(s1, p) := plugin_instance s in
  match p with
  | None => (s1, None)
  | Some p =>
      match s_requires s1 with
      | Some l => (s1, Some l)
      | None =>
          ({| s_plugin := s_plugin s1; s_requires := Some (get_requires p); s_load_before := s_load_before s1;
              constructed := constructed s1; deleted := deleted s1; attempts := attempts s1 |},
           Some (get_requires p))
      end
  end.

Definition congelado_load_before_types (s : Statics) : Statics * option (list string) :=
  let '(s1, p) := plugin_instance s in
  match p with
  | None => (s1, None)
  | Some p =>
      match s_load_before s1 with
      | Some l => (s1, Some l)
      | None =>
          ({| s_plugin := s_plugin s1; s_requires := s_requires s1; s_load_before := Some (get_load_before_types p);
              constructed := constructed s1; deleted := deleted s1; attempts := attempts s1 |},
           Some (get_load_before_types p))
      end
  end.

(** ** The symbols as operations on the statics *)

Inductive Call :=
  | CName | CVersion | CCapabilities | CType | CWorkerType | CUniqueType | CRequiresCount
  | CLoadBeforeCount | CRequires | CLoadBefore | CUnload | CReady | CShutdown | CReload
  | CInit (host : option CongeladoHostCallbacks) (cfg : option CongeladoConfigView)
  | CExecute (input : option CongeladoConfigView)
  | CCall (type : CongeladoRunType) (action : CongeladoRunAction) (args : list CongeladoAny).

Definition run_call (c : Call) (s : Statics) : Statics :=
  match c with
  | CName => (congelado_plugin_name s).1
  | CVersion => (congelado_plugin_version s).1
  | CCapabilities => (congelado_capabilities s).1
  | CType => (congelado_type s).1
  | CWorkerType => (congelado_worker_type s).1
  | CUniqueType => (congelado_unique_type s).1
  | CRequiresCount => (congelado_requires_count s).1
  | CLoadBeforeCount => (congelado_load_before_types_count s).1
  | CRequires => (congelado_requires s).1
  | CLoadBefore => (congelado_load_before_types s).1
  | CUnload => (congelado_on_unload s).1
  | CReady => (congelado_on_ready s).1
  | CShutdown => (congelado_on_shutdown s).1
  | CReload => (congelado_on_reload_requested s).1
  | CInit host cfg => (congelado_init host cfg s).1
  | CExecute input => (congelado_worker_execute input s).1
  | CCall type action args => (congelado_call type action args s).1
  end.

Definition run_calls (cs : list Call) (s : Statics) : Statics := foldl (fun s c => run_call c s) s cs.

(** Exactly one instance is alive while [s_plugin] is set, and none otherwise. *)
Definition balanced (s : Statics) : Prop :=
  constructed s = (deleted s + match s_plugin s with Some _ => 1 | None => 0 end)%nat.

Lemma plugin_instance_balanced s :
  balanced s -> balanced (plugin_instance s).1 /\ s_plugin (plugin_instance s).1 = (plugin_instance s).2.
Proof.
  unfold balanced, plugin_instance. intros Hb. destruct (s_plugin s) as [p|] eqn:E; cbn; [by rewrite E|].
  destruct (construct (attempts s)); cbn; split; try done; lia.
Qed.

Lemma with_instance_balanced {A} none (f : obj -> obj * A) s :
  balanced s -> balanced (with_instance none f s).1.
Proof.
  intros [Hb He]%plugin_instance_balanced. revert Hb He. unfold with_instance.
  destruct (plugin_instance s) as [s1 [p|]]; cbn; intros Hb He; [|done].
  destruct (f p) as [p' a]. unfold balanced in *. cbn. by rewrite He in Hb.
Qed.

Lemma run_call_balanced c s : balanced s -> balanced (run_call c s).
Proof.
  intros Hb. destruct c; try by apply with_instance_balanced.
  - cbn. unfold congelado_requires. apply plugin_instance_balanced in Hb as [Hb He].
    destruct (plugin_instance s) as [s1 [p|]]; cbn in *; [|done]. by destruct (s_requires s1).
  - cbn. unfold congelado_load_before_types. apply plugin_instance_balanced in Hb as [Hb He].
    destruct (plugin_instance s) as [s1 [p|]]; cbn in *; [|done]. by destruct (s_load_before s1).
  - cbn. unfold congelado_on_unload. destruct (s_plugin s) eqn:E; [|done].
    unfold balanced in *. rewrite E in Hb. cbn. lia.
Qed.
End Plugin.
Arguments Statics : clear implicits.
Arguments Statics {_}.

(** ** The properties *)

(** C37: Whatever symbols the host calls, in whatever order, a plugin has at most one live instance:
    as many have been deleted as constructed, and one more has been constructed while one is
    alive. *)
Theorem one_live_instance `{PluginClass} cs :
  let s := run_calls cs unloaded in
  constructed s = (deleted s + match s_plugin s with Some _ => 1 | None => 0 end)%nat.
Proof.
  cbv zeta. fold (balanced (run_calls cs unloaded)).
  assert (Hgen : forall s, balanced s -> balanced (run_calls cs s)).
  { induction cs as [|c cs IH]; intros s Hb; [done|]. by apply IH, run_call_balanced. }
  by apply Hgen.
Qed.

(** The capability flags are independent: the host reads back from a mask exactly the
    capabilities it was built from. *)
Theorem capability_mask caps c : has_capability (mask caps) c = bool_decide (c ∈ caps).
Proof.
  assert (Hone : forall d, has_capability (cap_flag d) c = bool_decide (c = d)) by (intros d; by destruct c, d).
  assert (Hpow : exists n, 0 <= n /\ cap_flag c = 2 ^ n).
  { destruct c; [exists 0|exists 1|exists 2|exists 3|exists 4|exists 5|exists 6|exists 7|exists 8|exists 9
      |exists 10|exists 11|exists 12|exists 13|exists 14|exists 15|exists 16|exists 17]; by vm_compute. }
  destruct Hpow as (n & Hn & Hc).
  assert (Hbit : forall m, has_capability m c = Z.testbit m n).
  { intros m. unfold has_capability. rewrite Hc. destruct (Z.testbit m n) eqn:E.
    - apply negb_true_iff, Z.eqb_neq. intros H0. apply (f_equal (fun z => Z.testbit z n)) in H0.
      rewrite Z.land_spec, E, Z.pow2_bits_true, Z.bits_0 in H0 by done. done.
    - apply negb_false_iff, Z.eqb_eq, Z.bits_inj'. intros i Hi. rewrite Z.land_spec, Z.bits_0.
      destruct (Z.eq_dec i n) as [->|Hne]; [by rewrite E|].
      rewrite Z.pow2_bits_false by done. apply andb_false_r. }
  induction caps as [|d caps IH]; [rewrite Hbit; cbn; by rewrite Z.bits_0|].
  rewrite Hbit in *. cbn [mask foldr]. rewrite Z.lor_spec, <- Hbit, Hone. fold (mask caps). rewrite IH.
  destruct (decide (c = d)) as [->|Hne].
  - rewrite (bool_decide_true (d = d)) by done. symmetry. apply bool_decide_true. by left.
  - rewrite bool_decide_false by done. cbn. apply bool_decide_ext.
    split; [by right|]. by intros [?|?]%elem_of_cons.
Qed.

(** A capability call never answers [CG_NONE] but for the logger: a plugin without the
    interface asked for answers a null [CG_PTR], and so does any action. *)
Theorem get_answers_pointer `{PluginClass} s p type action args :
  s_plugin s = Some p -> type <> RUN_LOGGER ->
  exists ptr, (congelado_call type action args s).2 = any_ptr ptr
    /\ type_index (congelado_call type action args s).2 = CG_PTR
    /\ (ptr = interface type p \/ ptr = bridge_native_handle p /\ type = RUN_BRIDGE
        /\ action = ACTION_GET_NATIVE_HANDLE).
Proof.
  intros Hp Ht. unfold congelado_call, with_instance, plugin_instance. rewrite Hp.
  destruct type; try done; cbn; eauto. case_bool_decide; cbn; eauto 10.
Qed.

(** After an unload, a shutdown request is not a no-op: it constructs a second instance and runs
    its handler, and the capability pointers handed out then are those of the new one. *)
Theorem shutdown_revives `{PluginClass} s p p' :
  s_plugin s = Some p -> construct (attempts s) = Some p' ->
  let s1 := (congelado_on_unload s).1 in
  let s2 := (congelado_on_shutdown s1).1 in
  s_plugin s1 = None /\ s_plugin s2 = Some (on_shutdown_requested p')
  /\ constructed s2 = S (constructed s).
Proof.
  intros Hp Hc s1 s2. unfold s2, s1, congelado_on_unload. rewrite Hp. cbn.
  unfold congelado_on_shutdown, with_instance, plugin_instance. cbn. by rewrite Hc.
Qed.

(** A plugin whose state is its instance number and the calls it has seen. *)
Definition demo_class : PluginClass := {|
  obj := nat * list string;
  construct n := Some (n, []);
  get_name _ := "demo"; get_version _ := "1.0.0"; capabilities _ := mask [CAP_STORAGE; CAP_SEARCH];
  get_type _ := "plugin"; get_worker_type _ := ""; get_unique_type _ := "";
  get_requires _ := ["json"]; get_load_before_types _ := [];
  on_load p _ _ := ((p.1, p.2 ++ ["load"]), false);
  execute_worker p _ := (p, None);
  on_ready p := (p.1, p.2 ++ ["ready"]);
  on_shutdown_requested p := (p.1, p.2 ++ ["shutdown"]);
  on_reload_requested p := (p, Some false);
  logger_write p _ msg := (p.1, p.2 ++ [msg]);
  interface t p := if bool_decide (t = RUN_STORAGE) then 4096 + Z.of_nat p.1 else 0;
  bridge_native_handle _ := 0;
|}.

Definition demo_loaded : @Statics demo_class := (@congelado_init demo_class None None (@unloaded demo_class)).1.

Lemma get_answers_pointer_witness :
  (@congelado_call demo_class RUN_CACHE ACTION_GET [] demo_loaded).2 = any_ptr 0
  /\ type_index (@congelado_call demo_class RUN_CACHE ACTION_GET [] demo_loaded).2 = CG_PTR.
Proof.
  split; [reflexivity|].
  destruct (@get_answers_pointer demo_class demo_loaded (0%nat, ["load"]) RUN_CACHE ACTION_GET []
    ltac:(reflexivity) ltac:(discriminate)) as (ptr & _ & Ht & _).
  exact Ht.
Defined.

Lemma shutdown_revives_witness :
  s_plugin (@congelado_on_shutdown demo_class (@congelado_on_unload demo_class demo_loaded).1).1
  = Some (1%nat, ["shutdown"]).
Proof.
  destruct (@shutdown_revives demo_class demo_loaded (0%nat, ["load"]) (1%nat, []) ltac:(reflexivity)
    ltac:(reflexivity)) as (_ & H & _).
  exact H.
Defined.
