(* ===== verification/Bridge.v ===== *)
(** * Values across the plugin interface, and the Lua bridge

    - [Handles]: the dynamic values of the plugin layer, their conversion to and from [CongeladoAny]
      and the table of handles (include/core/manager/value.cppm).
    - [LuaBridge]: plugins/bridge/lua_bridge/bin/lua_bridge_plugin.cc: the conversion of Lua values
      in both directions, the installed methods, the life cycle.

    Modelling decisions.

    - A [std::shared_ptr<Map>] or [<Array>] is an address in [heap]; the object is shared by everything
      that holds the address.  Objects are not destroyed in the model, handles are.
    - The union of [CongeladoAny] is read as it was written; an integer read as a pointer keeps its
      bits, and [cstr_addr] is the address of a character array.
    - [keys_of] is the order in which an [std::unordered_map] is iterated.
    - A Lua value is a tree; [space] counts the slots that [lua_checkstack] can still reserve.  An
      operation that throws gives [None]. *)

From stdpp Require Import base gmap strings list fin_maps.
From Stdlib Require Import ZArith Lia.
From S2P Require Import Prelude Text PluginAbi.

Open Scope string_scope.
Open Scope list_scope.
Open Scope Z_scope.

Module Handles.

Inductive Value :=
  | NoneV
  | Int (z : Z)
  | Float (bits : Z)
  | Bool (b : bool)
  | Str (s : string)
  | MapPtr (p : Z)
  | ArrayPtr (p : Z)
  | Ptr (p : Z).

Inductive object := Map (entries : gmap string Value) | Array (items : list Value).

Record HandleTable := {
  m_handles : gmap Z Z;
  m_next_id : Z;
  heap : gmap Z object;
  next_addr : Z;
}.

Definition new_table : HandleTable := {| m_handles := ∅; m_next_id := 1; heap := ∅; next_addr := 1 |}.

Section Handles.
Context (keys_of : gmap string Value -> list string) (cstr_addr : string -> Z).

(** The members of the union. *)
Definition bits (any : CongeladoAny) : Z :=
  match payload any with v_int64 z => z | v_float64 z => z | v_ptr z => z | v_cstr s => cstr_addr s end.
Definition cstr (any : CongeladoAny) : string :=
  match payload any with v_cstr s => c_string s | _ => "" end.

Definition tagged (tag : Z) (p : any_payload) : CongeladoAny :=
  {| type_index := tag; zero_padding := 0; payload := p |}.

Definition from_any (any : CongeladoAny) : Value :=
  let tag := type_index any in
  if tag =? CG_NONE then NoneV
  else if (tag =? CG_INT) || (tag =? CG_BOOL) then Int (bits any)
  else if tag =? CG_FLOAT then Float (bits any)
  else if tag =? CG_STR then Str (cstr any)
  else if tag =? CG_MAP then MapPtr (bits any)
  else if tag =? CG_ARRAY then ArrayPtr (bits any)
  else Ptr (bits any).

(** [to_any] and [to_any_borrow]. *)
Definition to_any (v : Value) : CongeladoAny :=
  match v with
  | NoneV => tagged CG_NONE (v_int64 0)
  | Bool b => tagged CG_BOOL (v_int64 (Z.b2z b))
  | Int z => tagged CG_INT (v_int64 z)
  | Float b => tagged CG_FLOAT (v_float64 b)
  | Str s => tagged CG_STR (v_cstr s)
  | MapPtr p => tagged CG_MAP (v_ptr p)
  | ArrayPtr p => tagged CG_ARRAY (v_ptr p)
  | Ptr p => tagged CG_PTR (v_ptr p)
  end.

(** [std::make_shared] of an object. *)
Definition make_shared (o : object) (t : HandleTable) : Z * HandleTable :=
  (next_addr t,
   {| m_handles := m_handles t; m_next_id := m_next_id t;
      heap := <[next_addr t := o]> (heap t); next_addr := next_addr t + 1 |}).

Definition insert (addr : Z) (t : HandleTable) : Z * HandleTable :=
  (m_next_id t,
   {| m_handles := <[m_next_id t := addr]> (m_handles t); m_next_id := m_next_id t + 1;
      heap := heap t; next_addr := next_addr t |}).

Definition remove (idx : Z) (t : HandleTable) : HandleTable :=
  {| m_handles := base.delete idx (m_handles t); m_next_id := m_next_id t; heap := heap t;
     next_addr := next_addr t |}.

Definition set_object (addr : Z) (o : object) (t : HandleTable) : HandleTable :=
  {| m_handles := m_handles t; m_next_id := m_next_id t; heap := <[addr := o]> (heap t);
     next_addr := next_addr t |}.

(** [get_as]: [std::out_of_range] or [std::bad_any_cast] otherwise. *)
Definition get_map (handle : Z) (t : HandleTable) : option (Z * gmap string Value) :=
  addr ← m_handles t !! handle;
  match heap t !! addr with Some (Map m) => Some (addr, m) | _ => None end.

Definition get_array (handle : Z) (t : HandleTable) : option (Z * list Value) :=
  addr ← m_handles t !! handle;
  match heap t !! addr with Some (Array l) => Some (addr, l) | _ => None end.

Definition map_create (t : HandleTable) : CongeladoAny * HandleTable :=
  let '(addr, t1) := make_shared (Map ∅) t in
  let '(id, t2) := insert addr t1 in
  (tagged CG_MAP_HANDLE (v_int64 id), t2).

(** A value handed in: a handle stands for its object. *)
Definition resolve (value : CongeladoAny) (t : HandleTable) : option Value :=
  if type_index value =? CG_MAP_HANDLE then MapPtr ∘ fst <$> get_map (bits value) t
  else if type_index value =? CG_ARRAY_HANDLE then ArrayPtr ∘ fst <$> get_array (bits value) t
  else Some (from_any value).

Definition map_set (handle : Z) (key : string) (value : CongeladoAny) (t : HandleTable) : option HandleTable :=
  '(addr, m) ← get_map handle t;
  v ← resolve value t;
  Some (set_object addr (Map (<[key := v]> m)) t).

Definition map_get (handle : Z) (key : string) (t : HandleTable) : option CongeladoAny :=
  '(_, m) ← get_map handle t;
  Some (match m !! key with None => any_zero | Some v => to_any v end).

Definition get_map_size (handle : Z) (t : HandleTable) : option CongeladoAny :=
  '(_, m) ← get_map handle t;
  Some (tagged CG_INT (v_int64 (Z.of_nat (size m)))).

Definition get_map_keys (handle : Z) (t : HandleTable) : option (CongeladoAny * HandleTable) :=
  '(_, m) ← get_map handle t;
  let '(addr, t1) := make_shared (Array (Str <$> keys_of m)) t in
  let '(id, t2) := insert addr t1 in
  Some (tagged CG_ARRAY_HANDLE (v_int64 id), t2).

Definition handle_free (handle : Z) (t : HandleTable) : HandleTable := remove handle t.

Definition array_create (t : HandleTable) : CongeladoAny * HandleTable :=
  let '(addr, t1) := make_shared (Array []) t in
  let '(id, t2) := insert addr t1 in
  (tagged CG_ARRAY_HANDLE (v_int64 id), t2).

Definition array_push (handle : Z) (value : CongeladoAny) (t : HandleTable) : option HandleTable :=
  '(addr, l) ← get_array handle t;
  v ← resolve value t;
  Some (set_object addr (Array (l ++ [v])) t).

Definition get_array_size (handle : Z) (t : HandleTable) : option CongeladoAny :=
  '(_, l) ← get_array handle t;
  Some (tagged CG_INT (v_int64 (Z.of_nat (length l)))).

Definition array_get (handle index : Z) (t : HandleTable) : option CongeladoAny :=
  '(_, l) ← get_array handle t;
  Some (if index <? 0 then any_zero
        else match l !! Z.to_nat index with None => any_zero | Some v => to_any v end).
End Handles.

(** Handles are below the next identifier and point to objects, which are below the next address. *)
Definition wf (t : HandleTable) : Prop :=
  (forall id a, m_handles t !! id = Some a -> id < m_next_id t /\ is_Some (heap t !! a))
  /\ (forall a o, heap t !! a = Some o -> a < next_addr t).
End Handles.

Module LuaBridge.
Import Handles.

(** A full userdata stands for the address of its block. *)
Inductive lua :=
  | LNil
  | LBool (b : bool)
  | LInt (z : Z)
  | LFloat (bits : Z)
  | LStr (s : string)
  | LTable (entries : list (lua * lua))
  | LLightUserdata (p : Z)
  | LUserdata (p : Z)
  | LFunction
  | LThread.

(** [lua_setfield]: nil removes the field. *)
Fixpoint setfield (key : string) (v : lua) (entries : list (lua * lua)) : list (lua * lua) :=
  match entries with
  | [] => match v with LNil => [] | _ => [(LStr key, v)] end
  | (LStr k, x) :: rest =>
      if decide (k = key) then match v with LNil => rest | _ => (LStr k, v) :: rest end
      else (LStr k, x) :: setfield key v rest
  | e :: rest => e :: setfield key v rest
  end.

Section Bridge.
Context (keys_of : gmap string Value -> list string) (cstr_addr : string -> Z).
Abbreviation map_set := (map_set cstr_addr).
Abbreviation bits := (bits cstr_addr).

(** The loop over a table; [go] converts a value. *)
Definition each_entry (go : lua -> HandleTable -> option (CongeladoAny * HandleTable)) (handle : Z) :=
  fix each (es : list (lua * lua)) (t : HandleTable) : option HandleTable :=
    match es with
    | [] => Some t
    | (key, x) :: rest =>
        t' ← (match key with
              | LStr lua_key =>
                  '(dict_value, t') ← go x t;
                  map_set handle (c_string lua_key) dict_value t'
              | _ => Some t
              end);
        each rest t'
    end.

Fixpoint from_lua (v : lua) (space : nat) (t : HandleTable) : option (CongeladoAny * HandleTable) :=
  match v with
  | LNil => Some (tagged CG_NONE (v_int64 0), t)
  | LBool b => Some (tagged CG_BOOL (v_int64 (Z.b2z b)), t)
  | LInt z => Some (tagged CG_INT (v_int64 z), t)
  | LFloat b => Some (tagged CG_FLOAT (v_float64 b), t)
  | LStr s => Some (tagged CG_STR (v_cstr s), t)
  | LTable entries =>
      if (space <? 3)%nat then None
      else
        let '(handle, t1) := map_create t in
        t2 ← each_entry (fun x t => from_lua x (space - 2) t) (bits handle) entries t1;
        Some (handle, t2)
  (* the default case: [lua_touserdata] is null for what is no userdata *)
  | LLightUserdata p | LUserdata p => Some (tagged CG_PTR (v_ptr p), t)
  | LFunction | LThread => Some (tagged CG_PTR (v_ptr 0), t)
  end.

(** The loop over the keys of a map; [go] pushes a value. *)
Fixpoint push_entries (go : CongeladoAny -> HandleTable -> option (lua * HandleTable))
    (handle keys_handle : Z) (idx count : nat) (tbl : list (lua * lua)) (t : HandleTable) :
    option (list (lua * lua) * HandleTable) :=
  match count with
  | O => Some (tbl, t)
  | S count' =>
      key ← array_get keys_handle (Z.of_nat idx) t;
      map_value ← map_get handle (cstr key) t;
      '(v, t1) ← go map_value t;
      let t2 := if (type_index map_value =? CG_MAP_HANDLE) || (type_index map_value =? CG_ARRAY_HANDLE)
                then handle_free (bits map_value) t1 else t1 in
      push_entries go handle keys_handle (S idx) count' (setfield (cstr key) v tbl) t2
  end.

(** The value left on top of the stack; two nested calls are enough. *)
Fixpoint to_lua (fuel : nat) (any : CongeladoAny) (space : nat) (t : HandleTable) :
    option (lua * HandleTable) :=
  match fuel with
  | O => None
  | S fuel' =>
      let tag := type_index any in
      if tag =? CG_NONE then Some (LNil, t)
      else if tag =? CG_BOOL then Some (LBool (negb (wrap 32 (bits any) =? 0)), t)
      else if tag =? CG_INT then Some (LInt (bits any), t)
      else if tag =? CG_FLOAT then Some (LFloat (bits any), t)
      else if tag =? CG_STR then Some (LStr (cstr any), t)
      else if tag =? CG_MAP_HANDLE then
        if (space <? 2)%nat then None
        else
          map_size ← get_map_size (bits any) t;
          '(keys_handle, t1) ← get_map_keys keys_of (bits any) t;
          '(tbl, t2) ← push_entries (fun v t => to_lua fuel' v (space - 1) t) (bits any) (bits keys_handle)
                         0 (Z.to_nat (bits map_size)) [] t1;
          Some (LTable tbl, handle_free (bits keys_handle) t2)
      else Some (LLightUserdata (bits any), t)
  end.

(** ** Methods and life cycle *)

(** [FnContext::m_invoke]: the result, or the message of what it throws. *)
Definition InvokeFn := list Value -> Value + string.

Record LuaBridgePlugin := {
  m_state : option (gmap string nat);   (** the interpreter, with the methods bound in the table *)
  m_table_name : string;
  m_fn_contexts : list InvokeFn;
  handles : HandleTable;
}.

Definition new_plugin : LuaBridgePlugin :=
  {| m_state := None; m_table_name := ""; m_fn_contexts := []; handles := new_table |}.

(** [on_load]: [made] tells whether [luaL_newstate] succeeds; a new state has no globals, so the
    table is created. *)
Definition on_load (made : bool) (cfg : string -> option string) (p : LuaBridgePlugin) : LuaBridgePlugin :=
  if made then
    {| m_state := Some ∅; m_table_name := default "congelado" (cfg "table_name");
       m_fn_contexts := m_fn_contexts p; handles := handles p |}
  else p.

Definition native_handle (p : LuaBridgePlugin) : bool := bool_decide (is_Some (m_state p)).

(** [run_script]: [dofile] is the interpreter's verdict on the file. *)
Definition run_script (dofile : string -> option string) (path : string) (p : LuaBridgePlugin) : Z :=
  match m_state p with
  | None => 1
  | Some _ => match dofile (c_string path) with Some _ => 1 | None => 0 end
  end.

(** [install_method]; the Lua functions must not be called on a null state. *)
Definition install_method (fn : InvokeFn) (lang_name : string) (p : LuaBridgePlugin) : option LuaBridgePlugin :=
  bound ← m_state p;
  Some {| m_state := Some (<[c_string lang_name := length (m_fn_contexts p)]> bound);
          m_table_name := m_table_name p; m_fn_contexts := m_fn_contexts p ++ [fn];
          handles := handles p |}.

Fixpoint from_lua_args (args : list lua) (space : nat) (t : HandleTable) : option (list Value * HandleTable) :=
  match args with
  | [] => Some ([], t)
  | arg :: rest =>
      '(any, t1) ← from_lua arg space t;
      '(vs, t2) ← from_lua_args rest space t1;
      Some (from_any cstr_addr any :: vs, t2)
  end.

(** The closure of a method: its result, or the error [luaL_error] raises.  [None]: a conversion threw,
    which also becomes a Lua error. *)
Definition call_method (fn : InvokeFn) (args : list lua) (space : nat) (t : HandleTable) :
    option ((lua + string) * HandleTable) :=
  '(values, t1) ← from_lua_args args space t;
  match fn values with
  | inr message => Some (inr (c_string message), t1)
  | inl result => '(v, t2) ← to_lua 2 (to_any result) space t1; Some (inl v, t2)
  end.
End Bridge.

(** ** What the conversions keep *)

(** The nested occurrences of [lua]. *)
Section LuaInd.
Variable P : lua -> Prop.
Hypothesis Hnil : P LNil.
Hypothesis Hbool : forall b, P (LBool b).
Hypothesis Hint : forall z, P (LInt z).
Hypothesis Hfloat : forall b, P (LFloat b).
Hypothesis Hstr : forall s, P (LStr s).
Hypothesis Htable : forall es, Forall (fun e => P e.2) es -> P (LTable es).
Hypothesis Hlight : forall p, P (LLightUserdata p).
Hypothesis Hfull : forall p, P (LUserdata p).
Hypothesis Hfunction : P LFunction.
Hypothesis Hthread : P LThread.

Fixpoint lua_nested_ind (v : lua) : P v :=
  match v with
  | LNil => Hnil
  | LBool b => Hbool b
  | LInt z => Hint z
  | LFloat b => Hfloat b
  | LStr s => Hstr s
  | LTable es =>
      Htable es ((fix each es : Forall (fun e => P e.2) es :=
                    match es with
                    | [] => List.Forall_nil _
                    | (k, x) :: rest => List.Forall_cons _ (k, x) _ (lua_nested_ind x) (each rest)
                    end) es)
  | LLightUserdata p => Hlight p
  | LUserdata p => Hfull p
  | LFunction => Hfunction
  | LThread => Hthread
  end.
End LuaInd.

(** The entries with a string key, under the text C sees of it. *)
Definition string_entry (e : lua * lua) : option (string * lua) :=
  match e.1 with LStr k => Some (c_string k, e.2) | _ => None end.

Definition add_entry (m : gmap string lua) (e : lua * lua) : gmap string lua :=
  match string_entry e with Some (k, x) => <[k := x]> m | None => m end.

Definition table_of (es : list (lua * lua)) : gmap string lua := foldl add_entry ∅ es.

(** The stack has room for every table reachable through string keys. *)
Fixpoint fits (v : lua) (space : nat) : bool :=
  match v with
  | LTable es =>
      (3 <=? space)%nat
      && forallb (fun e => match e with (LStr _, x) => fits x (space - 2) | _ => true end) es
  | _ => true
  end.

(** The tables reachable through string keys. *)
Fixpoint tables (v : lua) : nat :=
  match v with
  | LTable es => S (foldr (fun e n => match e with (LStr _, x) => tables x + n | _ => n end)%nat O es)
  | _ => O
  end.

(** What is stored for a Lua value, and what it comes back as. *)
Definition stored (v : lua) (x : Value) : Prop :=
  match v with
  | LNil => x = NoneV
  | LBool b => x = Int (Z.b2z b)
  | LInt z => x = Int z
  | LFloat b => x = Float b
  | LStr s => x = Str (c_string s)
  | LTable _ => exists a, x = MapPtr a
  | LLightUserdata p | LUserdata p => x = Ptr p
  | LFunction | LThread => x = Ptr 0
  end.

Definition comes_back (v w : lua) : Prop :=
  match v with
  | LBool b => w = LInt (Z.b2z b)
  | LStr s => w = LStr (c_string s)
  | LTable _ => exists a, w = LLightUserdata a
  | LUserdata p => w = LLightUserdata p
  | LFunction | LThread => w = LLightUserdata 0
  | _ => w = v
  end.

(** The Lua value of a dynamic value. *)
Definition back (x : Value) : lua :=
  match x with
  | NoneV => LNil
  | Bool b => LBool b
  | Int z => LInt z
  | Float b => LFloat b
  | Str s => LStr (c_string s)
  | MapPtr p | ArrayPtr p | Ptr p => LLightUserdata p
  end.

Lemma stored_comes_back v x : stored v x -> comes_back v (back x).
Proof.
  destruct v; cbn; intros H; try by subst. - subst. cbn. by rewrite c_string_idem.
  - destruct H as [a ->]. by exists a.
Qed.

Lemma stored_not_nil v x : stored v x -> v <> LNil -> back x <> LNil.
Proof. destruct v; cbn; intros H Hn; try by subst. by destruct H as [a ->]. Qed.

Lemma setfield_fresh key v tbl :
  v <> LNil -> Forall (fun e => e.1 <> LStr key) tbl -> setfield key v tbl = tbl ++ [(LStr key, v)].
Proof.
  intros Hv. induction 1 as [|[k x] tbl Hk _ IH]; cbn; [by destruct v|].
  destruct k; try (by rewrite IH). rewrite decide_False by (cbn in Hk; congruence). by rewrite IH.
Qed.

Lemma setfield_keys (f : string -> lua) ks tbl :
  NoDup ks -> (forall k, k ∈ ks -> f k <> LNil) -> (forall k, k ∈ ks -> Forall (fun e => e.1 <> LStr k) tbl) ->
  foldl (fun tbl k => setfield k (f k) tbl) tbl ks = tbl ++ ((fun k => (LStr k, f k)) <$> ks).
Proof.
  intros Hnd. revert tbl. induction Hnd as [|k ks Hk Hnd IH]; intros tbl Hf Ht; cbn.
  { by rewrite app_nil_r. }
  rewrite setfield_fresh by (apply Hf || apply Ht; by left).
  rewrite IH.
  - by rewrite <- app_assoc.
  - intros k' ?. apply Hf. by right.
  - intros k' Hk'. apply Forall_app. split; [apply Ht; by right|]. constructor; [|done]. cbn.
    intros [= ->]. done.
Qed.

Lemma table_of_fold (f : string -> lua) ks m k :
  Forall (fun k => c_string k = k) ks ->
  foldl add_entry m ((fun k => (LStr k, f k)) <$> ks) !! k
  = if decide (k ∈ ks) then Some (f k) else m !! k.
Proof.
  intros Hks. revert m. induction Hks as [|k' ks Hk' _ IH]; intros m; cbn.
  { by rewrite decide_False by apply not_elem_of_nil. }
  rewrite IH. unfold add_entry, string_entry. cbn. rewrite Hk'. destruct (decide (k ∈ ks)) as [Hin|Hin].
  - by rewrite decide_True by by right.
  - destruct (decide (k = k')) as [->|Hne].
    + rewrite decide_True by by left. apply lookup_insert_eq.
    + rewrite decide_False by (intros [?|?]%elem_of_cons; done). by rewrite lookup_insert_ne.
Qed.

(** The keys of a converted table are C strings. *)
Lemma table_of_keys es : forall k x, table_of es !! k = Some x -> c_string k = k /\ x ∈ es.*2.
Proof.
  unfold table_of. induction es as [|[key v] es IH] using rev_ind; [done|]. intros k x.
  rewrite foldl_app, fmap_app. cbn. destruct key; cbn;
    try (intros [? ?]%IH; split; [done|]; apply elem_of_app; by left).
  intros [[<- <-]|[_ [? ?]%IH]]%lookup_insert_Some.
  - split; [apply c_string_idem|]. apply elem_of_app. right. by left.
  - split; [done|]. apply elem_of_app. by left.
Qed.

Section Theory.
Context (keys_of : gmap string Value -> list string) (cstr_addr : string -> Z).
Context (Hkeys : forall m, keys_of m ≡ₚ (map_to_list m).*1).
Abbreviation from_lua := (from_lua cstr_addr).
Abbreviation to_lua := (to_lua keys_of cstr_addr).

(** Nothing that existed changes. *)
Definition extends (t t' : HandleTable) : Prop :=
  m_handles t ⊆ m_handles t' /\ heap t ⊆ heap t' /\ m_next_id t <= m_next_id t' /\ next_addr t <= next_addr t'.

#[local] Instance extends_preorder : PreOrder extends.
Proof. split; [by intros t; repeat split|]. unfold extends. intros ???; intuition (try lia); by etransitivity. Qed.

(** [handle] names the map [m] at address [a]. *)
Definition names_map (t : HandleTable) (handle a : Z) (m : gmap string Value) : Prop :=
  m_handles t !! handle = Some a /\ heap t !! a = Some (Map m).

Lemma get_map_names t handle a m : names_map t handle a m -> get_map handle t = Some (a, m).
Proof. intros [H1 H2]. unfold get_map. rewrite H1. cbn. by rewrite H2. Qed.

Lemma names_map_extends t t' handle a m : extends t t' -> names_map t handle a m -> names_map t' handle a m.
Proof. intros (Hh & Hp & _) [H1 H2]. split; by eapply lookup_weaken. Qed.

Lemma map_create_spec t handle t1 :
  wf t -> map_create t = (handle, t1) ->
  wf t1 /\ extends t t1 /\ handle = tagged CG_MAP_HANDLE (v_int64 (m_next_id t))
  /\ names_map t1 (m_next_id t) (next_addr t) ∅ /\ size (m_handles t1) = S (size (m_handles t)).
Proof.
  intros [Hw1 Hw2] [= <- <-].
  assert (Hid : m_handles t !! m_next_id t = None).
  { apply eq_None_not_Some. intros [a Ha]. destruct (Hw1 _ _ Ha). lia. }
  assert (Had : heap t !! next_addr t = None).
  { apply eq_None_not_Some. intros [o Ho]. specialize (Hw2 _ _ Ho). lia. }
  split_and!; [|repeat split; cbn; try lia; by apply insert_subseteq|done|..].
  - split; cbn.
    + intros id a [[<- <-]|[_ Ha]]%lookup_insert_Some; [split; [lia|by rewrite lookup_insert_eq]|].
      destruct (Hw1 _ _ Ha). split; [lia|]. by apply lookup_insert_is_Some'; right.
    + intros a o [[<- <-]|[_ Ho]]%lookup_insert_Some; [lia|]. specialize (Hw2 _ _ Ho). lia.
  - split; cbn; by rewrite lookup_insert_eq.
  - cbn. by rewrite map_size_insert_None.
Qed.

Lemma set_object_spec t a o o' :
  heap t !! a = Some o -> wf t ->
  wf (set_object a o' t).
Proof.
  intros Ha [Hw1 Hw2]. split; cbn.
  - intros id b Hb. destruct (Hw1 _ _ Hb). split; [done|]. by apply lookup_insert_is_Some'; right.
  - intros b x [[<- <-]|[_ Hx]]%lookup_insert_Some; [by eapply Hw2|by eapply Hw2].
Qed.

(** The map holds what is stored for the entries. *)
Definition holds (m : gmap string Value) (es : gmap string lua) : Prop :=
  map_Forall2 (fun _ x y => stored y x) m es.

Definition converted (v : lua) (any : CongeladoAny) (t : HandleTable) : Prop :=
  (exists x, resolve cstr_addr any t = Some x /\ stored v x)
  /\ forall es, v = LTable es -> exists id a m,
       any = tagged CG_MAP_HANDLE (v_int64 id) /\ names_map t id a m /\ holds m (table_of es).

(** From a table on, a conversion succeeds and leaves one more handle for every table. *)
Definition conversion (go : HandleTable -> option (CongeladoAny * HandleTable)) (v : lua) : Prop :=
  forall t, wf t -> exists any t', go t = Some (any, t') /\ wf t' /\ extends t t'
    /\ size (m_handles t') = (size (m_handles t) + tables v)%nat /\ converted v any t'.

Lemma map_set_spec t t1 handle a m key v any :
  names_map t1 handle a m -> wf t1 -> heap t !! a = None -> extends t t1 -> converted v any t1 ->
  exists x t2, map_set cstr_addr handle key any t1 = Some t2 /\ stored v x
    /\ names_map t2 handle a (<[key := x]> m) /\ wf t2 /\ extends t t2
    /\ size (m_handles t2) = size (m_handles t1).
Proof.
  intros Hn Hw Ha (He1 & He2 & ? & ?) [(x & Hx & Hst) _]. unfold map_set.
  rewrite (get_map_names _ _ _ _ Hn). cbn. rewrite Hx. cbn. eexists x, _. split; [done|].
  destruct Hn as [Hn1 Hn2]. split_and!; [done|split; [done|cbn; by rewrite lookup_insert_eq]| | |done].
  - by eapply set_object_spec.
  - repeat split; cbn; try done. by apply insert_subseteq_r.
Qed.

Lemma each_entry_spec go handle a es :
  Forall (fun e => match e with (LStr _, x) => conversion (go x) x | _ => True end) es ->
  forall t t1 m l, wf t1 -> extends t t1 -> heap t !! a = None -> names_map t1 handle a m -> holds m l ->
  exists t2 m2, each_entry cstr_addr go handle es t1 = Some t2 /\ wf t2 /\ extends t t2
    /\ names_map t2 handle a m2
    /\ holds m2 (foldl add_entry l es)
    /\ size (m_handles t2)
       = (size (m_handles t1) + foldr (fun e n => match e with (LStr _, x) => tables x + n | _ => n end)%nat O es)%nat.
Proof.
  induction 1 as [|[key x] es Hx _ IH]; intros t t1 m l Hw He Ha Hn Hh; cbn.
  { exists t1, m. split_and!; [done..|lia]. }
  destruct key as [| | | |k| | | | |]; try (by apply IH with m).
  destruct (Hx t1 Hw) as (any & t' & Hgo & Hw' & He' & Hsz & Hc). rewrite Hgo. cbn.
  destruct (map_set_spec t t' handle a m (c_string k) x any) as (y & t2 & Hset & Hst & Hn2 & Hw2 & He2 & Hsz2);
    [by eapply names_map_extends|done|done|by etransitivity|done|]. rewrite Hset. cbn.
  destruct (IH t t2 (<[c_string k := y]> m) (<[c_string k := x]> l)) as (t3 & m3 & Hr & ? & ? & ? & ? & Hsz3);
    [done|done|done|done|by apply map_Forall2_insert_2|].
  exists t3, m3. split_and!; [done..|]. rewrite Hsz3, Hsz2, Hsz. cbn. lia.
Qed.

Lemma from_lua_spec v space : fits v space = true -> conversion (fun t => from_lua v space t) v.
Proof.
  revert space. induction v as [|b|z|b|s|es IH|p|p| | ] using lua_nested_ind; intros space Hf t Hw.
  6: { cbn [fits] in Hf. apply andb_prop in Hf as [Hsp Hall]. apply Nat.leb_le in Hsp.
       cbn [LuaBridge.from_lua]. rewrite (proj2 (Nat.ltb_ge _ _) Hsp).
       destruct (map_create t) as [handle t1] eqn:Hc.
       destruct (map_create_spec t handle t1 Hw Hc) as (Hw1 & He1 & -> & Hn1 & Hsz1).
       destruct (each_entry_spec (fun x t => from_lua x (space - 2) t) (m_next_id t) (next_addr t) es) with
         (t := t) (t1 := t1) (m := ∅ : gmap string Value) (l := ∅ : gmap string lua)
         as (t2 & m2 & Hr & Hw2 & He2 & Hn2 & Hh2 & Hsz2).
       - rewrite forallb_forall in Hall. rewrite Forall_forall in IH |- *. intros [k x] He.
         specialize (Hall _ (proj1 (list_elem_of_In _ _) He)). destruct k; try done. by apply (IH _ He).
       - done.
       - done.
       - apply eq_None_not_Some. intros [o Ho]. destruct Hw as [_ Hw]. specialize (Hw _ _ Ho). lia.
       - done.
       - by apply map_Forall2_empty.
       - change (bits cstr_addr (tagged CG_MAP_HANDLE (v_int64 (m_next_id t)))) with (m_next_id t).
         rewrite Hr. cbn. eexists _, _. split_and!; [done|done|done|cbn; lia|]. split.
         + eexists. split; [|by eexists]. unfold resolve. cbn.
           by rewrite (get_map_names _ _ _ _ Hn2).
         + intros es' [= <-]. by eexists _, _, _. }
  all: eexists _, t; split_and!; [done|done|by reflexivity|cbn; lia|];
    (split; [by eexists|by intros es]).
Qed.

Lemma to_lua_value fuel x space t : to_lua (S fuel) (to_any x) space t = Some (back x, t).
Proof. destruct x as [| | |b| | | |]; try done. by destruct b. Qed.

Lemma push_entries_spec fuel space id a m kh b ks t :
  names_map t id a m -> get_array kh t = Some (b, Str <$> ks) -> Forall (fun k => c_string k = k) ks ->
  forall tbl idx, (idx <= length ks)%nat ->
  push_entries cstr_addr (fun v t => to_lua (S fuel) v space t) id kh idx (length ks - idx) tbl t
  = Some (foldl (fun tbl k => setfield k (default LNil (back <$> m !! k)) tbl) tbl (drop idx ks), t).
Proof.
  intros Hn Hk Hks tbl idx. remember (length ks - idx)%nat as n eqn:Hlen. revert tbl idx Hlen.
  induction n as [|n IH]; intros tbl idx Hlen Hidx; cbn [push_entries].
  { by rewrite drop_ge by lia. }
  destruct (lookup_lt_is_Some_2 ks idx) as [k Hkk]; [lia|]. rewrite (drop_S _ _ _ Hkk).
  unfold array_get. rewrite Hk. cbn [mbind option_bind]. rewrite (proj2 (Z.ltb_ge _ _)) by lia.
  rewrite Nat2Z.id, list_lookup_fmap, Hkk. cbn [fmap option_fmap option_map mbind option_bind].
  unfold map_get. rewrite (get_map_names _ _ _ _ Hn). cbn [mbind option_bind].
  change (cstr (to_any (Str k))) with (c_string k).
  rewrite (proj1 (Forall_lookup _ _) Hks _ _ Hkk : c_string k = k).
  assert (Hgo : to_lua (S fuel) (match m !! k with None => any_zero | Some v => to_any v end) space t
                = Some (default LNil (back <$> m !! k), t)).
  { destruct (m !! k); [apply to_lua_value|done]. }
  rewrite Hgo. cbn [mbind option_bind].
  assert (Htag : (type_index (match m !! k with None => any_zero | Some v => to_any v end) =? CG_MAP_HANDLE)
    || (type_index (match m !! k with None => any_zero | Some v => to_any v end) =? CG_ARRAY_HANDLE) = false).
  { destruct (m !! k) as [v|]; [by destruct v as [| | |b'| | | |]|done]. }
  rewrite Htag, IH by lia. done.
Qed.

Lemma to_lua_map fuel space id a m t :
  wf t -> names_map t id a m -> (2 <= space)%nat ->
  (forall k x, m !! k = Some x -> c_string k = k /\ back x <> LNil) ->
  exists t', to_lua (S (S fuel)) (tagged CG_MAP_HANDLE (v_int64 id)) space t
    = Some (LTable ((fun k => (LStr k, default LNil (back <$> m !! k))) <$> keys_of m), t')
    /\ size (m_handles t') = size (m_handles t).
Proof.
  intros [Hw1 Hw2] Hn Hsp Hm. cbn [LuaBridge.to_lua].
  change (type_index (tagged CG_MAP_HANDLE (v_int64 id))) with CG_MAP_HANDLE. cbn [Z.eqb].
  cbn -[Nat.ltb push_entries get_map]. rewrite (proj2 (Nat.ltb_ge _ _) Hsp).
  unfold get_map_size, get_map_keys. rewrite (get_map_names _ _ _ _ Hn).
  cbn -[push_entries LuaBridge.to_lua]. rewrite Nat2Z.id.
  set (t1 := {| m_handles := <[m_next_id t := next_addr t]> _; m_next_id := _; heap := _; next_addr := _ |}).
  assert (Hid : m_handles t !! m_next_id t = None).
  { apply eq_None_not_Some. intros [x Hx]. destruct (Hw1 _ _ Hx). lia. }
  assert (Hn1 : names_map t1 id a m).
  { destruct Hn as [H1 H2]. split; cbn.
    - rewrite lookup_insert_ne; [done|]. intros <-. congruence.
    - rewrite lookup_insert_ne; [done|]. intros <-. specialize (Hw2 _ _ H2). lia. }
  assert (Hk1 : get_array (m_next_id t) t1 = Some (next_addr t, Str <$> keys_of m)).
  { unfold get_array. cbn. rewrite lookup_insert_eq. cbn. by rewrite lookup_insert_eq. }
  assert (Hin : forall k, k ∈ keys_of m -> exists x, m !! k = Some x).
  { intros k. rewrite Hkeys. intros ([k' x] & -> & Hx)%list_elem_of_fmap.
    exists x. by apply elem_of_map_to_list. }
  assert (Hlen : size m = length (keys_of m)) by by rewrite Hkeys, length_fmap, length_map_to_list.
  rewrite Hlen, <- (Nat.sub_0_r (length (keys_of m))).
  rewrite (push_entries_spec fuel (space - 1) id a m (m_next_id t) (next_addr t) (keys_of m) t1 Hn1 Hk1);
    [|apply Forall_forall; intros k [x Hx]%Hin; by apply (Hm k x)|lia].
  cbn [mbind option_bind]. eexists. split.
  - rewrite drop_0, setfield_keys; [done| |..].
    + rewrite Hkeys. apply NoDup_fst_map_to_list.
    + intros k [x Hx]%Hin. rewrite Hx. cbn. by apply (Hm k x).
    + by constructor.
  - cbn. rewrite delete_insert_id by done. done.
Qed.

Lemma table_of_back m ks :
  ks ≡ₚ (map_to_list m).*1 -> (forall k x, m !! k = Some x -> c_string k = k) ->
  forall k, table_of ((fun k => (LStr k, default LNil (back <$> m !! k))) <$> ks) !! k = back <$> m !! k.
Proof.
  intros Hks Hm k. unfold table_of. rewrite table_of_fold.
  - destruct (decide (k ∈ ks)) as [Hin|Hin]; rewrite Hks in Hin.
    + apply list_elem_of_fmap in Hin as ([k' x] & -> & Hx%elem_of_map_to_list). cbn. by rewrite Hx.
    + destruct (m !! k) as [x|] eqn:Hx; [|done]. exfalso. apply Hin, list_elem_of_fmap.
      exists (k, x). split; [done|]. by apply elem_of_map_to_list.
  - apply Forall_forall. intros k'. rewrite Hks.
    intros ([k'' x] & -> & Hx%elem_of_map_to_list)%list_elem_of_fmap. by apply (Hm k'' x).
Qed.
End Theory.


Definition demo_table : list (lua * lua) :=
  [(LStr "n", LInt 7); (LStr "flag", LBool true); (LStr "inner", LTable [(LStr "leaf", LInt 42)]);
   (LInt 1, LStr "dropped")].

End LuaBridge.
