(* ===== verification/PythonBridge.v ===== *)
(** * The Python bridge (plugins/bridge/python_bridge/bin/python_bridge_plugin.cc)

    The conversion of Python objects to values of the plugin interface and back, the installed
    methods, and the life cycle, over the handle table of Bridge.v.

    - CPython's text codec is the class [PyText]: [as_utf8] is [PyUnicode_AsUTF8] and [from_utf8] is
      [PyUnicode_FromString]; [PyTextLaws] states that they invert each other.
    - A Python object is a tree; an object without a case of its own is its address.  References are
      not counted.
    - The interpreter's error indicator is part of the state ([error_set]): the bridge does not look at
      it, and neither do the models of its functions.
    - A null [PyObject *] is [None]; an operation that throws gives [None] of the outer option. *)

From stdpp Require Import base gmap strings list fin_maps.
From Stdlib Require Import ZArith Lia.
From S2P Require Import Prelude Text PluginAbi Bridge.

Import Handles.

Open Scope string_scope.
Open Scope list_scope.
Open Scope Z_scope.

Class PyText := {
  ustr : Type;
  #[global] ustr_eq_dec :: EqDecision ustr;
  as_utf8 : ustr -> option string;
  from_utf8 : string -> option ustr;
}.

(** A string that has an encoding is the decoding of it, and what precedes the first NUL of an
    encoding is one. *)
Class PyTextLaws (T : PyText) := {
  utf8_round_trip u s : as_utf8 u = Some s <-> from_utf8 s = Some u;
  utf8_c_string u s : as_utf8 u = Some s -> is_Some (from_utf8 (c_string s));
}.

Inductive py {T : PyText} :=
  | PyNone
  | PyBool (b : bool)
  | PyLong (z : Z)
  | PyFloat (bits : Z)
  | PyUnicode (u : ustr)
  | PyDict (entries : list (py * py))
  | PyObject (p : Z).

Record PyState := { table : HandleTable; error_set : bool }.

Definition set_table (t : HandleTable) (st : PyState) : PyState := {| table := t; error_set := error_set st |}.
Definition set_error (st : PyState) : PyState := {| table := table st; error_set := true |}.

Section PythonBridge.
Context {T : PyText} (keys_of : gmap string Value -> list string) (cstr_addr : string -> Z).
Abbreviation bits := (bits cstr_addr).

(** [PyLong_AsLongLong]: -1 and an [OverflowError] out of range. *)
Definition AsLongLong (z : Z) (st : PyState) : Z * PyState :=
  if (- 2 ^ 63 <=? z) && (z <? 2 ^ 63) then (z, st) else (-1, set_error st).

(** [PyUnicode_AsUTF8] of any object: null and an error for what is no string or has no encoding. *)
Definition AsUTF8 (obj : py) (st : PyState) : option string * PyState :=
  match obj with
  | PyUnicode u => match as_utf8 u with Some s => (Some s, st) | None => (None, set_error st) end
  | _ => (None, set_error st)
  end.

(** The loop over a dictionary; [go] converts a value, and a null key is the empty one. *)
Definition each_item (go : py -> PyState -> option (CongeladoAny * PyState)) (handle : Z) :=
  fix each (es : list (py * py)) (st : PyState) : option PyState :=
    match es with
    | [] => Some st
    | (py_key, py_value) :: rest =>
        let '(dict_key, st1) := AsUTF8 py_key st in
        '(dict_value, st2) ← go py_value st1;
        t ← map_set cstr_addr handle (c_string (default "" dict_key)) dict_value (table st2);
        each rest (set_table t st2)
    end.

Fixpoint from_py (obj : py) (st : PyState) : option (CongeladoAny * PyState) :=
  match obj with
  | PyNone => Some (tagged CG_NONE (v_int64 0), st)
  | PyBool b => Some (tagged CG_BOOL (v_int64 (Z.b2z b)), st)
  | PyLong z => let '(v, st1) := AsLongLong z st in Some (tagged CG_INT (v_int64 v), st1)
  | PyFloat b => Some (tagged CG_FLOAT (v_float64 b), st)
  | PyUnicode _ =>
      let '(s, st1) := AsUTF8 obj st in
      Some (tagged CG_STR (match s with Some s => v_cstr s | None => v_ptr 0 end), st1)
  | PyDict entries =>
      let '(handle, t1) := map_create (table st) in
      st2 ← each_item from_py (bits handle) entries (set_table t1 st);
      Some (handle, st2)
  | PyObject p => Some (tagged CG_PTR (v_ptr p), st)
  end.

(** [PyDict_SetItem] with a string key, on a dictionary whose keys are strings. *)
Fixpoint set_item (key : ustr) (v : py) (entries : list (py * py)) : list (py * py) :=
  match entries with
  | [] => [(PyUnicode key, v)]
  | (PyUnicode k, x) :: rest =>
      if decide (k = key) then (PyUnicode k, v) :: rest else (PyUnicode k, x) :: set_item key v rest
  | e :: rest => e :: set_item key v rest
  end.

(** [PyUnicode_FromString]. *)
Definition FromString (s : string) (st : PyState) : option ustr * PyState :=
  match from_utf8 s with Some u => (Some u, st) | None => (None, set_error st) end.

(** [PyDict_SetItemString]: nothing is set when the key does not decode. *)
Definition SetItemString (dict : list (py * py)) (key : string) (v : py) (st : PyState) :
  list (py * py) * PyState :=
  let '(u, st1) := FromString key st in
  (match u with Some u => set_item u v dict | None => dict end, st1).

(** The loop over the keys of a map; [go] makes the object of a value. *)
Fixpoint set_items (go : CongeladoAny -> PyState -> option (option py * PyState))
    (handle keys_handle : Z) (idx count : nat) (dict : list (py * py)) (st : PyState) :
    option (list (py * py) * PyState) :=
  match count with
  | O => Some (dict, st)
  | S count' =>
      key ← array_get keys_handle (Z.of_nat idx) (table st);
      map_value ← map_get handle (cstr key) (table st);
      '(py_value, st1) ← go map_value st;
      let '(dict', st2) :=
        match py_value, payload key with
        | Some v, v_cstr _ => SetItemString dict (cstr key) v st1
        | _, _ => (dict, st1)
        end in
      set_items go handle keys_handle (S idx) count' dict' st2
  end.

(** The object for a value; two nested calls are enough. *)
Fixpoint to_py (fuel : nat) (any : CongeladoAny) (st : PyState) : option (option py * PyState) :=
  match fuel with
  | O => None
  | S fuel' =>
      let tag := type_index any in
      if tag =? CG_NONE then Some (Some PyNone, st)
      else if tag =? CG_BOOL then Some (Some (PyBool (negb (bits any =? 0))), st)
      else if tag =? CG_INT then Some (Some (PyLong (bits any)), st)
      else if tag =? CG_FLOAT then Some (Some (PyFloat (bits any)), st)
      else if tag =? CG_STR then
        let '(u, st1) := FromString (cstr any) st in Some (PyUnicode <$> u, st1)
      else if tag =? CG_MAP_HANDLE then
        map_size ← get_map_size (bits any) (table st);
        '(keys_handle, t1) ← get_map_keys keys_of (bits any) (table st);
        '(dict, st2) ← set_items (to_py fuel') (bits any) (bits keys_handle) 0 (Z.to_nat (bits map_size)) []
                         (set_table t1 st);
        Some (Some (PyDict dict), set_table (handle_free (bits keys_handle) (table st2)) st2)
      else Some (Some (PyLong (wrap 64 (bits any))), st)
  end.

(** ** Methods and life cycle *)

(** [FnContext::m_invoke]: the result, or the message of what it throws. *)
Definition InvokeFn := list Value -> Value + string.

Abbreviation Event := (string * list (string * string))%type.

Record PythonBridgePlugin := {
  m_module : option string;
  m_method_names : list string;
  m_method_defs : list InvokeFn;
  m_bound : gmap string nat;    (** the methods bound in the module *)
  state : PyState;
}.

Definition new_plugin : PythonBridgePlugin :=
  {| m_module := None; m_method_names := []; m_method_defs := []; m_bound := ∅;
     state := {| table := new_table; error_set := false |} |}.

(** [on_load]: [resolves] tells whether [PyImport_AddModule] gives a module.  The boolean is whether the
    interpreter is initialized. *)
Definition on_load (resolves : string -> bool) (cfg : string -> option string) (p : PythonBridgePlugin) :
  bool * PythonBridgePlugin * list Event :=
  let module_name := default "congelado" (cfg "module_name") in
  if resolves (c_string module_name) then
    (true,
     {| m_module := Some (c_string module_name); m_method_names := m_method_names p;
        m_method_defs := m_method_defs p; m_bound := m_bound p; state := state p |}, [])
  else (true, p, [("python_bridge.module_resolve_failed", [("module", module_name)])]).

Definition on_unload (p : PythonBridgePlugin) : bool * PythonBridgePlugin :=
  (false,
   {| m_module := None; m_method_names := m_method_names p; m_method_defs := m_method_defs p;
      m_bound := m_bound p; state := state p |}).

(** [run_script]: [run] is the exit code of a file that can be opened. *)
Definition run_script (run : string -> option Z) (path : string) : Z * list Event :=
  match run (c_string path) with
  | None => (1, [("python_bridge.script_not_found", [("path", path)])])
  | Some rc => (rc, [])
  end.

(** [install_method]; there must be a module. *)
Definition install_method (fn : InvokeFn) (lang_name : string) (p : PythonBridgePlugin) :
  option PythonBridgePlugin :=
  module ← m_module p;
  Some {| m_module := Some module; m_method_names := m_method_names p ++ [lang_name];
          m_method_defs := m_method_defs p ++ [fn];
          m_bound := <[c_string lang_name := length (m_method_defs p)]> (m_bound p);
          state := state p |}.

Fixpoint from_py_args (args : list py) (st : PyState) : option (list Value * PyState) :=
  match args with
  | [] => Some ([], st)
  | arg :: rest =>
      '(any, st1) ← from_py arg st;
      '(vs, st2) ← from_py_args rest st1;
      Some (from_any cstr_addr any :: vs, st2)
  end.

(** The function of a method: the object it returns, and what was published.  [None]: a conversion
    threw, which also becomes a [RuntimeError]. *)
Definition call_method (fn : InvokeFn) (args : list py) (st : PyState) :
  option (option py * PyState * list Event) :=
  '(values, st1) ← from_py_args args st;
  match fn values with
  | inr message => Some (None, set_error st1, [("python_bridge.invoke_exception", [("error", c_string message)])])
  | inl result => '(v, st2) ← to_py 2 (to_any result) st1; Some (v, st2, [])
  end.
End PythonBridge.

(** ** The Python bridge does what the Lua bridge does *)

#[local] Arguments c_string : simpl never.

(** The nested occurrences of [py], among the values of a dictionary. *)
Section PyInd.
Context {T : PyText} (P : py -> Prop).
Hypothesis Hnone : P PyNone.
Hypothesis Hbool : forall b, P (PyBool b).
Hypothesis Hlong : forall z, P (PyLong z).
Hypothesis Hfloat : forall b, P (PyFloat b).
Hypothesis Hunicode : forall u, P (PyUnicode u).
Hypothesis Hdict : forall es, Forall (fun e => P e.2) es -> P (PyDict es).
Hypothesis Hobject : forall p, P (PyObject p).

Fixpoint py_nested_ind (v : py) : P v :=
  match v with
  | PyNone => Hnone
  | PyBool b => Hbool b
  | PyLong z => Hlong z
  | PyFloat b => Hfloat b
  | PyUnicode u => Hunicode u
  | PyDict es =>
      Hdict es ((fix each es : Forall (fun e => P e.2) es :=
                   match es with
                   | [] => List.Forall_nil _
                   | (k, x) :: rest => List.Forall_cons _ (k, x) _ (py_nested_ind x) (each rest)
                   end) es)
  | PyObject p => Hobject p
  end.
End PyInd.

Section Theory.
Context {T : PyText}.

Definition int64 (z : Z) : bool := (- 2 ^ 63 <=? z) && (z <? 2 ^ 63).
Definition encodable (obj : py) : bool :=
  match obj with PyUnicode u => bool_decide (is_Some (as_utf8 u)) | _ => false end.

(** What converts without an error: integers of 64 bits, strings that have an encoding, and keys that
    are such strings. *)
Fixpoint clean (obj : py) : bool :=
  match obj with
  | PyLong z => int64 z
  | PyUnicode _ => encodable obj
  | PyDict es => forallb (fun e => match e with (k, x) => encodable k && clean x end) es
  | _ => true
  end.

(** The Lua value with the same contents. *)
Definition utf8_text (obj : py) : string :=
  match obj with PyUnicode u => default "" (as_utf8 u) | _ => "" end.

Fixpoint as_lua (obj : py) : LuaBridge.lua :=
  match obj with
  | PyNone => LuaBridge.LNil
  | PyBool b => LuaBridge.LBool b
  | PyLong z => LuaBridge.LInt z
  | PyFloat b => LuaBridge.LFloat b
  | PyUnicode _ => LuaBridge.LStr (utf8_text obj)
  | PyDict es => LuaBridge.LTable ((fun e => match e with (k, x) => (LuaBridge.LStr (utf8_text k), as_lua x) end) <$> es)
  | PyObject p => LuaBridge.LLightUserdata p
  end.

Definition as_lua_entry (e : py * py) : LuaBridge.lua * LuaBridge.lua :=
  match e with (k, x) => (LuaBridge.LStr (utf8_text k), as_lua x) end.

Lemma as_utf8_clean obj st :
  encodable obj = true -> AsUTF8 obj st = (Some (utf8_text obj), st).
Proof. destruct obj as [| | | |u| |]; cbn; try done. intros [s Hs]%bool_decide_eq_true. by rewrite Hs. Qed.

Definition with_error (e : bool) (r : option (CongeladoAny * HandleTable)) : option (CongeladoAny * PyState) :=
  (fun r => (r.1, {| table := r.2; error_set := e |})) <$> r.

Lemma each_item_as_lua cstr_addr space handle e es :
  Forall (fun i => clean i.2 = true -> LuaBridge.fits (as_lua i.2) space = true -> forall t,
    from_py cstr_addr i.2 {| table := t; error_set := e |}
    = with_error e (LuaBridge.from_lua cstr_addr (as_lua i.2) space t)) es ->
  forallb (fun e => match e with (k, x) => encodable k && clean x end) es = true ->
  forallb (fun e => match e with (LuaBridge.LStr _, x) => LuaBridge.fits x space | _ => true end)
    (as_lua_entry <$> es) = true ->
  forall t,
    each_item cstr_addr (from_py cstr_addr) handle es {| table := t; error_set := e |}
    = (fun t => {| table := t; error_set := e |})
      <$> LuaBridge.each_entry cstr_addr (fun x t => LuaBridge.from_lua cstr_addr x space t) handle
            (as_lua_entry <$> es) t.
Proof.
  induction 1 as [|[k x] es Hx _ IH]; cbn; [done|].
  intros [[Hk Hc]%andb_prop Hcs]%andb_prop [Hf Hfs]%andb_prop t.
  rewrite as_utf8_clean, Hx by done. cbn.
  destruct (LuaBridge.from_lua cstr_addr (as_lua x) space t) as [[any t']|]; cbn; [|done].
  destruct (map_set cstr_addr handle (c_string (utf8_text k)) any t') as [t2|]; cbn; [|done].
  by apply IH.
Qed.

(** On an object without oversized integers and strings that have no encoding, the Python bridge
    does to the handle table exactly what the Lua bridge does on the table with the same contents,
    gives the same value, and leaves the error indicator alone. *)
Theorem from_py_as_lua cstr_addr obj space t e :
  clean obj = true -> LuaBridge.fits (as_lua obj) space = true ->
  from_py cstr_addr obj {| table := t; error_set := e |}
  = (fun r => (r.1, {| table := r.2; error_set := e |})) <$> LuaBridge.from_lua cstr_addr (as_lua obj) space t.
Proof.
  revert space t. induction obj as [|b|z|b|u|es IH|p] using py_nested_ind; intros space t Hc Hf; try reflexivity.
  - cbn in *. unfold AsLongLong. unfold int64 in Hc. by rewrite Hc.
  - cbn [from_py as_lua LuaBridge.from_lua clean] in *. by rewrite as_utf8_clean.
  - cbn [from_py as_lua LuaBridge.from_lua LuaBridge.fits] in *. apply andb_prop in Hf as [Hs Hf].
    apply Nat.leb_le in Hs. rewrite (proj2 (Nat.ltb_ge _ _) Hs). cbn [table set_table].
    destruct (map_create t) as [handle t1]. cbn [set_table error_set].
    unfold set_table. cbn [error_set].
    rewrite (each_item_as_lua cstr_addr (space - 2)); [|eapply Forall_impl; [exact IH|]; intros i Hi Hci Hfi t'; by apply Hi|done|done].
    change ((fun e0 => let '(k, x) := e0 in (LuaBridge.LStr (utf8_text k), as_lua x)) <$> es)
      with (as_lua_entry <$> es).
    by destruct (LuaBridge.each_entry _ _ _ _ _).
Qed.

(** Some stack is deep enough for any Lua value. *)
Lemma fits_mono v n m : LuaBridge.fits v n = true -> (n <= m)%nat -> LuaBridge.fits v m = true.
Proof.
  revert n m. induction v as [| | | | |es IH| | | | ] using LuaBridge.lua_nested_ind; intros n m Hf Hle; try done.
  cbn [LuaBridge.fits] in *. apply andb_prop in Hf as [Hn Hf]. apply Nat.leb_le in Hn. apply andb_true_intro.
  split; [apply Nat.leb_le; lia|]. rewrite forallb_forall in Hf |- *. intros [k x] He.
  specialize (Hf _ He). destruct k; try done. rewrite Forall_forall in IH.
  apply (IH (LuaBridge.LStr s, x)) with (n - 2)%nat; [by apply list_elem_of_In|done|lia].
Qed.

Lemma fits_enough v : exists n, LuaBridge.fits v n = true.
Proof.
  induction v as [| | | | |es IH| | | | ] using LuaBridge.lua_nested_ind; try by exists 0%nat.
  assert (exists n, Forall (fun e => LuaBridge.fits e.2 n = true) es) as [n Hn].
  { induction IH as [|[k x] es [n Hx] _ [n' IH]]; [by exists 0%nat|]. exists (n `max` n')%nat. constructor.
    - eapply fits_mono; [exact Hx|lia].
    - eapply Forall_impl; [exact IH|]. intros e He. eapply fits_mono; [exact He|lia]. }
  exists (n + 3)%nat. cbn [LuaBridge.fits]. rewrite (proj2 (Nat.leb_le _ _)) by lia.
  apply forallb_forall. intros [k x] He.
  destruct k; try done. rewrite Forall_forall in Hn. eapply fits_mono; [|].
  - by apply (Hn (LuaBridge.LStr s, x)), list_elem_of_In.
  - lia.
Qed.

(** ** Dictionaries *)

(** A dictionary by the text that C sees of its keys; a later entry replaces an earlier one. *)
Definition add_item (m : gmap string py) (e : py * py) : gmap string py := <[c_string (utf8_text e.1) := e.2]> m.
Definition dict_of (es : list (py * py)) : gmap string py := foldl add_item ∅ es.

Lemma table_of_dict es : LuaBridge.table_of (as_lua_entry <$> es) = as_lua <$> dict_of es.
Proof.
  unfold LuaBridge.table_of, dict_of.
  induction es as [|[k x] es IH] using rev_ind; [symmetry; apply fmap_empty|].
  rewrite fmap_app, !foldl_app. cbn [fmap list_fmap foldl]. rewrite IH. unfold add_item. by rewrite fmap_insert.
Qed.

Lemma dict_of_entry es k x :
  dict_of es !! k = Some x -> exists key, (key, x) ∈ es /\ c_string (utf8_text key) = k.
Proof.
  unfold dict_of. revert k. induction es as [|[key y] es IH] using rev_ind; [done|]. intros k.
  rewrite foldl_app. cbn [foldl]. unfold add_item at 1. intros [[<- <-]|[_ (key' & Hin & Hk)%IH]]%lookup_insert_Some; cbn [fst snd].
  - exists key. split; [|done]. apply elem_of_app. right. by left.
  - exists key'. split; [|done]. apply elem_of_app. by left.
Qed.

(** The object of a dynamic value. *)
Definition back_py (x : Value) : option py :=
  match x with
  | NoneV => Some PyNone
  | Bool b => Some (PyBool b)
  | Int z => Some (PyLong z)
  | Float b => Some (PyFloat b)
  | Str s => PyUnicode <$> from_utf8 (c_string s)
  | MapPtr p | ArrayPtr p | Ptr p => Some (PyLong (wrap 64 p))
  end.

(** What an object in a dictionary comes back as: strings lose what follows a NUL, booleans are
    integers, dictionaries and objects of other types are the integers of addresses. *)
Definition comes_back (v w : py) : Prop :=
  match v with
  | PyBool b => w = PyLong (Z.b2z b)
  | PyUnicode u => exists u', w = PyUnicode u' /\ as_utf8 u' = c_string <$> as_utf8 u
  | PyDict _ => exists a, w = PyLong a
  | PyObject p => w = PyLong (wrap 64 p)
  | _ => w = v
  end.

Lemma stored_back {L : PyTextLaws T} v x :
  clean v = true -> LuaBridge.stored (as_lua v) x -> exists w, back_py x = Some w /\ comes_back v w.
Proof.
  destruct v as [| | | |u| |]; cbn; intros Hc Hs; subst; try by eexists.
  - apply bool_decide_eq_true in Hc as [s Hs]. rewrite Hs. cbn. rewrite c_string_idem.
    destruct (utf8_c_string u s Hs) as [u' Hu]. rewrite Hu. cbn. eexists. split; [done|].
    exists u'. split; [done|]. by apply utf8_round_trip.
  - destruct Hs as [a ->]. by eexists; split; [|eexists].
Qed.

(** The entry of the result for a key of the map. *)
Definition back_entry (m : gmap string Value) (k : string) : option (py * py) :=
  u ← from_utf8 k; v ← m !! k ≫= back_py; Some (PyUnicode u, v).

Lemma set_item_fresh u v dict :
  Forall (fun e => e.1 <> PyUnicode u) dict -> set_item u v dict = dict ++ [(PyUnicode u, v)].
Proof.
  induction 1 as [|[k x] dict Hk _ IH]; cbn; [done|].
  destruct k; try (by rewrite IH). rewrite decide_False by (cbn in Hk; congruence). by rewrite IH.
Qed.

(** The keys of the map are texts that decode, and its values have objects. *)
Definition decodes (m : gmap string Value) (k : string) : Prop :=
  c_string k = k /\ exists e, back_entry m k = Some e.

Definition put (m : gmap string Value) (dict : list (py * py)) (k : string) : list (py * py) :=
  match back_entry m k with Some (PyUnicode u, v) => set_item u v dict | _ => dict end.

Lemma back_entry_Some m k e :
  back_entry m k = Some e ->
  exists u v x, from_utf8 k = Some u /\ m !! k = Some x /\ back_py x = Some v /\ e = (PyUnicode u, v).
Proof.
  unfold back_entry. destruct (from_utf8 k) as [u|]; cbn; [|done].
  destruct (m !! k) as [x|]; cbn; [|done]. destruct (back_py x) as [v|] eqn:Hv; cbn; [|done].
  intros [= <-]. by exists u, v, x.
Qed.

(** Entries that are set for different texts have different keys. *)
Lemma put_keys {L : PyTextLaws T} m ks dict :
  NoDup ks -> Forall (decodes m) ks ->
  (forall k u, k ∈ ks -> from_utf8 k = Some u -> Forall (fun e => e.1 <> PyUnicode u) dict) ->
  foldl (put m) dict ks = dict ++ omap (back_entry m) ks.
Proof.
  intros Hnd. revert dict. induction Hnd as [|k ks Hk Hnd IH]; intros dict Hd Hf; cbn; [by rewrite app_nil_r|].
  apply Forall_cons_1 in Hd as [(_ & e & He) Hd]. unfold put at 2. rewrite He.
  destruct (back_entry_Some _ _ _ He) as (u & v & x & Hu & _ & _ & ->).
  rewrite set_item_fresh by (by eapply Hf; [left|]). rewrite IH; [by rewrite <- app_assoc|done|].
  intros k' u' Hk' Hu'. apply Forall_app. split; [by eapply Hf; [right|]|]. constructor; [|done]. cbn.
  intros [= ->]. apply utf8_round_trip in Hu, Hu'. congruence.
Qed.

(** What the entries of the result say. *)
Lemma omap_entries {L : PyTextLaws T} m ks k :
  Forall (decodes m) ks ->
  dict_of (omap (back_entry m) ks) !! k = if decide (k ∈ ks) then m !! k ≫= back_py else None.
Proof.
  unfold dict_of. intros Hd. induction ks as [|k' ks IH] using rev_ind.
  { by rewrite decide_False by apply not_elem_of_nil. }
  apply Forall_app in Hd as [Hd [(Hc & e & He) _]%Forall_cons_1]. rewrite omap_app, foldl_app. cbn. rewrite He.
  destruct (back_entry_Some _ _ _ He) as (u & v & x & Hu & Hm & Hv & ->). cbn [foldl].
  unfold add_item at 1. cbn [fst snd utf8_text]. rewrite (proj2 (utf8_round_trip u k') Hu).
  change (default "" (Some k')) with k'. rewrite Hc. destruct (decide (k = k')) as [->|Hne].
  - rewrite lookup_insert_eq, decide_True; [by rewrite Hm|]. apply elem_of_app. right. by left.
  - rewrite lookup_insert_ne, IH by done. destruct (decide (k ∈ ks)) as [Hin|Hin].
    + rewrite decide_True; [done|]. apply elem_of_app. by left.
    + rewrite decide_False; [done|]. intros [?|[?|?%not_elem_of_nil]%elem_of_cons]%elem_of_app; done.
Qed.

Section Back.
Context {L : PyTextLaws T} (keys_of : gmap string Value -> list string) (cstr_addr : string -> Z).
Context (Hkeys : forall m, keys_of m ≡ₚ (map_to_list m).*1).

Lemma to_py_value fuel x st w :
  back_py x = Some w -> to_py keys_of cstr_addr (S fuel) (to_any x) st = Some (Some w, st).
Proof.
  destruct x as [| | |b|s| | |]; try (by intros [= <-]).
  - intros [= <-]. by destruct b.
  - cbn. unfold cstr, FromString. cbn. by destruct (from_utf8 (c_string s)) as [u|]; cbn; intros [= <-].
Qed.

Lemma set_items_spec fuel id a m kh b ks st :
  LuaBridge.names_map (table st) id a m -> get_array kh (table st) = Some (b, Str <$> ks) ->
  Forall (decodes m) ks ->
  forall dict idx, (idx <= length ks)%nat ->
  set_items (to_py keys_of cstr_addr (S fuel)) id kh idx (length ks - idx) dict st
  = Some (foldl (put m) dict (drop idx ks), st).
Proof.
  intros Hn Hk Hks dict idx. remember (length ks - idx)%nat as n eqn:Hlen. revert dict idx Hlen.
  induction n as [|n IH]; intros dict idx Hlen Hidx; cbn [set_items].
  { by rewrite drop_ge by lia. }
  destruct (lookup_lt_is_Some_2 ks idx) as [k Hkk]; [lia|]. rewrite (drop_S _ _ _ Hkk).
  unfold array_get. rewrite Hk. cbn [mbind option_bind]. rewrite (proj2 (Z.ltb_ge _ _)) by lia.
  rewrite Nat2Z.id, list_lookup_fmap, Hkk. cbn [fmap option_fmap option_map mbind option_bind].
  destruct (proj1 (Forall_lookup _ _) Hks _ _ Hkk) as (Hc & e & He).
  destruct (back_entry_Some _ _ _ He) as (u & v & x & Hu & Hm & Hv & ->).
  change (cstr (to_any (Str k))) with (c_string k). rewrite Hc.
  unfold map_get. rewrite (LuaBridge.get_map_names _ _ _ _ Hn). cbn [mbind option_bind]. rewrite Hm.
  rewrite (to_py_value fuel x st v Hv). cbn [mbind option_bind to_any tagged payload].
  unfold SetItemString, FromString. rewrite Hu. rewrite IH by lia. cbn [foldl]. by unfold put at 3; rewrite He.
Qed.

(** A handle of a map becomes the dictionary of its decoded entries. *)
Lemma to_py_dict fuel id a m st :
  wf (table st) -> LuaBridge.names_map (table st) id a m ->
  (forall k x, m !! k = Some x -> decodes m k) ->
  exists t', to_py keys_of cstr_addr (S (S fuel)) (tagged CG_MAP_HANDLE (v_int64 id)) st
    = Some (Some (PyDict (omap (back_entry m) (keys_of m))), {| table := t'; error_set := error_set st |})
    /\ size (m_handles t') = size (m_handles (table st)).
Proof.
  intros [Hw1 Hw2] Hn Hm. destruct st as [t e]. cbn [table error_set] in *. cbn [to_py].
  change (type_index (tagged CG_MAP_HANDLE (v_int64 id))) with CG_MAP_HANDLE. cbn [Z.eqb].
  cbn -[set_items get_map to_py]. unfold get_map_size, get_map_keys.
  rewrite (LuaBridge.get_map_names _ _ _ _ Hn). cbn -[set_items to_py]. rewrite Nat2Z.id.
  set (t1 := {| m_handles := <[m_next_id t := next_addr t]> _; m_next_id := _; heap := _; next_addr := _ |}).
  assert (Hid : m_handles t !! m_next_id t = None).
  { apply eq_None_not_Some. intros [x Hx]. destruct (Hw1 _ _ Hx). lia. }
  assert (Hn1 : LuaBridge.names_map t1 id a m).
  { destruct Hn as [H1 H2]. split; cbn; rewrite lookup_insert_ne; try done; intros <-; [congruence|].
    specialize (Hw2 _ _ H2). lia. }
  assert (Hk1 : get_array (m_next_id t) t1 = Some (next_addr t, Str <$> keys_of m)).
  { unfold get_array. cbn. rewrite lookup_insert_eq. cbn. by rewrite lookup_insert_eq. }
  assert (Hin : Forall (decodes m) (keys_of m)).
  { apply Forall_forall. intros k. rewrite Hkeys. intros ([k' x] & -> & Hx%elem_of_map_to_list)%list_elem_of_fmap.
    by apply (Hm k' x). }
  assert (Hlen : size m = length (keys_of m)) by by rewrite Hkeys, length_fmap, length_map_to_list.
  rewrite Hlen, <- (Nat.sub_0_r (length (keys_of m))).
  rewrite (set_items_spec fuel id a m (m_next_id t) (next_addr t) (keys_of m)) by (done || lia).
  rewrite drop_0, put_keys; [|rewrite Hkeys; apply NoDup_fst_map_to_list|done|by constructor].
  cbn. eexists. split; [done|]. cbn. by rewrite delete_insert_id.
Qed.
End Back.
End Theory.

(** A dictionary without oversized integers, and whose strings and keys have an encoding, comes
    back from the host as a dictionary with the same keys: [None], integers and floats unchanged,
    strings up to their first NUL, booleans as integers, nested dictionaries and other objects as the
    integers of addresses.  The error indicator is left alone, and no handle is freed. *)
Theorem dict_round_trip {T : PyText} {L : PyTextLaws T} keys_of cstr_addr es t e fuel :
  (forall m, keys_of m ≡ₚ (map_to_list m).*1) -> wf t -> clean (PyDict es) = true ->
  exists any st1 es' t2,
    from_py cstr_addr (PyDict es) {| table := t; error_set := e |} = Some (any, st1)
    /\ to_py keys_of cstr_addr (S (S fuel)) any st1 = Some (Some (PyDict es'), {| table := t2; error_set := e |})
    /\ map_Forall2 (fun _ v w => comes_back v w) (dict_of es) (dict_of es')
    /\ size (m_handles t2) = (size (m_handles t) + LuaBridge.tables (as_lua (PyDict es)))%nat.
Proof.
  intros Hkeys Hw Hc. destruct (fits_enough (as_lua (PyDict es))) as [space Hf].
  pose proof (from_py_as_lua cstr_addr _ _ t e Hc Hf) as Hpy.
  destruct (LuaBridge.from_lua_spec cstr_addr _ _ Hf t Hw) as (any & t1 & Hfrom & Hw1 & _ & Hsz1 & _ & Hmap).
  destruct (Hmap _ eq_refl) as (id & a & m & -> & Hn & Hh).
  change (map_Forall2 (fun _ x y => LuaBridge.stored y x) m (LuaBridge.table_of (as_lua_entry <$> es))) in Hh.
  rewrite table_of_dict in Hh. cbn [clean] in Hc. rewrite forallb_forall in Hc.
  assert (Hall : forall k, option_Forall2 (fun x v => clean v = true /\ LuaBridge.stored (as_lua v) x
                                     /\ decodes m k) (m !! k) (dict_of es !! k)).
  { intros k. specialize (Hh k). rewrite lookup_fmap in Hh.
    destruct (dict_of es !! k) as [v|] eqn:Hd; inversion Hh as [x y Hst Hx|Hx]; constructor.
    destruct (dict_of_entry _ _ _ Hd) as (key & Hin & Hk).
    specialize (Hc _ (proj1 (list_elem_of_In _ _) Hin)). apply andb_prop in Hc as [Henc Hcv].
    split_and!; [done|done|]. split; [rewrite <- Hk; apply c_string_idem|].
    destruct key as [| | | |u| |]; try done. apply bool_decide_eq_true in Henc as [s Hs].
    destruct (utf8_c_string u s Hs) as [u' Hu]. destruct (stored_back v x Hcv Hst) as (w & Hwb & _).
    unfold back_entry. cbn [utf8_text] in Hk. rewrite Hs in Hk. cbn in Hk. rewrite <- Hk, Hu. cbn.
    rewrite Hk, <- Hx. cbn. rewrite Hwb. by eexists. }
  destruct (to_py_dict keys_of cstr_addr Hkeys fuel id a m {| table := t1; error_set := e |}) as (t2 & Hto & Hsz2);
    [done|done| |].
  { intros k x Hx. specialize (Hall k). rewrite Hx in Hall. inversion Hall as [? ? (_ & _ & ?)|]. done. }
  eexists _, _, _, t2. split_and!; [by rewrite Hpy, Hfrom|exact Hto| |by rewrite Hsz2].
  intros k. rewrite omap_entries; [|apply Forall_forall; intros k'; rewrite Hkeys;
    intros ([k'' x] & -> & Hx%elem_of_map_to_list)%list_elem_of_fmap; specialize (Hall k''); cbn;
    rewrite Hx in Hall; inversion Hall as [? ? (_ & _ & ?)|]; done].
  specialize (Hall k). destruct (m !! k) as [x|] eqn:Hx; inversion Hall as [x' v (Hcv & Hst & _) Hx' Hv|Hx' Hv].
  - rewrite decide_True; [|rewrite Hkeys; apply list_elem_of_fmap; exists (k, x); split; [done|];
      by apply elem_of_map_to_list].
    destruct (stored_back v x Hcv Hst) as (w & Hwb & Hcb). cbn. rewrite Hwb. by constructor.
  - destruct (decide _); by constructor.
Qed.

(** ** Instances *)

(** A codec under which every string is its own encoding. *)
#[local] Instance octets : PyText := {| ustr := string; as_utf8 := Some; from_utf8 := Some |}.

#[local] Instance octets_laws : PyTextLaws octets.
Proof. split; cbn; [naive_solver|]. intros u s _. by eexists. Qed.

Definition demo_dict : list (py * py) :=
  [(PyUnicode (T := octets) "n", PyLong 7); (PyUnicode (T := octets) "flag", PyBool true);
   (PyUnicode (T := octets) "inner", PyDict [(PyUnicode (T := octets) "leaf", PyNone)])].

Lemma dict_round_trip_witness :
  exists any st1 es' t2,
    from_py (fun _ => 0) (PyDict demo_dict) {| table := new_table; error_set := false |} = Some (any, st1)
    /\ to_py (fun m => (map_to_list m).*1) (fun _ => 0) 2 any st1
       = Some (Some (PyDict es'), {| table := t2; error_set := false |})
    /\ dict_of es' !! "flag" = Some (PyLong 1)
    /\ (exists a, dict_of es' !! "inner" = Some (PyLong a))
    /\ size (m_handles t2) = 2%nat.
Proof.
  destruct (dict_round_trip (fun m => (map_to_list m).*1) (fun _ => 0) demo_dict new_table false 0)
    as (any & st1 & es' & t2 & H1 & H2 & Hb & Hsz).
  - done.
  - split; intros ? ?; cbn; by rewrite lookup_empty.
  - reflexivity.
  - exists any, st1, es', t2. split_and!; [exact H1|exact H2| | |exact Hsz].
    + assert (Hf : option_Forall2 comes_back (Some (PyBool true)) (dict_of es' !! "flag"))
        by exact (Hb "flag"). inversion Hf as [v w Hw Hv Hq|]. by rewrite Hw.
    + assert (Hf : option_Forall2 comes_back (Some (PyDict [(PyUnicode (T := octets) "leaf", PyNone)]))
                     (dict_of es' !! "inner")) by exact (Hb "inner").
      inversion Hf as [v w Hw Hv Hq|]. subst v. destruct Hw as [a ->]. by exists a.
Defined.

Lemma from_py_as_lua_witness :
  from_py (fun _ => 0) (PyDict demo_dict) {| table := new_table; error_set := false |}
  = (fun r => (r.1, {| table := r.2; error_set := false |}))
    <$> LuaBridge.from_lua (fun _ => 0) (as_lua (PyDict demo_dict)) 20 new_table.
Proof. apply from_py_as_lua; reflexivity. Defined.

(** An integer that does not fit arrives as -1; the method runs, and its result is returned with the
    error indicator set. *)
Example oversized_argument :
  call_method (fun m => (map_to_list m).*1) (fun _ => 0) (fun args => inl (nth 0 args NoneV))
    [PyLong (T := octets) (10 ^ 30)] {| table := new_table; error_set := false |}
  = Some (Some (PyLong (-1)), {| table := new_table; error_set := true |}, []).
Proof. reflexivity. Qed.

(** Keys that are no strings all become the empty key: of two entries the last one is left. *)
Example other_keys_collapse :
  exists handle st,
    from_py (fun _ => 0) (PyDict [(PyLong (T := octets) 1, PyBool true); (PyLong 2, PyFloat 0)])
      {| table := new_table; error_set := false |} = Some (handle, st)
    /\ (snd <$> get_map 1 (table st)) = Some {[ "" := Float 0 ]} /\ error_set st = true.
Proof. by eexists _, _. Qed.
