(* ===== verification/Workers.v ===== *)
(** * The bundled workers and the serde formats (plugins/worker, plugins/apps/auth, plugins/serde)

    A worker maps a task's input value to a flat output map or an error.  The workers here are the
    general ones ([echo], [transform]) and those of the auth application ([pw_hash], [jwt_sign],
    [db_query]); the JSON and TOML formats are thin wrappers of a reflection library.

    - [serde::Ser::from_value] of a struct of strings needs every field, as a string; its error
      message is a parameter.
    - [std::hash], [std::strtod] with the formatting of a double, [encode_json] and the reflection
      library's readers and writers are parameters.
    - [toupper] and [tolower] are those of the "C" locale. *)

From stdpp Require Import base gmap strings list.
From Stdlib Require Import ZArith Lia Ascii.
From S2P Require Import Prelude Text Json Model.

Open Scope string_scope.
Open Scope list_scope.
Open Scope Z_scope.

Abbreviation WorkerOutput := (gmap string string).
(** The output, or the message of the error. *)
Abbreviation WorkerResult := (expected WorkerOutput).

Definition to_str (v : Value) : option string := match v with VString s => Some s | _ => None end.

(** The first field of that name, which has to be a string. *)
Definition string_field (name : string) (v : Value) : option string :=
  fields ← to_object v;
  field ← list_find (fun f : string * Value => f.1 = name) fields;
  to_str field.2.2.

Section Workers.
Variable decode_error : Value -> string.
Variable encode_json : Value -> string.
Variable std_hash : string -> Z.
(** [std::format("{}", -std::strtod(value, nullptr))] *)
Variable negated : string -> string.

(** ** Transform *)

Record TransformInput := { ti_transform : string; ti_value : string }.

Definition transform_from_value (input : Value) : expected TransformInput :=
  match string_field "transform" input, string_field "value" input with
  | Some transform, Some value => Expected {| ti_transform := transform; ti_value := value |}
  | _, _ => Unexpected (decode_error input)
  end.

Definition toupper (c : ascii) : ascii :=
  let n := byte_of_char c in if (97 <=? n) && (n <=? 122) then char_of_byte (n - 32) else c.
Definition tolower (c : ascii) : ascii :=
  let n := byte_of_char c in if (65 <=? n) && (n <=? 90) then char_of_byte (n + 32) else c.

Definition transform_execute (input : Value) : WorkerResult :=
  match transform_from_value input with
  | Unexpected e => Unexpected e
  | Expected parsed =>
      let value := ti_value parsed in
      let result :=
        if bool_decide (ti_transform parsed = "to_upper") then str (toupper <$> chars value)
        else if bool_decide (ti_transform parsed = "to_lower") then str (tolower <$> chars value)
        else if bool_decide (ti_transform parsed = "negate") then negated value
        else value in
      Expected {["result" := result]}
  end.

(** ** Echo *)

Definition echo_text (v : Value) : string :=
  match to_str v with Some s => s | None => encode_json v end.

Definition echo_execute (input : Value) : WorkerResult :=
  Expected match to_object input with
           | None => ∅
           | Some object => foldl (fun output f => <[f.1 := echo_text f.2]> output) ∅ object
           end.

(** ** The auth workers *)

(** [std::format("{:016x}", digest)] of a [std::size_t]. *)
Definition hex16 (n : Z) : text :=
  (fun i => hex_digit (n / 16 ^ Z.of_nat i mod 16)) <$> rev (seq 0 16).

Definition pw_hash_execute (input : Value) : WorkerResult :=
  match string_field "password" input with
  | None => Unexpected (decode_error input)
  | Some password => Expected {["password_hash" := str (hex16 (size_t (std_hash password)))]}
  end.

Definition jwt_sign_execute (input : Value) : WorkerResult :=
  match string_field "sub" input with
  | None => Unexpected (decode_error input)
  | Some sub =>
      Expected {["token" := "jwt." +:+ sub +:+ "." +:+ str (hex16 (size_t (std_hash sub)))]}
  end.

Record AuthUser := { au_username : string; au_password_hash : string }.

(** The connector, as far as [UserStore] uses it; [None] for a null connector. *)
Record UserTable (S : Type) := {
  ut_upsert : S -> AuthUser -> S * bool;
  ut_find : S -> string -> S * option AuthUser;
}.
Arguments ut_upsert {S} _ _ _.
Arguments ut_find {S} _ _ _.

Definition store_and_read {S} (t : option (UserTable S)) (username password_hash : string) (s : S)
    : S * option (string * string) :=
  match t with
  | None => (s, None)
  | Some t =>
      let '(s1, ok) := ut_upsert t s {| au_username := username; au_password_hash := password_hash |} in
      if negb ok then (s1, None)
      else
        let '(s2, found) := ut_find t s1 username in
        (s2, (fun u => (au_username u, au_password_hash u)) <$> found)
  end.

Definition db_query_run {S} (t : option (UserTable S)) (input : Value) (s : S) : S * WorkerResult :=
  match string_field "username" input, string_field "password_hash" input with
  | Some username, Some password_hash =>
      let '(s1, stored) := store_and_read t username password_hash s in
      (s1, match stored with
           | None => Unexpected "store/read failed"
           | Some (u, h) => Expected (<["db_status" := "ok"]> (<["stored_username" := u]> {["stored_hash" := h]}))
           end)
  | _, _ => (s, Unexpected (decode_error input))
  end.
End Workers.
Arguments ut_upsert {S} _ _ _.
Arguments ut_find {S} _ _ _.

(** [AuthDefsBuilder]. *)
Definition get_task_defs : list text :=
  [quoted "{'name':'auth_health','type':'SIMPLE','worker_type':'echo','input_keys':[],'output_keys':[],'retry':{'max_attempts':1,'backoff':'FIXED','interval_ms':1000},'timeout':{'timeout_ms':30000,'action':'ALERT_ONLY'},'enforce_schema':false,'masked_fields':[]}"].
Definition get_workflow_defs : list text := [].

(** ** Serde formats *)

Section Formats.
Variable json_write : Value -> string.
Variable json_read : string -> expected Value.
Variable toml_write : list (string * Value) -> string.
Variable toml_read : string -> expected Value.

(** The published events and the outcome. *)
Abbreviation Encoded A := (list (string * list (string * string)) * expected A)%type.

Definition json_encode (value : Value) : Encoded string := ([], Expected (json_write value)).
Definition json_decode (data : string) : Encoded Value :=
  match json_read data with
  | Unexpected e => ([("serde.json.decode_failed", [("error", e)])], Unexpected e)
  | Expected v => ([], Expected v)
  end.

Definition toml_encode (value : Value) : Encoded string :=
  match to_object value with
  | None => ([("serde.toml.encode_failed", [])], Unexpected "TOML requires a table at the document root")
  | Some object => ([], Expected (toml_write object))
  end.
Definition toml_decode (data : string) : Encoded Value :=
  match toml_read data with
  | Unexpected e => ([("serde.toml.decode_failed", [("error", e)])], Unexpected e)
  | Expected v => ([], Expected v)
  end.
End Formats.

(** ** Lemmas *)

Lemma hex_val_digit d : 0 <= d < 16 -> hex_val (hex_digit d) = Some d.
Proof.
  intros H. assert (Hc : forallb (fun i => bool_decide (hex_val (hex_digit (Z.of_nat i)) = Some (Z.of_nat i)))
    (seq 0 16) = true) by (vm_compute; reflexivity).
  rewrite forallb_forall in Hc. specialize (Hc (Z.to_nat d) ltac:(apply list_elem_of_In, elem_of_seq; lia)).
  rewrite Z2Nat.id in Hc by lia. by apply bool_decide_eq_true in Hc.
Qed.

Lemma hex16_digits n : hex_val <$> hex16 n = (fun i => Some (n / 16 ^ Z.of_nat i mod 16)) <$> rev (seq 0 16).
Proof.
  unfold hex16. rewrite <- list_fmap_compose. apply list_fmap_ext. intros i x _.
  cbn. apply hex_val_digit. mlia.
Qed.

(** Two 64-bit numbers with the same sixteen digits are equal. *)
Lemma hex16_inj a b : 0 <= a < 2 ^ 64 -> 0 <= b < 2 ^ 64 -> hex16 a = hex16 b -> a = b.
Proof.
  intros Ha Hb E. assert (E' : hex_val <$> hex16 a = hex_val <$> hex16 b) by by rewrite E.
  rewrite !hex16_digits in E'.
  assert (Hd : forall i, (i < 16)%nat -> a / 16 ^ Z.of_nat i mod 16 = b / 16 ^ Z.of_nat i mod 16).
  { intros i Hi.
    assert (Hin : i ∈ rev (seq 0 16)) by (apply list_elem_of_In, in_rev; rewrite rev_involutive;
      apply list_elem_of_In, elem_of_seq; lia).
    apply list_elem_of_lookup in Hin as [j Hj].
    apply (f_equal (fun l => l !! j)) in E'. rewrite !list_lookup_fmap, Hj in E'. by injection E'. }
  assert (Hk : forall k x, 0 <= x -> x mod 16 ^ Z.of_nat (S k)
    = x mod 16 ^ Z.of_nat k + 16 ^ Z.of_nat k * (x / 16 ^ Z.of_nat k mod 16)).
  { intros k x Hx. rewrite Nat2Z.inj_succ, Z.pow_succ_r, Z.mul_comm by lia.
    by rewrite Z.rem_mul_r by lia. }
  assert (Hm : forall k, (k <= 16)%nat -> a mod 16 ^ Z.of_nat k = b mod 16 ^ Z.of_nat k).
  { intros k. induction k as [|k IH]; intros Hle.
    - change (Z.of_nat 0) with 0. by rewrite Z.pow_0_r, !Z.mod_1_r.
    - rewrite !Hk by lia. rewrite IH, Hd by lia. done. }
  specialize (Hm 16%nat ltac:(lia)). change (16 ^ Z.of_nat 16) with (2 ^ 64) in Hm.
  by rewrite !Z.mod_small in Hm.
Qed.

(** ** The properties *)

(** Two passwords get the same stored hash exactly when their 64-bit hashes are equal: the text of
    sixteen digits loses nothing, and adds nothing (there is no salt). *)
Theorem pw_hash_exact decode_error std_hash input1 input2 p1 p2 :
  string_field "password" input1 = Some p1 -> string_field "password" input2 = Some p2 ->
  pw_hash_execute decode_error std_hash input1 = pw_hash_execute decode_error std_hash input2
  <-> size_t (std_hash p1) = size_t (std_hash p2).
Proof.
  intros H1 H2. unfold pw_hash_execute. rewrite H1, H2. split; [|by intros ->].
  generalize (size_t (std_hash p1)), (size_t (std_hash p2)),
    (wrap_range 64 (std_hash p1) ltac:(lia)), (wrap_range 64 (std_hash p2) ltac:(lia)).
  intros a b Ha Hb E.
  apply (f_equal (fun r : WorkerResult => match r with Expected m => m !! "password_hash" | _ => None end)) in E.
  cbv beta iota in E. rewrite !lookup_singleton_eq in E. apply hex16_inj; [done..|].
  assert (Hs : str (hex16 a) = str (hex16 b)) by congruence.
  by rewrite <- (chars_str (hex16 a)), Hs, chars_str.
Qed.

(** The echo worker gives back every field: a key's text is that of the last field of that name. *)
Theorem echo_output encode_json fields k :
  exists output, echo_execute encode_json (VObject fields) = Expected output
    /\ output !! k = (fun f => echo_text encode_json f.2) <$> last (base.filter (fun f => f.1 = k) fields).
Proof.
  eexists. split; [done|]. cbn.
  induction fields as [|f fields IH] using rev_ind; [done|].
  rewrite foldl_app, filter_app. cbn [foldl]. destruct (decide (f.1 = k)) as [<-|Hne].
  - rewrite lookup_insert_eq, filter_cons_True by done. by rewrite filter_nil, last_snoc.
  - rewrite lookup_insert_ne by done. rewrite filter_cons_False by done. by rewrite filter_nil, app_nil_r.
Qed.

(** Upper and lower case only change letters, and undo each other's choice of case. *)
Lemma case_maps c : tolower (toupper c) = tolower c /\ toupper (tolower c) = toupper c
  /\ toupper (toupper c) = toupper c /\ tolower (tolower c) = tolower c.
Proof. destruct c as [[] [] [] [] [] [] [] []]; by vm_compute. Qed.

(** Over a table that reads back what was upserted, the [db_query] worker answers with the user it
    was given. *)
Theorem db_query_reads_back {S} decode_error (t : UserTable S) input username password_hash s :
  (forall s u, exists s1 s2, ut_upsert t s u = (s1, true) /\ ut_find t s1 (au_username u) = (s2, Some u)) ->
  string_field "username" input = Some username -> string_field "password_hash" input = Some password_hash ->
  exists s' output, db_query_run decode_error (Some t) input s = (s', Expected output)
    /\ output !! "db_status" = Some "ok" /\ output !! "stored_username" = Some username
    /\ output !! "stored_hash" = Some password_hash.
Proof.
  intros Ht Hu Hp. unfold db_query_run, store_and_read. rewrite Hu, Hp.
  destruct (Ht s {| au_username := username; au_password_hash := password_hash |}) as (s1 & s2 & -> & Hf).
  cbn [negb]. cbn in Hf. rewrite Hf. cbn. eexists _, _. by split_and!.
Qed.
