(* ===== verification/Tools.v ===== *)
(** * The file logger and the developer CLI (plugins/logger/file_logger, src/cli_main.cc)

    [Module FileLogger]: the logger plugin, with its file and the standard output as lists of lines.
    The clock's text is a parameter.

    [Module Cli]: the parts of the command line tool with logic of their own: the input pairs of
    [task], and [migrate], over a directory of migrations.  The checksum is a parameter (a SHA-256
    of the text); the loading of the plugins, the argument parser and the messages are left out. *)

From stdpp Require Import base gmap strings list sets.
From Stdlib Require Import ZArith Lia Ascii.
From S2P Require Import Prelude Text.

Open Scope string_scope.
Open Scope list_scope.
Open Scope Z_scope.

Module FileLogger.

Definition parse_level (level : string) : Z :=
  if bool_decide (level = "debug") then 0
  else if bool_decide (level = "info") then 1
  else if bool_decide (level = "important") then 2
  else if bool_decide (level = "warning") then 3
  else if bool_decide (level = "error") then 4
  else if bool_decide (level = "fatal") then 5
  else 1.

Definition level_str (level : Z) : string :=
  match level with
  | 0 => "DEBUG"
  | 1 => "INFO"
  | 2 => "IMPORTANT"
  | 3 => "WARNING"
  | 4 => "ERROR"
  | 5 => "FATAL"
  | _ => "UNKNOWN"
  end.

Section Logger.
(** [{:%H:%M:%S}] of a clock reading. *)
Variable clock_text : Z -> string.

Record Logger := {
  m_stream : bool;            (** the file is open *)
  m_min_level : Z;
  m_stdout_level : Z;
  file_lines : list string;
  stdout_lines : list string;
}.

Definition new_logger : Logger :=
  {| m_stream := false; m_min_level := 1; m_stdout_level := 2; file_lines := []; stdout_lines := [] |}.

Definition format_line (now level : Z) (msg : string) : string :=
  "[" +:+ clock_text now +:+ "] [" +:+ level_str level +:+ "]: " +:+ msg.

Definition write_line (now level : Z) (msg : string) (l : Logger) : Logger :=
  let line := format_line now level msg in
  {| m_stream := m_stream l; m_min_level := m_min_level l; m_stdout_level := m_stdout_level l;
     file_lines := if (m_min_level l <=? level) && m_stream l then file_lines l ++ [line] else file_lines l;
     stdout_lines := if m_stdout_level l <=? level then stdout_lines l ++ [line] else stdout_lines l |}.

(** [None] is the abort when the file does not open. *)
Definition on_load (cfg : string -> option string) (opens : string -> bool) (now : Z) (l : Logger) : option Logger :=
  let log_file := default "congelado.log" (cfg "file") in
  let min_level := match cfg "level" with Some v => parse_level v | None => m_min_level l end in
  let stdout_level := match cfg "stdout_level" with Some v => parse_level v | None => m_stdout_level l end in
  if negb (opens log_file) then None
  else Some (write_line now 2
         ("FileLogger: " +:+ log_file +:+ " (file>=" +:+ level_str min_level +:+ ", stdout>="
          +:+ level_str stdout_level +:+ ")")
         {| m_stream := true; m_min_level := min_level; m_stdout_level := stdout_level;
            file_lines := file_lines l; stdout_lines := stdout_lines l |}).

Definition on_unload (l : Logger) : Logger :=
  {| m_stream := false; m_min_level := m_min_level l; m_stdout_level := m_stdout_level l;
     file_lines := file_lines l; stdout_lines := stdout_lines l |}.

Definition logger_write (now level : Z) (msg : string) (l : Logger) : Logger := write_line now level msg l.

Definition write_all (entries : list (Z * Z * string)) (l : Logger) : Logger :=
  foldl (fun l e => logger_write e.1.1 e.1.2 e.2 l) l entries.

(** The file gets exactly the messages at or above its level, in order, while it is open; the
    standard output those at or above its own. *)
Theorem logger_filters entries l :
  let l' := write_all entries l in
  file_lines l' = file_lines l ++ (if m_stream l then
      (fun e : Z * Z * string => format_line e.1.1 e.1.2 e.2)
        <$> base.filter (fun e => m_min_level l <= e.1.2) entries else [])
  /\ stdout_lines l' = stdout_lines l ++
      ((fun e : Z * Z * string => format_line e.1.1 e.1.2 e.2)
        <$> base.filter (fun e => m_stdout_level l <= e.1.2) entries).
Proof.
  cbv zeta. revert l. induction entries as [|[[now level] msg] entries IH]; intros l; cbn [write_all foldl].
  { cbn. rewrite app_nil_r. by destruct (m_stream l); rewrite app_nil_r. }
  destruct (IH (logger_write now level msg l)) as [IHf IHs]. unfold write_all in *. cbn [fst snd].
  rewrite IHf, IHs. clear. cbn [logger_write write_line m_stream m_min_level m_stdout_level file_lines stdout_lines].
  rewrite !filter_cons. cbn [fst snd]. split.
  - destruct (m_stream l); [|by rewrite andb_false_r]. rewrite andb_true_r.
    destruct (Z.leb_spec (m_min_level l) level);
      [rewrite decide_True by done; by rewrite <- app_assoc|by rewrite decide_False by lia].
  - destruct (Z.leb_spec (m_stdout_level l) level);
      [rewrite decide_True by done; by rewrite <- app_assoc|by rewrite decide_False by lia].
Qed.
End Logger.
End FileLogger.

Module Cli.

(** ** Input pairs *)

(** The map of the [--input] pairs, or the pair that has no [=]; the first value of a key stays. *)
Fixpoint parse_inputs (pairs : list text) (data : gmap text text) : gmap text text + text :=
  match pairs with
  | [] => inl data
  | input :: pairs' =>
      match find_char "="%char input with
      | None => inr input
      | Some eq =>
          let k := take eq input in
          parse_inputs pairs' (match data !! k with Some _ => data | None => <[k := drop (S eq) input]> data end)
      end
  end.

(** ** Migrations *)

(** [operator<] of [std::string]. *)
Fixpoint text_ltb (s t : text) : bool :=
  match s, t with
  | [], [] => false
  | [], _ :: _ => true
  | _ :: _, [] => false
  | c :: s', d :: t' =>
      (byte_of_char c <? byte_of_char d) || ((byte_of_char c =? byte_of_char d) && text_ltb s' t')
  end.

(** The position of the last dot of a file name. *)
Fixpoint last_dot (t : text) : option nat :=
  match t with
  | [] => None
  | c :: t' =>
      match last_dot t' with
      | Some i => Some (S i)
      | None => if eqc c "."%char then Some 0%nat else None
      end
  end.

(** [path.extension()] of a file name. *)
Definition extension (name : text) : text :=
  if bool_decide (name = chars ".") || bool_decide (name = chars "..") then []
  else match last_dot name with
       | None | Some 0%nat => []
       | Some i => drop i name
       end.

Record DirEntry := { de_name : text; de_regular : bool; de_contents : text }.

Definition is_migration (e : DirEntry) : bool := de_regular e && bool_decide (extension (de_name e) = chars ".sql").

(** [entries] is the directory in iteration order, [None] when it does not exist. *)
Definition find_last_migration (dir : option (list DirEntry)) : option DirEntry :=
  match dir with
  | None => None
  | Some entries =>
      foldl (fun last e =>
               if negb (is_migration e) then last
               else match last with
                    | None => Some e
                    | Some l => if text_ltb (de_name l) (de_name e) then Some e else last
                    end) None entries
  end.

Definition build_schema_dump (statements : list text) : text :=
  statements ≫= fun statement => statement ++ chars ";" ++ [ascii_of_N 10].

Inductive MigrateResult := NoChanges | Generated (name : text) | CannotWrite.

Section Migrate.
Variable hash_hex : text -> text.

(** The file replaces one of the same name. *)
Definition write_file (name contents : text) (entries : list DirEntry) : list DirEntry :=
  base.filter (fun e => de_name e <> name) entries
  ++ [{| de_name := name; de_regular := true; de_contents := contents |}].

(** [timestamp] is the text of the current second, [writable] whether a file can be created.  The
    directory has been created, so it exists. *)
Definition migrate (statements : list text) (timestamp : text) (writable : text -> bool) (entries : list DirEntry)
    : MigrateResult * list DirEntry :=
  let dump := build_schema_dump statements in
  let checksum := hash_hex dump in
  let fresh :=
    let name := timestamp ++ chars "_schema.sql" in
    if writable name then (Generated name, write_file name dump entries) else (CannotWrite, entries) in
  match find_last_migration (Some entries) with
  | Some last => if bool_decide (hash_hex (de_contents last) = checksum) then (NoChanges, entries) else fresh
  | None => fresh
  end.
End Migrate.

(** *** Order *)

Lemma text_ltb_irrefl s : text_ltb s s = false.
Proof. induction s as [|c s IH]; [done|]. cbn. by rewrite Z.ltb_irrefl, Z.eqb_refl, IH. Qed.

Lemma text_ltb_trans s t u : text_ltb s t = true -> text_ltb t u = true -> text_ltb s u = true.
Proof.
  revert t u. induction s as [|c s IH]; intros [|d t] [|e u]; cbn; try done.
  intros [H1|H1]%orb_prop [H2|H2]%orb_prop; apply orb_true_intro;
    rewrite ?andb_true_iff, ?Z.ltb_lt, ?Z.eqb_eq in *; try (left; lia).
  right. destruct H1, H2. split; [lia|by eapply IH].
Qed.

Lemma text_ltb_total s t : text_ltb s t = false -> text_ltb t s = false -> s = t.
Proof.
  revert t. induction s as [|c s IH]; intros [|d t]; cbn; try done.
  rewrite !orb_false_iff, !andb_false_iff, !Z.ltb_ge, !Z.eqb_neq. intros [H1 H2] [H3 H4].
  assert (E : byte_of_char c = byte_of_char d) by lia.
  assert (c = d) as -> by (rewrite <- (char_of_byte_of_char c), E; apply char_of_byte_of_char).
  destruct H2 as [?|H2]; [lia|]. destruct H4 as [?|H4]; [lia|]. by rewrite (IH t).
Qed.

Definition leq_name (e l : DirEntry) : Prop := text_ltb (de_name l) (de_name e) = false.

(** The migration found is the one with the greatest name. *)
Lemma find_last_spec entries :
  match find_last_migration (Some entries) with
  | None => forall e, e ∈ entries -> is_migration e = false
  | Some l => l ∈ entries /\ is_migration l = true
      /\ forall e, e ∈ entries -> is_migration e = true -> leq_name e l
  end.
Proof.
  unfold find_last_migration. induction entries as [|e entries IH] using rev_ind.
  { by intros e ?%elem_of_nil. }
  rewrite foldl_app. cbn [foldl].
  destruct (foldl _ None entries) as [l|].
  - destruct IH as (Hin & Hm & Hmax). destruct (is_migration e) eqn:Ee; cbn [negb].
    2: { split_and!; [set_solver|done|]. intros e' [?| ->%list_elem_of_singleton]%elem_of_app Hm'; [by apply Hmax|].
         by rewrite Ee in Hm'. }
    destruct (text_ltb (de_name l) (de_name e)) eqn:El.
    + split_and!; [set_solver|done|]. intros e' [He'| ->%list_elem_of_singleton]%elem_of_app Hm'.
      * specialize (Hmax e' He' Hm'). unfold leq_name in *. apply not_true_is_false. intros Hlt.
        rewrite (text_ltb_trans _ _ _ El Hlt) in Hmax. done.
      * apply text_ltb_irrefl.
    + split_and!; [set_solver|done|]. intros e' [?| ->%list_elem_of_singleton]%elem_of_app Hm'; [by apply Hmax|done].
  - destruct (is_migration e) eqn:Ee; cbn [negb].
    + split_and!; [set_solver|done|]. intros e' [He'| ->%list_elem_of_singleton]%elem_of_app Hm'.
      * by rewrite (IH e' He') in Hm'.
      * apply text_ltb_irrefl.
    + intros e' [?| ->%list_elem_of_singleton]%elem_of_app; [by apply IH|done].
Qed.

(** ** The properties *)

(** Migrating twice without a change of the schema generates nothing the second time, provided
    the file just written is the last by name (its timestamp is later than every migration in the
    directory). *)
Theorem migrate_idempotent hash_hex statements t1 t2 writable1 writable2 entries entries' name :
  migrate hash_hex statements t1 writable1 entries = (Generated name, entries') ->
  extension name = chars ".sql" ->
  (forall e, e ∈ entries -> is_migration e = true -> text_ltb (de_name e) name = true \/ de_name e = name) ->
  migrate hash_hex statements t2 writable2 entries' = (NoChanges, entries').
Proof.
  intros H Hext Hlate.
  assert (entries' = write_file name (build_schema_dump statements) entries) as ->.
  { unfold migrate in H. destruct (find_last_migration (Some entries)); [case_bool_decide; [done|]|];
      destruct (writable1 _); by simplify_eq. }
  clear H. set (dump := build_schema_dump statements). set (entries' := write_file name dump entries).
  set (fresh := {| de_name := name; de_regular := true; de_contents := dump |}).
  assert (Hfresh : is_migration fresh = true) by (unfold is_migration; cbn; by rewrite bool_decide_true).
  assert (Hmem : fresh ∈ entries') by (apply elem_of_app; right; by apply list_elem_of_singleton).
  unfold migrate. fold dump. pose proof (find_last_spec entries') as Hlast.
  destruct (find_last_migration (Some entries')) as [l|].
  - destruct Hlast as (Hl & Hml & Hmax).
    assert (l = fresh) as ->; [|by rewrite bool_decide_true].
    apply elem_of_app in Hl as [[Hne Hl]%list_elem_of_filter|Hl%list_elem_of_singleton]; [|done].
    destruct (Hlate l Hl Hml) as [Hlt|?]; [|done].
    specialize (Hmax fresh Hmem Hfresh). unfold leq_name in Hmax. cbn in Hmax. congruence.
  - by rewrite (Hlast fresh Hmem) in Hfresh.
Qed.

Definition demo_dir : list DirEntry :=
  [{| de_name := chars "20250101000000_schema.sql"; de_regular := true; de_contents := chars "old" |};
   {| de_name := chars "README.md"; de_regular := true; de_contents := [] |}].

Lemma migrate_idempotent_witness :
  let entries' := (migrate id [chars "CREATE TABLE a"] (chars "20260101000000") (fun _ => true) demo_dir).2 in
  migrate id [chars "CREATE TABLE a"] (chars "20270101000000") (fun _ => true) entries' = (NoChanges, entries').
Proof.
  eapply (migrate_idempotent id [chars "CREATE TABLE a"] (chars "20260101000000") _ (fun _ => true) _ demo_dir _
    (chars "20260101000000_schema.sql")); [reflexivity|reflexivity|].
  intros e He Hm. apply elem_of_cons in He as [->|He]; [left; reflexivity|].
  apply list_elem_of_singleton in He as ->. discriminate Hm.
Defined.
End Cli.
