(* ===== verification/Host.v ===== *)
(** * The worker host and the HTTP/2 plugin (sdk/worker/worker_main.cc, plugins/protocol/http2)

    [Module WorkerHost]: the start-up of the worker process - configuration and environment, the
    definitions it registers, the wait for the engine, and the poll contracts it creates.
    [Module Http2Plugin]: the life cycle of the server plugin.

    - The file system is the listing the code reads, in iteration order; the environment and the
      configuration file are arguments; the clock and the connection are functions of the loop's
      iteration.
    - [wait_connected] has a fuel; [wait_connected_ends] shows how much is enough.
    - A null pointer that is dereferenced is [UndefinedBehaviour].
    - Messages and the loading of shared libraries are left out. *)

From stdpp Require Import base gmap strings list relations.
From Stdlib Require Import ZArith Lia Ascii.
From S2P Require Import Prelude Text Tools WorkerManager.

Open Scope string_scope.
Open Scope list_scope.
Open Scope Z_scope.

Module WorkerHost.

(** [expand_tilde]. *)
Definition expand_tilde (home : option text) (path : text) : text :=
  match path with
  | c :: rest =>
      if eqc c "~"%char then match home with Some h => h ++ rest | None => path end else path
  | [] => path
  end.

(** *** A promise that two callbacks can satisfy *)

(** The calls of the two callbacks, in order; a second one throws. *)
Definition call_typed_blocking {T} (calls : list (T + string)) : option (T + string) * list error :=
  match calls with
  | [] => (None, [])
  | first :: later => (Some first, (fun _ => RuntimeError) <$> later)
  end.

(** *** Definitions *)

Inductive Node :=
  | File (name : text) (contents : option text)     (** [None]: it cannot be opened *)
  | Directory (name : text) (children : list Node).

Definition node_name (n : Node) : text := match n with File name _ => name | Directory name _ => name end.

Definition def_file (n : Node) : option text :=
  match n with
  | File name contents => if bool_decide (Cli.extension name = chars ".json") then contents else None
  | Directory _ _ => None
  end.

(** [None] is a path that is not a directory. *)
Definition collect_def_files (dir : option (list Node)) : list text :=
  match dir with None => [] | Some entries => omap def_file entries end.

Definition subdirectory (name : text) (children : list Node) : option (list Node) :=
  match list_find (fun n => node_name n = name) children with
  | Some (_, Directory _ children') => Some children'
  | _ => None
  end.

Definition collect_app_defs (apps_dir : option (list Node)) (subdir : text) : list text :=
  match apps_dir with
  | None => []
  | Some apps =>
      apps ≫= fun app => match app with
                         | Directory _ children => collect_def_files (subdirectory subdir children)
                         | File _ _ => []
                         end
  end.

(** The definitions registered at start-up: those of the files, then those built in code. *)
Definition startup_defs (apps_dir : option (list Node)) (subdir : text) (built : list text) : list text :=
  collect_app_defs apps_dir subdir ++ built.

(** *** Configuration *)

Record WorkerConfig := {
  worker_id : text;
  concurrency : Z;
  engine_host : text; engine_port : Z; engine_cert : text; engine_key : text;
  client_host : option text; client_port : option Z; client_cert : option text; client_key : option text;
  connect_retry_delay_ms : option Z; connect_timeout_ms : option Z;
}.

Definition UINT32_MAX : Z := 2 ^ 32 - 1.

(** The overrides of [CONGELADO_WORKER_ID] and [CONGELADO_WORKER_CONCURRENCY]: the number is read
    from the front of the variable, what follows it is ignored. *)
Definition apply_environment (env_id env_concurrency : option text) (cfg : WorkerConfig) : WorkerConfig :=
  {| worker_id := default (worker_id cfg) env_id;
     concurrency := match env_concurrency with
                    | Some t => match from_chars 0 UINT32_MAX t with Some (n, _) => n | None => concurrency cfg end
                    | None => concurrency cfg
                    end;
     engine_host := engine_host cfg; engine_port := engine_port cfg; engine_cert := engine_cert cfg;
     engine_key := engine_key cfg; client_host := client_host cfg; client_port := client_port cfg;
     client_cert := client_cert cfg; client_key := client_key cfg;
     connect_retry_delay_ms := connect_retry_delay_ms cfg; connect_timeout_ms := connect_timeout_ms cfg |}.

Definition or_default (t d : text) : text := if bool_decide (t = []) then d else t.

Definition engine_fields (cfg : WorkerConfig) : list (string * text) :=
  [("host", engine_host cfg); ("port", to_text (engine_port cfg));
   ("cert", or_default (engine_cert cfg) (chars "server.crt"));
   ("key", or_default (engine_key cfg) (chars "server.key"))].

Definition verify_peer (cfg : WorkerConfig) : bool :=
  negb (bool_decide (engine_cert cfg = [])) || negb (bool_decide (engine_key cfg = [])).

(** The fields of the downstream protocol and of the client workers; [None] without a client host. *)
Definition downstream_fields (cfg : WorkerConfig) : option (list (string * text)) :=
  host ← client_host cfg;
  Some ([("host", host); ("port", to_text (default 443 (client_port cfg)))]
        ++ match client_cert cfg with Some c => [("cert", c)] | None => [] end
        ++ match client_key cfg with Some k => [("key", k)] | None => [] end).

(** The first storage and the first cache among the plugins, in order. *)
Definition first_of {A B} (resolve : A -> option B) (plugins : list A) : option B :=
  foldl (fun found p => match found with Some _ => found | None => resolve p end) None plugins.

(** *** Waiting for the engine *)

Inductive WaitResult := Connected | GaveUp | RetryFailed (message : string).

(** [ready i]: whether the connection is up after the [i]-th wait; [now i]: the clock then;
    [retry i]: the error of the [i]-th retry. *)
Fixpoint wait_connected (fuel : nat) (i : nat) (ready : nat -> bool) (now : nat -> Z)
    (retry : nat -> option string) (retry_forever : bool) (deadline : Z) : option WaitResult :=
  match fuel with
  | O => None
  | S fuel' =>
      if ready i then Some Connected
      else if negb retry_forever && (deadline <=? now i) then Some GaveUp
      else match retry i with
           | Some message => Some (RetryFailed message)
           | None => wait_connected fuel' (S i) ready now retry retry_forever deadline
           end
  end.

Definition connect_deadline (cfg : WorkerConfig) (start : Z) : bool * Z :=
  let timeout := default 0 (connect_timeout_ms cfg) in (timeout =? 0, start + timeout).

(** With a deadline, and waits of at least [delay] each, the loop ends within the waits that fit
    before the deadline, and one more. *)
Lemma wait_connected_ends ready now retry start timeout delay fuel :
  0 < delay -> (forall i, now i >= start + delay * (Z.of_nat i + 1)) ->
  timeout < delay * Z.of_nat fuel -> (0 < fuel)%nat ->
  exists r, wait_connected fuel 0 ready now retry false (start + timeout) = Some r.
Proof.
  intros Hd Hnow Hf Hpos.
  assert (Hgen : forall n i, (0 < n)%nat -> timeout < delay * (Z.of_nat i + Z.of_nat n) ->
    exists r, wait_connected n i ready now retry false (start + timeout) = Some r).
  { intros n. induction n as [|n IH]; intros i Hn Ht; [lia|]. cbn [wait_connected].
    destruct (ready i); [eauto|]. cbn [negb andb].
    destruct (Z.leb_spec (start + timeout) (now i)); [eauto|]. destruct (retry i); [eauto|].
    specialize (Hnow i). destruct n as [|n]; [exfalso; nia|]. apply IH; lia. }
  by apply Hgen.
Qed.

(** *** Poll contracts *)

(** A step of the start-up or of the thread pool, which is running: the contract of a slot is
    created in the SCHEDULED state, the slot is registered, a scheduled contract runs. *)
Inductive Action := Create (i : nat) | Register (i : nat) | Run (i : nat).

(** The order of the start-up thread. *)
Definition startup (concurrency : nat) : list Action :=
  seq 0 concurrency ≫= fun i => [Create i; Register i].

(** [poll_slot] of an index the manager has no slot for is undefined; a run that finds its slot
    has no effect here. *)
Definition act (a : Action) (st : list nat * list Slot.PollSlot) : result (list nat * list Slot.PollSlot) :=
  let '(scheduled, slots) := st in
  match a with
  | Create i => Ok (i :: scheduled, slots)
  | Register i => Ok (scheduled, Slot.register_poll_slot i slots)
  | Run i =>
      if bool_decide (i ∈ scheduled) then
        match slots !! i with Some _ => Ok (scheduled, slots) | None => Err UndefinedBehaviour end
      else Ok (scheduled, slots)
  end.

Fixpoint run_actions (actions : list Action) (st : list nat * list Slot.PollSlot)
    : result (list nat * list Slot.PollSlot) :=
  match actions with [] => Ok st | a :: rest => st' ← act a st; run_actions rest st' end.

(** The runs of the pool, taken out. *)
Definition is_run (a : Action) : bool := match a with Run _ => true | _ => false end.

Definition interleaving (concurrency : nat) (actions : list Action) : Prop :=
  base.filter (fun a => is_run a = false) actions = startup concurrency.

(** The order that registers a slot before its contract can run is safe. *)
Definition safe_startup (concurrency : nat) : list Action :=
  seq 0 concurrency ≫= fun i => [Register i; Create i].

Definition slots_cover (st : list nat * list Slot.PollSlot) : Prop :=
  forall i, i ∈ st.1 -> (i < length st.2)%nat.

Lemma register_length i slots :
  (length slots <= length (Slot.register_poll_slot i slots))%nat
  /\ (i < length (Slot.register_poll_slot i slots))%nat.
Proof.
  unfold Slot.register_poll_slot. rewrite length_alter.
  destruct (Nat.ltb_spec i (length slots)); [lia|]. rewrite length_app, length_replicate. lia.
Qed.

Lemma run_covered a st : slots_cover st -> is_run a = true -> act a st = Ok st.
Proof.
  destruct a as [|i|i], st as [scheduled slots]; try done. intros Hc _. cbn.
  case_bool_decide as Hi; [|done]. specialize (Hc i Hi). cbn in Hc.
  by destruct (lookup_lt_is_Some_2 slots i Hc) as [s ->].
Qed.

(** A contract that is created scheduled before its slot is registered can run in between: some
    interleaving of the start-up with the running thread pool polls a slot that does not exist.
    Registering first is safe in every interleaving. *)
Theorem startup_race concurrency :
  (exists actions, interleaving (S concurrency) actions
     /\ run_actions actions ([], []) = Err UndefinedBehaviour)
  /\ forall actions, base.filter (fun a => is_run a = false) actions = safe_startup (S concurrency) ->
       exists st, run_actions actions ([], []) = Ok st.
Proof.
  split.
  - exists (Create 0 :: Run 0 :: Register 0 :: (seq 1 concurrency ≫= fun i => [Create i; Register i])).
    split; [|done]. unfold interleaving, startup. cbn [seq mbind list_bind app].
    rewrite !filter_cons_True by done. rewrite filter_cons_False by done. rewrite filter_cons_True by done.
    do 2 f_equal. generalize 1%nat. induction concurrency as [|n IH]; intros k; [done|].
    cbn [seq mbind list_bind app]. rewrite !filter_cons_True by done. do 2 f_equal. apply IH.
  - intros actions Hf.
    assert (Hgen : forall acts k n st, slots_cover st ->
      base.filter (fun a => is_run a = false) acts = (seq k n ≫= fun i => [Register i; Create i])
      \/ (exists i, (i < length st.2)%nat /\ base.filter (fun a => is_run a = false) acts
            = Create i :: (seq k n ≫= fun i => [Register i; Create i])) ->
      exists st', run_actions acts st = Ok st').
    { intros acts. induction acts as [|a acts IH]; intros k n st Hc Hacts; [by exists st|].
      cbn [run_actions]. rewrite filter_cons in Hacts.
      destruct (is_run a) eqn:Ha.
      { rewrite decide_False in Hacts by done. rewrite (run_covered a st Hc Ha). by eapply IH. }
      rewrite decide_True in Hacts by done.
      destruct Hacts as [Hacts|(i & Hi & Hacts)].
      - destruct n as [|n]; [done|]. cbn [seq mbind list_bind app] in Hacts. injection Hacts as -> Hacts.
        destruct st as [scheduled slots]. cbn. destruct (register_length k slots) as [H1 H2].
        eapply (IH (S k) n); [|right; exists k; cbn; split; [done|exact Hacts]].
        intros j Hj. specialize (Hc j Hj). cbn in *. lia.
      - injection Hacts as -> Hacts. destruct st as [scheduled slots]. cbn.
        eapply (IH k n); [|left; exact Hacts].
        intros j [->|Hj]%elem_of_cons; [done|]. by apply Hc. }
    eapply (Hgen actions 0%nat (S concurrency) ([], [])); [|by left].
    by intros i ?%elem_of_nil.
Qed.
End WorkerHost.

(** ** The HTTP/2 plugin *)

Module Http2Plugin.

(** What the host offers; [false] is a null pointer. *)
Record HostPointers := { router : bool; group : bool; registry : bool; leverager : bool }.

Record Http2Plugin := {
  m_server : bool;
  m_socket_flow : bool;
  m_router_ctx : bool;
  m_contract_group : bool;
  m_contract_registry : bool;
  m_leverager : bool;
  m_bind_host : string;
  m_bind_port : Z;
  routes : list string;
  contracts : nat;
  events : list (string * list (string * string));
}.

Definition new_plugin : Http2Plugin :=
  {| m_server := false; m_socket_flow := false; m_router_ctx := false; m_contract_group := false;
     m_contract_registry := false; m_leverager := false; m_bind_host := ""; m_bind_port := 0;
     routes := []; contracts := 0; events := [] |}.

(** [Http2Protocol]'s constructor throws unless host, port, cert and key are there. *)
Definition protocol_of (cfg : gmap string string) : option (string * Z) :=
  host ← cfg !! "host"; port ← cfg !! "port"; _ ← cfg !! "cert"; _ ← cfg !! "key";
  n ← stoi (chars port); Some (host, wrap 16 n).

(** [Err] is the exception of the constructor. *)
Definition on_load (host : HostPointers) (cfg : gmap string string) (p : Http2Plugin) : result Http2Plugin :=
  match cfg !! "host" with
  | None => Ok p
  | Some _ =>
      match protocol_of cfg with
      | None => Err RuntimeError
      | Some (bind_host, bind_port) =>
          let missing (b : bool) := if b then "ok" else "missing" in
          let p1 := {| m_server := true; m_socket_flow := m_socket_flow p;
                       m_router_ctx := m_router_ctx p || router host;
                       m_contract_group := group host; m_contract_registry := registry host;
                       m_leverager := leverager host; m_bind_host := m_bind_host p;
                       m_bind_port := m_bind_port p;
                       routes := if router host then routes p ++ ["/ping"] else routes p;
                       contracts := contracts p; events := events p |} in
          if negb (group host) || negb (registry host) || negb (leverager host) then
            Ok {| m_server := m_server p1; m_socket_flow := m_socket_flow p1; m_router_ctx := m_router_ctx p1;
                  m_contract_group := m_contract_group p1; m_contract_registry := m_contract_registry p1;
                  m_leverager := m_leverager p1; m_bind_host := m_bind_host p1; m_bind_port := m_bind_port p1;
                  routes := routes p1; contracts := contracts p1;
                  events := events p1 ++ [("http2.load.dependency_missing",
                    [("contract_group", missing (group host)); ("contract_registry", missing (registry host));
                     ("leverager", missing (leverager host))])] |}
          else
            Ok {| m_server := m_server p1; m_socket_flow := m_socket_flow p1; m_router_ctx := m_router_ctx p1;
                  m_contract_group := m_contract_group p1; m_contract_registry := m_contract_registry p1;
                  m_leverager := m_leverager p1; m_bind_host := bind_host; m_bind_port := bind_port;
                  routes := routes p1; contracts := contracts p1; events := events p1 |}
      end
  end.

Definition with_events (flow : bool) (n : nat) (es : list (string * list (string * string))) (p : Http2Plugin)
    : Http2Plugin :=
  {| m_server := m_server p; m_socket_flow := flow; m_router_ctx := m_router_ctx p;
     m_contract_group := m_contract_group p; m_contract_registry := m_contract_registry p;
     m_leverager := m_leverager p; m_bind_host := m_bind_host p; m_bind_port := m_bind_port p;
     routes := routes p; contracts := n; events := events p ++ es |}.

(** [builds] and [binds]: whether building the server and opening the socket succeed; a failure is
    caught, the dereference of a null pointer is not. *)
Definition on_ready (builds binds : bool) (p : Http2Plugin) : result Http2Plugin :=
  if negb (m_server p) || negb (m_router_ctx p) then Ok p
  else
    let where_ := [("host", m_bind_host p); ("port", to_string (m_bind_port p))] in
    let failed := ("http2.server.start_failed", where_) in
    let listening := ("http2.server.listening", where_) in
    if negb builds then Ok (with_events (m_socket_flow p) (contracts p) [failed] p)
    else
      let n := if m_contract_group p && m_contract_registry p then S (contracts p) else contracts p in
      if negb (m_leverager p) || negb (m_contract_group p) then Err UndefinedBehaviour
      else Ok (with_events true n (if binds then [listening] else [listening; failed]) p).

Definition on_unload (p : Http2Plugin) : Http2Plugin :=
  {| m_server := false; m_socket_flow := false; m_router_ctx := m_router_ctx p;
     m_contract_group := m_contract_group p; m_contract_registry := m_contract_registry p;
     m_leverager := m_leverager p; m_bind_host := m_bind_host p; m_bind_port := m_bind_port p;
     routes := routes p; contracts := contracts p; events := events p |}.

(** Stops accepting, closes the sessions, drains and drops the socket flow. *)
Definition on_shutdown_requested (p : Http2Plugin) : Http2Plugin :=
  if negb (m_server p) || negb (m_socket_flow p) then p
  else with_events false (contracts p) [] p.

(** After a load, the server starts without touching a null pointer exactly when the host gave no
    router, or gave a contract group and a leverager as well: with a router alone, [on_ready]
    dereferences null. *)
Theorem ready_needs_leverager host cfg p binds :
  on_load host cfg new_plugin = Ok p -> m_server p = true ->
  on_ready true binds p = Err UndefinedBehaviour
  <-> router host = true /\ (group host = false \/ leverager host = false).
Proof.
  unfold on_load. intros H Hs. destruct (cfg !! "host"); [|by injection H as <-].
  destruct (protocol_of cfg) as [[h port]|]; [|done].
  destruct host as [[] [] [] []]; cbn in H; injection H as <-; cbn; intuition (done || congruence).
Qed.

Definition demo_cfg : gmap string string :=
  list_to_map [("host", "0.0.0.0"); ("port", "8443"); ("cert", "c"); ("key", "k")].

Lemma ready_needs_leverager_witness :
  exists p, on_load {| router := true; group := true; registry := true; leverager := false |} demo_cfg new_plugin = Ok p
    /\ on_ready true true p = Err UndefinedBehaviour.
Proof.
  eexists. split; [reflexivity|].
  apply (ready_needs_leverager {| router := true; group := true; registry := true; leverager := false |} demo_cfg);
    [reflexivity|reflexivity|]. split; [reflexivity|right; reflexivity].
Defined.
End Http2Plugin.
