(* ===== verification/Router.v ===== *)
(** * The router

    Models src/include/core/router: types.cppm ([split_path], [fnv1a]), handler.cppm, middleware.cppm,
    router.cppm ([RouterNode], [RouteHandler]) and builder.cppm ([Route], [Router], [RouterContext],
    [RouteBuilder]).  A program registers routes in a context; [build] compiles them into a flat table
    of nodes, where a node knows the distance to its children; [match_] walks the table.

    Handlers and middlewares are values of parameters [H] and [M]; what one does to the request, the
    response and the rest of the world, a state of a parameter [W], is given to [match_] by
    [run_handler] and [run_middleware].  A middleware that calls [next] does so last.  [std::ranges::sort]
    is the parameter [sort], a permutation that orders by [route_less].  The arrays of the code have
    fixed sizes; a write or read beyond them is undefined behaviour, as is the shift by which a method
    after CONNECT selects its lane of a mask.  The spans and metrics around a handler are left out.

    RouterTable.v and RouterBuild.v hold the theorems, EngineRoutes.v what the engine registers. *)

From Stdlib Require Import ZArith Lia Ascii.
From stdpp Require Import base strings list tactics.
From S2P Require Import Prelude Text HttpTypes Frame Steps.

Open Scope Z_scope.

(** ** Paths *)

Definition slash : ascii := "/"%char.

Definition split_path (path : text) : list text := filter (fun segment => segment <> []) (split_on slash path).

Definition fnv1a (t : text) : Z :=
  foldl (fun hash chr => Z.lxor (u32 (hash * 33)) (Z.of_N (N_of_ascii chr))) 5381 t.

Inductive EdgeKind := PATH | PARAM | WILD.

#[export] Instance EdgeKind_eq_dec : EqDecision EdgeKind.
Proof. solve_decision. Defined.

Definition HANDLER_MASK : Z := 2 ^ 64 - 1.

(** [std::to_underlying]. *)
Definition lane (method : Method) : Z :=
  match method with
  | GET => 0 | POST => 1 | PUT => 2 | DELETE => 3 | PATCH => 4 | HEAD => 5 | OPTIONS => 6 | CONNECT => 7 | TRACE => 8
  | UNKNOWN => 9
  end.

(** [(mask >> (lane * 8)) & 0xFF]; a shift by the width of the word or more is undefined. *)
Definition lane_value (mask : Z) (method : Method) : result Z :=
  if 64 <=? lane method * 8 then Err UndefinedBehaviour
  else Ok (Z.land (Z.shiftr mask (lane method * 8)) 255).

(** ** Handlers and middlewares *)

Section Router.
Context {H M : Type}.

(** [Handler<8>]: the first [m_handler_index] slots of the array, and the mask. *)
Record Handler := mkHandler { m_handler : list H; m_handler_mask : Z }.

Definition no_handlers : Handler := mkHandler [] HANDLER_MASK.

(** The sizes of the instances that are used. *)
Definition MaxHandlerSize : nat := 8.
Definition HandlerSize : nat := 64.
Definition MiddlewareSize : nat := 10.
Definition RouterSize : nat := 256.

Definition add_handler (method : Method) (handler : H) (t : Handler) : result Handler :=
  if (MaxHandlerSize <=? length (m_handler t))%nat then Err RuntimeError
  else
    v ← lane_value (m_handler_mask t) method;
    if negb (v =? 255) then Err RuntimeError
    else
      let SHIFT := lane method * 8 in
      Ok (mkHandler (m_handler t ++ [handler])
            (Z.lor (Z.ldiff (m_handler_mask t) (Z.shiftl 255 SHIFT)) (Z.shiftl (Z.of_nat (length (m_handler t))) SHIFT))).

Definition find_handler (method : Method) (t : Handler) : result (option H) :=
  IDX ← lane_value (m_handler_mask t) method;
  Ok (if IDX =? 255 then None else m_handler t !! Z.to_nat IDX).

(** [HandlerPool<64>::find]: a slot of the pool that was not filled holds no function. *)
Definition pool_find (pool : list H) (idx mask : Z) (method : Method) : result (option H) :=
  OFFSET ← lane_value mask method;
  if OFFSET =? 255 then Ok None
  else if (HandlerSize <=? Z.to_nat (idx + OFFSET))%nat then Err UndefinedBehaviour
  else Ok (pool !! Z.to_nat (idx + OFFSET)).

(** Appending to an array of [size] elements. *)
Definition push_back {A} (size : nat) (a : A) (l : list A) : result (list A) :=
  if (size <=? length l)%nat then Err RuntimeError else Ok (l ++ [a]).

Fixpoint push_all {A} (size : nat) (l : list A) (pool : list A) : result (list A) :=
  match l with
  | [] => Ok pool
  | a :: l => pool ← push_back size a pool; push_all size l pool
  end.

(** ** The compiled table *)

Record RouterNode := mkNode {
  m_kind : EdgeKind;
  m_path : text;
  m_children_offset : Z;
  m_children_length : Z;
  m_middleware_offset : Z;
  m_middleware_length : Z;
  m_handler_offset : Z;
  m_node_mask : Z;
}.

Definition blank_node : RouterNode := mkNode PATH [] 0 0 0 0 0 0.

Record RouteHandler := mkRouteHandler {
  m_table : list RouterNode;
  m_handlers : list H;
  m_middleware : list M;
  m_global_middleware : list M;
  m_table_index : Z;
}.

Definition new_route_handler : RouteHandler := mkRouteHandler (replicate RouterSize blank_node) [] [] [] 0.

Definition node_at (table : list RouterNode) (idx : Z) : RouterNode := default blank_node (table !! Z.to_nat idx).

(** [find_child]: the probe over the siblings, from [HASH] on; [wild_index] is the last wildcard seen. *)
Fixpoint probe (seg : text) (table : list RouterNode) (start HASH n : Z) (probes : list Z) (wild_index : option Z) : option Z :=
  match probes with
  | [] => wild_index
  | i :: probes =>
      let idx := u8 (start + (HASH + i) mod n) in
      let node := node_at table idx in
      match m_kind node with
      | PATH => if bool_decide (m_path node = seg) then Some idx else probe seg table start HASH n probes wild_index
      | PARAM => Some idx
      | WILD => probe seg table start HASH n probes (Some idx)
      end
  end.

Definition find_child (node : RouterNode) (seg : text) (table : list RouterNode) (current_index : Z) : option (RouterNode * Z) :=
  let n := m_children_length node in
  if n =? 0 then None
  else
    let start := u8 (current_index + m_children_offset node) in
    let found :=
      if 1 <? n then probe seg table start (fnv1a seg mod n) n (seqZ 0 n) None
      else
        let child := node_at table start in
        match m_kind child with
        | PATH => if bool_decide (m_path child = seg) then Some start else None
        | PARAM | WILD => Some start
        end in
    (fun idx => (node_at table idx, idx)) <$> found.

Definition add_route (kind : EdgeKind) (path : text) (children_offset : Z) (handler : Handler) (middleware : list M)
    (children_size : Z) (r : RouteHandler) : result RouteHandler :=
  let node := mkNode kind path (wrap 16 children_offset) (u8 children_size)
                (Z.of_nat (length (m_middleware r))) (Z.of_nat (length middleware))
                (Z.of_nat (length (m_handlers r))) (m_handler_mask handler) in
  middlewares ← push_all MiddlewareSize middleware (m_middleware r);
  handlers ← push_all HandlerSize (m_handler handler) (m_handlers r);
  Ok (mkRouteHandler (<[Z.to_nat (m_table_index r) := node]> (m_table r)) handlers middlewares (m_global_middleware r)
        (u8 (m_table_index r + 1))).

Definition add_global_middleware (m : M) (r : RouteHandler) : result RouteHandler :=
  l ← push_back MiddlewareSize m (m_global_middleware r);
  Ok (mkRouteHandler (m_table r) (m_handlers r) (m_middleware r) l (m_table_index r)).

(** ** Dispatch *)

Inductive Published := NotFound | MethodNotAllowed | Completed | Failed.

Section Match.
Context {W : Type}.

(** A middleware answers whether it called [next]; a handler may throw. *)
Variable run_middleware : M -> W -> W * bool.
Variable run_handler : H -> step W unit.
Variable publish : Published -> W -> W.

(** The loop over the global middlewares, which ends at one that does not continue. *)
Fixpoint run_globals (l : list M) : step W bool :=
  match l with
  | [] => mret true
  | m :: l => proceed ← (fun s => let '(s, b) := run_middleware m s in (s, Return b));
              if proceed : bool then run_globals l else mret false
  end.

(** [run_step] for [n] more middlewares of the pool: one beyond the array is undefined, and an empty one
    throws out of a [noexcept] function. *)
Fixpoint run_step (n : nat) (pool : list M) (offset : Z) : step W unit :=
  match n with
  | O => mret tt
  | Datatypes.S n =>
      if (MiddlewareSize <=? Z.to_nat offset)%nat then raise (Other UndefinedBehaviour)
      else
        match pool !! Z.to_nat offset with
        | None => raise Terminate
        | Some m =>
            next ← (fun s => let '(s, b) := run_middleware m s in (s, Return b));
            if next : bool then run_step n pool (u8 (offset + 1)) else mret tt
        end
  end.

Definition execute (pool : list M) (offset length : Z) : step W unit :=
  let offset := u8 offset in
  run_step (Z.to_nat (u8 (offset + length) - offset)) pool offset.

(** The walk over the segments: the node it ends at, if every segment has one. *)
Fixpoint walk (r : RouteHandler) (segments : list text) (current : RouterNode) (current_index : Z) : step W (option RouterNode) :=
  match segments with
  | [] => mret (Some current)
  | seg :: segments =>
      match find_child current seg (m_table r) current_index with
      | None => mret None
      | Some (node, current_index) =>
          _ ← when (0 <? m_middleware_length node) (execute (m_middleware r) (m_middleware_offset node) (m_middleware_length node));
          walk r segments node current_index
      end
  end.

(** The handler inside the span: its exceptions are published and thrown on. *)
Definition invoke (h : H) : step W unit := fun s =>
  match run_handler h s with
  | (s, Return _) => (publish Completed s, Return tt)
  | (s, Throw (Other UndefinedBehaviour)) => (s, Throw (Other UndefinedBehaviour))
  | (s, Throw Terminate) => (s, Throw Terminate)
  | (s, Throw e) => (publish Failed s, Throw e)
  end.

Definition not_found : step W unit := _ ← modify (publish NotFound); raise (Other RuntimeError).

Definition match_ (method : Method) (path : text) (r : RouteHandler) : step W unit :=
  proceed ← run_globals (m_global_middleware r);
  if proceed : bool then
    node ← walk r (split_path path) (node_at (m_table r) 0) 0;
    match node with
    | None => not_found
    | Some current =>
        if m_node_mask current =? HANDLER_MASK then not_found
        else
          h ← lift (of_result (pool_find (m_handlers r) (m_handler_offset current) (m_node_mask current) method));
          match h with
          | Some h => invoke h
          | None => _ ← modify (publish MethodNotAllowed); raise (Other RuntimeError)
          end
    end
  else mret tt.

End Match.

(** ** Registration *)

Definition SENTINEL : Z := 2 ^ 64 - 1.

Record Route := mkRoute {
  r_path : text;
  m_is_build : bool;
  m_router_number : Z;
  m_base_router : Z;
  m_child_routes : Z;
  r_handler : Handler;
  m_local_middleware : list M;
}.

Definition blank_route : Route := mkRoute [] false 0 0 0 no_handlers [].

(** [path.size() > 1 && path.starts_with('/') ? path.substr(1) : path]. *)
Definition strip_slash (path : text) : text :=
  match path with
  | c :: (_ :: _) as rest => if eqc c slash then rest else path
  | _ => path
  end.

Definition star : text := ["*"%char].

Definition make_route (path : text) : result Route :=
  if bool_decide (path = star) || bool_decide (slash ∈ path)
  then Ok (mkRoute (strip_slash path) false 0 0 0 no_handlers [])
  else Err RuntimeError.

Definition with_numbers (number base : Z) (r : Route) : Route :=
  mkRoute (r_path r) (m_is_build r) number base (m_child_routes r) (r_handler r) (m_local_middleware r).

Definition update_base_router (number : Z) (r : Route) : Route := with_numbers (m_router_number r) number r.

Definition update_child_routes (number : Z) (r : Route) : Route :=
  mkRoute (r_path r) (m_is_build r) (m_router_number r) (m_base_router r) (u8 number) (r_handler r) (m_local_middleware r).

Definition increment_child_routes (r : Route) : Route := update_child_routes (m_child_routes r + 1) r.

Definition set_build (r : Route) : Route :=
  mkRoute (r_path r) true (m_router_number r) (m_base_router r) (m_child_routes r) (r_handler r) (m_local_middleware r).

(** [add_handler_in_place], and [add_handler] at run time. *)
Definition route_add_handler (method : Method) (handler : H) (r : Route) : result Route :=
  found ← find_handler method (r_handler r);
  match found with
  | Some _ => Err RuntimeError
  | None =>
      t ← add_handler method handler (r_handler r);
      Ok (mkRoute (r_path r) (m_is_build r) (m_router_number r) (m_base_router r) (m_child_routes r) t (m_local_middleware r))
  end.

Definition route_add_middleware (m : M) (r : Route) : result Route :=
  l ← push_back MiddlewareSize m (m_local_middleware r);
  Ok (mkRoute (r_path r) (m_is_build r) (m_router_number r) (m_base_router r) (m_child_routes r) (r_handler r) l).

(** The live part of [m_routes]; the counter of router numbers is shared by the contexts of the process. *)
Record RouterContext := mkContext {
  m_routes : list Route;
  m_base_router_children : Z;
  s_global_router_number : Z;
}.

Definition new_context : RouterContext := mkContext [blank_route; blank_route] 0 1.

Definition context_add_route (route : Route) (ctx : RouterContext) : result (nat * RouterContext) :=
  if (RouterSize <=? length (m_routes ctx))%nat then Err UndefinedBehaviour
  else Ok (length (m_routes ctx),
           mkContext (m_routes ctx ++ [route])
             (if m_base_router route =? 0 then m_base_router_children ctx + 1 else m_base_router_children ctx)
             (s_global_router_number ctx)).

Definition get_highest_router_number (ctx : RouterContext) : Z * RouterContext :=
  (s_global_router_number ctx, mkContext (m_routes ctx) (m_base_router_children ctx) (s_global_router_number ctx + 1)).

(** [m_ctx[index].update()]. *)
Definition update_route (index : nat) (update : Route -> result Route) (ctx : RouterContext) : result RouterContext :=
  match m_routes ctx !! index with
  | None => Err OutOfRange
  | Some r => r ← update r; Ok (mkContext (<[index := r]> (m_routes ctx)) (m_base_router_children ctx) (s_global_router_number ctx))
  end.

Definition decrement_base_router_children (ctx : RouterContext) : RouterContext :=
  mkContext (m_routes ctx) (if 0 <? m_base_router_children ctx then m_base_router_children ctx - 1 else 0) (s_global_router_number ctx).

(** [Router]: its number and the index of its route in the context. *)
Record Router := mkRouter { router_number : Z; router_index : nat }.

Definition new_router (path : text) (ctx : RouterContext) : result (Router * RouterContext) :=
  let '(number, ctx) := get_highest_router_number ctx in
  route ← make_route path;
  '(index, ctx) ← context_add_route (with_numbers number 0 route) ctx;
  Ok (mkRouter number index, ctx).

Definition router_add_handler (method : Method) (handler : H) (r : Router) (ctx : RouterContext) : result RouterContext :=
  update_route (router_index r) (route_add_handler method handler) ctx.

Definition use (m : M) (r : Router) (ctx : RouterContext) : result RouterContext :=
  update_route (router_index r) (route_add_middleware m) ctx.

Definition add_router (sub r : Router) (ctx : RouterContext) : result RouterContext :=
  ctx ← update_route (router_index sub) (fun route => Ok (update_base_router (router_number r) route)) ctx;
  update_route (router_index r) (fun route => Ok (increment_child_routes route)) (decrement_base_router_children ctx).

Definition router_add_route (sub : Route) (r : Router) (ctx : RouterContext) : result RouterContext :=
  '(_, ctx) ← context_add_route (update_base_router (router_number r) sub) ctx;
  update_route (router_index r) (fun route => Ok (increment_child_routes route)) ctx.

(** ** Building *)

Record RouterBuildingHelper := mkHelper {
  b_kind : EdgeKind;
  b_literal : text;
  b_handlers : Handler;
  b_middlewares : list M;
  b_children : Z;
  b_router_number : Z;
}.

Definition determine_node_kind (path : text) : result (EdgeKind * text) :=
  match path with
  | [] => Err RuntimeError
  | c :: _ =>
      if bool_decide (path = star) then Ok (WILD, [])
      else if eqc c ":"%char then Ok (PARAM, [])
      else Ok (PATH, path)
  end.

Definition resolve_target_row (table : list (list RouterBuildingHelper)) (route : Route) : result nat :=
  if m_base_router route =? SENTINEL then Ok 0%nat
  else
    match list_find (fun row => existsb (fun node => b_router_number node =? m_base_router route) row = true) table with
    | None => Err RuntimeError
    | Some (row, _) => Ok (Datatypes.S row)
    end.

Definition helper_of (route : Route) : result RouterBuildingHelper :=
  '(kind, literal) ← determine_node_kind (r_path route);
  if m_child_routes route =? 0 then
    Ok (mkHelper kind literal (r_handler route) (m_local_middleware route) (m_child_routes route) 0)
  else
    match kind with
    | PATH => Ok (mkHelper kind literal (r_handler route) (m_local_middleware route) (m_child_routes route) (m_router_number route))
    | PARAM | WILD => Err RuntimeError
    end.

(** [table.resize(NEW_IDX + 1)] if it is too short, then [table[NEW_IDX].push_back(node)]. *)
Definition push_node (row : nat) (node : RouterBuildingHelper) (table : list (list RouterBuildingHelper)) :
    list (list RouterBuildingHelper) :=
  let table := if (length table <=? row)%nat then table ++ replicate (Datatypes.S row - length table) [] else table in
  alter (fun nodes => nodes ++ [node]) row table.

Definition insert_route (route : Route) (table : list (list RouterBuildingHelper)) : result (list (list RouterBuildingHelper)) :=
  if m_is_build route then Ok table
  else
    node ← helper_of route;
    NEW_IDX ← resolve_target_row table route;
    Ok (push_node NEW_IDX node table).

Fixpoint insert_routes (routes : list Route) (table : list (list RouterBuildingHelper)) : result (list (list RouterBuildingHelper)) :=
  match routes with
  | [] => Ok table
  | route :: routes => table ← insert_route route table; insert_routes routes table
  end.

(** The nodes of a row of [size] nodes, from [index] on. *)
Fixpoint add_row (size index : nat) (cumulative_children : Z) (row : list RouterBuildingHelper) (r : RouteHandler) : result RouteHandler :=
  match row with
  | [] => Ok r
  | node :: row =>
      let offset := if 0 <? b_children node then Z.of_nat size - Z.of_nat index + cumulative_children else 0 in
      r ← add_route (b_kind node) (b_literal node) offset (b_handlers node) (b_middlewares node) (b_children node) r;
      add_row size (Datatypes.S index) (cumulative_children + b_children node) row r
  end.

Fixpoint add_rows (table : list (list RouterBuildingHelper)) (r : RouteHandler) : result RouteHandler :=
  match table with
  | [] => Ok r
  | row :: table => r ← add_row (length row) 0 0 row r; add_rows table r
  end.

(** The order of the routes of a group of [group_size]. *)
Definition route_less (group_size : Z) (left right : Route) : bool :=
  if bool_decide (r_path left = star) then false
  else if bool_decide (r_path right = star) then true
  else if (m_base_router left =? SENTINEL) && negb (m_base_router right =? SENTINEL) then true
  else if (m_base_router right =? SENTINEL) && negb (m_base_router left =? SENTINEL) then false
  else fnv1a (r_path left) mod group_size <? fnv1a (r_path right) mod group_size.

(** The runs of routes with the same base router. *)
Fixpoint groups (routes : list Route) : list (list Route) :=
  match routes with
  | [] => []
  | route :: routes =>
      match groups routes with
      | (route' :: group) :: rest =>
          if m_base_router route =? m_base_router route' then (route :: route' :: group) :: rest
          else [route] :: (route' :: group) :: rest
      | rest => [route] :: rest
      end
  end.

Section Build.
Variable sort : (Route -> Route -> bool) -> list Route -> list Route.

Definition sorted_routes (routes : list Route) : list Route :=
  groups routes ≫= (fun group => sort (route_less (Z.of_nat (length group))) group).

(** [RouterContext::build]. *)
Definition build (routes : list Route) : result (RouteHandler * list Route) :=
  table ← insert_routes (sorted_routes routes) [];
  r ← add_rows table new_route_handler;
  Ok (r, set_build <$> sorted_routes routes).

Definition root_route : Route := mkRoute [slash] false 0 SENTINEL 0 no_handlers [].
Definition fallback_route : Route := mkRoute star false 0 SENTINEL 0 no_handlers [].

(** [RouteBuilder{}.build(ctx)]. *)
Definition build_context (ctx : RouterContext) : result RouteHandler :=
  let m_root_route := update_child_routes (m_base_router_children ctx) root_route in
  '(r, _) ← build (<[0%nat := m_root_route]> (<[1%nat := fallback_route]> (m_routes ctx)));
  Ok r.

End Build.

(** [RouteBuilder::port]. *)
Definition port (p : Z) : Z := u8 p.

End Router.
