(* ===== verification/RouterTable.v ===== *)
(** * The compiled route table

    What [add_rows] builds and how [match_] reads it (Router.v).  The rows of the table are laid out one
    after the other ([holds]); the children of a node are a slice of the next row, when the rows are in
    step ([in_step]: the base routers of a row are the router numbers of the row above, each repeated
    as often as the router has children).  [choose] is the reference for the lookup among siblings: the
    one that matches the segment, else the wildcard; [pick_choose] says that the probe from the hash of
    the segment finds it when no two siblings compete ([unambiguous]). *)

From Stdlib Require Import ZArith Lia.
From stdpp Require Import base sorting strings tactics list.
From S2P Require Import Prelude Text HttpTypes Frame Steps Router.

Open Scope Z_scope.

#[local] Arguments Z.testbit : simpl never.
#[local] Arguments Z.land : simpl never.

(** ** Method masks *)

Section Masks.
Context {H : Type}.

Lemma lane_range m : 0 <= lane m < 10.
Proof. destruct m; cbn; lia. Qed.

Lemma lane_inj m m' : lane m = lane m' -> m = m'.
Proof. by destruct m, m'. Qed.

Lemma byte_at_testbit mask i j : 0 <= i -> 0 <= j < 8 ->
  Z.testbit (Z.land (Z.shiftr mask i) 255) j = Z.testbit mask (i + j).
Proof.
  intros Hi Hj. change 255 with (Z.ones 8). rewrite Z.land_spec, Z.ones_spec_low, andb_true_r by lia.
  rewrite Z.shiftr_spec by lia. f_equal. lia.
Qed.

Lemma byte_at_range mask i : 0 <= Z.land (Z.shiftr mask i) 255 < 256.
Proof. change 255 with (Z.ones 8). rewrite Z.land_ones by lia. change 256 with (2 ^ 8). apply Z.mod_pos_bound. lia. Qed.

Lemma byte_ext a b : 0 <= a < 256 -> 0 <= b < 256 -> (forall j, 0 <= j < 8 -> Z.testbit a j = Z.testbit b j) -> a = b.
Proof.
  intros Ha Hb Hj. apply Z.bits_inj'. intros n Hn. destruct (Z.lt_ge_cases n 8); [apply Hj; lia|].
  rewrite <- (Z.mod_small a (2 ^ 8)), <- (Z.mod_small b (2 ^ 8)) by lia. by rewrite !Z.mod_pow2_bits_high by lia.
Qed.

(** Storing a byte in a lane. *)
Definition set_lane (mask l v : Z) : Z := Z.lor (Z.ldiff mask (Z.shiftl 255 (l * 8))) (Z.shiftl v (l * 8)).

Lemma set_lane_same mask l v : 0 <= l -> 0 <= v < 256 -> Z.land (Z.shiftr (set_lane mask l v) (l * 8)) 255 = v.
Proof.
  intros Hl Hv. apply byte_ext; [apply byte_at_range|done|]. intros j Hj. unfold set_lane.
  rewrite byte_at_testbit, Z.lor_spec, Z.ldiff_spec, !Z.shiftl_spec by lia.
  replace (l * 8 + j - l * 8) with j by lia. change 255 with (Z.ones 8). rewrite Z.ones_spec_low by lia.
  by rewrite andb_false_r.
Qed.

Lemma set_lane_other mask l l' v : 0 <= l -> 0 <= l' -> l <> l' -> 0 <= v < 256 ->
  Z.land (Z.shiftr (set_lane mask l v) (l' * 8)) 255 = Z.land (Z.shiftr mask (l' * 8)) 255.
Proof.
  intros Hl Hl' Hne Hv. apply byte_ext; [apply byte_at_range..|]. intros j Hj. unfold set_lane.
  rewrite !byte_at_testbit, Z.lor_spec, Z.ldiff_spec, !Z.shiftl_spec by lia.
  assert (forall x, 0 <= x < 256 -> Z.testbit x (l' * 8 + j - l * 8) = false) as Hz.
  { intros x Hx. destruct (Z.lt_ge_cases (l' * 8 + j - l * 8) 0); [by apply Z.testbit_neg_r|].
    rewrite <- (Z.mod_small x (2 ^ 8)) by lia. apply Z.mod_pow2_bits_high. lia. }
  rewrite !Hz by lia. by rewrite andb_true_r, orb_false_r.
Qed.

Lemma lane_value_ok mask m : lane m < 8 -> lane_value mask m = Ok (Z.land (Z.shiftr mask (lane m * 8)) 255).
Proof. intros Hm. unfold lane_value. destruct (Z.leb_spec 64 (lane m * 8)); [lia|done]. Qed.

(** A handler table as [add_handler] makes it. *)
Definition handler_ok (t : @Handler H) : Prop :=
  (length (m_handler t) <= 8)%nat /\ (m_handler_mask t = HANDLER_MASK <-> m_handler t = []) /\
  forall m, lane m < 8 ->
    exists v, lane_value (m_handler_mask t) m = Ok v /\ (v = 255 \/ 0 <= v < Z.of_nat (length (m_handler t))).

Lemma no_handlers_ok : handler_ok no_handlers.
Proof. split; [cbn; lia|]. split; [done|]. intros m Hm. exists 255. split; [|by left]. by destruct m. Qed.

Lemma add_handler_inverse m (h : H) t t' : lane m < 8 -> add_handler m h t = Ok t' ->
  (length (m_handler t) < 8)%nat /\ lane_value (m_handler_mask t) m = Ok 255 /\
  t' = mkHandler (m_handler t ++ [h]) (set_lane (m_handler_mask t) (lane m) (Z.of_nat (length (m_handler t)))).
Proof.
  intros Hm. unfold add_handler. rewrite lane_value_ok by done. cbn [mbind result_bind].
  destruct (Nat.leb_spec MaxHandlerSize (length (m_handler t))); [done|].
  destruct (Z.eqb_spec (Z.land (Z.shiftr (m_handler_mask t) (lane m * 8)) 255) 255) as [->|]; [|done].
  cbn [negb]. intros [= <-]. split; [unfold MaxHandlerSize in *; lia|]. done.
Qed.

Lemma add_handler_ok m (h : H) t t' : handler_ok t -> add_handler m h t = Ok t' -> handler_ok t'.
Proof.
  intros (Hlen & _ & Hlane) Ha. destruct (Z.lt_ge_cases (lane m) 8) as [Hm|Hm].
  2:{ unfold add_handler, lane_value in Ha. destruct (Nat.leb_spec MaxHandlerSize (length (m_handler t))); [done|].
      destruct (Z.leb_spec 64 (lane m * 8)); [done|lia]. }
  apply add_handler_inverse in Ha as (Hl & _ & ->); [|done]. pose proof (lane_range m).
  split; [cbn; rewrite length_app; cbn; lia|].
  assert (forall m', lane m' < 8 -> exists v, lane_value (set_lane (m_handler_mask t) (lane m) (Z.of_nat (length (m_handler t)))) m' = Ok v /\
    (v = 255 /\ m <> m' \/ 0 <= v < Z.of_nat (length (m_handler t ++ [h])))) as Hlanes.
  { intros m' Hm'. rewrite lane_value_ok by done. eexists. split; [done|]. pose proof (lane_range m').
    destruct (decide (m = m')) as [<-|Hne].
    - right. rewrite set_lane_same, length_app by lia. cbn. lia.
    - destruct (Hlane m' Hm') as (v & Hv & Hvv). rewrite lane_value_ok in Hv by done. injection Hv as Hv.
      rewrite set_lane_other, Hv by (try lia; intros ?%lane_inj; done). rewrite length_app. cbn. intuition lia. }
  split.
  - split; [|by destruct (m_handler t)]. cbn. intros He. destruct (Hlanes m Hm) as (v & Hv & [[_ ?]|Hvr]); [done|].
    rewrite He in Hv. rewrite lane_value_ok in Hv by done. injection Hv as <-. rewrite length_app in Hvr. cbn in Hvr.
    replace (Z.land (Z.shiftr HANDLER_MASK (lane m * 8)) 255) with 255 in Hvr by (destruct m; done). lia.
  - intros m' Hm'. destruct (Hlanes m' Hm') as (v & Hv & Hvv). exists v. split; [done|]. intuition.
Qed.

(** What was added is found, and the handlers of the other methods are as before. *)
Lemma find_add_handler m (h : H) t t' m' :
  handler_ok t -> lane m' < 8 -> add_handler m h t = Ok t' ->
  find_handler m' t' = if decide (m' = m) then Ok (Some h) else find_handler m' t.
Proof.
  intros (Hlen & _ & Hlane) Hm' Ha. destruct (Z.lt_ge_cases (lane m) 8) as [Hm|Hm].
  2:{ unfold add_handler, lane_value in Ha. destruct (Nat.leb_spec MaxHandlerSize (length (m_handler t))); [done|].
      destruct (Z.leb_spec 64 (lane m * 8)); [done|lia]. }
  apply add_handler_inverse in Ha as (Hl & _ & ->); [|done].
  pose proof (lane_range m). pose proof (lane_range m').
  unfold find_handler. cbn. rewrite !lane_value_ok by done. cbn. case_decide as Hd.
  - subst m'. rewrite set_lane_same by lia. destruct (Z.eqb_spec (Z.of_nat (length (m_handler t))) 255); [lia|].
    by rewrite Nat2Z.id, list_lookup_middle.
  - rewrite set_lane_other by (try lia; intros ?%lane_inj; done).
    destruct (Hlane m' Hm') as (v & Hv & Hvv). rewrite lane_value_ok in Hv by done. injection Hv as ->.
    destruct (Z.eqb_spec v 255); [done|]. rewrite lookup_app_l by lia. done.
Qed.

End Masks.

(** ** The layout of the table *)

Section Layout.
Context {H M : Type}.
#[local] Notation helper := (@RouterBuildingHelper H M).
Implicit Types (row : list helper) (node : helper) (rows : list (list helper)).

(** The nodes of a row with the offsets that [add_row] gives them. *)
Fixpoint row_offsets (size index : nat) (cumulative_children : Z) row : list (helper * Z) :=
  match row with
  | [] => []
  | node :: row =>
      (node, if 0 <? b_children node then Z.of_nat size - Z.of_nat index + cumulative_children else 0) ::
      row_offsets size (S index) (cumulative_children + b_children node) row
  end.

Definition with_offsets rows : list (helper * Z) := rows ≫= (fun row => row_offsets (length row) 0 0 row).

Definition handlers_of (l : list (helper * Z)) : list H := l ≫= (fun p => m_handler (b_handlers p.1)).
Definition middlewares_of (l : list (helper * Z)) : list M := l ≫= (fun p => b_middlewares p.1).

Lemma handlers_of_snoc l node offset : handlers_of (l ++ [(node, offset)]) = handlers_of l ++ m_handler (b_handlers node).
Proof. unfold handlers_of. rewrite bind_app. cbn. by rewrite app_nil_r. Qed.

Lemma middlewares_of_snoc l node offset : middlewares_of (l ++ [(node, offset)]) = middlewares_of l ++ b_middlewares node.
Proof. unfold middlewares_of. rewrite bind_app. cbn. by rewrite app_nil_r. Qed.

(** The compiled form of the [j]-th node of [l]. *)
Definition compiled (l : list (helper * Z)) (j : nat) (p : helper * Z) : RouterNode :=
  mkNode (b_kind p.1) (b_literal p.1) (wrap 16 p.2) (u8 (b_children p.1))
    (Z.of_nat (length (middlewares_of (take j l)))) (Z.of_nat (length (b_middlewares p.1)))
    (Z.of_nat (length (handlers_of (take j l)))) (m_handler_mask (b_handlers p.1)).

(** The table holds the nodes [l]. *)
Record holds (l : list (helper * Z)) (r : @RouteHandler H M) : Prop := {
  holds_length : length (m_table r) = RouterSize;
  holds_index : m_table_index r = u8 (Z.of_nat (length l));
  holds_handlers : m_handlers r = handlers_of l;
  holds_middleware : m_middleware r = middlewares_of l;
  holds_globals : m_global_middleware r = [];
  holds_table : forall j p, l !! j = Some p -> m_table r !! j = Some (compiled l j p);
}.

Definition fits (l : list (helper * Z)) : Prop :=
  (length l <= RouterSize)%nat /\ (length (handlers_of l) <= HandlerSize)%nat /\ (length (middlewares_of l) <= MiddlewareSize)%nat.

Lemma fits_app l l' : fits (l ++ l') -> fits l.
Proof. unfold fits, handlers_of, middlewares_of. rewrite !bind_app, !length_app. lia. Qed.

Lemma holds_new : holds [] new_route_handler.
Proof. split; done. Qed.

Lemma push_all_ok {A} size (l pool : list A) : (length (pool ++ l) <= size)%nat -> push_all size l pool = Ok (pool ++ l).
Proof.
  revert pool. induction l as [|a l IH]; intros pool Hl; cbn; [by rewrite app_nil_r|].
  rewrite length_app in Hl. cbn in Hl. unfold push_back. destruct (Nat.leb_spec size (length pool)); [lia|].
  cbn. rewrite IH by (rewrite !length_app; cbn; lia). by rewrite <- app_assoc.
Qed.

Lemma holds_add_route l r node offset :
  holds l r -> fits (l ++ [(node, offset)]) ->
  exists r', add_route (b_kind node) (b_literal node) offset (b_handlers node) (b_middlewares node) (b_children node) r = Ok r' /\
    holds (l ++ [(node, offset)]) r'.
Proof.
  intros Hh (Hf1 & Hf2 & Hf3). destruct Hh as [Hlen Hidx Hhs Hms Hg Ht]. unfold add_route.
  rewrite handlers_of_snoc in Hf2. rewrite middlewares_of_snoc in Hf3.
  rewrite Hms, (push_all_ok MiddlewareSize) by exact Hf3. cbn [mbind result_bind].
  rewrite Hhs, (push_all_ok HandlerSize) by exact Hf2.
  eexists. split; [done|]. rewrite length_app in Hf1. cbn in Hf1. unfold RouterSize in *.
  assert (Z.to_nat (m_table_index r) = length l) as Hat. { rewrite Hidx, u8_small; unfold is_byte; lia. }
  split; cbn [m_table m_handlers m_middleware m_table_index m_global_middleware].
  - by rewrite length_insert.
  - rewrite Hidx, length_app. unfold wrap. rewrite Zplus_mod_idemp_l. f_equal. cbn. lia.
  - by rewrite handlers_of_snoc.
  - by rewrite middlewares_of_snoc.
  - done.
  - intros j p Hj. rewrite Hat. destruct (decide (j = length l)) as [->|Hne].
    + rewrite list_lookup_middle in Hj by done. injection Hj as <-. rewrite list_lookup_insert_eq by lia.
      unfold compiled. by rewrite take_app_length.
    + rewrite list_lookup_insert_ne by done. pose proof (lookup_lt_Some _ _ _ Hj) as Hlt. rewrite length_app in Hlt. cbn in Hlt.
      rewrite lookup_app_l in Hj by lia. rewrite (Ht j p Hj). unfold compiled. by rewrite take_app_le by lia.
Qed.

Lemma holds_add_row size index cum row l r :
  holds l r -> fits (l ++ row_offsets size index cum row) ->
  exists r', add_row size index cum row r = Ok r' /\ holds (l ++ row_offsets size index cum row) r'.
Proof.
  revert index cum l r. induction row as [|node row IH]; intros index cum l r Hh Hf; cbn [row_offsets add_row].
  { exists r. by rewrite app_nil_r. }
  cbn [row_offsets] in Hf. rewrite cons_middle, (assoc_L (++)) in Hf |- *.
  destruct (holds_add_route l r node _ Hh (fits_app _ _ Hf)) as (r1 & Hr1 & Hh1). rewrite Hr1. cbn [mbind result_bind].
  by apply IH.
Qed.

Lemma holds_add_rows rows l r :
  holds l r -> fits (l ++ with_offsets rows) -> exists r', add_rows rows r = Ok r' /\ holds (l ++ with_offsets rows) r'.
Proof.
  revert l r. induction rows as [|row rows IH]; intros l r Hh Hf; cbn [add_rows].
  { exists r. by rewrite app_nil_r. }
  cbn in Hf |- *. rewrite (assoc_L (++)) in Hf |- *.
  destruct (holds_add_row (length row) 0 0 row l r Hh (fits_app _ _ Hf)) as (r1 & Hr1 & Hh1). rewrite Hr1. cbn [mbind result_bind].
  by apply IH.
Qed.

(** *** Positions *)

Definition children_before (i : nat) row : Z := foldr Z.add 0 (b_children <$> take i row).

Lemma length_row_offsets size index cum row : length (row_offsets size index cum row) = length row.
Proof. revert index cum. induction row; intros; cbn; auto. Qed.

Lemma row_offsets_lookup size index cum row i node : row !! i = Some node ->
  row_offsets size index cum row !! i =
  Some (node, if 0 <? b_children node then Z.of_nat size - Z.of_nat (index + i) + (cum + children_before i row) else 0).
Proof.
  revert index cum row. induction i as [|i IH]; intros index cum [|x row] Hi; try done; cbn in *.
  - injection Hi as ->. unfold children_before. cbn. by rewrite Nat.add_0_r, Z.add_0_r.
  - rewrite (IH _ _ row Hi). unfold children_before. cbn. do 2 f_equal. case_match; lia.
Qed.

Definition position (k i : nat) rows : nat := (length (concat (take k rows)) + i)%nat.

Lemma with_offsets_length rows : length (with_offsets rows) = length (concat rows).
Proof.
  induction rows as [|row rows IH]; [done|]. unfold with_offsets in *. cbn. rewrite !length_app, length_row_offsets. by f_equal.
Qed.

Lemma with_offsets_lookup k i rows row node : rows !! k = Some row -> row !! i = Some node ->
  with_offsets rows !! position k i rows =
  Some (node, if 0 <? b_children node then Z.of_nat (length row) - Z.of_nat i + children_before i row else 0).
Proof.
  intros Hk Hi. unfold position. assert (with_offsets rows = with_offsets (take k rows) ++
    row_offsets (length row) 0 0 row ++ with_offsets (drop (S k) rows)) as ->.
  { rewrite <- (take_drop_middle rows k row Hk) at 1. unfold with_offsets. by rewrite bind_app. }
  rewrite lookup_app_r by (rewrite with_offsets_length; lia).
  rewrite with_offsets_length. replace (_ + i - _)%nat with i by lia.
  rewrite lookup_app_l by (rewrite length_row_offsets; by eapply lookup_lt_Some).
  rewrite (row_offsets_lookup _ _ _ _ _ _ Hi). done.
Qed.

End Layout.

(** ** The choice among siblings *)

Section Choose.
Context {A : Type} (kind : A -> EdgeKind) (literal : A -> text).

(** A literal that is the segment, or a parameter. *)
Definition hits (seg : text) (a : A) : bool :=
  match kind a with PATH => bool_decide (literal a = seg) | PARAM => true | WILD => false end.

Definition is_wild (a : A) : bool := match kind a with WILD => true | _ => false end.

(** Two siblings that can both answer the same segment, with the same precedence. *)
Definition compete (a b : A) : bool :=
  match kind a, kind b with
  | PATH, PATH => bool_decide (literal a = literal b)
  | WILD, WILD | PARAM, PARAM | PARAM, PATH | PATH, PARAM => true
  | _, _ => false
  end.

Fixpoint unambiguous (l : list A) : bool :=
  match l with [] => true | a :: l => forallb (fun b => negb (compete a b)) l && unambiguous l end.

Definition choose (seg : text) (l : list A) : option A :=
  match list_find (fun a => hits seg a = true) l with
  | Some (_, a) => Some a
  | None => snd <$> list_find (fun a => is_wild a = true) l
  end.

Lemma compete_sym a b : compete a b = compete b a.
Proof. unfold compete. destruct (kind a), (kind b); try done. apply bool_decide_ext. done. Qed.

Lemma unambiguous_spec l i j a b :
  unambiguous l = true -> l !! i = Some a -> l !! j = Some b -> compete a b = true -> i = j.
Proof.
  revert i j. induction l as [|x l IH]; intros i j Hu Hi Hj Hc; [done|]. cbn in Hu.
  apply andb_true_iff in Hu as [Hx Hu]. rewrite forallb_forall in Hx.
  assert (forall k c, l !! k = Some c -> compete x c = false) as Hno.
  { intros k c Hk%list_elem_of_lookup_2. apply list_elem_of_In, Hx in Hk. by apply negb_true_iff. }
  destruct i as [|i], j as [|j]; cbn in Hi, Hj; [done|..].
  - injection Hi as <-. by rewrite (Hno _ _ Hj) in Hc.
  - injection Hj as <-. rewrite compete_sym in Hc. by rewrite (Hno _ _ Hi) in Hc.
  - f_equal. by apply (IH i j).
Qed.

Lemma hits_compete seg a b : hits seg a = true -> hits seg b = true -> compete a b = true.
Proof.
  unfold hits, compete. destruct (kind a), (kind b); try done. intros Ha%bool_decide_eq_true Hb%bool_decide_eq_true.
  apply bool_decide_eq_true. congruence.
Qed.

Lemma wild_compete a b : is_wild a = true -> is_wild b = true -> compete a b = true.
Proof. unfold is_wild, compete. by destruct (kind a), (kind b). Qed.

Inductive chosen (seg : text) (l : list A) : option A -> Prop :=
  | chosen_hit i a : l !! i = Some a -> hits seg a = true -> chosen seg l (Some a)
  | chosen_wild i a : l !! i = Some a -> is_wild a = true -> Forall (fun b => hits seg b = false) l -> chosen seg l (Some a)
  | chosen_none : Forall (fun b => hits seg b = false /\ is_wild b = false) l -> chosen seg l None.

Lemma choose_chosen seg l : chosen seg l (choose seg l).
Proof.
  unfold choose. destruct (list_find _ l) as [[i a]|] eqn:Hh.
  { apply list_find_Some in Hh as (Hi & Ha & _). by apply (chosen_hit _ _ i). }
  apply list_find_None in Hh. rewrite Forall_forall in Hh.
  assert (Forall (fun b => hits seg b = false) l) as Hno.
  { apply Forall_forall. intros b Hb. apply not_true_iff_false. by apply Hh. }
  destruct (list_find (fun a => is_wild a = true) l) as [[i a]|] eqn:Hw; cbn.
  { apply list_find_Some in Hw as (Hi & Ha & _). by apply (chosen_wild _ _ i). }
  apply list_find_None in Hw. apply chosen_none. rewrite Forall_forall in Hw, Hno. apply Forall_forall.
  intros b Hb. split; [by apply Hno|]. apply not_true_iff_false. by apply Hw.
Qed.

Lemma chosen_unique seg l o o' : unambiguous l = true -> chosen seg l o -> chosen seg l o' -> o = o'.
Proof.
  intros Hu Ho Ho'.
  assert (forall i a j b, l !! i = Some a -> l !! j = Some b -> compete a b = true -> Some a = Some b) as Hone.
  { intros i a j b Hi Hj Hc. assert (i = j) as -> by by eapply unambiguous_spec. by rewrite <- Hi, Hj. }
  destruct Ho as [i a Hi Ha|i a Hi Ha Hf|Hf], Ho' as [j b Hj Hb|j b Hj Hb Hf'|Hf']; try done;
    try rewrite Forall_lookup in Hf; try rewrite Forall_lookup in Hf'.
  - eapply Hone; [done..|]. by eapply hits_compete.
  - by rewrite (Hf' i a Hi) in Ha.
  - destruct (Hf' i a Hi) as [Hn _]. by rewrite Hn in Ha.
  - by rewrite (Hf j b Hj) in Hb.
  - eapply Hone; [done..|]. by apply wild_compete.
  - destruct (Hf' i a Hi) as [_ Hn]. by rewrite Hn in Ha.
  - destruct (Hf j b Hj) as [Hn _]. by rewrite Hn in Hb.
  - destruct (Hf j b Hj) as [_ Hn]. by rewrite Hn in Hb.
Qed.

(** The choice does not depend on the order of the siblings. *)
Lemma chosen_perm seg l l' o : l ≡ₚ l' -> chosen seg l o -> chosen seg l' o.
Proof.
  intros Hp [i a Hi Ha|i a Hi Ha Hf|Hf].
  - apply list_elem_of_lookup_2 in Hi. rewrite Hp in Hi. apply list_elem_of_lookup in Hi as [j Hj]. by apply (chosen_hit _ _ j).
  - apply list_elem_of_lookup_2 in Hi. rewrite Hp in Hi. apply list_elem_of_lookup in Hi as [j Hj]. apply (chosen_wild _ _ j); [done..|].
    by rewrite <- Hp.
  - apply chosen_none. by rewrite <- Hp.
Qed.

Lemma choose_perm seg l l' : unambiguous l = true -> l ≡ₚ l' -> choose seg l = choose seg l'.
Proof.
  intros Hu Hp. apply (chosen_unique seg l); [done|apply choose_chosen|].
  eapply chosen_perm; [symmetry; exact Hp|]. apply choose_chosen.
Qed.

End Choose.

Lemma choose_fmap {A B} (f : A -> B) kind literal seg l :
  choose kind literal seg (f <$> l) = f <$> choose (fun a => kind (f a)) (fun a => literal (f a)) seg l.
Proof.
  unfold choose. rewrite !list_find_fmap.
  change (list_find ((fun a => hits kind literal seg a = true) ∘ f) l) with
    (list_find (fun a => hits (fun a => kind (f a)) (fun a => literal (f a)) seg a = true) l).
  destruct (list_find _ l) as [[i a]|]; [done|]. cbn.
  change (list_find ((fun a => is_wild kind a = true) ∘ f) l) with
    (list_find (fun a => is_wild (fun a => kind (f a)) a = true) l).
  by destruct (list_find _ l) as [[i a]|].
Qed.

Lemma unambiguous_fmap {A B} (f : A -> B) kind literal l :
  unambiguous kind literal (f <$> l) = unambiguous (fun a => kind (f a)) (fun a => literal (f a)) l.
Proof.
  induction l as [|a l IH]; [done|]. cbn. f_equal; [|done]. clear IH.
  induction l as [|b l IH]; [done|]. cbn. by f_equal.
Qed.

(** ** The lookup of a child *)

Section FindChild.
Context (table : list RouterNode) (start : Z) (cs : list RouterNode).
Hypothesis Hstart : 0 <= start /\ start + Z.of_nat (length cs) <= 256.
Hypothesis Hcs : forall j c, cs !! j = Some c -> table !! (Z.to_nat start + j)%nat = Some c.

Lemma node_at_child j c : cs !! j = Some c -> node_at table (start + Z.of_nat j) = c.
Proof.
  intros Hj. unfold node_at. replace (Z.to_nat (start + Z.of_nat j)) with (Z.to_nat start + j)%nat by lia.
  by rewrite (Hcs _ _ Hj).
Qed.

Lemma child_index j c : cs !! j = Some c -> u8 (start + Z.of_nat j) = start + Z.of_nat j.
Proof. intros Hj%lookup_lt_Some. apply u8_small. unfold is_byte. lia. Qed.

Definition slot (HASH i : Z) : nat := Z.to_nat ((HASH + i) mod Z.of_nat (length cs)).

Lemma probe_step seg HASH i probes w c : 0 <= HASH -> 0 <= i -> cs !! slot HASH i = Some c ->
  probe seg table start HASH (Z.of_nat (length cs)) (i :: probes) w =
  if hits m_kind m_path seg c then Some (start + Z.of_nat (slot HASH i))
  else probe seg table start HASH (Z.of_nat (length cs)) probes
    (if is_wild m_kind c then Some (start + Z.of_nat (slot HASH i)) else w).
Proof.
  intros HH Hi Hc. cbn [probe]. pose proof (lookup_lt_Some _ _ _ Hc) as Hlt.
  assert ((HASH + i) mod Z.of_nat (length cs) = Z.of_nat (slot HASH i)) as Hs.
  { unfold slot. rewrite Z2Nat.id; [done|]. apply Z.mod_pos_bound. lia. }
  rewrite Hs, (child_index _ _ Hc), (node_at_child _ _ Hc). unfold hits, is_wild.
  destruct (m_kind c); [|done|done]. by case_bool_decide.
Qed.

Lemma probed_lookup HASH i : (0 < length cs)%nat -> exists c, cs !! slot HASH i = Some c.
Proof. intros Hn. apply lookup_lt_is_Some. unfold slot. pose proof (Z.mod_pos_bound (HASH + i) (Z.of_nat (length cs))). lia. Qed.

(** Every sibling is probed. *)
Lemma slot_onto HASH j c : cs !! j = Some c -> 0 <= HASH -> exists i, i ∈ seqZ 0 (Z.of_nat (length cs)) /\ slot HASH i = j.
Proof.
  intros Hj%lookup_lt_Some HH. exists ((Z.of_nat j - HASH) mod Z.of_nat (length cs)). split.
  - apply elem_of_seqZ. pose proof (Z.mod_pos_bound (Z.of_nat j - HASH) (Z.of_nat (length cs))). lia.
  - unfold slot. rewrite Zplus_mod_idemp_r. replace (HASH + (Z.of_nat j - HASH)) with (Z.of_nat j) by lia.
    rewrite Z.mod_small by lia. lia.
Qed.

Definition stepwise (probes : list Z) : Prop := Forall (fun i => 0 <= i) probes.

Lemma probe_hit seg HASH probes w i0 c0 : 0 <= HASH -> stepwise probes -> i0 ∈ probes ->
  cs !! slot HASH i0 = Some c0 -> hits m_kind m_path seg c0 = true ->
  (forall j c, cs !! j = Some c -> hits m_kind m_path seg c = true -> j = slot HASH i0) ->
  probe seg table start HASH (Z.of_nat (length cs)) probes w = Some (start + Z.of_nat (slot HASH i0)).
Proof.
  intros HH Hp Hin Hc0 Hh Hone. assert (0 < length cs)%nat by (apply lookup_lt_Some in Hc0; lia).
  revert w. induction Hp as [|i probes Hi Hp IH]; intros w; [by apply not_elem_of_nil in Hin|].
  destruct (probed_lookup HASH i) as [c Hc]; [done|]. rewrite (probe_step _ _ _ _ _ c) by done.
  destruct (hits m_kind m_path seg c) eqn:Hhc; [by rewrite (Hone _ _ Hc Hhc)|].
  apply IH. apply elem_of_cons in Hin as [->|]; [|done]. congruence.
Qed.

Lemma probe_no_hit seg HASH probes w : 0 <= HASH -> stepwise probes -> (0 < length cs)%nat ->
  (forall j c, cs !! j = Some c -> hits m_kind m_path seg c = false) ->
  (forall i j c d, cs !! i = Some c -> cs !! j = Some d -> is_wild m_kind c = true -> is_wild m_kind d = true -> i = j) ->
  (forall i c, i ∈ probes -> cs !! slot HASH i = Some c -> is_wild m_kind c = false) /\
  probe seg table start HASH (Z.of_nat (length cs)) probes w = w \/
  exists i c, i ∈ probes /\ cs !! slot HASH i = Some c /\ is_wild m_kind c = true /\
    probe seg table start HASH (Z.of_nat (length cs)) probes w = Some (start + Z.of_nat (slot HASH i)).
Proof.
  intros HH Hp Hn Hno Hone. revert w. induction Hp as [|i probes Hi Hp IH]; intros w.
  { left. split; [|done]. by intros i c ?%not_elem_of_nil. }
  destruct (probed_lookup HASH i) as [c Hc]; [done|]. rewrite (probe_step _ _ _ _ _ c) by done.
  rewrite (Hno _ _ Hc). destruct (IH (if is_wild m_kind c then Some (start + Z.of_nat (slot HASH i)) else w)) as [[Hw ->]|(i1 & c1 & Hi1 & Hc1 & Hw & ->)].
  - destruct (is_wild m_kind c) eqn:Hwc; [|left].
    + right. exists i, c. split_and!; [left|done..].
    + split; [|done]. intros i1 c1 [->|Hin]%elem_of_cons Hc1; [congruence|by eapply Hw].
  - right. exists i1, c1. split_and!; [by right|done..].
Qed.

Lemma fnv1a_nonneg seg : 0 <= fnv1a seg.
Proof.
  unfold fnv1a. assert (0 <= 5381) as H0 by lia. revert H0. generalize 5381 as h.
  induction seg as [|c seg IH]; intros h Hh; [done|]. cbn. apply IH.
  pose proof (wrap_range 32 (h * 33)). apply Z.lxor_nonneg. lia.
Qed.

(** [find_child] finds the chosen sibling. *)
Lemma find_child_chosen node seg current_index :
  m_children_length node = Z.of_nat (length cs) -> start = u8 (current_index + m_children_offset node) ->
  unambiguous m_kind m_path cs = true ->
  match choose m_kind m_path seg cs with
  | Some c => exists j, cs !! j = Some c /\ find_child node seg table current_index = Some (c, start + Z.of_nat j)
  | None => find_child node seg table current_index = None
  end.
Proof.
  intros Hlen Hst Hu. unfold find_child. rewrite Hlen, <- Hst. pose proof (choose_chosen m_kind m_path seg cs) as Hch.
  destruct (Z.eqb_spec (Z.of_nat (length cs)) 0) as [Hz|Hz].
  { assert (cs = []) as Hnil by (apply nil_length_inv; lia). by rewrite Hnil. }
  assert (forall i j c d, cs !! i = Some c -> cs !! j = Some d -> compete m_kind m_path c d = true -> i = j) as Hone.
  { intros. by eapply unambiguous_spec. }
  destruct (Z.ltb_spec 1 (Z.of_nat (length cs))).
  - pose proof (fnv1a_nonneg seg) as Hf. pose proof (Z.mod_pos_bound (fnv1a seg) (Z.of_nat (length cs))) as HH.
    set (HASH := fnv1a seg mod Z.of_nat (length cs)) in *.
    assert (stepwise (seqZ 0 (Z.of_nat (length cs)))) as Hs. { apply Forall_forall. intros i Hi%elem_of_seqZ. lia. }
    destruct Hch as [j a Hj Ha|j a Hj Ha Hno|Hno].
    + exists j. split; [done|]. destruct (slot_onto HASH j a Hj) as (i & Hi & Hij); [lia|].
      rewrite (probe_hit seg HASH _ _ i a); [|lia|done|done|by rewrite Hij|done|].
      * cbn. by rewrite Hij, (node_at_child j a Hj).
      * intros k c Hk Hc. rewrite Hij. eapply Hone; [done..|]. by eapply hits_compete.
    + exists j. split; [done|]. rewrite Forall_lookup in Hno.
      destruct (probe_no_hit seg HASH (seqZ 0 (Z.of_nat (length cs))) None) as [[Hw _]|(i & c & Hi & Hc & Hw & ->)]; [lia|done|lia|done|..].
      * intros. eapply Hone; [done..|]. by apply wild_compete.
      * destruct (slot_onto HASH j a Hj) as (i & Hi & Hij); [lia|]. specialize (Hw i a Hi). rewrite Hij in Hw. by rewrite Hw in Ha.
      * assert (slot HASH i = j) as Hij. { eapply Hone; [done..|]. by apply wild_compete. }
        rewrite Hij in *. cbn. rewrite (node_at_child j a Hj). done.
    + rewrite Forall_lookup in Hno.
      destruct (probe_no_hit seg HASH (seqZ 0 (Z.of_nat (length cs))) None) as [[Hw ->]|(i & c & Hi & Hc & Hw & _)]; [lia|done|lia|..].
      * intros j c Hj. by apply (Hno j).
      * intros. eapply Hone; [done..|]. by apply wild_compete.
      * done.
      * destruct (Hno _ _ Hc) as [_ Hn]. by rewrite Hn in Hw.
  - destruct (lookup_lt_is_Some_2 cs 0) as [c Hc]; [lia|]. pose proof (node_at_child 0 c Hc) as Hat. rewrite Z.add_0_r in Hat.
    assert (cs = [c]) as Heq. { destruct cs as [|c' [|c'' cs']]; cbn in *; [lia| |lia]. by injection Hc as ->. }
    rewrite Hat. clear Hch. unfold choose. rewrite Heq. cbn. unfold hits, is_wild. destruct (m_kind c).
    + case_bool_decide as Hb; cbn.
      * exists 0%nat. rewrite Hat, Z.add_0_r. done.
      * done.
    + exists 0%nat. cbn. rewrite Hat, Z.add_0_r. done.
    + cbn. exists 0%nat. rewrite Hat, Z.add_0_r. done.
Qed.

(** What the probe takes from the children it visits, in their order: the first that hits, or the last wildcard. *)
Definition pick (seg : text) (visited : list RouterNode) : option RouterNode :=
  match list_find (fun c => hits m_kind m_path seg c = true) visited with
  | Some (_, c) => Some c
  | None => last (filter (fun c => is_wild m_kind c = true) visited)
  end.

Lemma probe_picks seg HASH probes w : 0 <= HASH -> stepwise probes -> (0 < length cs)%nat ->
  let visited := omap (fun i => cs !! slot HASH i) probes in
  node_at table <$> probe seg table start HASH (Z.of_nat (length cs)) probes w =
    match pick seg visited with Some c => Some c | None => node_at table <$> w end.
Proof.
  intros HH Hp Hn. cbv zeta. revert w. induction Hp as [|i probes Hi Hp IH]; intros w; [done|].
  destruct (probed_lookup HASH i) as [c Hc]; [done|]. rewrite (probe_step _ _ _ _ _ c) by done.
  assert (omap (fun i => cs !! slot HASH i) (i :: probes) = c :: omap (fun i => cs !! slot HASH i) probes) as -> by (cbn; by rewrite Hc).
  set (visited := omap _ probes) in *. unfold pick in *. cbn [list_find].
  destruct (decide (hits m_kind m_path seg c = true)) as [Hh|Hh].
  { rewrite Hh. cbn. by rewrite (node_at_child _ _ Hc). }
  apply not_true_is_false in Hh. rewrite Hh, IH.
  destruct (list_find _ visited) as [[k d]|]; [done|]. cbn [fmap option_fmap option_map].
  destruct (is_wild m_kind c) eqn:Hw.
  - rewrite filter_cons_True by done. cbn. rewrite (node_at_child _ _ Hc). rewrite last_cons. by destruct (last _).
  - by rewrite filter_cons_False by (by rewrite Hw).
Qed.

Lemma visited_rotate HASH : 0 <= HASH ->
  omap (fun i => cs !! slot HASH i) (seqZ 0 (Z.of_nat (length cs))) = rotate (Z.to_nat HASH) cs.
Proof.
  intros HH.
  assert (Forall2 (fun i c => cs !! slot HASH i = Some c) (seqZ 0 (Z.of_nat (length cs))) (rotate (Z.to_nat HASH) cs)) as H.
  { apply Forall2_same_length_lookup_2; [rewrite length_seqZ, length_rotate; lia|]. intros k i c Hi Hc.
    apply lookup_seqZ in Hi as [-> Hk]. rewrite lookup_rotate_r in Hc by lia. rewrite <- Hc. f_equal.
    unfold slot, rotate_nat_add. rewrite !Z.add_0_l. by rewrite Z2Nat.id by done. }
  induction H as [|i c probes l Hc _ IH]; [done|]. cbn. by rewrite Hc, <- IH.
Qed.

(** C38: [find_child] among any siblings, competing ones included, that stand in consecutive rows of a table
    of at most 256 rows, at the offset the node records: it takes them in the order that starts at the one the
    segment's hash points to and wraps around, and answers the first literal that is the segment or the first
    parameter, whichever comes first; if there is neither, the last wildcard in that order; and nothing if there
    is no wildcard either.  So which of two competing routes answers depends on the hash of the segment. *)
Theorem find_child_rotated node seg current_index :
  m_children_length node = Z.of_nat (length cs) -> start = u8 (current_index + m_children_offset node) ->
  fst <$> find_child node seg table current_index =
    pick seg (rotate (Z.to_nat (fnv1a seg mod Z.of_nat (length cs))) cs).
Proof.
  intros Hlen Hst. unfold find_child. rewrite Hlen, <- Hst. pose proof (fnv1a_nonneg seg) as Hf.
  destruct (Z.eqb_spec (Z.of_nat (length cs)) 0) as [Hz|Hz].
  { assert (cs = []) as -> by (apply nil_length_inv; lia). unfold rotate. by rewrite drop_nil, take_nil. }
  rewrite <- option_fmap_compose. cbn [compose fst].
  destruct (Z.ltb_spec 1 (Z.of_nat (length cs))).
  - pose proof (Z.mod_pos_bound (fnv1a seg) (Z.of_nat (length cs))) as HH.
    change (fst ∘ (fun idx => (node_at table idx, idx))) with (node_at table).
    rewrite probe_picks, visited_rotate; [by destruct (pick _ _)|lia|lia| |lia].
    apply Forall_forall. intros i Hi%elem_of_seqZ. lia.
  - destruct (lookup_lt_is_Some_2 cs 0) as [c Hc]; [lia|]. pose proof (node_at_child 0 c Hc) as Hat. rewrite Z.add_0_r in Hat.
    assert (cs = [c]) as Heq. { destruct cs as [|c' [|c'' cs']]; cbn in *; [lia| |lia]. by injection Hc as ->. }
    rewrite Hat, Heq. cbn [length]. change (Z.of_nat 1) with 1. rewrite Z.mod_1_r.
    change (rotate (Z.to_nat 0) [c]) with [c]. unfold pick. cbn [list_find filter list_filter]. unfold hits, is_wild.
    destruct (m_kind c); [case_bool_decide|..]; cbn; by rewrite ?Hat.
Qed.

End FindChild.

Definition sample_children : list RouterNode :=
  [mkNode PATH (chars "a") 0 0 0 0 0 0; mkNode PARAM (chars "x") 0 0 0 0 0 0; mkNode PATH (chars "b") 0 0 0 0 0 0].

Definition sample_root : RouterNode := mkNode PATH [] 1 3 0 0 0 0.

(** The literal [a] comes first of the three, and yet the parameter answers for it. *)
Lemma find_child_rotated_witness :
  fst <$> find_child sample_root (chars "a") (sample_root :: sample_children) 0 = sample_children !! 1%nat /\
  fst <$> find_child sample_root (chars "a") (sample_root :: sample_children) 0 =
    pick (chars "a") (rotate (Z.to_nat (fnv1a (chars "a") mod 3)) sample_children).
Proof.
  split; [vm_compute; reflexivity|].
  apply (find_child_rotated (sample_root :: sample_children) 1 sample_children).
  - cbn. lia.
  - intros j c Hj. exact Hj.
  - reflexivity.
  - reflexivity.
Defined.

(** ** Rows *)

Section Same.
Context {A B : Type} (kA : A -> EdgeKind) (lA : A -> text) (kB : B -> EdgeKind) (lB : B -> text).

Definition same_edge (a : A) (b : B) : Prop := kA a = kB b /\ lA a = lB b.

Lemma list_find_same (P : A -> bool) (Q : B -> bool) l l' :
  Forall2 same_edge l l' -> (forall a b, same_edge a b -> P a = Q b) ->
  match list_find (fun a => P a = true) l, list_find (fun b => Q b = true) l' with
  | Some (i, a), Some (j, b) => i = j /\ l !! i = Some a /\ l' !! i = Some b
  | None, None => True
  | _, _ => False
  end.
Proof.
  intros Hl HPQ. induction Hl as [|a b l l' Hab Hl IH]; [done|]. cbn. rewrite (HPQ a b Hab).
  destruct (decide (Q b = true)); [done|].
  destruct (list_find (fun a => P a = true) l) as [[i x]|], (list_find (fun b => Q b = true) l') as [[j y]|]; cbn; try done.
  destruct IH as (-> & ? & ?). done.
Qed.

Lemma choose_same seg l l' : Forall2 same_edge l l' ->
  match choose kA lA seg l, choose kB lB seg l' with
  | Some a, Some b => exists i, l !! i = Some a /\ l' !! i = Some b
  | None, None => True
  | _, _ => False
  end.
Proof.
  intros Hl. unfold choose.
  pose proof (list_find_same (hits kA lA seg) (hits kB lB seg) l l' Hl) as Hh.
  assert (forall a b, same_edge a b -> hits kA lA seg a = hits kB lB seg b) as He.
  { intros a b [Hk Hli]. unfold hits. by rewrite Hk, Hli. }
  specialize (Hh He).
  destruct (list_find _ l) as [[i a]|], (list_find _ l') as [[j b]|]; try done; [by destruct Hh as (-> & ? & ?); exists j|].
  pose proof (list_find_same (is_wild kA) (is_wild kB) l l' Hl) as Hw.
  assert (forall a b, same_edge a b -> is_wild kA a = is_wild kB b) as Hew.
  { intros a b [Hk _]. unfold is_wild. by rewrite Hk. }
  specialize (Hw Hew).
  destruct (list_find (fun a => is_wild kA a = true) l) as [[i a]|], (list_find (fun b => is_wild kB b = true) l') as [[j b]|]; cbn; try done.
  destruct Hw as (-> & ? & ?). by exists j.
Qed.

Lemma unambiguous_same l l' : Forall2 same_edge l l' -> unambiguous kA lA l = unambiguous kB lB l'.
Proof.
  intros Hl. induction Hl as [|a b l l' [Hk Hli] Hl IH]; [done|]. cbn. f_equal; [|done]. clear IH.
  induction Hl as [|c d l l' [Hk' Hl'] Hl IH]; [done|]. cbn. rewrite IH. f_equal. unfold compete. by rewrite Hk, Hli, Hk', Hl'.
Qed.

End Same.

Lemma compete_refl {A} kind literal (a : A) : compete kind literal a a = true.
Proof. unfold compete. destruct (kind a); [by apply bool_decide_eq_true|done..]. Qed.

Section Rows.
Context {H M : Type}.
#[local] Notation helper := (@RouterBuildingHelper H M).
Context (rows : list (list helper)) (r : @RouteHandler H M).
Hypothesis Hholds : holds (with_offsets rows) r.
Hypothesis Hsize : (length (concat rows) <= RouterSize)%nat.

(** The row below row [k]. *)
Definition below (k : nat) : list helper := default [] (rows !! S k).

(** The children of the [i]-th node of [row], the [k]-th. *)
Definition slice (k i : nat) (row : list helper) (node : helper) : list helper :=
  take (Z.to_nat (b_children node)) (drop (Z.to_nat (children_before i row)) (below k)).

Lemma lookup_with_offsets k i row node : rows !! k = Some row -> row !! i = Some node ->
  exists offset, with_offsets rows !! position k i rows = Some (node, offset) /\
    (0 < b_children node -> offset = Z.of_nat (length row) - Z.of_nat i + children_before i row).
Proof.
  intros Hk Hi. eexists. split; [by apply with_offsets_lookup|]. intros Hc.
  destruct (Z.ltb_spec 0 (b_children node)); [done|lia].
Qed.

(** The compiled node at a position. *)
Definition node_of (k i : nat) : RouterNode := node_at (m_table r) (Z.of_nat (position k i rows)).

Lemma node_of_compiled k i row node : rows !! k = Some row -> row !! i = Some node ->
  exists offset, node_of k i = compiled (with_offsets rows) (position k i rows) (node, offset) /\
    with_offsets rows !! position k i rows = Some (node, offset) /\
    (0 < b_children node -> offset = Z.of_nat (length row) - Z.of_nat i + children_before i row).
Proof.
  intros Hk Hi. destruct (lookup_with_offsets k i row node Hk Hi) as (offset & Ho & Hoff). exists offset. split; [|done].
  unfold node_of, node_at. by rewrite Nat2Z.id, (holds_table _ _ Hholds _ _ Ho).
Qed.

Lemma position_bound k i row node : rows !! k = Some row -> row !! i = Some node -> (position k i rows < length (concat rows))%nat.
Proof.
  intros Hk Hi. destruct (lookup_with_offsets k i row node Hk Hi) as (offset & Ho%lookup_lt_Some & _). by rewrite with_offsets_length in Ho.
Qed.

Lemma position_succ k i row : rows !! k = Some row -> position (S k) i rows = (length (concat (take k rows)) + length row + i)%nat.
Proof. intros Hk. unfold position. rewrite (take_S_r _ _ _ Hk), concat_app, length_app. cbn. rewrite length_app. cbn. lia. Qed.

Lemma children_before_nonneg i row : Forall (fun node : helper => 0 <= b_children node) row -> 0 <= children_before i row.
Proof.
  intros Hr. unfold children_before. apply (Forall_take _ i) in Hr. induction Hr; cbn; lia.
Qed.

(** The nodes of a slice are where the table holds them. *)
Lemma slice_node k i row node j c : slice k i row node !! j = Some c ->
  exists offset,
    node_of (S k) (Z.to_nat (children_before i row) + j) =
      compiled (with_offsets rows) (position (S k) (Z.to_nat (children_before i row) + j) rows) (c, offset) /\
    m_table r !! position (S k) (Z.to_nat (children_before i row) + j) rows =
      Some (node_of (S k) (Z.to_nat (children_before i row) + j)) /\
    (position (S k) (Z.to_nat (children_before i row) + j) rows < length (concat rows))%nat.
Proof.
  unfold slice. intros [Hj _]%lookup_take_Some. rewrite lookup_drop in Hj. unfold below in Hj.
  destruct (rows !! S k) as [next|] eqn:Hnext; [|done]. cbn in Hj.
  destruct (node_of_compiled _ _ _ _ Hnext Hj) as (offset & Ho & Hwo & _). exists offset. split_and!; [done| |].
  - rewrite Ho. by apply (holds_table _ _ Hholds).
  - by eapply position_bound.
Qed.

(** The first of them is where the offset of the parent points. *)
Lemma slice_start k i row node : rows !! k = Some row -> row !! i = Some node ->
  0 < b_children node -> 0 <= children_before i row ->
  (position (S k) (Z.to_nat (children_before i row)) rows < RouterSize)%nat ->
  Z.of_nat (position (S k) (Z.to_nat (children_before i row)) rows) =
  u8 (Z.of_nat (position k i rows) + m_children_offset (node_of k i)).
Proof.
  intros Hk Hi Hc Hb Hs. destruct (node_of_compiled k i row node Hk Hi) as (offset & -> & _ & Hoff).
  cbn [compiled m_children_offset snd]. rewrite Hoff by done. pose proof (lookup_lt_Some _ _ _ Hi) as Hil.
  pose proof (position_bound _ _ _ _ Hk Hi) as Hpos. unfold RouterSize in Hs, Hsize.
  rewrite (position_succ _ _ _ Hk) in *. rewrite (wrap_small 16) by (change (2 ^ 16) with 65536; lia). unfold position in *.
  rewrite u8_small; [|unfold is_byte]; lia.
Qed.

(** The walk from a node of the table goes to the chosen node of its slice. *)
Lemma find_child_row k i row node seg :
  rows !! k = Some row -> row !! i = Some node -> Forall (fun node : helper => 0 <= b_children node <= 255) row ->
  length (slice k i row node) = Z.to_nat (b_children node) ->
  unambiguous b_kind b_literal (slice k i row node) = true ->
  match choose b_kind b_literal seg (slice k i row node) with
  | Some c => exists j, slice k i row node !! j = Some c /\
      find_child (node_of k i) seg (m_table r) (Z.of_nat (position k i rows)) =
      Some (node_of (S k) (Z.to_nat (children_before i row) + j), Z.of_nat (position (S k) (Z.to_nat (children_before i row) + j) rows))
  | None => find_child (node_of k i) seg (m_table r) (Z.of_nat (position k i rows)) = None
  end%nat.
Proof.
  intros Hk Hi Hch Hlen Hu. assert (0 <= b_children node <= 255) as Hc by (rewrite Forall_lookup in Hch; by eapply Hch).
  assert (0 <= children_before i row) as Hb. { apply children_before_nonneg. eapply Forall_impl; [exact Hch|]. cbn. lia. }
  assert (m_children_length (node_of k i) = b_children node) as Hcl.
  { destruct (node_of_compiled k i row node Hk Hi) as (offset & -> & _). cbn. apply u8_small. unfold is_byte. lia. }
  destruct (decide (b_children node = 0)) as [Hz|Hnz]; [unfold slice, find_child; by rewrite Hcl, Hz|].
  pose proof (slice_node k i row node) as Hnode. set (before := Z.to_nat (children_before i row)) in *.
  assert (position (S k) before rows + Z.to_nat (b_children node) <= RouterSize)%nat as Htot.
  { destruct (lookup_lt_is_Some_2 (slice k i row node) (Z.to_nat (b_children node) - 1)) as [c Hlast]; [lia|].
    destruct (Hnode _ _ Hlast) as (_ & _ & _ & Hpb). unfold position in *. lia. }
  pose proof (slice_start k i row node Hk Hi) as Hst. fold before in Hst. specialize (Hst ltac:(lia) Hb ltac:(lia)).
  set (cs := (fun j => node_of (S k) (before + j)) <$> seq 0 (Z.to_nat (b_children node))).
  assert (forall j d, cs !! j = Some d -> d = node_of (S k) (before + j)) as Hcs.
  { intros j d Hd. unfold cs in Hd. by apply list_lookup_fmap_Some in Hd as (? & -> & [-> _]%lookup_seq). }
  assert (length cs = Z.to_nat (b_children node)) as Hlcs by (unfold cs; by rewrite length_fmap, length_seq).
  assert (Forall2 (same_edge b_kind b_literal m_kind m_path) (slice k i row node) cs) as Hsame.
  { apply Forall2_same_length_lookup_2; [congruence|]. intros j c d Hj ->%Hcs. by destruct (Hnode j c Hj) as (o & -> & _). }
  assert (forall j d, cs !! j = Some d -> m_table r !! (Z.to_nat (Z.of_nat (position (S k) before rows)) + j)%nat = Some d) as Htab.
  { intros j d Hd. destruct (Forall2_lookup_r _ _ _ _ _ Hsame Hd) as (c & Hj & _). apply Hcs in Hd as ->.
    destruct (Hnode j c Hj) as (o & _ & Ht & _). rewrite <- Ht. f_equal. unfold position. lia. }
  rewrite (unambiguous_same _ _ _ _ _ _ Hsame) in Hu. unfold RouterSize in Htot.
  pose proof (find_child_chosen (m_table r) (Z.of_nat (position (S k) before rows)) cs ltac:(lia) Htab (node_of k i) seg (Z.of_nat (position k i rows)) ltac:(lia) Hst Hu) as Hfc.
  pose proof (choose_same _ _ _ _ seg _ _ Hsame) as Hcc.
  destruct (choose b_kind b_literal seg (slice k i row node)) as [c|], (choose m_kind m_path seg cs) as [d|]; try done.
  destruct Hcc as (j & Hj & Hd), Hfc as (j' & Hd' & Hfc).
  assert (j' = j) as -> by (eapply unambiguous_spec; [exact Hu|done|done|apply compete_refl]).
  exists j. split; [done|]. rewrite Hfc. apply Hcs in Hd as ->. do 2 f_equal. unfold position. lia.
Qed.

End Rows.

(** ** The shared pools *)

Section Pools.
Context {H M W : Type} (run_middleware : M -> W -> W * bool).

(** Middlewares one after the other, until one does not call [next]. *)
Fixpoint chain (l : list M) : step W unit :=
  match l with
  | [] => mret tt
  | m :: l => next ← (fun s => let '(s, b) := run_middleware m s in (s, Return b)); if next : bool then chain l else mret tt
  end.

Lemma run_step_chain (before l after : list M) s : (length (before ++ l ++ after) <= MiddlewareSize)%nat ->
  run_step run_middleware (length l) (before ++ l ++ after) (Z.of_nat (length before)) s = chain l s.
Proof.
  revert before s. induction l as [|m l IH]; intros before s Hl; [done|]. cbn [run_step length].
  rewrite !length_app in Hl. cbn in Hl. unfold MiddlewareSize in *. rewrite Nat2Z.id.
  destruct (Nat.leb_spec 10 (length before)); [lia|]. cbn [app]. rewrite list_lookup_middle by done. cbn [chain].
  unfold mbind, step_bind. destruct (run_middleware m s) as [s1 [|]]; [|done].
  rewrite u8_small by (unfold is_byte; lia). specialize (IH (before ++ [m]) s1).
  rewrite <- (assoc_L (++)) in IH. cbn [app] in IH.
  replace (Z.of_nat (length before) + 1) with (Z.of_nat (length (before ++ [m]))) by (rewrite length_app; cbn; lia).
  apply IH. rewrite !length_app. cbn. rewrite length_app. lia.
Qed.

Lemma execute_chain (before l after : list M) s : (length (before ++ l ++ after) <= MiddlewareSize)%nat ->
  execute run_middleware (before ++ l ++ after) (Z.of_nat (length before)) (Z.of_nat (length l)) s = chain l s.
Proof.
  intros Hl. unfold execute. pose proof Hl as Hb. rewrite !length_app in Hb. unfold MiddlewareSize in Hb.
  rewrite !u8_small; unfold is_byte; rewrite ?u8_small; unfold is_byte; try lia.
  replace (Z.to_nat _) with (length l) by lia. by apply run_step_chain.
Qed.

Lemma pool_find_handler (t : @Handler H) (before after : list H) m :
  handler_ok t -> (length (before ++ m_handler t ++ after) <= HandlerSize)%nat ->
  pool_find (before ++ m_handler t ++ after) (Z.of_nat (length before)) (m_handler_mask t) m = find_handler m t.
Proof.
  intros (_ & _ & Hlane) Hl. rewrite !length_app in Hl. unfold HandlerSize in Hl. unfold pool_find, find_handler.
  destruct (Z.lt_ge_cases (lane m) 8) as [Hm|Hm].
  2:{ unfold lane_value. destruct (Z.leb_spec 64 (lane m * 8)); [done|lia]. }
  destruct (Hlane m Hm) as (v & -> & Hv). cbn [mbind result_bind]. destruct (Z.eqb_spec v 255) as [|Hne]; [done|].
  destruct Hv as [|Hv]; [done|]. unfold HandlerSize.
  destruct (Nat.leb_spec 64 (Z.to_nat (Z.of_nat (length before) + v))); [lia|].
  replace (Z.to_nat (Z.of_nat (length before) + v)) with (length before + Z.to_nat v)%nat by lia.
  rewrite lookup_app_r by lia. replace (length before + Z.to_nat v - length before)%nat with (Z.to_nat v) by lia.
  by rewrite lookup_app_l by lia.
Qed.

End Pools.

Section Compiled.
Context {H M W : Type} (run_middleware : M -> W -> W * bool) (r : @RouteHandler H M).

(** The slices of the pools that a compiled node refers to. *)
Lemma compiled_slices l j node offset : holds l r -> fits l -> l !! j = Some (node, offset) ->
  (exists before after, m_middleware r = before ++ b_middlewares node ++ after /\
    m_middleware_offset (compiled l j (node, offset)) = Z.of_nat (length before)) /\
  (exists before after, m_handlers r = before ++ m_handler (b_handlers node) ++ after /\
    m_handler_offset (compiled l j (node, offset)) = Z.of_nat (length before)).
Proof.
  intros Hh Hf Hj. rewrite (holds_middleware _ _ Hh), (holds_handlers _ _ Hh).
  unfold compiled, handlers_of, middlewares_of. cbn [fst m_middleware_offset m_handler_offset].
  pose proof (take_drop_middle l j _ Hj) as Hl. remember (take j l) as l1 eqn:Heq. clear Heq. rewrite <- Hl, !bind_app.
  cbn [mbind list_bind fst].
  split; eexists _, _; done.
Qed.

Lemma execute_compiled l j node offset s : holds l r -> fits l -> l !! j = Some (node, offset) ->
  when (0 <? m_middleware_length (compiled l j (node, offset)))
    (execute run_middleware (m_middleware r) (m_middleware_offset (compiled l j (node, offset)))
      (m_middleware_length (compiled l j (node, offset)))) s = chain run_middleware (b_middlewares node) s.
Proof.
  intros Hh Hf Hj. destruct (compiled_slices l j node offset Hh Hf Hj) as [(before & after & Hm & Hmo) _].
  rewrite Hmo, Hm. cbn [compiled m_middleware_length fst]. unfold when. destruct (Z.ltb_spec 0 (Z.of_nat (length (b_middlewares node)))).
  - apply execute_chain. rewrite <- Hm, (holds_middleware _ _ Hh). apply Hf.
  - assert (b_middlewares node = []) as -> by (apply nil_length_inv; lia). done.
Qed.

Lemma pool_find_compiled l j node offset m : holds l r -> fits l -> l !! j = Some (node, offset) -> handler_ok (b_handlers node) ->
  pool_find (m_handlers r) (m_handler_offset (compiled l j (node, offset))) (m_node_mask (compiled l j (node, offset))) m =
  find_handler m (b_handlers node).
Proof.
  intros Hh Hf Hj Hok. destruct (compiled_slices l j node offset Hh Hf Hj) as [_ (before & after & Hm & Hmo)].
  rewrite Hmo, Hm. cbn [compiled m_node_mask fst]. apply pool_find_handler; [done|].
  rewrite <- Hm, (holds_handlers _ _ Hh). apply Hf.
Qed.

End Compiled.
