(* ===== verification/RouterBuild.v ===== *)
(** * Registered routes and the table they compile to

    A route is found in its context by numbers: [m_base_router] names the router above it.  The routes
    that a program registers form a tree ([forest]), and the theorem of this file, [build_answers], is
    that the table [build] compiles from the routes in the order of registration answers a request as
    a walk over the tree does ([dispatch]): whatever [std::ranges::sort] does with routes of equal keys,
    however the hashes fall, and with the levels of the tree laid out one after the other.  Siblings
    must not compete for a segment: EngineRoutes.v shows what happens otherwise, and [crossed_routers]
    what happens when two routers are registered before their children are. *)

From Stdlib Require Import ZArith Lia.
From stdpp Require Import base sorting strings tactics list sets.
From S2P Require Import Prelude Text HttpTypes Frame Steps Router RouterTable.

Open Scope Z_scope.

Section Routes.
Context {H M : Type}.
#[local] Notation Route := (@Router.Route H M).
#[local] Notation helper := (@RouterBuildingHelper H M).
Implicit Types (r p : Route) (l : list Route).

(** ** What a route compiles to *)

Definition edge (path : text) : EdgeKind * text :=
  match determine_node_kind path with Ok e => e | Err _ => (PATH, path) end.

Definition route_kind r : EdgeKind := (edge (r_path r)).1.
Definition route_literal r : text := (edge (r_path r)).2.

(** The number that [insert_route] stores for a route. *)
Definition number_of r : Z := if m_child_routes r =? 0 then 0 else m_router_number r.

Definition to_helper r : helper :=
  mkHelper (route_kind r) (route_literal r) (r_handler r) (m_local_middleware r) (m_child_routes r) (number_of r).

(** A route that [insert_route] accepts. *)
Record good r : Prop := {
  good_path : r_path r <> [];
  good_fresh : m_is_build r = false;
  good_children : 0 <= m_child_routes r <= 255;
  good_router : m_child_routes r <> 0 -> route_kind r = PATH;
}.

Lemma helper_of_good r : good r -> helper_of r = Ok (to_helper r).
Proof.
  intros [Hp _ _ Hr]. unfold helper_of, to_helper, number_of, route_kind, route_literal, edge in *.
  destruct (determine_node_kind (r_path r)) as [[kind literal]|e] eqn:Hk; cbn in *.
  - destruct (Z.eqb_spec (m_child_routes r) 0); [done|]. by rewrite (Hr n).
  - destruct (r_path r); [done|]. cbn in Hk. by repeat case_match.
Qed.

(** ** Levels

    [depth n] is the row of the routes whose base router is [n]. *)

Section Levels.
Variable depth : Z -> nat.

Definition row_of r : nat := depth (m_base_router r).
Definition level l (k : nat) : list Route := filter (fun r => row_of r = k) l.
Definition levels (n : nat) l : list (list helper) := (fun k => to_helper <$> level l k) <$> seq 0 n.

Lemma level_app l l' k : level (l ++ l') k = level l k ++ level l' k.
Proof. apply filter_app. Qed.

Lemma level_singleton r k : level [r] k = if decide (row_of r = k) then [r] else [].
Proof. unfold level. rewrite filter_cons, filter_nil. done. Qed.

Lemma level_empty n l k : Forall (fun r => (row_of r < n)%nat) l -> (n <= k)%nat -> level l k = [].
Proof.
  intros Hl Hk. induction Hl as [|r l Hr Hl IH]; [done|]. unfold level. rewrite filter_cons_False; [done|lia].
Qed.

Lemma lookup_levels n l k : (k < n)%nat -> levels n l !! k = Some (to_helper <$> level l k).
Proof. intros Hk. unfold levels. by rewrite list_lookup_fmap, lookup_seq_lt. Qed.

Lemma length_levels n l : length (levels n l) = n.
Proof. unfold levels. by rewrite length_fmap, length_seq. Qed.

Lemma lookup_levels_Some n l k row : levels n l !! k = Some row -> (k < n)%nat /\ row = to_helper <$> level l k.
Proof.
  intros Hk. pose proof (lookup_lt_Some _ _ _ Hk) as Hlt. rewrite length_levels in Hlt.
  rewrite lookup_levels in Hk by done. by injection Hk as <-.
Qed.

Lemma push_node_levels n l r : Forall (fun r => (row_of r < n)%nat) l -> (row_of r <= n)%nat ->
  push_node (row_of r) (to_helper r) (levels n l) = levels (max n (S (row_of r))) (l ++ [r]).
Proof.
  intros Hl Hr. unfold push_node. rewrite length_levels.
  set (table := if (n <=? row_of r)%nat then _ else _).
  assert (table = levels (max n (S (row_of r))) l) as ->.
  { unfold table. destruct (Nat.leb_spec n (row_of r)).
    - assert (row_of r = n) as -> by lia. replace (S n - n)%nat with 1%nat by lia. replace (max n (S n)) with (S n) by lia.
      unfold levels. rewrite seq_S, fmap_app. cbn. by rewrite (level_empty n) by done.
    - by replace (max n (S (row_of r))) with n by lia. }
  apply list_eq. intros k. destruct (decide (k < max n (S (row_of r)))%nat) as [Hk|Hk].
  - rewrite lookup_levels by done. destruct (decide (k = row_of r)) as [->|Hne].
    + rewrite list_lookup_alter_eq, lookup_levels by done. cbn. rewrite level_app, fmap_app, level_singleton.
      by destruct (decide (row_of r = row_of r)).
    + rewrite list_lookup_alter_ne, lookup_levels by done. rewrite level_app, level_singleton.
      destruct (decide (row_of r = k)); [congruence|]. by rewrite app_nil_r.
  - rewrite !lookup_ge_None_2; [done|rewrite length_levels|rewrite length_alter, length_levels]; lia.
Qed.

(** ** Insertion *)

(** The parent of [r] is among the routes [seen]. *)
Definition parented (seen : list Route) r : Prop :=
  m_base_router r = SENTINEL \/
  exists p, p ∈ seen /\ number_of p = m_base_router r /\ row_of r = S (row_of p).

Fixpoint placed (seen : list Route) l : Prop :=
  match l with [] => True | r :: l => parented seen r /\ placed (seen ++ [r]) l end.

(** What the depths have to do with the numbers. *)
Record leveled l : Prop := {
  leveled_sentinel : depth SENTINEL = 0%nat;
  leveled_root : depth 0 = 1%nat;
  leveled_router r : r ∈ l -> m_child_routes r <> 0 -> depth (m_router_number r) = S (row_of r);
}.

Lemma leveled_number l r p : leveled l -> p ∈ l -> number_of p = m_base_router r -> (row_of r <= S (row_of p))%nat.
Proof.
  intros [_ H0 Hr] Hp Hn. unfold number_of in Hn. unfold row_of at 1. rewrite <- Hn.
  destruct (Z.eqb_spec (m_child_routes p) 0); [lia|]. by rewrite Hr.
Qed.

Lemma resolve_target_row_levels n l r :
  leveled l -> Forall (fun r => (row_of r < n)%nat) l -> parented l r -> resolve_target_row (levels n l) r = Ok (row_of r).
Proof.
  intros Hlv Hl Hpar. unfold resolve_target_row. destruct (Z.eqb_spec (m_base_router r) SENTINEL) as [He|Hne].
  { unfold row_of. by rewrite He, (leveled_sentinel _ Hlv). }
  destruct Hpar as [|(p & Hp & Hn & Hrow)]; [done|]. pose proof Hl as Hpl. rewrite Forall_forall in Hpl.
  assert (row_of p < n)%nat as Hpn by by apply Hpl.
  rewrite (proj2 (list_find_Some _ _ (row_of p) (to_helper <$> level l (row_of p)))); [by rewrite Hrow|].
  split_and!.
  - by apply lookup_levels.
  - apply existsb_exists. exists (to_helper p). split; [|by apply Z.eqb_eq].
    apply list_elem_of_In, list_elem_of_fmap. exists p. split; [done|]. by apply list_elem_of_filter.
  - intros k row (Hk & ->)%lookup_levels_Some Hlt Hex. apply existsb_exists in Hex as (node & Hin & Hnode%Z.eqb_eq).
    apply list_elem_of_In, list_elem_of_fmap in Hin as (q & -> & Hq). apply list_elem_of_filter in Hq as [Hqk Hq].
    pose proof (leveled_number l r q Hlv Hq Hnode). lia.
Qed.

Lemma leveled_sub l l' : leveled l -> l' ⊆ l -> leveled l'.
Proof. intros [Hs H0 Hr] Hsub. split; [done..|]. intros r Hin. apply Hr. by apply Hsub. Qed.

Lemma insert_routes_levels l seen n :
  leveled (seen ++ l) -> Forall good l -> Forall (fun r => (row_of r < n)%nat) seen -> placed seen l ->
  exists n', insert_routes l (levels n seen) = Ok (levels n' (seen ++ l)) /\
    Forall (fun r => (row_of r < n')%nat) (seen ++ l).
Proof.
  revert seen n. induction l as [|r l IH]; intros seen n Hlv Hg Hn Hp.
  { exists n. by rewrite app_nil_r. }
  apply Forall_cons in Hg as [Hgr Hg]. destruct Hp as [Hpar Hp]. cbn [insert_routes].
  assert (leveled seen) as Hlvs. { eapply leveled_sub; [done|]. intros x Hx. apply elem_of_app. by left. }
  assert (row_of r <= n)%nat as Hrn.
  { destruct Hpar as [Hs|(p & Hpin & _ & ->)]; [unfold row_of; rewrite Hs, (leveled_sentinel _ Hlv); lia|].
    rewrite Forall_forall in Hn. specialize (Hn p Hpin). lia. }
  unfold insert_route. rewrite (good_fresh _ Hgr), helper_of_good by done. cbn [mbind result_bind].
  rewrite resolve_target_row_levels by done. cbn [mbind result_bind]. rewrite push_node_levels by done.
  assert (seen ++ r :: l = (seen ++ [r]) ++ l) as Heq by by rewrite <- (assoc_L (++)).
  rewrite Heq in Hlv |- *. apply IH; try done.
  apply Forall_app. split; [|repeat constructor; lia]. eapply Forall_impl; [exact Hn|]. cbn. lia.
Qed.

End Levels.

(** ** Sorting *)

Definition routers l : list Route := filter (fun r => m_child_routes r <> 0) l.
Definition expand r : list Z := replicate (Z.to_nat (m_child_routes r)) (m_router_number r).

(** A run of routes with one base router, of which at most one is a router. *)
Record run l : Prop := {
  run_base : exists b, Forall (fun r => m_base_router r = b) l;
  run_routers : (length (routers l) <= 1)%nat;
}.

Lemma groups_concat l : concat (groups l) = l.
Proof.
  induction l as [|r l IH]; [done|]. cbn. destruct (groups l) as [|[|r' group] rest]; cbn in *; [by rewrite <- IH..|].
  case_match; cbn; by rewrite <- IH.
Qed.

(** After a router comes a route of another group. *)
Fixpoint routers_last l : Prop :=
  match l with
  | [] => True
  | r :: l => (m_child_routes r <> 0 -> match l with r' :: _ => m_base_router r' <> m_base_router r | [] => True end) /\ routers_last l
  end.

Lemma run_singleton r : run [r].
Proof.
  split; [by exists (m_base_router r); constructor|]. unfold routers. rewrite filter_cons, filter_nil. case_decide; cbn; lia.
Qed.

Lemma groups_runs l : routers_last l -> Forall run (groups l).
Proof.
  induction l as [|r l IH]; [constructor|]. intros [Hr Hl]. specialize (IH Hl). cbn. pose proof (groups_concat l) as Hc.
  destruct (groups l) as [|[|r' group] rest]; [constructor; [apply run_singleton|constructor]|by constructor; [apply run_singleton|]|].
  cbn in Hc. apply Forall_cons in IH as [Hrun IH].
  destruct (Z.eqb_spec (m_base_router r) (m_base_router r')) as [He|]; [|constructor; [apply run_singleton|by constructor]].
  constructor; [|done]. destruct Hrun as [[b Hb] Hn]. apply Forall_cons in Hb as [Hb' Hb]. split.
  - exists b. constructor; [congruence|by constructor].
  - unfold routers in *. rewrite filter_cons_False; [done|]. intros Hne. specialize (Hr Hne). rewrite <- Hc in Hr. congruence.
Qed.

Lemma expand_perm l l' : l ≡ₚ l' -> (length (routers l) <= 1)%nat -> l ≫= expand = l' ≫= expand.
Proof.
  assert (forall r, m_child_routes r = 0 -> expand r = []) as H0. { intros r Hr. unfold expand. by rewrite Hr. }
  induction 1 as [|r l l' Hp IH|r r' l|l l1 l2 Hp1 IH1 Hp2 IH2]; intros Hn; [done|..].
  - cbn. f_equal. apply IH. unfold routers in *. rewrite filter_cons in Hn. case_decide; cbn in Hn; lia.
  - cbn. unfold routers in Hn. rewrite !filter_cons in Hn. repeat case_decide; cbn in Hn; [lia|..].
    + rewrite (H0 r) by lia. done.
    + rewrite (H0 r') by lia. done.
    + rewrite (H0 r), (H0 r') by lia. done.
  - rewrite IH1 by done. apply IH2. unfold routers in *. by rewrite <- Hp1.
Qed.

Section Sorting.
Variable depth : Z -> nat.

(** The base routers of a row are those that the row above promises. *)
Definition in_step l : Prop := forall k, m_base_router <$> level depth l (S k) = level depth l k ≫= expand.

Lemma level_run l k b : Forall (fun r => m_base_router r = b) l -> level depth l k = if decide (depth b = k) then l else [].
Proof.
  intros Hb. induction Hb as [|r l Hr Hb IH]; [by case_decide|]. unfold level in *. rewrite filter_cons, IH.
  unfold row_of at 1. destruct (decide (depth b = k)) as [Hk|Hk]; case_decide; congruence.
Qed.

(** The groups of the sorted routes are those of the routes, each permuted. *)
Definition regrouped : list (list Route) -> list (list Route) -> Prop := Forall2 (fun g g' => run g /\ g ≡ₚ g').

Lemma regrouped_perm gs gs' : regrouped gs gs' -> concat gs ≡ₚ concat gs'.
Proof. intros Hg. induction Hg as [|g g' gs gs' [_ Hp] Hg IH]; [done|]. cbn. by rewrite Hp, IH. Qed.

Lemma regrouped_level gs gs' k : regrouped gs gs' ->
  m_base_router <$> level depth (concat gs) k = m_base_router <$> level depth (concat gs') k /\
  level depth (concat gs) k ≫= expand = level depth (concat gs') k ≫= expand.
Proof.
  intros Hg. induction Hg as [|g g' gs gs' [[[b Hb] Hn] Hp] Hg [IH1 IH2]]; [done|]. cbn [concat].
  assert (Forall (fun r => m_base_router r = b) g') as Hb' by by rewrite <- Hp.
  rewrite !level_app, !fmap_app, !bind_app, IH1, IH2, (level_run g k b), (level_run g' k b) by done.
  split; f_equal; case_decide; try done; [|by apply expand_perm].
  assert (forall l, Forall (fun r => m_base_router r = b) l -> m_base_router <$> l = replicate (length l) b) as Hrep.
  { intros l Hl. induction Hl as [|r l Hr Hl IH]; [done|]. cbn. by rewrite Hr, IH. }
  rewrite (Hrep g), (Hrep g') by done. by rewrite (Permutation_length Hp).
Qed.

Lemma in_step_regrouped gs gs' : regrouped gs gs' -> in_step (concat gs) -> in_step (concat gs').
Proof.
  intros Hg Hs k. destruct (regrouped_level gs gs' (S k) Hg) as [H1 _]. destruct (regrouped_level gs gs' k Hg) as [_ H2].
  by rewrite <- H1, <- H2.
Qed.

Lemma placed_app seen l l' : placed depth seen (l ++ l') -> placed depth seen l /\ placed depth (seen ++ l) l'.
Proof.
  revert seen. induction l as [|r l IH]; intros seen; cbn; [by rewrite app_nil_r|]. intros [Hr Hp].
  destruct (IH _ Hp) as [H1 H2]. rewrite <- (assoc_L (++)) in H2. done.
Qed.

Lemma app_placed seen l l' : placed depth seen l -> placed depth (seen ++ l) l' -> placed depth seen (l ++ l').
Proof.
  revert seen. induction l as [|r l IH]; intros seen; cbn; [by rewrite app_nil_r|]. intros [Hr Hp] Hp'.
  split; [done|]. apply IH; [done|]. by rewrite <- (assoc_L (++)).
Qed.

Lemma parented_mono seen seen' r : seen ⊆ seen' -> parented depth seen r -> parented depth seen' r.
Proof. intros Hs [?|(p & Hp & ?)]; [by left|]. right. exists p. split; [by apply Hs|done]. Qed.

(** The routes of a run have their parents before the run. *)
Lemma placed_run seen g b : Forall (fun r => m_base_router r = b) g -> placed depth seen g -> Forall (parented depth seen) g.
Proof.
  intros Hb. revert seen. induction Hb as [|r g Hr Hb IH]; intros seen; [done|]. intros [Hpar Hp]. constructor; [done|].
  specialize (IH _ Hp). apply Forall_forall. intros x Hx. rewrite Forall_forall in IH, Hb.
  destruct (IH x Hx) as [Hs|(p & Hin & Hnum & Hrow)]; [by left|]. apply elem_of_app in Hin as [Hin|Hin%list_elem_of_singleton].
  - right. by exists p.
  - subst p. unfold row_of in Hrow. rewrite Hr, (Hb x Hx) in Hrow. lia.
Qed.

Lemma parented_placed seen g : Forall (parented depth seen) g -> placed depth seen g.
Proof.
  intros Hg. assert (forall l, placed depth (seen ++ l) g) as Hl; [|specialize (Hl []); by rewrite app_nil_r in Hl].
  induction Hg as [|r g Hr Hg IH]; intros l; [done|]. cbn. split.
  - eapply parented_mono; [|done]. intros x Hx. apply elem_of_app. by left.
  - rewrite <- (assoc_L (++)). apply IH.
Qed.

Lemma placed_regrouped gs gs' seen seen' : regrouped gs gs' -> seen ≡ₚ seen' ->
  placed depth seen (concat gs) -> placed depth seen' (concat gs').
Proof.
  intros Hg. revert seen seen'. induction Hg as [|g g' gs gs' [[[b Hb] _] Hp] Hg IH]; intros seen seen' Hs Hpl; [done|].
  cbn in *. apply placed_app in Hpl as [H1 H2]. apply app_placed.
  - apply parented_placed. rewrite <- Hp. apply (placed_run _ _ b) in H1; [|done]. eapply Forall_impl; [done|].
    intros r. apply parented_mono. intros x. by rewrite Hs.
  - eapply IH; [|done]. by rewrite Hs, Hp.
Qed.

End Sorting.

(** What [std::ranges::sort] does with the groups. *)
Section Groups.
Variable sort : (Route -> Route -> bool) -> list Route -> list Route.
Hypothesis sort_permutes : forall less l, sort less l ≡ₚ l.

Definition sorted_groups l : list (list Route) := (fun g => sort (route_less (Z.of_nat (length g))) g) <$> groups l.

Lemma sorted_routes_groups l : sorted_routes sort l = concat (sorted_groups l).
Proof. unfold sorted_routes, sorted_groups. induction (groups l); [done|]. cbn. by f_equal. Qed.

Lemma regrouped_sorted l : Forall run (groups l) -> regrouped (groups l) (sorted_groups l).
Proof.
  intros Hr. unfold sorted_groups. induction Hr as [|g gs Hg Hr IH]; [constructor|]. cbn. constructor; [|done].
  split; [done|]. by rewrite sort_permutes.
Qed.

End Groups.

(** ** The children of a route in the table *)

(** The routes that name [r] as their base router. *)
Definition children l r : list Route :=
  if m_child_routes r =? 0 then [] else filter (fun c => m_base_router c = m_router_number r) l.

Lemma filter_slice l (before after : list Z) x n :
  m_base_router <$> l = before ++ replicate n x ++ after -> x ∉ before -> x ∉ after ->
  filter (fun r => m_base_router r = x) l = take n (drop (length before) l).
Proof.
  intros Hl Hb Ha. apply fmap_app_inv in Hl as (l1 & l' & Hl1 & Hl' & ->).
  symmetry in Hl'. apply fmap_app_inv in Hl' as (l2 & l3 & Hl2 & Hl3 & ->).
  assert (forall l', x ∉ m_base_router <$> l' -> filter (fun r => m_base_router r = x) l' = []) as Hnone.
  { intros l' Hx. induction l' as [|r l' IH]; [done|]. cbn in Hx. apply not_elem_of_cons in Hx as [Hne Hx].
    rewrite filter_cons_False by done. by apply IH. }
  rewrite !filter_app, (Hnone l1), (Hnone l3) by congruence. rewrite app_nil_r. cbn.
  rewrite Hl1, length_fmap, drop_app_length.
  assert (length l2 = n) as <-. { rewrite <- (length_replicate n x), Hl2. by rewrite length_fmap. }
  rewrite take_app_length. clear -Hl2. induction l2 as [|r l2 IH]; [done|]. cbn in Hl2. injection Hl2 as Hr Hl2.
  rewrite filter_cons_True by done. f_equal. by apply IH.
Qed.

(** What the proofs need of the routes of a table. *)
Record registered (depth : Z -> nat) l : Prop := {
  reg_leveled : leveled depth l;
  reg_good : Forall good l;
  reg_numbers : NoDup (m_router_number <$> routers l);
  reg_placed : placed depth [] l;
  reg_in_step : in_step depth l;
  reg_handlers : Forall (fun r => handler_ok (r_handler r)) l;
  reg_size : (length l <= RouterSize)%nat;
  reg_pool : (length (l ≫= (fun r => m_handler (r_handler r))) <= HandlerSize)%nat;
  reg_middlewares : (length (l ≫= m_local_middleware) <= MiddlewareSize)%nat;
  reg_unambiguous : Forall (fun r => unambiguous route_kind route_literal (children l r) = true) l;
}.

(** ** The reference *)

Section Reference.
Context {W : Type} (run_middleware : M -> W -> W * bool) (run_handler : H -> step W unit) (publish : Published -> W -> W).

(** The walk over a tree of routes: at each segment the middlewares of the chosen child. *)
Fixpoint answer (children : Route -> list Route) (segments : list text) r : step W (option Route) :=
  match segments with
  | [] => mret (Some r)
  | segment :: segments =>
      match choose route_kind route_literal segment (children r) with
      | None => mret None
      | Some c => _ ← chain run_middleware (m_local_middleware c); answer children segments c
      end
  end.

(** What happens with the route that the walk ends at. *)
Definition respond (method : Method) (found : option Route) : step W unit :=
  match found with
  | None => not_found publish
  | Some r =>
      if bool_decide (m_handler (r_handler r) = []) then not_found publish
      else
        h ← lift (of_result (find_handler method (r_handler r)));
        match h with
        | Some h => invoke run_handler publish h
        | None => _ ← modify (publish MethodNotAllowed); raise (Other RuntimeError)
        end
  end.

Lemma chain_returns (l : list M) w : exists w', chain run_middleware l w = (w', Return tt).
Proof.
  revert w. induction l as [|m l IH]; intros w; [by exists w|]. cbn. unfold mbind, step_bind.
  destruct (run_middleware m w) as [w' [|]]; [apply IH|by exists w'].
Qed.

End Reference.

Section Table.
Context (depth : Z -> nat) (s : list Route) (n : nat).
Hypothesis Hreg : registered depth s.
Hypothesis Hrows : Forall (fun r => (row_of depth r < n)%nat) s.

#[local] Notation row k := (level depth s k).

Lemma elem_of_row k i r : row k !! i = Some r -> r ∈ s /\ row_of depth r = k.
Proof. intros Hi%list_elem_of_lookup_2. by apply list_elem_of_filter in Hi as [? ?]. Qed.

Lemma below_levels k : below (levels depth n s) k = to_helper <$> row (S k).
Proof.
  unfold below. destruct (decide (S k < n)%nat); [by rewrite lookup_levels|].
  rewrite lookup_ge_None_2 by (rewrite length_levels; lia). by rewrite (level_empty depth n) by (done || lia).
Qed.

Lemma children_before_row k i :
  children_before i (to_helper <$> row k) = Z.of_nat (length (take i (row k) ≫= expand)).
Proof.
  unfold children_before. rewrite <- fmap_take. assert (Forall good (take i (row k))) as Hg.
  { apply Forall_take. unfold level. apply Forall_forall. intros r [_ Hr]%list_elem_of_filter.
    pose proof (reg_good _ _ Hreg) as Hgood. rewrite Forall_forall in Hgood. by apply Hgood. }
  induction Hg as [|r l Hr Hg IH]; [done|]. cbn. rewrite IH, length_app. unfold expand. rewrite length_replicate.
  pose proof (good_children _ Hr). lia.
Qed.

(** Another route of a row does not have the number of a router of the row. *)
Lemma row_numbers k i r : row k !! i = Some r -> m_child_routes r <> 0 ->
  m_router_number r ∉ take i (row k) ≫= expand /\ m_router_number r ∉ drop (S i) (row k) ≫= expand.
Proof.
  intros Hi Hne. pose proof (take_drop_middle _ _ _ Hi) as Hrow.
  assert (NoDup (m_router_number <$> routers (row k))) as Hnd.
  { eapply sublist_NoDup; [exact (reg_numbers _ _ Hreg)|]. assert (routers (row k) = filter (fun q => row_of depth q = k) (routers s)) as ->.
    { unfold routers, level. rewrite !list_filter_filter. apply list_filter_iff. intros q. tauto. }
    apply fmap_sublist, sublist_filter. }
  rewrite <- Hrow in Hnd. unfold routers in Hnd. rewrite filter_app, filter_cons_True, fmap_app, fmap_cons in Hnd by done.
  apply NoDup_app in Hnd as (_ & Hd & [Hr _]%NoDup_cons).
  assert (forall l, m_router_number r ∈ l ≫= expand -> m_router_number r ∈ m_router_number <$> filter (fun r => m_child_routes r <> 0) l) as Hin.
  { intros l (q & Hq & Hl)%list_elem_of_bind. unfold expand in Hq. apply elem_of_replicate in Hq as [Hq Hlen].
    apply list_elem_of_fmap. exists q. split; [done|]. apply list_elem_of_filter. split; [lia|done]. }
  split; intros Hin'%Hin.
  - apply Hd in Hin'. apply Hin'. left.
  - done.
Qed.

Lemma children_slice k i r : row k !! i = Some r ->
  children s r = take (Z.to_nat (m_child_routes r)) (drop (Z.to_nat (children_before i (to_helper <$> row k))) (row (S k))) /\
  length (children s r) = Z.to_nat (m_child_routes r).
Proof.
  intros Hi. destruct (elem_of_row k i r Hi) as [Hin Hk]. rewrite children_before_row, Nat2Z.id.
  unfold children. destruct (Z.eqb_spec (m_child_routes r) 0) as [->|Hne]; [done|].
  pose proof (leveled_router _ _ (reg_leveled _ _ Hreg) r Hin Hne) as Hdepth.
  assert (filter (fun c => m_base_router c = m_router_number r) s = filter (fun c => m_base_router c = m_router_number r) (row (S k))) as ->.
  { unfold level. rewrite list_filter_filter. apply list_filter_iff. intros c. unfold row_of. split; [|by intros [? _]].
    intros Hc. split; [done|]. rewrite Hc. congruence. }
  pose proof (reg_in_step _ _ Hreg k) as Hs. rewrite <- (take_drop_middle _ _ _ Hi) in Hs. rewrite bind_app in Hs. cbn in Hs.
  destruct (row_numbers k i r Hi Hne) as [Hb Ha]. rewrite (filter_slice _ _ _ _ _ Hs Hb Ha).
  split; [done|]. rewrite length_take, length_drop.
  pose proof (f_equal length Hs) as Hlen. rewrite length_fmap, !length_app in Hlen. unfold expand in Hlen at 2.
  rewrite length_replicate in Hlen. lia.
Qed.

Lemma slice_children k i r : row k !! i = Some r ->
  slice (levels depth n s) k i (to_helper <$> row k) (to_helper r) = to_helper <$> children s r.
Proof.
  intros Hi. destruct (children_slice k i r Hi) as [-> _]. unfold slice. rewrite below_levels.
  by rewrite <- fmap_drop, <- fmap_take.
Qed.

(** *** The table holds the routes *)

Lemma levels_perm k : concat (level depth s <$> seq 0 k) ≡ₚ filter (fun r => (row_of depth r < k)%nat) s.
Proof.
  induction k as [|k IH].
  { cbn. clear -s. induction s as [|r s' IH']; [done|]. by rewrite filter_cons_False by lia. }
  rewrite seq_S, fmap_app, concat_app, IH. cbn. rewrite app_nil_r. clear -s. unfold level.
  induction s as [|r s' IH]; [done|]. rewrite !filter_cons. repeat case_decide; try lia; cbn; rewrite <- IH; try done.
  by rewrite Permutation_middle.
Qed.

Lemma rows_perm : concat (levels depth n s) ≡ₚ to_helper <$> s.
Proof.
  assert (filter (fun r => (row_of depth r < n)%nat) s = s) as Hs.
  { clear Hreg. induction Hrows as [|r s' Hr Hs IH]; [done|]. by rewrite filter_cons_True, IH. }
  rewrite <- Hs at 2. rewrite <- levels_perm. unfold levels.
  induction (seq 0 n) as [|k l IH]; [done|]. cbn. by rewrite IH, fmap_app.
Qed.

Lemma with_offsets_fst (rows : list (list helper)) : fst <$> with_offsets rows = concat rows.
Proof.
  unfold with_offsets. induction rows as [|r rows IH]; [done|]. cbn. rewrite fmap_app, IH. f_equal.
  generalize (length r) 0%nat 0. induction r as [|node r IHr]; intros size index cum; [done|]. cbn. by rewrite IHr.
Qed.

Lemma bind_fst {B} (f : helper -> list B) (l : list (helper * Z)) : (l ≫= fun q : helper * Z => f q.1) = (fst <$> l) ≫= f.
Proof. induction l as [|p l IH]; [done|]. cbn. by rewrite IH. Qed.

Lemma bind_to_helper {B} (f : helper -> list B) l : (to_helper <$> l) ≫= f = l ≫= (fun r => f (to_helper r)).
Proof. induction l as [|r l IH]; [done|]. cbn. by rewrite IH. Qed.

Lemma fits_levels : fits (with_offsets (levels depth n s)).
Proof.
  unfold fits, handlers_of, middlewares_of. rewrite with_offsets_length, rows_perm, length_fmap.
  rewrite (bind_fst (fun node => m_handler (b_handlers node))), (bind_fst b_middlewares), with_offsets_fst, rows_perm, !bind_to_helper.
  split_and!; [apply (reg_size _ _ Hreg)|apply (reg_pool _ _ Hreg)|apply (reg_middlewares _ _ Hreg)].
Qed.


(** *** Walking the table *)

Section Walk.
Context {W : Type} (run_middleware : M -> W -> W * bool) (run_handler : H -> step W unit) (publish : Published -> W -> W).
Context (t : @RouteHandler H M).
Hypothesis Hholds : holds (with_offsets (levels depth n s)) t.

#[local] Notation node k i := (node_of (levels depth n s) t k i).
#[local] Notation place k i := (Z.of_nat (position k i (levels depth n s))).

Lemma rows_size : (length (concat (levels depth n s)) <= RouterSize)%nat.
Proof. rewrite rows_perm, length_fmap. apply (reg_size _ _ Hreg). Qed.

Lemma lookup_row k i r : row k !! i = Some r ->
  levels depth n s !! k = Some (to_helper <$> row k) /\ (to_helper <$> row k) !! i = Some (to_helper r).
Proof.
  intros Hi. destruct (elem_of_row k i r Hi) as [Hin <-]. pose proof Hrows as Hall. rewrite Forall_forall in Hall.
  rewrite lookup_levels by by apply Hall. split; [done|]. by rewrite list_lookup_fmap, Hi.
Qed.

Lemma node_compiled k i r : row k !! i = Some r -> exists j offset,
  with_offsets (levels depth n s) !! j = Some (to_helper r, offset) /\
  node k i = compiled (with_offsets (levels depth n s)) j (to_helper r, offset).
Proof.
  intros Hi. destruct (lookup_row k i r Hi) as [Hk Hr].
  destruct (node_of_compiled _ _ Hholds rows_size k i _ _ Hk Hr) as (offset & Hn & Hw & _). by eexists _, offset.
Qed.

Lemma row_good k : Forall (fun node : helper => 0 <= b_children node <= 255) (to_helper <$> row k).
Proof.
  apply Forall_fmap, Forall_forall. intros r [_ Hr]%list_elem_of_filter. cbn.
  pose proof (reg_good _ _ Hreg) as Hg. rewrite Forall_forall in Hg. apply (good_children _ (Hg r Hr)).
Qed.

(** The child found in the table is the one chosen among the routes. *)
Lemma find_child_route k i r segment : row k !! i = Some r ->
  match choose route_kind route_literal segment (children s r) with
  | Some c => exists j, row (S k) !! j = Some c /\ find_child (node k i) segment (m_table t) (place k i) = Some (node (S k) j, place (S k) j)
  | None => find_child (node k i) segment (m_table t) (place k i) = None
  end.
Proof.
  intros Hi. destruct (lookup_row k i r Hi) as [Hk Hr], (children_slice k i r Hi) as [Hcs Hlen].
  pose proof (slice_children k i r Hi) as Hs.
  assert (unambiguous route_kind route_literal (children s r) = true) as Hu.
  { pose proof (reg_unambiguous _ _ Hreg) as Hu. rewrite Forall_forall in Hu. apply (Hu r). by apply (elem_of_row k i). }
  assert (Forall2 (same_edge b_kind b_literal route_kind route_literal) (to_helper <$> children s r) (children s r)) as Hsame.
  { apply Forall2_fmap_l, Forall_Forall2_diag, Forall_true. done. }
  pose proof (find_child_row _ _ Hholds rows_size k i _ _ segment Hk Hr (row_good k)) as Hf. rewrite Hs in Hf.
  rewrite length_fmap in Hf. specialize (Hf Hlen).
  rewrite (unambiguous_same _ _ _ _ _ _ Hsame) in Hf. specialize (Hf Hu).
  pose proof (choose_same _ _ _ _ segment _ _ Hsame) as Hch.
  destruct (choose b_kind b_literal segment (to_helper <$> children s r)) as [h|],
    (choose route_kind route_literal segment (children s r)) as [c|]; try done.
  destruct Hch as (i' & Hh & Hc), Hf as (j & Hj & Hf).
  assert (j = i') as ->.
  { eapply (unambiguous_spec b_kind b_literal); [|done|done|apply compete_refl]. by rewrite (unambiguous_same _ _ _ _ _ _ Hsame). }
  eexists. split; [|exact Hf]. rewrite Hcs in Hc. apply lookup_take_Some in Hc as [Hc _]. by rewrite lookup_drop in Hc.
Qed.

(** The walk over the table goes where the walk over the routes goes. *)
Lemma walk_answer segments k i r w : row k !! i = Some r ->
  match answer run_middleware (children s) segments r w with
  | (w', Return (Some r')) => exists k' i', row k' !! i' = Some r' /\
      walk run_middleware t segments (node k i) (place k i) w = (w', Return (Some (node k' i')))
  | (w', Return None) => walk run_middleware t segments (node k i) (place k i) w = (w', Return None)
  | (_, Throw _) => False
  end.
Proof.
  revert k i r w. induction segments as [|segment segments IH]; intros k i r w Hi; cbn [answer walk]; [by exists k, i|].
  pose proof (find_child_route k i r segment Hi) as Hf.
  destruct (choose route_kind route_literal segment (children s r)) as [c|]; [|by rewrite Hf].
  destruct Hf as (j & Hj & ->). destruct (node_compiled _ _ _ Hj) as (idx & offset & Hidx & Hnode).
  destruct (chain_returns run_middleware (m_local_middleware c) w) as [w1 Hw1]. rewrite (bind_eq _ _ _ _ _ Hw1).
  specialize (IH (S k) j c w1 Hj). rewrite Hnode in IH |- *.
  pose proof (execute_compiled run_middleware t _ _ _ _ w Hholds fits_levels Hidx) as He. cbn [b_middlewares to_helper] in He.
  rewrite Hw1 in He. by rewrite (bind_eq _ _ _ _ _ He).
Qed.

(** The table answers as the routes do. *)
Lemma match_dispatch root method path w : m_global_middleware t = [] -> row 0 !! 0%nat = Some root ->
  match_ run_middleware run_handler publish method path t w =
  (answer run_middleware (children s) (split_path path) root ≫= respond run_handler publish method) w.
Proof.
  intros Hg Hroot. unfold match_. rewrite Hg. cbn [run_globals]. rewrite bind_ret. cbn [negb].
  change (node_at (m_table t) 0) with (node 0%nat 0%nat). change 0 with (place 0%nat 0%nat) at 1.
  pose proof (walk_answer (split_path path) 0 0 root w Hroot) as Hw.
  destruct (answer run_middleware (children s) (split_path path) root w) as [w' [[r'|]|e]] eqn:Ha; [| |done].
  - destruct Hw as (k & i & Hi & Hw). rewrite (bind_eq _ _ _ _ _ Hw), (bind_eq _ _ _ _ _ Ha).
    destruct (node_compiled _ _ _ Hi) as (idx & offset & Hidx & Hnode). rewrite Hnode.
    assert (handler_ok (r_handler r')) as Hok.
    { pose proof (reg_handlers _ _ Hreg) as Hh. rewrite Forall_forall in Hh. apply Hh. by apply (elem_of_row k i). }
    rewrite (pool_find_compiled _ _ _ _ _ method Hholds fits_levels Hidx) by done. cbn [compiled fst m_node_mask to_helper b_handlers].
    unfold respond. destruct Hok as (_ & Hmask & _). destruct (Z.eqb_spec (m_handler_mask (r_handler r')) HANDLER_MASK) as [He|He]; case_bool_decide as Hb; rewrite <- Hmask in Hb; done.
  - by rewrite (bind_eq _ _ _ _ _ Hw), (bind_eq _ _ _ _ _ Ha).
Qed.

End Walk.
End Table.

(** ** The tree of routes *)

(** A route with those below it, and the siblings registered after it. *)
Inductive forest := FNil | FCons (r : Route) (below rest : forest).

(** The routes in the order of registration. *)
Fixpoint preorder (f : forest) : list Route :=
  match f with FNil => [] | FCons r sub rest => r :: preorder sub ++ preorder rest end.

Fixpoint branches (f : forest) : list (Route * forest) :=
  match f with FNil => [] | FCons r sub rest => (r, sub) :: branches rest end.

Definition roots (f : forest) : list Route := fst <$> branches f.

Definition numbers (f : forest) : list Z := m_router_number <$> routers (preorder f).

(** The numbers and counts of the routes are those of the tree; [n] is the number above it. *)
Fixpoint shaped (n : Z) (f : forest) : Prop :=
  match f with
  | FNil => True
  | FCons r sub rest =>
      m_base_router r = n /\ m_child_routes r = Z.of_nat (length (roots sub)) /\ shaped (m_router_number r) sub /\ shaped n rest
  end.

(** No two siblings compete. *)
Fixpoint fair (f : forest) : bool :=
  match f with FNil => true | FCons r sub rest => unambiguous route_kind route_literal (roots sub) && fair sub && fair rest end.

Lemma numbers_cons r sub rest :
  numbers (FCons r sub rest) = (if decide (m_child_routes r <> 0) then [m_router_number r] else []) ++ numbers sub ++ numbers rest.
Proof.
  unfold numbers, routers. cbn [preorder]. rewrite filter_cons, filter_app, <- fmap_app.
  by case_decide; [rewrite fmap_cons|].
Qed.

Lemma shaped_leaf r sub : m_child_routes r = Z.of_nat (length (roots sub)) -> m_child_routes r = 0 -> sub = FNil.
Proof. intros Hc Hz. destruct sub; [done|]. cbn in Hc. lia. Qed.

Lemma filter_preorder_other n f m : shaped n f -> m <> n -> m ∉ numbers f -> filter (fun r => m_base_router r = m) (preorder f) = [].
Proof.
  revert n. induction f as [|r sub IHsub rest IHrest]; intros n; [done|]. intros (Hb & Hc & Hs & Hr) Hne Hm.
  rewrite numbers_cons, !not_elem_of_app in Hm. destruct Hm as (Hm & Hms & Hmr). cbn [preorder].
  rewrite filter_cons_False by congruence. rewrite filter_app, (IHrest n) by done. rewrite app_nil_r.
  destruct (decide (m_child_routes r = 0)) as [Hz|Hz]; [by rewrite (shaped_leaf _ _ Hc Hz)|].
  apply (IHsub (m_router_number r)); [done| |done]. rewrite decide_True in Hm by done. set_solver.
Qed.

Lemma filter_preorder_roots n f : shaped n f -> n ∉ numbers f -> filter (fun r => m_base_router r = n) (preorder f) = roots f.
Proof.
  induction f as [|r sub IHsub rest IHrest]; [done|]. intros (Hb & Hc & Hs & Hr) Hm.
  rewrite numbers_cons, !not_elem_of_app in Hm. destruct Hm as (Hm & Hms & Hmr). cbn [preorder].
  rewrite filter_cons_True by done. rewrite filter_app, IHrest by done. cbn. f_equal.
  destruct (decide (m_child_routes r = 0)) as [Hz|Hz]; [by rewrite (shaped_leaf _ _ Hc Hz)|].
  rewrite (filter_preorder_other (m_router_number r)); [done|done| |done]. rewrite decide_True in Hm by done. set_solver.
Qed.

Inductive occurs (r : Route) (sub : forest) : forest -> Prop :=
  | occurs_here rest : occurs r sub (FCons r sub rest)
  | occurs_below r' sub' rest : occurs r sub sub' -> occurs r sub (FCons r' sub' rest)
  | occurs_rest r' sub' rest : occurs r sub rest -> occurs r sub (FCons r' sub' rest).

Lemma elem_of_preorder r f : r ∈ preorder f -> exists sub, occurs r sub f.
Proof.
  induction f as [|r' sub IHsub rest IHrest]; cbn; [by intros ?%not_elem_of_nil|].
  intros [->|[Hr|Hr]%elem_of_app]%elem_of_cons; [eexists; constructor|destruct (IHsub Hr)|destruct (IHrest Hr)];
    eexists; by constructor.
Qed.

Lemma occurs_number r sub f n : shaped n f -> occurs r sub f -> m_child_routes r <> 0 -> m_router_number r ∈ numbers f.
Proof.
  intros Hs Ho Hne. revert n Hs. induction Ho; intros n (_ & _ & Hs & Hr); rewrite numbers_cons, !elem_of_app.
  - left. rewrite decide_True by done. by left.
  - right. left. by eapply IHHo.
  - right. right. by eapply IHHo.
Qed.

Lemma filter_preorder_occurs r sub f n : shaped n f -> n ∉ numbers f -> NoDup (numbers f) -> occurs r sub f ->
  m_child_routes r <> 0 -> filter (fun c => m_base_router c = m_router_number r) (preorder f) = roots sub.
Proof.
  intros Hs Hn Hnd Ho Hne. revert n Hs Hn Hnd. induction Ho as [rest|r' sub' rest Ho IH|r' sub' rest Ho IH];
    intros n (Hb & Hc & Hs & Hr) Hn Hnd; rewrite numbers_cons in Hn, Hnd; rewrite !not_elem_of_app in Hn;
    destruct Hn as (Hn & Hns & Hnr); apply NoDup_app in Hnd as (Hnd1 & Hd1 & Hnd); apply NoDup_app in Hnd as (Hnd2 & Hd2 & Hnd3);
    cbn [preorder].
  - rewrite decide_True in Hn, Hd1 by done. apply not_elem_of_cons in Hn as [Hn _].
    specialize (Hd1 (m_router_number r) ltac:(left)). apply not_elem_of_app in Hd1 as [Hd1 Hd3].
    rewrite filter_cons_False by congruence. rewrite filter_app, (filter_preorder_other n rest), app_nil_r by done.
    by apply filter_preorder_roots.
  - pose proof (occurs_number _ _ _ _ Hs Ho Hne) as Hin.
    assert (m_child_routes r' <> 0) as Hz. { intros Hz. rewrite (shaped_leaf _ _ Hc Hz) in Ho. inversion Ho. }
    rewrite decide_True in Hn, Hd1 by done. specialize (Hd1 (m_router_number r') ltac:(left)). apply not_elem_of_app in Hd1 as [Hd1 _].
    assert (m_router_number r <> n) by (by intros <-).
    rewrite filter_cons_False by congruence. rewrite filter_app, (filter_preorder_other n rest), app_nil_r by auto.
    by apply (IH (m_router_number r')).
  - pose proof (occurs_number _ _ _ _ Hr Ho Hne) as Hin. assert (m_router_number r <> n) by (by intros <-).
    rewrite filter_cons_False by congruence. rewrite filter_app, (IH n) by done.
    destruct (decide (m_child_routes r' = 0)) as [Hz|Hz]; [by rewrite (shaped_leaf _ _ Hc Hz)|].
    rewrite decide_True in Hd1 by done. specialize (Hd1 (m_router_number r') ltac:(left)). apply not_elem_of_app in Hd1 as [_ Hd1].
    rewrite (filter_preorder_other (m_router_number r') sub'); [done|done|by intros Heq; rewrite Heq in Hin|].
    intros Hin'. by apply (Hd2 _ Hin').
Qed.

(** *** Depths *)

(** The row of the routes below number [b], in a forest of row [d]. *)
Fixpoint depth_in (d : nat) (f : forest) (b : Z) : option nat :=
  match f with
  | FNil => None
  | FCons r sub rest =>
      if negb (m_child_routes r =? 0) && (m_router_number r =? b) then Some (S d)
      else match depth_in (S d) sub b with Some k => Some k | None => depth_in d rest b end
  end.

Definition depth_of (f : forest) (b : Z) : nat :=
  if b =? SENTINEL then 0 else if b =? 0 then 1 else default 0%nat (depth_in 1 f b).

(** [depth] is right for the routers of a forest of row [d]. *)
Fixpoint deep (depth : Z -> nat) (d : nat) (f : forest) : Prop :=
  match f with
  | FNil => True
  | FCons r sub rest =>
      (m_child_routes r <> 0 -> depth (m_router_number r) = S d) /\ deep depth (S d) sub /\ deep depth d rest
  end.

Lemma depth_in_numbers d f b : b ∉ numbers f -> depth_in d f b = None.
Proof.
  revert d. induction f as [|r sub IHsub rest IHrest]; intros d; [done|]. rewrite numbers_cons, !not_elem_of_app. cbn [depth_in].
  intros (Hb & Hs & Hr). rewrite IHsub, IHrest by done.
  destruct (Z.eqb_spec (m_child_routes r) 0); [done|]. rewrite decide_True in Hb by done.
  apply not_elem_of_cons in Hb as [Hb _]. by destruct (Z.eqb_spec (m_router_number r) b).
Qed.

Lemma depth_in_deep (depth : Z -> nat) d f : NoDup (numbers f) ->
  (forall b, b ∈ numbers f -> Some (depth b) = depth_in d f b) -> deep depth d f.
Proof.
  revert d. induction f as [|r sub IHsub rest IHrest]; intros d; [done|]. intros Hnd Hd.
  rewrite numbers_cons in Hnd, Hd. apply NoDup_app in Hnd as (_ & H1 & Hnd). apply NoDup_app in Hnd as (Hs & H2 & Hr).
  assert (forall b, b ∈ numbers sub ++ numbers rest -> (negb (m_child_routes r =? 0) && (m_router_number r =? b)) = false) as Hskip.
  { intros b Hb. destruct (Z.eqb_spec (m_child_routes r) 0); [done|]. rewrite decide_True in H1 by done.
    apply Z.eqb_neq. intros <-. by apply (H1 (m_router_number r) ltac:(left)). }
  cbn [deep depth_in] in *. split_and!.
  - intros Hne. specialize (Hd (m_router_number r)). rewrite decide_True in Hd by done. specialize (Hd ltac:(left)).
    destruct (Z.eqb_spec (m_child_routes r) 0); [done|]. rewrite Z.eqb_refl in Hd. by injection Hd.
  - apply IHsub; [done|]. intros b Hb. specialize (Hd b). rewrite Hskip in Hd by (apply elem_of_app; by left).
    specialize (Hd ltac:(apply elem_of_app; right; apply elem_of_app; by left)). destruct (depth_in (S d) sub b); [done|].
    rewrite (depth_in_numbers d rest) in Hd by by apply H2. done.
  - apply IHrest; [done|]. intros b Hb. specialize (Hd b). rewrite Hskip in Hd by (apply elem_of_app; by right).
    specialize (Hd ltac:(apply elem_of_app; right; apply elem_of_app; by right)).
    rewrite (depth_in_numbers (S d) sub) in Hd; [done|]. intros Hb'. by apply (H2 b Hb').
Qed.

Lemma depth_in_Some d f b : b ∈ numbers f -> is_Some (depth_in d f b).
Proof.
  revert d. induction f as [|r sub IHsub rest IHrest]; intros d; [by intros ?%not_elem_of_nil|]. rewrite numbers_cons. cbn [depth_in].
  intros Hb. destruct (negb (m_child_routes r =? 0) && (m_router_number r =? b)) eqn:He; [done|].
  apply elem_of_app in Hb as [Hb|Hb].
  - case_decide as Hz; [|by apply not_elem_of_nil in Hb]. apply list_elem_of_singleton in Hb as ->. rewrite Z.eqb_refl in He.
    destruct (Z.eqb_spec (m_child_routes r) 0); [done|]. done.
  - apply elem_of_app in Hb as [Hb|Hb].
    + by destruct (IHsub (S d) Hb) as [k ->].
    + destruct (depth_in (S d) sub b); [done|]. by apply IHrest.
Qed.

Lemma depth_of_deep f : NoDup (numbers f) -> 0 ∉ numbers f -> SENTINEL ∉ numbers f -> deep (depth_of f) 1 f.
Proof.
  intros Hnd H0 Hs. apply depth_in_deep; [done|]. intros b Hb. unfold depth_of.
  destruct (Z.eqb_spec b SENTINEL) as [->|]; [done|]. destruct (Z.eqb_spec b 0) as [->|]; [done|].
  destruct (depth_in_Some 1 f b Hb) as [k ->]. done.
Qed.

Section Deep.
Variable depth : Z -> nat.

(** The rows of the routes of a forest. *)
Lemma deep_rows d f n : shaped n f -> deep depth d f -> depth n = d -> Forall (fun r => (d <= row_of depth r)%nat) (preorder f).
Proof.
  revert d n. induction f as [|r sub IHsub rest IHrest]; intros d n; [constructor|]. intros (Hb & Hc & Hs & Hr) (Hd & Hds & Hdr) Hn.
  cbn. constructor; [unfold row_of; rewrite Hb; lia|]. apply Forall_app. split; [|by eapply IHrest].
  destruct (decide (m_child_routes r = 0)) as [Hz|Hz]; [rewrite (shaped_leaf _ _ Hc Hz); constructor|].
  eapply Forall_impl; [apply (IHsub (S d) (m_router_number r)); auto|]. cbn. lia.
Qed.

Lemma level_below f d n k : shaped n f -> deep depth d f -> depth n = d -> (k < d)%nat -> level depth (preorder f) k = [].
Proof.
  intros Hs Hd Hn Hk. pose proof (deep_rows d f n Hs Hd Hn) as Hr. induction Hr as [|r l Hr Hl IH]; [done|].
  unfold level. rewrite filter_cons_False by lia. apply IH.
Qed.

Lemma level_cons r l k : level depth (r :: l) k = (if decide (row_of depth r = k) then [r] else []) ++ level depth l k.
Proof. unfold level. rewrite filter_cons. by case_decide. Qed.

Lemma level_roots f d n : shaped n f -> deep depth d f -> depth n = d -> level depth (preorder f) d = roots f.
Proof.
  revert d n. induction f as [|r sub IHsub rest IHrest]; intros d n; [done|]. intros (Hb & Hc & Hs & Hr) (Hd & Hds & Hdr) Hn.
  cbn [preorder]. rewrite level_cons, level_app, (IHrest d n) by done. unfold row_of. rewrite Hb, decide_True by done.
  destruct (decide (m_child_routes r = 0)) as [Hz|Hz]; [by rewrite (shaped_leaf _ _ Hc Hz)|].
  rewrite (level_below sub (S d) (m_router_number r)) by (auto || lia). done.
Qed.

Lemma roots_base f n : shaped n f -> m_base_router <$> roots f = replicate (length (roots f)) n.
Proof.
  induction f as [|r sub _ rest IH]; [done|]. intros (Hb & _ & _ & Hr).
  change (roots (FCons r sub rest)) with (r :: roots rest). rewrite fmap_cons, Hb, IH by done. done.
Qed.

Lemma forest_in_step f d n k : shaped n f -> deep depth d f -> depth n = d -> (d <= k)%nat ->
  m_base_router <$> level depth (preorder f) (S k) = level depth (preorder f) k ≫= expand.
Proof.
  revert d n k. induction f as [|r sub IHsub rest IHrest]; intros d n k; [done|]. intros (Hb & Hc & Hs & Hr) (Hd & Hds & Hdr) Hn Hk.
  cbn [preorder]. rewrite !level_cons, !level_app, !fmap_app, !bind_app. rewrite (IHrest d n k) by done.
  assert (row_of depth r = d) as Hrow by (unfold row_of; congruence).
  rewrite (decide_False (P := row_of depth r = S k)) by lia. cbn [fmap list_fmap app]. rewrite (assoc_L (++)). f_equal.
  destruct (decide (m_child_routes r = 0)) as [Hz|Hz].
  { rewrite (shaped_leaf _ _ Hc Hz). cbn. rewrite app_nil_r. case_decide; [|done]. cbn. unfold expand. by rewrite Hz. }
  case_decide as Hdk.
  - assert (k = d) as -> by congruence. rewrite (level_roots sub (S d) (m_router_number r)), (level_below sub (S d) (m_router_number r)) by (auto || lia).
    rewrite (roots_base _ _ Hs). cbn. rewrite !app_nil_r. unfold expand. rewrite Hc. by rewrite Nat2Z.id.
  - cbn. apply (IHsub (S d) (m_router_number r)); auto. lia.
Qed.

Lemma forest_placed f d n seen : shaped n f -> deep depth d f -> depth n = d ->
  (exists p, p ∈ seen /\ number_of p = n /\ S (row_of depth p) = d) -> placed depth seen (preorder f).
Proof.
  revert d n seen. induction f as [|r sub IHsub rest IHrest]; intros d n seen; [done|]. intros (Hb & Hc & Hs & Hr) (Hd & Hds & Hdr) Hn (p & Hp & Hpn & Hpd).
  cbn [preorder placed]. split.
  { right. exists p. unfold row_of at 1. rewrite Hb. split_and!; [done..|lia]. }
  apply app_placed.
  - destruct (decide (m_child_routes r = 0)) as [Hz|Hz]; [by rewrite (shaped_leaf _ _ Hc Hz)|].
    apply (IHsub (S d) (m_router_number r)); auto. exists r. split; [apply elem_of_app; right; left|].
    unfold number_of, row_of. rewrite Hb, Hn. destruct (Z.eqb_spec (m_child_routes r) 0); done.
  - apply (IHrest d n); auto. exists p. split; [|done]. rewrite !elem_of_app. by do 2 left.
Qed.

Lemma deep_router f d n r : shaped n f -> deep depth d f -> depth n = d -> r ∈ preorder f -> m_child_routes r <> 0 ->
  depth (m_router_number r) = S (row_of depth r).
Proof.
  revert d n. induction f as [|r' sub IHsub rest IHrest]; intros d n; [by intros _ _ _ ?%not_elem_of_nil|].
  intros (Hb & Hc & Hs & Hr) (Hd & Hds & Hdr) Hn Hin Hne. cbn in Hin.
  apply elem_of_cons in Hin as [->|[Hin|Hin]%elem_of_app].
  - unfold row_of. rewrite Hb, Hn. auto.
  - destruct (decide (m_child_routes r' = 0)) as [Hz|Hz].
    { rewrite (shaped_leaf _ _ Hc Hz) in Hin. by apply not_elem_of_nil in Hin. }
    apply (IHsub (S d) (m_router_number r')); auto.
  - apply (IHrest d n); auto.
Qed.

(** A router is followed by its first child, which has another base router. *)
Lemma forest_routers_last f d n l : shaped n f -> deep depth d f -> depth n = d -> routers_last l -> routers_last (preorder f ++ l).
Proof.
  revert d n l. induction f as [|r sub IHsub rest IHrest]; intros d n l; [done|]. intros (Hb & Hc & Hs & Hr) (Hd & Hds & Hdr) Hn Hl.
  cbn [preorder app routers_last]. rewrite <- (assoc_L (++)). split.
  - intros Hne. destruct sub as [|r' sub' rest']; [cbn in Hc; lia|]. cbn. destruct Hs as (Hb' & _).
    rewrite Hb', Hb. intros Heq. specialize (Hd Hne). rewrite Heq in Hd. lia.
  - destruct (decide (m_child_routes r = 0)) as [Hz|Hz]; [rewrite (shaped_leaf _ _ Hc Hz); cbn; by eapply IHrest|].
    apply (IHsub (S d) (m_router_number r)); auto. by eapply IHrest.
Qed.

End Deep.

(** ** The table of a tree *)

Definition root_of (f : forest) : Route := update_child_routes (Z.of_nat (length (roots f))) root_route.

(** What [RouteBuilder::build] compiles. *)
Definition table_routes (f : forest) : list Route := root_of f :: fallback_route :: preorder f.

(** A walk over the tree: at each segment the middlewares of the chosen branch. *)
Section Dispatch.
Context {W : Type} (run_middleware : M -> W -> W * bool) (run_handler : H -> step W unit) (publish : Published -> W -> W).

Fixpoint walk_forest (segments : list text) r (f : forest) : step W (option Route) :=
  match segments with
  | [] => mret (Some r)
  | segment :: segments =>
      match choose (fun b : Route * forest => route_kind b.1) (fun b => route_literal b.1) segment (branches f) with
      | None => mret None
      | Some (c, sub) => _ ← chain run_middleware (m_local_middleware c); walk_forest segments c sub
      end
  end.

Definition dispatch (f : forest) (method : Method) (path : text) : step W unit :=
  found ← walk_forest (split_path path) (root_of f) f; respond run_handler publish method found.

End Dispatch.

(** A tree that fits the arrays of the table. *)
Record well_registered (f : forest) : Prop := {
  wr_shaped : shaped 0 f;
  wr_numbers : NoDup (numbers f);
  wr_reserved : 0 ∉ numbers f /\ SENTINEL ∉ numbers f;
  wr_good : Forall good (preorder f);
  wr_handlers : Forall (fun r => handler_ok (r_handler r)) (preorder f);
  wr_size : (length (preorder f) + 2 <= RouterSize)%nat;
  wr_pool : (length (preorder f ≫= (fun r => m_handler (r_handler r))) <= HandlerSize)%nat;
  wr_middlewares : (length (preorder f ≫= m_local_middleware) <= MiddlewareSize)%nat;
  wr_fair : fair f = true;
  wr_unambiguous : unambiguous route_kind route_literal (roots f) = true;
}.

Lemma length_roots f : (length (roots f) <= length (preorder f))%nat.
Proof.
  induction f as [|r sub _ rest IH]; [done|]. change (roots (FCons r sub rest)) with (r :: roots rest).
  cbn. rewrite length_app. lia.
Qed.

Lemma unambiguous_perm l l' : l ≡ₚ l' -> unambiguous route_kind route_literal l = unambiguous route_kind route_literal l'.
Proof.
  assert (forall r l l', l ≡ₚ l' -> forallb (fun b => negb (compete route_kind route_literal r b)) l =
    forallb (fun b => negb (compete route_kind route_literal r b)) l') as Hall.
  { intros r l0 l0' Hp. induction Hp; cbn; [done|by f_equal| |congruence]. by rewrite !andb_assoc, (andb_comm (negb _)). }
  intros Hp. induction Hp as [|r l l' Hp IH|r r' l|l l1 l2 _ IH1 _ IH2]; [done| | |congruence]; cbn.
  - by rewrite IH, (Hall _ _ _ Hp).
  - rewrite (compete_sym _ _ r' r). destruct (compete route_kind route_literal r r'); cbn; [done|].
    destruct (forallb _ l), (forallb _ l); done.
Qed.

Lemma fair_occurs f r sub : fair f = true -> occurs r sub f -> unambiguous route_kind route_literal (roots sub) = true.
Proof.
  intros Hf Ho. induction Ho as [rest|r' sub' rest Ho IH|r' sub' rest Ho IH]; cbn in Hf;
    apply andb_true_iff in Hf as [[Hu Hs]%andb_true_iff Hr]; auto.
Qed.

Section WellRegistered.
Context (f : forest).
Hypothesis Hf : well_registered f.

Lemma roots_small : (length (roots f) <= 254)%nat.
Proof. pose proof (wr_size _ Hf) as Hsize. pose proof (length_roots f). unfold RouterSize in Hsize. lia. Qed.

Lemma root_children : m_child_routes (root_of f) = Z.of_nat (length (roots f)).
Proof. cbn. apply u8_small. pose proof roots_small. unfold is_byte. lia. Qed.

Lemma root_of_good : good (root_of f).
Proof.
  split; [done|done| |done]. rewrite root_children. pose proof roots_small. lia.
Qed.

Lemma fallback_good : good fallback_route.
Proof. split; try done. Qed.

#[local] Notation depth := (depth_of f).

Lemma deep_forest : deep depth 1 f.
Proof. destruct (wr_reserved _ Hf). apply depth_of_deep; [apply (wr_numbers _ Hf)|done..]. Qed.

Lemma base_not_sentinel r : r ∈ preorder f -> m_base_router r <> SENTINEL.
Proof.
  intros Hr He. pose proof (deep_rows depth 1 f 0 (wr_shaped _ Hf) deep_forest eq_refl) as Hd. rewrite Forall_forall in Hd.
  specialize (Hd r Hr). unfold row_of in Hd. rewrite He in Hd. change (depth_of f SENTINEL) with 0%nat in Hd. lia.
Qed.

Lemma table_leveled : leveled depth (table_routes f).
Proof.
  split; [done|done|]. intros r [->|[->|Hr]%elem_of_cons]%elem_of_cons Hne; [done..|].
  by apply (deep_router _ f 1 0); [apply (wr_shaped _ Hf)|apply deep_forest|..].
Qed.

Lemma children_root : children (table_routes f) (root_of f) = roots f.
Proof.
  unfold children. rewrite root_children. destruct (Z.eqb_spec (Z.of_nat (length (roots f))) 0) as [Hz|Hz].
  - symmetry. apply nil_length_inv. lia.
  - unfold table_routes. rewrite !filter_cons_False by done. apply filter_preorder_roots; [apply (wr_shaped _ Hf)|apply (wr_reserved _ Hf)].
Qed.

Lemma children_occurs r sub : occurs r sub f -> r ∈ preorder f -> m_child_routes r = Z.of_nat (length (roots sub)) ->
  children (table_routes f) r = roots sub.
Proof.
  intros Ho Hin Hc. unfold children. destruct (Z.eqb_spec (m_child_routes r) 0) as [Hz|Hz].
  - symmetry. apply nil_length_inv. lia.
  - pose proof (occurs_number _ _ _ _ (wr_shaped _ Hf) Ho Hz) as Hn. destruct (wr_reserved _ Hf) as [H0 Hs].
    unfold table_routes. rewrite !filter_cons_False by (cbn; intros Heq; by rewrite <- Heq in Hn).
    apply (filter_preorder_occurs r sub f 0); try done; [apply (wr_shaped _ Hf)|apply (wr_numbers _ Hf)].
Qed.

Lemma occurs_shaped n g r sub : shaped n g -> occurs r sub g -> m_child_routes r = Z.of_nat (length (roots sub)) /\ r ∈ preorder g.
Proof.
  intros Hs Ho. revert n Hs. induction Ho as [rest|r' sub' rest Ho IH|r' sub' rest Ho IH]; intros n (_ & Hc & Hs & Hr); cbn.
  - split; [done|left].
  - destruct (IH _ Hs). split; [done|]. right. apply elem_of_app. by left.
  - destruct (IH _ Hr). split; [done|]. right. apply elem_of_app. by right.
Qed.

Lemma level_table k :
  level depth (table_routes f) k = (match k with O => [root_of f; fallback_route] | S _ => [] end) ++ level depth (preorder f) k.
Proof.
  assert (row_of depth (root_of f) = 0%nat) as Hr by done. assert (row_of depth fallback_route = 0%nat) as Hb by done.
  unfold table_routes. rewrite !level_cons. destruct k; by repeat case_decide.
Qed.

Lemma table_registered : registered depth (table_routes f).
Proof.
  split.
  - apply table_leveled.
  - constructor; [apply root_of_good|]. constructor; [apply fallback_good|apply (wr_good _ Hf)].
  - unfold routers, table_routes. rewrite filter_cons, (filter_cons_False _ fallback_route) by (intros Hn; by apply Hn).
    case_decide; [|apply (wr_numbers _ Hf)]. rewrite fmap_cons. constructor; [apply (wr_reserved _ Hf)|apply (wr_numbers _ Hf)].
  - split; [by left|]. split; [by left|]. apply (forest_placed _ f 1 0); [apply (wr_shaped _ Hf)|apply deep_forest|done|].
    exists (root_of f). split_and!; [left| |done]. unfold number_of. by case_match.
  - intros [|k].
    + rewrite !level_table. cbn [app].
      rewrite (level_roots _ f 1 0), (level_below _ f 1 0) by (apply (wr_shaped _ Hf) || apply deep_forest || done || lia).
      rewrite (roots_base _ _ (wr_shaped _ Hf)). cbn [mbind list_bind]. unfold expand. rewrite root_children, Nat2Z.id. cbn.
      by rewrite app_nil_r.
    + rewrite !level_table. cbn [app]. apply (forest_in_step _ f 1 0); [apply (wr_shaped _ Hf)|apply deep_forest|done|lia].
  - do 2 (constructor; [apply no_handlers_ok|]). apply (wr_handlers _ Hf).
  - cbn. pose proof (wr_size _ Hf). lia.
  - apply (wr_pool _ Hf).
  - apply (wr_middlewares _ Hf).
  - constructor; [rewrite children_root; apply (wr_unambiguous _ Hf)|]. constructor; [done|]. apply Forall_forall.
    intros r Hr. destruct (elem_of_preorder r f Hr) as [sub Ho]. destruct (occurs_shaped 0 f r sub (wr_shaped _ Hf) Ho) as [Hc _].
    rewrite (children_occurs r sub) by done. eapply fair_occurs; [apply (wr_fair _ Hf)|done].
Qed.

Lemma table_groups : groups (table_routes f) = [root_of f; fallback_route] :: groups (preorder f).
Proof.
  pose proof (groups_concat (preorder f)) as Hc. unfold table_routes. cbn [groups].
  destruct (groups (preorder f)) as [|[|r group] rest] eqn:Hg; [done| |].
  - exfalso. clear -Hg. destruct (preorder f) as [|r l]; [done|]. cbn in Hg. by repeat case_match.
  - assert (m_base_router r <> SENTINEL) as Hne.
    { apply base_not_sentinel. rewrite <- Hc. cbn. left. }
    cbn. destruct (Z.eqb_spec SENTINEL (m_base_router r)); [congruence|]. done.
Qed.

Lemma table_runs : Forall run (groups (table_routes f)).
Proof.
  rewrite table_groups. constructor.
  - split; [exists SENTINEL; repeat constructor|]. unfold routers. rewrite filter_cons, (filter_cons_False _ fallback_route) by (intros Hn; by apply Hn).
    rewrite filter_nil. case_decide; cbn; lia.
  - apply groups_runs. rewrite <- (app_nil_r (preorder f)).
    by apply (forest_routers_last depth f 1 0); [apply (wr_shaped _ Hf)|apply deep_forest|..].
Qed.

End WellRegistered.

(** ** Building *)

(** What [std::ranges::sort] promises. *)
Record sorts (sort : (Route -> Route -> bool) -> list Route -> list Route) : Prop := {
  sorts_permutes less l : sort less l ≡ₚ l;
  sorts_sorted n l : Sorted (fun x y => route_less n y x = false) (sort (route_less n) l);
}.

Lemma registered_sorted (depth : Z -> nat) l l' : registered depth l -> l' ≡ₚ l -> placed depth [] l' -> in_step depth l' -> registered depth l'.
Proof.
  intros [H1 H2 H3 _ _ H6 H7 H8 H9 H10] Hp Hpl Hs. split; try done.
  - eapply leveled_sub; [done|]. intros r. by rewrite Hp.
  - by rewrite Hp.
  - unfold routers in *. by rewrite Hp.
  - by rewrite Hp.
  - by rewrite Hp.
  - by rewrite Hp.
  - by rewrite Hp.
  - rewrite Hp. eapply Forall_impl; [done|]. intros r Hu. cbn in Hu. rewrite <- Hu. apply unambiguous_perm.
    unfold children. case_match; [done|]. by rewrite Hp.
Qed.

Lemma children_perm l l' r : l ≡ₚ l' -> children l r ≡ₚ children l' r.
Proof. intros Hp. unfold children. case_match; [done|]. by rewrite Hp. Qed.

Section Build.
Context (sort : (Route -> Route -> bool) -> list Route -> list Route) (f : forest).
Hypothesis Hsort : sorts sort.
Hypothesis Hf : well_registered f.

#[local] Notation s := (sorted_routes sort (table_routes f)).
#[local] Notation depth := (depth_of f).

Lemma sorted_table : s = root_of f :: fallback_route :: concat (sorted_groups sort (preorder f)).
Proof.
  rewrite sorted_routes_groups. unfold sorted_groups. rewrite table_groups by done. cbn [fmap list_fmap concat].
  assert (sort (route_less (Z.of_nat (length [root_of f; fallback_route]))) [root_of f; fallback_route] = [root_of f; fallback_route]) as ->; [|done].
  pose proof (sorts_permutes _ Hsort (route_less 2) [root_of f; fallback_route]) as Hp. symmetry in Hp.
  pose proof (sorts_sorted _ Hsort 2 [root_of f; fallback_route]) as Hs.
  destruct (Permutation_length_2_inv Hp) as [He|He]; [done|]. exfalso. rewrite He in Hs.
  inversion Hs as [|x l _ Hd]. inversion Hd as [|y l' Hless]. done.
Qed.

Lemma sorted_regrouped : regrouped (groups (table_routes f)) (sorted_groups sort (table_routes f)).
Proof. apply regrouped_sorted; [apply (sorts_permutes _ Hsort)|by apply table_runs]. Qed.

Lemma sorted_perm : s ≡ₚ table_routes f.
Proof. rewrite sorted_routes_groups, <- (regrouped_perm _ _ sorted_regrouped). by rewrite groups_concat. Qed.

Lemma sorted_registered : registered depth s.
Proof.
  pose proof (table_registered f Hf) as Hreg. eapply registered_sorted; [done|apply sorted_perm|..]; rewrite sorted_routes_groups.
  - eapply placed_regrouped; [apply sorted_regrouped|done|]. rewrite groups_concat. apply (reg_placed _ _ Hreg).
  - eapply in_step_regrouped; [apply sorted_regrouped|]. rewrite groups_concat. apply (reg_in_step _ _ Hreg).
Qed.

Lemma build_holds : exists n t,
  build sort (table_routes f) = Ok (t, set_build <$> s) /\ holds (with_offsets (levels depth n s)) t /\
  Forall (fun r => (row_of depth r < n)%nat) s.
Proof.
  pose proof sorted_registered as Hreg.
  destruct (insert_routes_levels depth s [] 0) as (n & Hi & Hn); [apply (reg_leveled _ _ Hreg)|apply (reg_good _ _ Hreg)|constructor|apply (reg_placed _ _ Hreg)|].
  cbn [app] in *. destruct (holds_add_rows (levels depth n s) [] new_route_handler) as (t & Ht & Hh); [apply holds_new|by apply fits_levels|].
  exists n, t. split; [|done]. unfold build. change (@nil (list helper)) with (levels depth 0 []). rewrite Hi. cbn [mbind result_bind].
  rewrite Ht. done.
Qed.

(** A node of the tree, the root included. *)
Definition under r (sub : forest) : Prop := r = root_of f /\ sub = f \/ occurs r sub f.

Lemma occurs_trans g r sub c sub' : occurs r sub g -> occurs c sub' sub -> occurs c sub' g.
Proof. intros Ho Hc. induction Ho; [by apply occurs_below..|by apply occurs_rest]. Qed.

Lemma occurs_branches c sub' sub : (c, sub') ∈ branches sub -> occurs c sub' sub.
Proof.
  induction sub as [|r sub1 _ rest IH]; cbn; [by intros ?%not_elem_of_nil|].
  intros [[= -> ->]|Hin]%elem_of_cons; [constructor|]. by apply occurs_rest, IH.
Qed.

Lemma under_children r sub : under r sub -> children s r ≡ₚ roots sub /\ unambiguous route_kind route_literal (children s r) = true.
Proof.
  intros Hu. assert (children (table_routes f) r = roots sub /\ r ∈ table_routes f) as [<- Hin].
  { destruct Hu as [[-> ->]|Ho]; [split; [by apply children_root|left]|].
    destruct (occurs_shaped 0 f r sub (wr_shaped _ Hf) Ho). split; [by apply children_occurs|]. by do 2 right. }
  split; [apply children_perm, sorted_perm|]. pose proof (reg_unambiguous _ _ sorted_registered) as Hr. rewrite Forall_forall in Hr.
  apply Hr. by rewrite sorted_perm.
Qed.

Lemma answer_forest {W} (run_middleware : M -> W -> W * bool) segments r sub w : under r sub ->
  answer run_middleware (children s) segments r w = walk_forest run_middleware segments r sub w.
Proof.
  revert r sub w. induction segments as [|segment segments IH]; intros r sub w Hu; [done|]. cbn [answer walk_forest].
  destruct (under_children r sub Hu) as [Hp Ha]. rewrite (choose_perm _ _ segment _ _ Ha Hp). unfold roots. rewrite choose_fmap.
  pose proof (choose_chosen (fun b : Route * forest => route_kind b.1) (fun b => route_literal b.1) segment (branches sub)) as Hch.
  destruct (choose _ _ segment (branches sub)) as [[c sub']|]; [|done]. cbn [fmap option_fmap option_map fst].
  assert ((c, sub') ∈ branches sub) as Hin by (inversion Hch; by eapply list_elem_of_lookup_2).
  unfold mbind, step_bind. destruct (chain run_middleware (m_local_middleware c) w) as [w1 [a|e]]; [|done].
  apply IH. right. apply occurs_branches in Hin. destruct Hu as [[-> ->]|Ho]; [done|by eapply occurs_trans].
Qed.

Lemma build_dispatches : exists t, build sort (table_routes f) = Ok (t, set_build <$> s) /\
  forall W (run_middleware : M -> W -> W * bool) run_handler publish method path w,
    match_ run_middleware run_handler publish method path t w = dispatch run_middleware run_handler publish f method path w.
Proof.
  destruct build_holds as (n & t & Ht & Hh & Hn). exists t. split; [done|]. intros W run_middleware run_handler publish method path w.
  rewrite (match_dispatch depth s n sorted_registered Hn run_middleware run_handler publish t Hh (root_of f)).
  - unfold dispatch. pose proof (answer_forest run_middleware (split_path path) (root_of f) f w (or_introl (conj eq_refl eq_refl))) as Ha.
    unfold mbind, step_bind. by rewrite Ha.
  - apply (holds_globals _ _ Hh).
  - rewrite sorted_table. rewrite level_cons. rewrite decide_True by done. done.
Qed.

End Build.

(** ** Registration

    A program nests its calls: a router is made, configured and given its children before it is handed
    to the router above it. *)

Inductive setup := Use (m : M) | On (method : Method) (h : H).

Inductive plan :=
  | PNil
  | PRoute (r : Route) (rest : plan)
  | PRouter (path : text) (conf : list setup) (below rest : plan).

Fixpoint configure (conf : list setup) (q : Router) (ctx : @RouterContext H M) : result (@RouterContext H M) :=
  match conf with
  | [] => Ok ctx
  | Use m :: conf => ctx ← use m q ctx; configure conf q ctx
  | On method h :: conf => ctx ← router_add_handler method h q ctx; configure conf q ctx
  end.

Fixpoint register (parent : option Router) (p : plan) (ctx : @RouterContext H M) : result (@RouterContext H M) :=
  match p with
  | PNil => Ok ctx
  | PRoute r rest =>
      ctx ← match parent with
            | Some q => router_add_route r q ctx
            | None => '(_, ctx) ← context_add_route r ctx; Ok ctx
            end;
      register parent rest ctx
  | PRouter path conf sub rest =>
      '(q, ctx) ← new_router path ctx;
      ctx ← configure conf q ctx;
      ctx ← register (Some q) sub ctx;
      ctx ← match parent with Some p => add_router q p ctx | None => Ok ctx end;
      register parent rest ctx
  end.

(** The tree that a plan describes, below number [n], when the next router number is [c]. *)
Fixpoint configured (conf : list setup) (r : Route) : result Route :=
  match conf with
  | [] => Ok r
  | Use m :: conf => r ← route_add_middleware m r; configured conf r
  | On method h :: conf => r ← route_add_handler method h r; configured conf r
  end.

Definition add_children (k : nat) (r : Route) : Route := update_child_routes (m_child_routes r + Z.of_nat k) r.

Fixpoint tree_of (p : plan) (n c : Z) : result (forest * Z) :=
  match p with
  | PNil => Ok (FNil, c)
  | PRoute r rest => '(f, c) ← tree_of rest n c; Ok (FCons (update_base_router n r) FNil f, c)
  | PRouter path conf sub rest =>
      r ← make_route path;
      r ← configured conf (with_numbers c 0 r);
      '(f1, c1) ← tree_of sub c (c + 1);
      '(f2, c2) ← tree_of rest n c1;
      Ok (FCons (update_base_router n (add_children (length (roots f1)) r)) f1 f2, c2)
  end.

(** The routes of a plan are as their constructor makes them, with handlers and middlewares. *)
Fixpoint fresh (p : plan) : Prop :=
  match p with
  | PNil => True
  | PRoute r rest => m_child_routes r = 0 /\ m_base_router r = 0 /\ fresh rest
  | PRouter _ _ sub rest => fresh sub /\ fresh rest
  end.

Lemma roots_cons r f1 f2 : roots (FCons r f1 f2) = r :: roots f2.
Proof. done. Qed.

Lemma update_route_ok (ctx ctx' : @RouterContext H M) i g :
  update_route i g ctx = Ok ctx' <->
  exists r r', m_routes ctx !! i = Some r /\ g r = Ok r' /\
    ctx' = mkContext (<[i := r']> (m_routes ctx)) (m_base_router_children ctx) (s_global_router_number ctx).
Proof.
  unfold update_route. destruct (m_routes ctx !! i) as [r|]; [|split; [done|by intros (? & ? & ? & _)]].
  rewrite result_bind_Ok. split.
  - intros (r' & Hg & [= <-]). by exists r, r'.
  - intros (r0 & r' & [= <-] & Hg & ->). by exists r'.
Qed.

Lemma configure_ok conf q (ctx ctx' : @RouterContext H M) r :
  m_routes ctx !! router_index q = Some r -> configure conf q ctx = Ok ctx' ->
  exists r', configured conf r = Ok r' /\
    ctx' = mkContext (<[router_index q := r']> (m_routes ctx)) (m_base_router_children ctx) (s_global_router_number ctx).
Proof.
  revert ctx r. induction conf as [|[m|method h] conf IH]; intros ctx r Hr; cbn [configure configured].
  - intros [= <-]. exists r. split; [done|]. rewrite list_insert_id by done. by destruct ctx.
  - unfold use. intros (ctx1 & (r1 & r2 & Hr1 & Hm & ->)%update_route_ok & Hc)%result_bind_Ok.
    rewrite Hr in Hr1. injection Hr1 as <-. rewrite Hm. cbn [mbind result_bind].
    apply IH with (r := r2) in Hc as (r' & Hr' & ->); [|cbn; apply list_lookup_insert_eq; by eapply lookup_lt_Some].
    exists r'. split; [done|]. cbn. by rewrite list_insert_insert_eq.
  - unfold router_add_handler. intros (ctx1 & (r1 & r2 & Hr1 & Hm & ->)%update_route_ok & Hc)%result_bind_Ok.
    rewrite Hr in Hr1. injection Hr1 as <-. rewrite Hm. cbn [mbind result_bind].
    apply IH with (r := r2) in Hc as (r' & Hr' & ->); [|cbn; apply list_lookup_insert_eq; by eapply lookup_lt_Some].
    exists r'. split; [done|]. cbn. by rewrite list_insert_insert_eq.
Qed.

(** Configuration leaves the numbers as they are. *)
Lemma configured_numbers conf r r' : configured conf r = Ok r' ->
  m_router_number r' = m_router_number r /\ m_base_router r' = m_base_router r /\ m_child_routes r' = m_child_routes r.
Proof.
  revert r. induction conf as [|[m|method h] conf IH]; intros r; cbn [configured]; [by intros [= <-]|..];
    intros (r1 & Hr1 & (-> & -> & ->)%IH)%result_bind_Ok.
  - unfold route_add_middleware in Hr1. by apply result_bind_Ok in Hr1 as (l & _ & [= <-]).
  - unfold route_add_handler in Hr1. apply result_bind_Ok in Hr1 as ([h'|] & _ & Hr1); [done|].
    by apply result_bind_Ok in Hr1 as (t & _ & [= <-]).
Qed.

Lemma add_children_add k j r : add_children j (add_children k r) = add_children (k + j) r.
Proof.
  unfold add_children, update_child_routes. cbn. f_equal. unfold wrap. rewrite Zplus_mod_idemp_l. f_equal. lia.
Qed.

Lemma add_children_0 r : is_byte (m_child_routes r) -> add_children 0 r = r.
Proof. intros Hr. unfold add_children, update_child_routes. rewrite Z.add_0_r, u8_small by done. by destruct r. Qed.

Lemma increment_add_children r : increment_child_routes r = add_children 1 r.
Proof. done. Qed.

Lemma add_children_byte k r : is_byte (m_child_routes (add_children k r)).
Proof. apply u8_byte. Qed.

(** Where the children of a registration go. *)
Definition attach (parent : option Router) (k : nat) (routes : list Route) : list Route :=
  match parent with Some q => alter (add_children k) (router_index q) routes | None => routes end.

(** The router that a registration attaches to. *)
Definition attachable (parent : option Router) (n : Z) (routes : list Route) : Prop :=
  match parent with
  | None => n = 0
  | Some q => router_number q = n /\ n <> 0 /\ exists p, routes !! router_index q = Some p /\ is_byte (m_child_routes p)
  end.

(** What a registration does to the context. *)
Record registers (parent : option Router) (n : Z) (ctx ctx' : @RouterContext H M) (f : forest) : Prop := {
  reg_routes : m_routes ctx' = attach parent (length (roots f)) (m_routes ctx) ++ preorder f;
  reg_bound : (length (m_routes ctx') <= RouterSize)%nat;
  reg_base : m_base_router_children ctx' =
    m_base_router_children ctx + (match parent with None => Z.of_nat (length (roots f)) | Some _ => 0 end);
  reg_counter : s_global_router_number ctx <= s_global_router_number ctx';
  reg_shaped : shaped n f;
  reg_fresh b : b ∈ numbers f -> s_global_router_number ctx <= b < s_global_router_number ctx';
  reg_distinct : NoDup (numbers f);
}.

Lemma attach_0 parent n routes : attachable parent n routes -> attach parent 0 routes = routes.
Proof.
  destruct parent as [q|]; [|done]. intros (_ & _ & p & Hp & Hb). cbn.
  rewrite (list_alter_ext _ id routes routes); [by apply list_alter_id| |done].
  intros r Hr. rewrite Hp in Hr. injection Hr as <-. by apply add_children_0.
Qed.

Lemma attach_app parent n k routes l : attachable parent n routes -> attach parent k (routes ++ l) = attach parent k routes ++ l.
Proof.
  destruct parent as [q|]; [|done]. intros (_ & _ & p & Hp%lookup_lt_Some & _). by apply alter_app_l.
Qed.

Lemma attach_attach parent j k routes : attach parent k (attach parent j routes) = attach parent (j + k) routes.
Proof.
  destruct parent as [q|]; [|done]. cbn. rewrite list_alter_alter_eq. apply list_alter_ext; [|done].
  intros r _. apply add_children_add.
Qed.

Lemma length_attach parent k routes : length (attach parent k routes) = length routes.
Proof. destruct parent; [apply length_alter|done]. Qed.

Lemma attachable_attach parent n k routes l : attachable parent n routes -> attachable parent n (attach parent k routes ++ l).
Proof.
  destruct parent as [q|]; [|done]. intros (Hq & Hn & p & Hp & Hb). cbn. split_and!; [done..|].
  exists (add_children k p). split; [|apply add_children_byte].
  rewrite lookup_app_l by (rewrite length_alter; by eapply lookup_lt_Some). by rewrite list_lookup_alter_eq, Hp.
Qed.

(** The registration of one route with those below it. *)
Record adds (parent : option Router) (n : Z) (ctx ctx1 : @RouterContext H M) r (f1 : forest) : Prop := {
  adds_routes : m_routes ctx1 = attach parent 1 (m_routes ctx) ++ r :: preorder f1;
  adds_bound : (length (m_routes ctx1) <= RouterSize)%nat;
  adds_base : m_base_router_children ctx1 = m_base_router_children ctx + (match parent with None => 1 | Some _ => 0 end);
  adds_counter : s_global_router_number ctx <= s_global_router_number ctx1;
  adds_shaped : shaped n (FCons r f1 FNil);
  adds_fresh b : b ∈ numbers (FCons r f1 FNil) -> s_global_router_number ctx <= b < s_global_router_number ctx1;
  adds_distinct : NoDup (numbers (FCons r f1 FNil));
}.

Lemma registers_cons parent n ctx ctx1 ctx' r f1 f2 : attachable parent n (m_routes ctx) ->
  adds parent n ctx ctx1 r f1 -> registers parent n ctx1 ctx' f2 -> registers parent n ctx ctx' (FCons r f1 f2).
Proof.
  intros Ha [A1 A2 A3 A4 (A5 & A5' & A5'' & _) A6 A7] [R1 R2 R3 R4 R5 R6 R7].
  assert (numbers (FCons r f1 f2) = numbers (FCons r f1 FNil) ++ numbers f2) as Hn.
  { rewrite !numbers_cons. change (numbers FNil) with (@nil Z). by rewrite app_nil_r, <- (assoc_L (++)). }
  split; [|done| |lia|done|..]; rewrite ?roots_cons, ?Hn.
  - rewrite R1, A1, (attach_app parent n) by (rewrite <- (app_nil_r (attach parent 1 (m_routes ctx))); by apply attachable_attach).
    rewrite attach_attach. cbn. by rewrite <- (assoc_L (++)).
  - rewrite R3, A3. destruct parent; cbn; lia.
  - intros b [Hb%A6|Hb%R6]%elem_of_app; lia.
  - apply NoDup_app. split; [done|]. split; [|done]. intros b Hb%A6 Hb'%R6. lia.
Qed.

Lemma context_add_route_ok r (ctx ctx' : @RouterContext H M) i : context_add_route r ctx = Ok (i, ctx') ->
  i = length (m_routes ctx) /\ (length (m_routes ctx) < RouterSize)%nat /\
  ctx' = mkContext (m_routes ctx ++ [r])
    (if m_base_router r =? 0 then m_base_router_children ctx + 1 else m_base_router_children ctx) (s_global_router_number ctx).
Proof.
  unfold context_add_route. destruct (Nat.leb_spec RouterSize (length (m_routes ctx))); [done|]. by intros [= <- <-].
Qed.

(** A leaf. *)
Lemma adds_route parent n ctx ctx1 r :
  m_child_routes r = 0 -> m_base_router r = 0 -> attachable parent n (m_routes ctx) ->
  match parent with
  | Some q => router_add_route r q ctx
  | None => '(_, ctx) ← context_add_route r ctx; Ok ctx
  end = Ok ctx1 -> adds parent n ctx ctx1 (update_base_router n r) FNil /\ s_global_router_number ctx1 = s_global_router_number ctx.
Proof.
  intros Hc Hb Ha Hr. assert (numbers (FCons (update_base_router n r) FNil FNil) = []) as Hnum.
  { rewrite numbers_cons. cbn. by rewrite Hc. }
  destruct parent as [q|].
  - destruct Ha as (<- & Hq & p & Hp & Hpb). unfold router_add_route in Hr.
    apply result_bind_Ok in Hr as ([i ctx0] & (-> & Hlt & ->)%context_add_route_ok & Hr).
    apply update_route_ok in Hr as (p' & p'' & Hp' & [= <-] & ->). cbn [m_routes] in Hp'.
    rewrite lookup_app_l in Hp' by by eapply lookup_lt_Some. rewrite Hp in Hp'. injection Hp' as <-.
    split; [|done]. split; rewrite ?Hnum; try (by intros ? ?%not_elem_of_nil); try apply NoDup_nil_2; cbn; try done;
      [|rewrite length_insert, length_app; cbn [length]; unfold RouterSize in *; lia|
       destruct (Z.eqb_spec (router_number q) 0); [done|lia]].
    rewrite insert_app_l by by eapply lookup_lt_Some. f_equal. rewrite list_insert_alter. apply list_alter_ext; [|done].
    intros r' Hr'. rewrite Hp in Hr'. injection Hr' as <-. done.
  - cbn in Ha. subst n. apply result_bind_Ok in Hr as ([i ctx0] & (-> & Hlt & ->)%context_add_route_ok & [= <-]). rewrite Hb.
    assert (update_base_router 0 r = r) as Hu by (unfold update_base_router, with_numbers; rewrite <- Hb; by destruct r).
    rewrite Hu in Hnum |- *.
    split; [|done]. split; rewrite ?Hnum; try (by intros ? ?%not_elem_of_nil); try apply NoDup_nil_2; cbn; try done.
    rewrite length_app. cbn [length]. unfold RouterSize in *. lia.
Qed.

Lemma add_router_ok (q p : Router) (ctx ctx' : @RouterContext H M) before r after pr :
  m_routes ctx = before ++ r :: after -> router_index q = length before -> before !! router_index p = Some pr ->
  0 < m_base_router_children ctx -> add_router q p ctx = Ok ctx' ->
  m_routes ctx' = alter (add_children 1) (router_index p) before ++ update_base_router (router_number p) r :: after /\
  m_base_router_children ctx' = m_base_router_children ctx - 1 /\ s_global_router_number ctx' = s_global_router_number ctx.
Proof.
  intros Hr Hq Hp Hb. unfold add_router.
  intros (ctx1 & (r1 & r2 & Hr1 & [= <-] & ->)%update_route_ok & (p1 & p2 & Hp1 & [= <-] & ->)%update_route_ok)%result_bind_Ok.
  rewrite Hr, Hq, list_lookup_middle in Hr1 by done. injection Hr1 as <-.
  unfold decrement_base_router_children in *. cbn [m_routes m_base_router_children s_global_router_number] in *.
  destruct (Z.ltb_spec 0 (m_base_router_children ctx)); [|lia]. split; [|done].
  rewrite Hr, Hq, insert_app_r_alt, Nat.sub_diag in * by lia. cbn [list_insert insert] in *.
  rewrite lookup_app_l in Hp1 by by eapply lookup_lt_Some. rewrite Hp in Hp1. injection Hp1 as <-.
  rewrite insert_app_l by by eapply lookup_lt_Some. f_equal. rewrite list_insert_alter. apply list_alter_ext; [|done].
  intros x Hx. rewrite Hp in Hx. by injection Hx as <-.
Qed.

(** A router with its children. *)
Lemma adds_router parent n (ctx : @RouterContext H M) path conf r r1 f1 ctx3 ctx4 :
  let c := s_global_router_number ctx in
  let ctx2 := mkContext (m_routes ctx ++ [r1]) (m_base_router_children ctx + 1) (c + 1) in
  let q := mkRouter c (length (m_routes ctx)) in
  1 <= c -> 0 <= m_base_router_children ctx -> attachable parent n (m_routes ctx) ->
  make_route path = Ok r -> configured conf (with_numbers c 0 r) = Ok r1 ->
  registers (Some q) c ctx2 ctx3 f1 ->
  match parent with Some p => add_router q p ctx3 | None => Ok ctx3 end = Ok ctx4 ->
  adds parent n ctx ctx4 (update_base_router n (add_children (length (roots f1)) r1)) f1 /\
  s_global_router_number ctx4 = s_global_router_number ctx3.
Proof.
  intros c ctx2 q Hc1 Hbase Ha Hmake Hconf [R1 R2 R3 R4 R5 R6 R7] Hadd.
  assert (m_child_routes r = 0) as Hr0.
  { unfold make_route in Hmake. destruct (_ || _); [|done]. by injection Hmake as <-. }
  apply configured_numbers in Hconf as (Hnum & Hb & Hch). cbn in Hnum, Hb, Hch. rewrite Hr0 in Hch.
  set (r2 := add_children (length (roots f1)) r1).
  assert (m_routes ctx3 = m_routes ctx ++ r2 :: preorder f1) as Hroutes.
  { rewrite R1. cbn [attach ctx2 q router_index m_routes]. rewrite alter_app_r_alt, Nat.sub_diag by lia. by rewrite <- (assoc_L (++)). }
  assert (m_child_routes r2 = Z.of_nat (length (roots f1))) as Hch2.
  { unfold r2. cbn. rewrite Hch. apply u8_small. rewrite Hroutes, length_app in R2. cbn in R2. pose proof (length_roots f1).
    unfold RouterSize in R2. unfold is_byte. lia. }
  assert (numbers (FCons (update_base_router n r2) f1 FNil) =
    (if decide (m_child_routes r2 <> 0) then [c] else []) ++ numbers f1) as Hnums.
  { rewrite numbers_cons. change (numbers FNil) with (@nil Z). rewrite app_nil_r. cbn [update_base_router with_numbers m_child_routes m_router_number].
    f_equal. assert (m_router_number r2 = c) as -> by done. done. }
  cbn in R3, R4, R6.
  assert (s_global_router_number ctx4 = s_global_router_number ctx3 /\
    m_base_router_children ctx4 = m_base_router_children ctx + (match parent with None => 1 | Some _ => 0 end) /\
    m_routes ctx4 = attach parent 1 (m_routes ctx) ++ update_base_router n r2 :: preorder f1) as (Hg & Hbc & Hr4).
  { destruct parent as [p|]; cbn [attach].
    - destruct Ha as (<- & _ & pr & Hpr & _).
      destruct (add_router_ok q p ctx3 ctx4 (m_routes ctx) r2 (preorder f1) pr) as (? & ? & ?); try done; [lia|].
      split_and!; [done|lia|done].
    - injection Hadd as <-. cbn in Ha. subst n. split_and!; [done|lia|]. rewrite Hroutes. f_equal. f_equal.
      assert (m_base_router r2 = 0) as Hb2 by done. clearbody r2. unfold update_base_router, with_numbers. rewrite <- Hb2. by destruct r2. }
  split; [|done]. split; rewrite ?Hnums.
  - done.
  - rewrite Hr4, length_app, length_attach. rewrite Hroutes, length_app in R2. done.
  - done.
  - rewrite Hg. lia.
  - cbn. split_and!; [done| |by rewrite <- Hnum in R5|done]. done.
  - intros b [Hin|Hin%R6]%elem_of_app; [|lia]. case_decide; [|by apply not_elem_of_nil in Hin].
    apply list_elem_of_singleton in Hin as ->. lia.
  - apply NoDup_app. split_and!; [case_decide; [apply NoDup_singleton|apply NoDup_nil_2]| |done].
    intros b Hin Hin'%R6. case_decide; [|by apply not_elem_of_nil in Hin]. apply list_elem_of_singleton in Hin as ->. lia.
Qed.

Lemma register_registers (pl : plan) parent n (ctx ctx' : @RouterContext H M) :
  fresh pl -> 1 <= s_global_router_number ctx -> 0 <= m_base_router_children ctx -> (length (m_routes ctx) <= RouterSize)%nat ->
  attachable parent n (m_routes ctx) -> register parent pl ctx = Ok ctx' ->
  exists f, tree_of pl n (s_global_router_number ctx) = Ok (f, s_global_router_number ctx') /\ registers parent n ctx ctx' f.
Proof.
  revert parent n ctx ctx'. induction pl as [|r rest IH|path conf sub IHsub rest IH]; intros parent n ctx ctx' Hf Hc Hb Hlen Ha; cbn [register tree_of].
  - intros [= <-]. exists FNil. split; [done|]. split; try done; cbn; rewrite ?app_nil_r.
    + by erewrite attach_0.
    + destruct parent; lia.
    + by intros b ?%not_elem_of_nil.
    + apply NoDup_nil_2.
  - destruct Hf as (Hr & Hrb & Hf). intros (ctx1 & Hadd & Hreg)%result_bind_Ok.
    destruct (adds_route _ n _ _ _ Hr Hrb Ha Hadd) as [Hadds Hg].
    destruct (IH parent n ctx1 ctx') as (f & Ht & Hf'); try done; [lia|rewrite (adds_base _ _ _ _ _ _ Hadds); destruct parent; lia|
      apply (adds_bound _ _ _ _ _ _ Hadds)|rewrite (adds_routes _ _ _ _ _ _ Hadds); by apply attachable_attach|].
    rewrite Hg in Ht. rewrite Ht. eexists. split; [done|]. by eapply registers_cons.
  - destruct Hf as [Hfs Hf]. intros ([q ctx1] & Hnew & (ctx2 & Hconf & (ctx3 & Hsub & (ctx4 & Hadd & Hreg)%result_bind_Ok)%result_bind_Ok)%result_bind_Ok)%result_bind_Ok.
    unfold new_router in Hnew. cbn [get_highest_router_number] in Hnew.
    apply result_bind_Ok in Hnew as (r & Hmake & ([i ctx0] & (-> & Hlt & ->)%context_add_route_ok & [= <- <-])%result_bind_Ok).
    cbn [m_routes] in *. apply configure_ok with (r := with_numbers (s_global_router_number ctx) 0 r) in Hconf as (r1 & Hr1 & ->);
      [|cbn; by apply list_lookup_middle].
    cbn [m_routes router_index s_global_router_number m_base_router_children with_numbers m_base_router] in Hsub.
    rewrite insert_app_r_alt, Nat.sub_diag in Hsub by lia. cbn [insert list_insert] in Hsub. change (0 =? 0) with true in Hsub. cbn iota in Hsub.
    rewrite Hmake. cbn [mbind result_bind]. rewrite Hr1. cbn [mbind result_bind].
    apply configured_numbers in Hr1 as Hnums. cbn in Hnums.
    eapply IHsub in Hsub as (f1 & Ht1 & Hreg1); [|done|cbn; lia|cbn; lia|cbn; rewrite length_app; cbn; unfold RouterSize in *; lia|].
    2:{ split; [done|]. split; [cbn; lia|]. exists r1. split; [cbn; by apply list_lookup_middle|].
        destruct Hnums as (_ & _ & ->). unfold make_route in Hmake. destruct (_ || _); [|done]. injection Hmake as <-. cbn. unfold is_byte. lia. }
    cbn [s_global_router_number router_number] in Ht1. rewrite Ht1. cbn [mbind result_bind].
    destruct (adds_router parent n ctx path conf r r1 f1 ctx3 ctx4 Hc Hb Ha Hmake Hr1 Hreg1 Hadd) as [Hadds Hg].
    destruct (IH parent n ctx4 ctx') as (f & Ht & Hf'); try done; [pose proof (adds_counter _ _ _ _ _ _ Hadds); lia|
      rewrite (adds_base _ _ _ _ _ _ Hadds); destruct parent; lia|apply (adds_bound _ _ _ _ _ _ Hadds)|
      rewrite (adds_routes _ _ _ _ _ _ Hadds); by apply attachable_attach|].
    rewrite Hg in Ht. rewrite Ht. eexists. split; [done|]. by eapply registers_cons.
Qed.

(** ** Registered, built, answered *)

(** What the API does not enforce about the routes themselves: paths that the table can hold, handlers
    and middlewares that fit the pools, siblings that do not compete. *)
Record acceptable (f : forest) : Prop := {
  ac_good : Forall good (preorder f);
  ac_handlers : Forall (fun r => handler_ok (r_handler r)) (preorder f);
  ac_pool : (length (preorder f ≫= (fun r => m_handler (r_handler r))) <= HandlerSize)%nat;
  ac_middlewares : (length (preorder f ≫= m_local_middleware) <= MiddlewareSize)%nat;
  ac_fair : fair f = true;
  ac_unambiguous : unambiguous route_kind route_literal (roots f) = true;
}.

(** A fresh context, when [c] router numbers of the process are in use. *)
Definition context_at (c : Z) : @RouterContext H M := mkContext [blank_route; blank_route] 0 c.

Lemma registered_forest pl c ctx f c' :
  fresh pl -> 1 <= c -> register None pl (context_at c) = Ok ctx -> s_global_router_number ctx <= SENTINEL ->
  tree_of pl 0 c = Ok (f, c') -> acceptable f ->
  well_registered f /\ m_routes ctx = blank_route :: blank_route :: preorder f /\
  m_base_router_children ctx = Z.of_nat (length (roots f)).
Proof.
  intros Hf Hc Hr Hs Ht [? ? ? ? ? ?].
  destruct (register_registers pl None 0 (context_at c) ctx) as (f' & Ht' & [R1 R2 R3 R4 R5 R6 R7]); try done; [cbn; unfold RouterSize; lia|].
  cbn [context_at s_global_router_number m_routes m_base_router_children attach] in *. rewrite Ht in Ht'. injection Ht' as ? ?. subst f' c'.
  split_and!; [|done|lia]. split; try done.
  - split; intros Hin%R6; lia.
  - rewrite R1 in R2. cbn in R2. lia.
Qed.

(** C4: what a program registers is what it gets: when a plan of nested registrations succeeds and its
    routes are acceptable, the compiled table exists, and a request to it runs the middlewares along the
    path and the handler, and publishes the outcome, exactly as a walk over the tree of the plan does -
    for any sort, any hashes and any position of the levels in the table. *)
Theorem build_answers sort (pl : plan) c ctx f c' :
  sorts sort -> fresh pl -> 1 <= c -> register None pl (context_at c) = Ok ctx -> s_global_router_number ctx <= SENTINEL ->
  tree_of pl 0 c = Ok (f, c') -> acceptable f ->
  exists t, build_context sort ctx = Ok t /\
    forall W (run_middleware : M -> W -> W * bool) run_handler publish method path w,
      match_ run_middleware run_handler publish method path t w = dispatch run_middleware run_handler publish f method path w.
Proof.
  intros Hsort Hf Hc Hr Hs Ht Ha. destruct (registered_forest pl c ctx f c' Hf Hc Hr Hs Ht Ha) as (Hw & Hroutes & Hbase).
  destruct (build_dispatches sort f Hsort Hw) as (t & Hb & Hm). exists t. split; [|done].
  unfold build_context. rewrite Hroutes, Hbase. cbn [insert list_insert]. fold (root_of f). fold (table_routes f). by rewrite Hb.
Qed.

(** ** Building twice *)

Lemma insert_built routes table : Forall (fun r => m_is_build r = true) routes -> insert_routes routes table = Ok table.
Proof. intros Hr. induction Hr as [|r routes Hr Hrs IH]; [done|]. cbn. unfold insert_route. by rewrite Hr. Qed.

(** A second [build] of the same context answers an empty table. *)
Theorem second_build_is_empty sort routes t routes' :
  sorts sort -> build sort routes = Ok (t, routes') -> exists routes'', build sort routes' = Ok (new_route_handler, routes'').
Proof.
  intros [Hperm _] Hb. unfold build in Hb. apply result_bind_Ok in Hb as (table & _ & (t' & _ & [= _ <-])%result_bind_Ok).
  unfold build at 1. rewrite insert_built; [by eexists|].
  rewrite sorted_routes_groups. set (l := set_build <$> sorted_routes sort routes).
  assert (Forall (fun r => m_is_build r = true) l) as Hl by (apply Forall_fmap, Forall_true; done).
  assert (concat (sorted_groups sort l) ≡ₚ l) as ->; [|done].
  rewrite <- (groups_concat l) at 2. unfold sorted_groups. induction (groups l) as [|g gs IH]; [done|]. cbn. by rewrite Hperm, IH.
Qed.

(** ** The order of the routes *)

(** The comparison that [std::ranges::sort] is given is a strict weak order. *)
Definition before n (x y : Route) : Prop := route_less n x y = true.

Definition sort_key n r : bool * bool * Z :=
  (bool_decide (r_path r = star), negb (m_base_router r =? SENTINEL), fnv1a (r_path r) mod n).

Lemma route_less_key n x y : route_less n x y =
  match sort_key n x, sort_key n y with
  | (true, _, _), _ => false
  | _, (true, _, _) => true
  | (_, bx, hx), (_, by_, hy) => if negb bx && by_ then true else if negb by_ && bx then false else hx <? hy
  end.
Proof.
  unfold route_less, sort_key. repeat case_bool_decide; [done..|].
  by destruct (m_base_router x =? SENTINEL), (m_base_router y =? SENTINEL).
Qed.

Theorem route_less_strict_weak n :
  (forall x, ~ before n x x) /\ (forall x y z, before n x y -> before n y z -> before n x z) /\
  (forall x y z, before n x z -> before n x y \/ before n y z).
Proof.
  unfold before. split_and!; intros; rewrite ?route_less_key in *.
  - destruct (sort_key n x) as [[[] []] h]; cbn; try done; rewrite Z.ltb_irrefl; done.
  - destruct (sort_key n x) as [[[] []] hx], (sort_key n y) as [[[] []] hy], (sort_key n z) as [[[] []] hz]; cbn in *; try done;
      rewrite ?Z.ltb_lt in *; lia.
  - destruct (sort_key n x) as [[[] []] hx], (sort_key n y) as [[[] []] hy], (sort_key n z) as [[[] []] hz]; cbn in *; try (by auto);
      rewrite ?Z.ltb_lt in *; lia.
Qed.

#[export] Instance route_less_total n : Total (fun x y : Route => route_less n y x = false).
Proof.
  intros x y. destruct (route_less n y x) eqn:Hyx; [|by left]. right. apply not_true_iff_false. intros Hxy.
  destruct (route_less_strict_weak n) as (Hi & Ht & _). apply (Hi x). by apply (Ht x y x).
Qed.

(** The merge sort of the library is such a sort. *)
Definition stable_sort (less : Route -> Route -> bool) (l : list Route) : list Route :=
  @merge_sort Route (fun x y => less y x = false) (fun x y => decide (less y x = false)) l.

Lemma stable_sort_sorts : sorts stable_sort.
Proof. split; [intros; apply merge_sort_Permutation|]. intros n l. unfold stable_sort. apply (Sorted_merge_sort _). Qed.

End Routes.

(** ** Examples *)

Section Examples.

(** What a request does to a log of handlers and outcomes. *)
Inductive logged := Middleware (m : nat) | Handled (h : nat) | Outcome (p : Published).

Definition log_middleware (m : nat) (w : list logged) : list logged * bool := (w ++ [Middleware m], true).
Definition log_handler (h : nat) : step (list logged) unit := modify (fun w => w ++ [Handled h]).
Definition log_outcome (p : Published) (w : list logged) : list logged := w ++ [Outcome p].

Definition request (t : result (@RouteHandler nat nat)) (method : Method) (path : string) : list logged :=
  match t with Ok t => (match_ log_middleware log_handler log_outcome method (chars path) t []).1 | Err _ => [] end.

Definition leaf (path : string) (method : Method) (h : nat) : @Route nat nat :=
  match r ← make_route (chars path); route_add_handler method h r with Ok r => r | Err _ => blank_route end.

(** /api with a middleware, below it /tasks with a handler and a parameter, and /health. *)
Definition sample : @plan nat nat :=
  PRouter (chars "/api") [Use 7%nat]
    (PRouter (chars "/tasks") [On POST 1%nat] (PRoute (leaf "/:name" GET 2) PNil) (PRoute (leaf "/health" GET 3) PNil))
    PNil.

Definition sample_context : @RouterContext nat nat :=
  match register None sample (context_at 1) with Ok ctx => ctx | Err _ => context_at 1 end.

Definition sample_forest : @forest nat nat :=
  match tree_of sample 0 1 with Ok (f, _) => f | Err _ => FNil end.

Lemma leaf_handler_ok method h (t : @Handler nat) : lane method < 8 ->
  match add_handler method h no_handlers with Ok t => t | Err _ => no_handlers end = t -> handler_ok t.
Proof.
  intros Hm. destruct (add_handler method h no_handlers) as [t'|e] eqn:Ha; intros <-; [|apply no_handlers_ok].
  eapply add_handler_ok; [apply no_handlers_ok|done].
Qed.

Lemma sample_acceptable : acceptable sample_forest.
Proof.
  split; try (vm_compute; reflexivity); try (vm_compute; lia).
  - repeat (apply Forall_cons; split; [split; try done; vm_compute; intuition congruence|]). apply Forall_nil; done.
  - apply Forall_cons; split; [apply no_handlers_ok|].
    apply Forall_cons; split; [by apply (leaf_handler_ok POST 1)|].
    apply Forall_cons; split; [by apply (leaf_handler_ok GET 2)|].
    apply Forall_cons; split; [by apply (leaf_handler_ok GET 3)|]. apply Forall_nil; done.
Qed.

Lemma build_answers_witness : exists t, build_context stable_sort sample_context = Ok t /\
  forall method path w,
    match_ log_middleware log_handler log_outcome method path t w =
    dispatch log_middleware log_handler log_outcome sample_forest method path w.
Proof.
  destruct (build_answers stable_sort sample 1 sample_context sample_forest 3) as (t & Ht & Hm).
  - apply stable_sort_sorts.
  - repeat split; vm_compute; reflexivity.
  - lia.
  - vm_compute. reflexivity.
  - vm_compute. discriminate.
  - vm_compute. reflexivity.
  - apply sample_acceptable.
  - exists t. split; [exact Ht|]. intros method path w. apply Hm.
Defined.

Example sample_requests : let t := build_context stable_sort sample_context in
  request t GET "/api/tasks/x" = [Middleware 7; Handled 2; Outcome Completed] /\
  request t POST "//api/tasks/" = [Middleware 7; Handled 1; Outcome Completed] /\
  request t GET "/api/tasks" = [Middleware 7; Outcome MethodNotAllowed] /\
  request t GET "/api/other" = [Middleware 7; Outcome NotFound].
Proof. vm_compute. done. Qed.

(** Two routers made before their children: the sort exchanges the routers, not the rows below them. *)
Definition crossed : result (@RouterContext nat nat) :=
  '(b, ctx) ← new_router (chars "/b") (context_at 1);
  '(a, ctx) ← new_router (chars "/a") ctx;
  ctx ← router_add_route (leaf "/x" GET 1) b ctx;
  router_add_route (leaf "/y" GET 2) a ctx.

(** A route registered below /b answers below /a. *)
Theorem crossed_routers : let t := ctx ← crossed; build_context stable_sort ctx in
  request t GET "/a/x" = [Handled 1; Outcome Completed] /\ request t GET "/b/x" = [Outcome NotFound] /\
  request t GET "/b/y" = [Handled 2; Outcome Completed] /\ request t GET "/a/y" = [Outcome NotFound].
Proof. vm_compute. done. Qed.

(** The hashes that the tests of types.cppm expect. *)
Example fnv1a_tests : fnv1a [] = 5381 /\ fnv1a (chars "a") = 177604 /\ fnv1a (chars "users") = 183638951 /\ fnv1a (chars ":id") = 193366962.
Proof. vm_compute. done. Qed.

End Examples.
