(* ===== verification/EngineRoutes.v ===== *)
(** * The routes of the engine

    Models [register_routes] of src/plugins/manager/engine/src/routes.cppm: what it registers, in its
    order, with the handlers by name.  [serve] builds the table of Router.v with a stable sort and
    answers a request with it; [endpoints] lists the methods and full paths that the registration
    describes, which are the ones that the OpenAPI document names. *)

From Stdlib Require Import ZArith Ascii.
From stdpp Require Import base strings list.
From S2P Require Import Prelude Text HttpTypes Frame Steps Router RouterTable RouterBuild.

Open Scope Z_scope.
#[local] Open Scope string_scope.

(** ** Registration *)

#[local] Notation Routes := (@plan string Empty_set).
#[local] Notation Conf := (@setup string Empty_set).

Definition on (method : Method) (handler : string) : Conf := On method handler.

(** [Route{path}.get(..).put(..)] as a child.  A path or method that the constructor rejects would leave the
    plan one route short; [engine_misroutes] counts the operations and finds all 53. *)
Definition route (path : string) (conf : list Conf) (rest : Routes) : Routes :=
  match r ← make_route (chars path); configured conf r with Ok r => PRoute r rest | Err _ => rest end.

(** [Router(router, path).post(..).add_route(..).add_router(..)]. *)
Definition router (path : string) (conf : list Conf) (children : list (Routes -> Routes)) (rest : Routes) : Routes :=
  PRouter (chars path) conf (foldr (fun child rest => child rest) PNil children) rest.

Definition register_routes : Routes :=
  router "/api" [] [
    router "/v1" [] [
      router "/tasks" [on POST "task.create_definition"] [
        route "/:name" [on GET "task.get_definition"; on PUT "task.update_definition"; on DELETE "task.remove_definition"];
        route "/:name/enqueue" [on POST "task.enqueue_task"];
        route "/:id/result" [on POST "task.submit_result"];
        route "/:id/heartbeat" [on PATCH "task.heartbeat"];
        route "/queue_sizes" [on GET "task.queue_sizes"];
        route "/queue_polldata" [on GET "task.queue_polldata"];
        route "/queue_requeue/:type" [on POST "task.queue_requeue"];
        route "/search" [on POST "search.search_tasks"];
        router "/queue" [] [
          route "/:type" [on GET "task.poll"];
          route "/:type/domain/:domain" [on GET "task.poll_domain"]]];
      router "/workflows" [on POST "wf.create_definition"] [
        route "/:name" [on GET "wf.get_definition"; on PUT "wf.update_definition"; on DELETE "wf.remove_definition"];
        route "/:name/start" [on POST "wf.start_execution"];
        router "/exec" [] [
          route "/:id" [on GET "wf.get_execution"; on DELETE "wf.terminate_execution"];
          route "/:id/pause" [on POST "wf.pause_execution"];
          route "/:id/resume" [on POST "wf.resume_execution"];
          route "/:id/retry" [on POST "wf.retry_execution"];
          route "/:id/restart" [on POST "wf.restart_execution"];
          route "/:id/rerun" [on POST "wf.rerun_execution"];
          route "/:id/signal" [on POST "wf.signal_execution"]];
        router "/bulk" [] [
          route "/pause" [on POST "wf.bulk_pause"];
          route "/resume" [on POST "wf.bulk_resume"];
          route "/retry" [on POST "wf.bulk_retry"];
          route "/restart" [on POST "wf.bulk_restart"];
          route "/terminate" [on POST "wf.bulk_terminate"];
          route "/remove" [on POST "wf.bulk_remove"]]];
      router "/metadata" [] [
        route "/tasks" [on GET "meta.list_task_definitions"];
        route "/workflows" [on GET "meta.list_workflow_definitions"];
        route "/health" [on GET "meta.health_check"]];
      router "/query" [on POST "query.run_query"] [];
      router "/event_handlers" [on GET "events.list_handlers"; on POST "events.create_handler"] [
        route "/:name" [on GET "events.get_handler"; on PUT "events.update_handler"; on DELETE "events.remove_handler"]];
      router "/queue" [] [
        route "/update" [on POST "task.queue_update"]];
      router "/schedules" [on GET "schedules.list_schedules"; on POST "schedules.create_schedule"] [
        route "/:name" [on GET "schedules.get_schedule"; on PUT "schedules.update_schedule"; on DELETE "schedules.remove_schedule"];
        route "/:name/pause" [on POST "schedules.pause_schedule"];
        route "/:name/resume" [on POST "schedules.resume_schedule"];
        route "/:name/next_few_runs" [on GET "schedules.next_few_runs"]];
      router "/admin" [] [
        route "/consistency/:exec_id" [on POST "admin.consistency"];
        route "/config" [on GET "admin.config"]];
      router "/workflow" [] [
        route "/search" [on POST "search.search_workflows"]]]] PNil.

(** ** Requests *)

(** The routes of a plan with their full paths. *)
Definition methods : list Method := [GET; POST; PUT; DELETE; PATCH; HEAD; OPTIONS; CONNECT].

Definition operations (prefix : text) (r : @Route string Empty_set) : list (Method * text * string) :=
  methods ≫= (fun method =>
    match find_handler method (r_handler r) with Ok (Some h) => [(method, (prefix ++ slash :: r_path r)%list, h)] | _ => [] end).

Fixpoint endpoints_of (prefix : text) (p : Routes) : list (Method * text * string) :=
  match p with
  | PNil => []
  | PRoute r rest => (operations prefix r ++ endpoints_of prefix rest)%list
  | PRouter path conf below rest =>
      (match r ← make_route path; configured conf r with
       | Ok r => operations prefix r ++ endpoints_of (prefix ++ slash :: r_path r) below
       | Err _ => []
       end ++ endpoints_of prefix rest)%list
  end.

Definition endpoints : list (Method * text * string) := endpoints_of [] register_routes.

(** A request for a path: each parameter is [value]. *)
Definition instantiate (value path : text) : text :=
  split_path path ≫= (fun segment => slash :: match segment with c :: _ => if eqc c ":" then value else segment | [] => [] end).

Inductive Reply := Handled (handler : string) | Outcome (p : Published) | Undefined.

Definition table : result (@RouteHandler string Empty_set) :=
  ctx ← register None register_routes (context_at 1); build_context stable_sort ctx.

(** The last thing that a request did. *)
Definition serve (method : Method) (path : text) : option Reply :=
  match table with
  | Err _ => None
  | Ok t =>
      let run_middleware (m : Empty_set) (w : option Reply) := (w, true) in
      let run_handler h := modify (fun _ => Some (Handled h)) in
      let publish p (w : option Reply) := match p with Completed => w | _ => Some (Outcome p) end in
      match match_ run_middleware run_handler publish method path t None with
      | (_, Throw (Other UndefinedBehaviour)) => Some Undefined
      | (w, _) => w
      end
  end.

Definition handled (handler : string) (r : option Reply) : bool :=
  match r with Some (Handled h) => String.eqb h handler | _ => false end.

(** The endpoints whose requests do not reach their handler. *)
Definition misrouted (value : string) : list string :=
  endpoints ≫= (fun '(method, path, handler) =>
    if handled handler (serve method (instantiate (chars value) path)) then [] else [handler]).

(** ** What is served *)

(** Of the 53 operations that the engine registers, 31 do not reach their handler in a request whose
    parameters are all "b": a path of several segments below a router is one edge of the table, which no
    segment matches or which matches any one segment, and a parameter hides the literal siblings that the
    probe meets after it. *)
Example engine_misroutes : length endpoints = 53%nat /\
  misrouted "b" =
    ["task.enqueue_task"; "task.submit_result"; "task.heartbeat"; "task.queue_sizes"; "task.queue_polldata";
     "task.queue_requeue"; "search.search_tasks"; "task.poll"; "task.poll_domain"; "wf.start_execution";
     "wf.get_execution"; "wf.terminate_execution"; "wf.pause_execution"; "wf.resume_execution"; "wf.retry_execution";
     "wf.restart_execution"; "wf.rerun_execution"; "wf.signal_execution"; "wf.bulk_pause"; "wf.bulk_resume";
     "wf.bulk_retry"; "wf.bulk_restart"; "wf.bulk_terminate"; "wf.bulk_remove"; "schedules.get_schedule";
     "schedules.update_schedule"; "schedules.remove_schedule"; "schedules.pause_schedule";
     "schedules.resume_schedule"; "schedules.next_few_runs"; "admin.consistency"].
Proof. vm_compute. done. Qed.

(** Which handler a request reaches depends on the hash of the name in its path. *)
Example name_decides :
  serve GET (chars "/api/v1/tasks/b") = Some (Handled "task.get_definition") /\
  serve GET (chars "/api/v1/tasks/a") = Some (Outcome MethodNotAllowed) /\
  serve GET (chars "/api/v1/schedules/b") = Some (Handled "schedules.next_few_runs") /\
  serve GET (chars "/api/v1/schedules/a") = Some (Handled "schedules.get_schedule").
Proof. vm_compute. done. Qed.

(** A method that [parse_method] does not know shifts the mask by more than its width. *)
Example unknown_method_undefined :
  serve (parse_method "FOO") (chars "/api/v1/query") = Some Undefined /\
  serve (parse_method "POST") (chars "/api/v1/query") = Some (Handled "query.run_query").
Proof. vm_compute. done. Qed.
