(* ===== verification/RouterExecutor.v ===== *)
(** * The request executor

    Models src/include/core/router/executor.cppm: [RouterExecutor] queues the requests that the HTTP/2
    thread hands over ([enqueue]) and answers them one at a time on a worker of the contract scheduler
    (Contracts.v): [begin_execute] is [on_execute] up to the release of the queue, [end_execute] what
    follows [match]; other threads enqueue in between.  [scheduled] stands for the contract: the wake
    callback and [shedule] set it, the worker clears it when it calls the handler.  The call of [shedule]
    belongs to the step that releases the queue: the contract does not run again before it returns.

    The theorems: while handlers throw nothing but [std::runtime_error], a request that waits is always
    going to be taken up ([waiting_is_scheduled], [every_request_is_answered]); the first other exception
    leaves [m_executing] set and every later request waits for ever ([executor_stuck]). *)

From Stdlib Require Import ZArith Lia.
From stdpp Require Import base strings list relations.
From S2P Require Import Prelude Text HttpTypes Frame Steps Router.

Section Executor.
Context {H M W : Type}.
Variable run_middleware : M -> W -> W * bool.
Variable run_handler : H -> step W unit.
Variable publish : Published -> W -> W.

(** [res->set_status(NOT_FOUND)] and [send()]. *)
Variable reply_not_found : W -> W.

Record PendingRequest := mkPending { req_method : string; req_path : text }.

Record RouterExecutor := mkExecutor {
  m_pending : list PendingRequest;
  m_executing : bool;
  scheduled : bool;
}.

Definition new_executor : RouterExecutor := mkExecutor [] false false.

Definition is_idle (x : RouterExecutor) : bool := bool_decide (m_pending x = []) && negb (m_executing x).

(** [m_wake] is set before requests arrive. *)
Definition enqueue (p : PendingRequest) (x : RouterExecutor) : RouterExecutor :=
  let was_idle := bool_decide (m_pending x = []) in
  mkExecutor (m_pending x ++ [p]) (m_executing x) (if was_idle && negb (m_executing x) then true else scheduled x).

Definition begin_execute (x : RouterExecutor) : option PendingRequest * RouterExecutor :=
  match m_pending x with
  | [] => (None, mkExecutor [] (m_executing x) false)
  | pending :: rest => (Some pending, mkExecutor rest true false)
  end.

(** [match] inside the try block. *)
Definition answer_request (t : @RouteHandler H M) (pending : PendingRequest) : step W unit := fun w =>
  match match_ run_middleware run_handler publish (parse_method (req_method pending)) (req_path pending) t w with
  | (w, Throw (Other RuntimeError)) => (reply_not_found w, Return tt)
  | r => r
  end.

(** What follows, unless an exception left the handler. *)
Definition end_execute (o : outcome unit) (x : RouterExecutor) : RouterExecutor :=
  match o with
  | Return _ => mkExecutor (m_pending x) false (if bool_decide (m_pending x = []) then scheduled x else true)
  | Throw _ => x
  end.

Definition on_execute (t : @RouteHandler H M) : step (RouterExecutor * W) unit := fun '(x, w) =>
  match begin_execute x with
  | (None, x) => ((x, w), Return tt)
  | (Some pending, x) => let '(w, o) := answer_request t pending w in ((end_execute o x, w), o)
  end.

(** ** Interleavings *)

(** The executor, the request that its worker is at, and those that were answered. *)
Record system := mkSystem { executor : RouterExecutor; current : option PendingRequest; answered : list PendingRequest }.

Inductive event :=
  | Arrive (p : PendingRequest)
  | Begin
  | End (o : outcome unit).

Inductive run : event -> system -> system -> Prop :=
  | run_arrive p x c l : run (Arrive p) (mkSystem x c l) (mkSystem (enqueue p x) c l)
  | run_begin x l c x' : scheduled x = true -> begin_execute x = (c, x') -> run Begin (mkSystem x None l) (mkSystem x' c l)
  | run_end o x p l : run (End o) (mkSystem x (Some p) l) (mkSystem (end_execute o x) None (l ++ [p])).

Definition start : system := mkSystem new_executor None [].

Inductive runs : list event -> system -> Prop :=
  | runs_nil : runs [] start
  | runs_snoc es e s s' : runs es s -> run e s s' -> runs (es ++ [e]) s'.

(** The handlers threw nothing that [on_execute] does not catch. *)
Definition caught (e : event) : Prop := match e with End (Throw _) => False | _ => True end.

Definition arrivals (es : list event) : list PendingRequest := es ≫= (fun e => match e with Arrive p => [p] | _ => [] end).

(** [on_execute] is a beginning and an end with nothing in between. *)
Lemma on_execute_runs t x w x' w' o p rest l : m_pending x = p :: rest -> scheduled x = true ->
  on_execute t (x, w) = ((x', w'), o) ->
  exists s, run Begin (mkSystem x None l) s /\ run (End o) s (mkSystem x' None (l ++ [p])).
Proof.
  intros Hp Hs. unfold on_execute. destruct (begin_execute x) as [c x1] eqn:Hb. pose proof Hb as Hb'.
  unfold begin_execute in Hb'. rewrite Hp in Hb'. injection Hb' as <- <-.
  destruct (answer_request t p w) as [w1 o1]. intros [= <- <- <-]. eexists. split; [by econstructor|constructor].
Qed.

Definition consistent (s : system) : Prop :=
  m_executing (executor s) = bool_decide (current s <> None) /\
  (current s <> None -> scheduled (executor s) = false) /\
  (current s = None -> m_pending (executor s) <> [] -> scheduled (executor s) = true).

Lemma runs_consistent es s : runs es s -> Forall caught es -> consistent s.
Proof.
  intros Hr. induction Hr as [|es e s s' Hr IH Hstep]; [by intros _; split_and!|]. intros [Hes He]%Forall_app. apply Forall_cons in He as [He _].
  specialize (IH Hes). destruct IH as (Hx & Hc & Hn). destruct Hstep as [p x c l|x l c x' Hs Hb|o x p l]; cbn in *.
  - unfold consistent, enqueue; cbn. rewrite Hx. case_bool_decide as Hcur; cbn.
    + rewrite andb_false_r. split_and!; [done|done|]. intros ->. done.
    + split_and!; [done|intros ?; done|]. intros _ _. rewrite andb_true_r. case_bool_decide; [done|]. apply Hn; [|done].
      destruct c; [|done]. by destruct Hcur.
  - unfold begin_execute in Hb. destruct (m_pending x) as [|q rest]; injection Hb as <- <-; unfold consistent; cbn; done.
  - destruct o; [|done]. unfold consistent; cbn. split_and!; [done|done|]. intros _ Hp. by case_bool_decide.
Qed.

(** C20: a request that waits is going to be taken up: when no request is being answered and some wait,
    the contract is scheduled, whatever the order of arrivals and executions. *)
Theorem waiting_is_scheduled es s :
  runs es s -> Forall caught es -> current s = None -> m_pending (executor s) <> [] -> scheduled (executor s) = true.
Proof. intros Hr Hc Hn Hp. by apply (runs_consistent es s Hr Hc). Qed.

(** Every request is taken up once, in the order of arrival. *)
Theorem every_request_is_answered es s : runs es s ->
  arrivals es = answered s ++ option_list (current s) ++ m_pending (executor s).
Proof.
  intros Hr. induction Hr as [|es e s s' Hr IH Hstep]; [done|]. unfold arrivals in *. rewrite bind_app, IH. clear IH.
  destruct Hstep as [p x c l|x l c x' Hs Hb|o x p l]; cbn.
  - by rewrite <- !(assoc_L (++)).
  - unfold begin_execute in Hb. destruct (m_pending x) as [|q rest]; injection Hb as <- <-; cbn; by rewrite ?app_nil_r.
  - rewrite app_nil_r. destruct o; cbn; by rewrite <- (assoc_L (++)).
Qed.

(** ** An exception of another type *)

Inductive continues : system -> list event -> system -> Prop :=
  | continues_nil s : continues s [] s
  | continues_snoc s es e s' s'' : continues s es s' -> run e s' s'' -> continues s (es ++ [e]) s''.

(** after an exception that is not a [std::runtime_error] the executor is stuck: [m_executing] stays
    set, so no arrival wakes the worker again and nothing more is answered. *)
Theorem executor_stuck es s e s1 es' s' :
  runs es s -> Forall caught es -> run (End (Throw e)) s s1 -> continues s1 es' s' ->
  answered s' = answered s1 /\ current s' = None /\ scheduled (executor s') = false /\
  m_pending (executor s') = m_pending (executor s1) ++ arrivals es'.
Proof.
  intros Hr Hc Hthrow Hcont. destruct (runs_consistent es s Hr Hc) as (Hx & Hs & _). inversion Hthrow as [| |o x p l]; subst. cbn in *.
  specialize (Hs ltac:(done)).
  assert (answered s' = l ++ [p] /\ current s' = None /\ scheduled (executor s') = false /\ m_executing (executor s') = true /\
    m_pending (executor s') = m_pending x ++ arrivals es') as (? & ? & ? & _ & ?); [|done].
  clear Hthrow. remember (mkSystem x None (l ++ [p])) as s1 eqn:Heq. induction Hcont as [s0|s0 es' ev s2 s3 Hcont IH Hstep]; subst s0.
  { cbn. by rewrite app_nil_r. }
  destruct (IH eq_refl) as (Ha & Hcur & Hsch & Hex & Hp). inversion Hstep as [q x0 c0 l0|x0 l0 c0 x' Hs' Hb|o x0 p0 l0]; subst; cbn in *; try done.
  - unfold enqueue, arrivals in *. cbn. rewrite Hex, andb_false_r, bind_app, Hp. cbn. split_and!; try done. by rewrite <- (assoc_L (++)).
  - congruence.
Qed.

End Executor.

(** A second request arrives while the first is answered. *)
Lemma waiting_is_scheduled_witness :
  exists s, runs [Arrive (mkPending "GET" []); Begin; Arrive (mkPending "PUT" []); End (Return tt)] s /\
    scheduled (executor s) = true.
Proof.
  eexists. assert (runs [Arrive (mkPending "GET" []); Begin; Arrive (mkPending "PUT" []); End (Return tt)]
    (mkSystem (mkExecutor [mkPending "PUT" []] false true) None [mkPending "GET" []])) as Hr.
  { apply (runs_snoc [Arrive (mkPending "GET" []); Begin; Arrive (mkPending "PUT" []) ] _
      (mkSystem (mkExecutor [mkPending "PUT" []] true false) (Some (mkPending "GET" [])) [])); [|constructor].
    apply (runs_snoc [Arrive (mkPending "GET" []); Begin] _
      (mkSystem (mkExecutor [] true false) (Some (mkPending "GET" [])) [])); [|constructor].
    apply (runs_snoc [Arrive (mkPending "GET" [])] _
      (mkSystem (mkExecutor [mkPending "GET" []] false true) None [])); [|by constructor].
    apply (runs_snoc [] _ start); constructor. }
  split; [exact Hr|]. apply (waiting_is_scheduled _ _ Hr); [repeat constructor|reflexivity|discriminate].
Defined.
